(* ===== verification/_CoqProject ===== *)
-Q . S2P
Prelude.v
PyNum.v
PyValue.v
JobMetadata.v
PyNumFacts.v
PyTime.v
PyTimeFacts.v
PyText.v
QueryDsl.v
QueryLexer.v
PyTextFacts.v
QueryTyping.v
QueryRoundtrip.v
QueryProperties.v
FilterSpec.v
PyWire.v
FilterEval.v
ResourceQuery.v
ResourceQueryFacts.v
ResourceQueryMeaning.v
ResourceQueryVocabulary.v
ResourceQueryProperties.v
PyJson.v
Negotiation.v
ScalarPolicies.v
EscrowGuards.v
NegotiationFacts.v
NegotiationChains.v
EscrowSchemas.v
SellerRound.v
SellerRoundFacts.v
NegotiationProperties.v
BuyerTerms.v
BuyerNegotiation.v
BuyerProperties.v
BuyerDemo.v
PoolDeclarations.v
PoolDeclarationFacts.v
LedgerTypes.v
LedgerMatching.v
Ledger.v
LedgerLifecycle.v
LedgerRegistry.v
LedgerSpec.v
LedgerAdmission.v
LedgerTrack.v
LedgerRefinement.v
LedgerCapacity.v
LedgerHistory.v
LedgerProperties.v
Backoff.v
SettlementJournal.v
SettlementRuntime.v
SettlementRuntimeProperties.v
Settlement.v
SettlementFacts.v
SettlementClaims.v
SettlementProperties.v
Sessions.v
RoundRobin.v
Scheduler.v
SchedulerFacts.v
SchedulerProperties.v
Release.v
ReleaseProperties.v
CompositionDemo.v
Fulfillment.v
FulfillmentFacts.v
FulfillmentProperties.v
Convergence.v
ConvergenceFacts.v
ConvergenceProperties.v
ConvergenceLiveness.v
SiteHistory.v
TimerGate.v
ReleaseOutbox.v
LeaseLifecycle.v
LeaseFacts.v
LeaseAnnouncements.v
LeaseProperties.v
