(* ===== verification/Prelude.v ===== *)
(** * The compute market, verified

    A market of compute.  A seller's site holds capacity, sells leases on it,
    has them fulfilled by a provisioning provider, and gets the capacity back.
    A registry lists what sellers offer; a buyer queries it and negotiates with
    a seller, round by round, an agreement a settlement mechanism then carries.
    This library models the code that decides those things and proves what it
    promises.

    ** The program's parts and how they interact

    - The site ledger (src/kit/site) keeps resources, capacity definitions,
      holds and reservations in SQL tables.  It admits a claim against what is
      left over a time window, commits and assigns it, and drives a reservation
      through [reserved], [leased], [releasing] and the terminal states.
    - Resource pools (src/kit/resource-pools-contracts, src/kit/resource-pools)
      group resources; free-form policy tags say what a pool delivers.
    - The settlement aggregate (src/kit/fulfillment) has one row per reservation
      with a transition table and worker claims.  The scheduler picks a resource
      for it round-robin and rebinds the ledger's reservation in the same
      transaction; the fulfillment orchestrator accepts, prepares, dispatches
      and tears down through a provider adapter.
    - The convergence watchdog (src/provisioning/compute/service) claims
      aggregates with an exponential backoff, calls the provider with no
      transaction open, and applies outcomes under its claim.
    - The lease lifecycle (src/provisioning/compute) ends leases: on expiry or
      command it asks the fulfillment aggregate for a decision, tears down,
      frees the capacity through the ledger under a guard that demands proof,
      and announces the release through an outbox.
    - The query language (src/core/src/market_core/query_dsl.py) is what a buyer
      writes.  The registry client compiles a query against the vocabulary the
      registry serves into request parameters, and the registry
      (src/core/registry, api/filter_spec.py and api/filter_eval.py) turns the
      parameters into criteria it evaluates on stored listings.
    - Negotiation policies (src/kit/policy) are chains of guards and deciders
      over a transcript of proposals.  A VM seller's round
      (src/domains/vms/negotiation) composes a default chain with the listing's
      reference amount and the escrow schemas of src/kit/alkahest; a buyer's
      loop (src/core/buyer, negotiation_client.py) runs its chain against a
      seller's replies and checks the Agreement it is given.
    - The settlement runtime (src/kit/settlement-runtime) carries out an
      Agreement's obligations: a journal of obligations and leased operations
      (sqlite_repository.py), handlers that reserve an operation, ask a
      mechanism's client and record what came of it (runtime.py), and a worker
      that sweeps what is due (servicing.py).

    ** Files

    Foundations.  [Prelude]: errors, the [result] and state monads, keyed-row
    lists, the [wp] calculus and its tactics.  [PyNum], [PyValue], [PyTime]
    ([PyNumFacts], [PyTimeFacts]), [PyText] ([PyTextFacts]), [PyWire], [PyJson]:
    Python's decimals, floats, JSON values, datetimes, literals as text, wire
    text and [json.loads], as far as the sources use them.

    Query language.  [QueryDsl] (query_dsl.py), [QueryLexer], [QueryTyping],
    [QueryRoundtrip], [QueryProperties]: parsing ends and points into its
    source, validation decides typing, canonical renderings read back.

    Registry.  [FilterSpec] (filter_spec.py: the loader's checks and its cycle
    search), [FilterEval] (filter_eval.py), [ResourceQuery] (the client's
    models.py and query.py), [ResourceQueryFacts], [ResourceQueryMeaning],
    [ResourceQueryVocabulary], [ResourceQueryProperties]: the criteria a
    compiled query becomes exclude exactly the listings the query excludes.

    Negotiation.  [Negotiation] (negotiation_middleware.py, listing_source.py),
    [ScalarPolicies] and [EscrowGuards] (scalar_policies.py), [EscrowSchemas]
    (alkahest/schemas.py), [SellerRound] (policies.py, storefront_round.py,
    pricing.py); [NegotiationFacts], [NegotiationChains], [SellerRoundFacts] and
    [NegotiationProperties]: what each guard lets through, what each decider may
    decide, when dialogues end, what a seller's default round accepts.  A
    listing is state: the opening guard updates its accepted escrows in place,
    and contexts carry it from one middleware to the next.

    Buyer.  [BuyerTerms] and [BuyerNegotiation] (negotiation_client.py),
    [BuyerProperties], [BuyerDemo]: the loop is bounded, a default chain never
    says it accepts more than its ceiling, and an agreed outcome was checked
    against the seller's Agreement.

    Pools.  [PoolDeclarations] (hints.py, backing.py, vocabulary.py,
    host_requirement.py) and [PoolDeclarationFacts]: what a resolved pool
    delivers, bounds of the hold cap and where it overflows.

    Site ledger.  [LedgerTypes] (tables of db.py, sessions), [LedgerMatching]
    (module functions of ledger.py), [Ledger], [LedgerLifecycle],
    [LedgerRegistry] (the methods of CapacityLedgerService).  Its specification
    is the step relation of [LedgerSpec]; [LedgerTrack] and [LedgerRefinement]
    show each method performs only such steps, [LedgerAdmission],
    [LedgerCapacity] and [LedgerHistory] what the steps keep, and
    [LedgerProperties] what that means for any history of calls: no
    overcommitment, the reservation state machine, well-formed tables, fixed
    terms, append-only feeds.

    Settlement.  [Settlement] (db.py, transitions.py, settlement_types.py,
    settlement_repository.py), [SettlementFacts], [SettlementClaims],
    [SettlementProperties]: the record's lifecycle, exclusive claims in order,
    diagnostics that match them.  The class of settlement tables in
    [SettlementFacts] is the interface by which the ledger's composition offers
    those tables; scheduler, guard and fulfillment are written against it.
    [RoundRobin] and [Scheduler] (round_robin_policy.py, scheduler.py,
    scheduling_persistence.py), [SchedulerFacts], [SchedulerProperties]: a
    fresh schedule is sound, a failed one changes nothing, a request only
    narrows.  [Sessions] joins both databases in one transaction.

    Fulfillment.  [JobMetadata] (job_fulfillment.py's models), [Backoff],
    [Fulfillment] (fulfillment.py, fulfillment_persistence.py),
    [FulfillmentFacts], [FulfillmentProperties]: acceptance is durable before
    dispatch, retries reuse the captured operation, results disclose only what
    is active.  [Convergence] (fulfillment_convergence.py), [ConvergenceFacts],
    [ConvergenceProperties], [ConvergenceLiveness]: outcomes need a live claim,
    failures stay with their record, a finished create becomes active.
    [SiteHistory] composes callers and workers and keeps both databases'
    invariants.  [TimerGate] is the watchdog's timer task as a state machine.

    Settlement runtime.  [SettlementJournal] (models.py, sqlite_repository.py)
    and [SettlementRuntime] (models.py, runtime.py, servicing.py).
    [SettlementRuntimeProperties] first specifies the journal by a step relation
    on the cell of one obligation, its row and its operations' rows, and shows
    every transaction refines it; by induction on histories collection and
    reclaim exclude each other, leases exclude other workers, decisions are
    final, recorded publications and bindings are kept.  It then shows that
    whatever the runtime is asked, and whatever it returns, it only performs
    histories of those transactions, and that a mechanism is asked for an effect
    only while the worker holds it.

    Leases.  [Release] (release.py) and [ReleaseProperties]: capacity returns
    only on proof.  [ReleaseOutbox] (the outbox port as a class, with the
    in-memory and SQL instances), [LeaseLifecycle] (lease_lifecycle.py,
    authority.py, the ports), [LeaseFacts], [LeaseAnnouncements],
    [LeaseProperties]: what requests and cycles come to, and that no release is
    forgotten.

    A Properties file ends with a concrete site, listing or query on which its
    definitions are evaluated and its conditional theorems instantiated;
    [CompositionDemo] and [BuyerDemo] do so for theorems of several files.

    ** How it is modelled

    Code with effects is a function of an explicit world returning a [result]
    and the next world; an exception leaves the writes that precede it, and a
    session discards what it did not commit.  Tables are lists of rows in
    insertion order with a key.  [catch] is [try/except], with the clauses in
    the code's order.  Asynchronous code is modelled between its awaits: an
    awaited call of a provider or port is a step of the whole world, so other
    transactions may commit there; before each transaction of the settlement
    runtime, too, a parameter of the model does what other tasks do meanwhile.  Integers of the sources are unbounded, as
    Python's are; SQL widths are not modelled, and [Decimal] has the 28 digits
    of its default context.  A message exchanged with a seller is appended to
    the log of what was sent, and the seller is any function of that log.

    Interfaces: the outbox and the settlement tables above; [JsonPath] and
    [LifecycleTerms] (what the registry reads of a listing), [Guard] and [Veto]
    (what a middleware of a chain may do), [Readers] (the pydantic models and
    identities a buyer reads).

    Parameters, and never definitions: the clock and identifier sources, the
    provider adapters, pool configuration handlers, hosts' reports, the
    storefront a notifier reaches, [uuid5], [random], JSONPath, signatures and
    the hashes of canonical JSON, and pydantic's coercions beyond the field
    checks written out.

    Recursion is structural but for the following, whose fuel is fixed in the
    definition, each with a lemma that it is enough: number parsing and
    printing (the length of the text or the bit length of the number), the
    query lexer and parser (the length of what is left), [json.loads] (twice
    the length and two), the filter loader's depth-first search (the number of
    declared names) and the buyer's rounds (one turn per round left).  The
    search for a float's shortest decimal stops at 17 digits.

    ** Not modelled

    HTTP controllers and clients, CLIs, configuration, SQL migrations and
    engines, logging, signatures and on-chain clients: they transport, store or
    translate what is decided here.  Of the negotiation code, the discovery of
    middlewares in files and entry points, the dispatch by escrow kind and the
    learned policies.  The publication of listings, the storefront's and the
    buyer's aggregation, the settlement mechanisms' clients, the loop and the
    pause gate of the settlement worker, and the domain packages' adapters decide
    matters of their own that a further development would take up. *)
From stdpp Require Export base tactics option list strings gmap fin_maps.
From Stdlib Require Export ZArith Lia.

(** ** Python exceptions the modelled code raises *)

(** What a failed market query reports besides its message. *)
Record query_error : Type := {
  qe_code : string;
  qe_position : Z;
  qe_field : option string;
  qe_accepted_fields : list string;
}.

Inductive py_error : Type :=
  | ValueError (what : string)
  | TypeError (what : string)
  | OverflowError
  | RuntimeError (what : string)
  | IntegrityError
  | CapacityConflictError (what : string)
  | UnknownPoolError (pool_id : string)
  | UndeclaredOfferingModeError (pools : list string)
  | EffectError (what : string)
  | SettlementEntityNotFoundError (what : string)
  | SettlementRequestMismatchError (what : string)
  | CapacityReservationExpiredError
  | NoEligibleSettlementResourceError (what : string)
  | MissingResourceKindError
  | MissingOfferingModeError
  | FulfillmentConflictError (what : string)
  | InvalidSettlementTransitionError (current target : string)
  | LookupError (what : string)
  | AttributeError (what : string)
  | ProviderNotFoundError (provider : string)
  | ProviderConfigInvalidError (what : string)
  | FulfillmentCreateFailedError (what : string)
  | CompensationRefusedError (what : string)
  | CredentialFetchFailedError (what : string)
  | OperationalError
  | LeaseNotFoundError (lease_id : string)
  | InvalidLeaseStateError (state : string)
  | TeardownRefused (reason message : string)
  | DecimalOverflow
  | QuerySyntaxError (e : query_error)
  | QueryValidationError (e : query_error)
  | FilterParamError (what : string)
  | FilterVocabularyError (what : string)
  | ResourceQueryCompilationError (what : string)
  | NegotiationAmountError (what : string)
  | NegotiationChainExhausted
  | KeyError (what : string)
  | PermissionError (what : string)
  | SettlementManualRequired (what code : string)
  | SettlementOperationConflict (what : string)
  | OutOfFuel.

#[export] Instance query_error_eq_dec : EqDecision query_error.
Proof. solve_decision. Defined.
#[export] Instance py_error_eq_dec : EqDecision py_error.
Proof. solve_decision. Defined.

(** ** Values or an exception *)

Inductive result (A : Type) : Type :=
  | Ok (a : A)
  | Err (e : py_error).
Arguments Ok {A} a.
Arguments Err {A} e.

Definition is_ok {A} (x : result A) : bool := match x with Ok _ => true | Err _ => false end.

#[export] Instance result_ret : MRet result := @Ok.
#[export] Instance result_bind : MBind result := λ A B f m,
  match m with Ok a => f a | Err e => Err e end.
#[export] Instance result_fmap : FMap result := λ A B f m,
  match m with Ok a => Ok (f a) | Err e => Err e end.

Lemma result_bind_Ok {A B} (f : A → result B) (m : result A) b :
  (m ≫= f) = Ok b ↔ ∃ a, m = Ok a ∧ f a = Ok b.
Proof.
  destruct m as [a|e]; split.
  - by exists a.
  - by intros (? & [= <-] & ?).
  - done.
  - by intros (? & ? & ?).
Qed.

(** A list comprehension whose body may raise. *)
Fixpoint mapM_result {A B} (f : A → result B) (l : list A) : result (list B) :=
  match l with
  | [] => Ok []
  | x :: l => y ← f x; ys ← mapM_result f l; Ok (y :: ys)
  end.

(** A [while] loop, [fuel] turns at most: [None] when they were not enough. *)
Section loop.
Context {S : Type} (running : S → bool) (turn : S → result S).

Fixpoint loop (fuel : nat) (s : S) : option (result S) :=
  if running s then
    match fuel with
    | O => None
    | Datatypes.S fuel =>
        match turn s with Ok s' => loop fuel s' | Err e => Some (Err e) end
    end
  else Some (Ok s).

(** A measure every turn lowers is fuel enough. *)
Lemma loop_total (measure : S → nat) (I : S → Prop) :
  (∀ s s', I s → running s = true → turn s = Ok s' → I s' ∧ (measure s' < measure s)%nat) →
  (∀ s, I s → running s = true → (0 < measure s)%nat) →
  ∀ fuel s, I s → (measure s ≤ fuel)%nat → is_Some (loop fuel s).
Proof.
  intros Hturn Hpos fuel. induction fuel as [|fuel IH]; intros s HI Hm; simpl;
    destruct (running s) eqn:Hr; [specialize (Hpos s HI Hr); lia|by eexists| |by eexists].
  destruct (turn s) as [s'|e] eqn:Ht; [|by eexists].
  destruct (Hturn _ _ HI Hr Ht). apply IH; [done|lia].
Qed.

(** An invariant of the turns holds where the loop ends. *)
Lemma loop_invariant (I : S → Prop) :
  (∀ s s', I s → running s = true → turn s = Ok s' → I s') →
  ∀ fuel s s', I s → loop fuel s = Some (Ok s') → I s' ∧ running s' = false.
Proof.
  intros Hturn fuel. induction fuel as [|fuel IH]; intros s s' HI; simpl;
    destruct (running s) eqn:Hr; try done; try (by intros [= <-]).
  destruct (turn s) as [s1|e] eqn:Ht; [|done]. eauto.
Qed.

(** A raising loop raises from one of its turns. *)
Lemma loop_raises (I : S → Prop) :
  (∀ s s', I s → running s = true → turn s = Ok s' → I s') →
  ∀ fuel s e, I s → loop fuel s = Some (Err e) → ∃ s', I s' ∧ running s' = true ∧ turn s' = Err e.
Proof.
  intros Hturn fuel. induction fuel as [|fuel IH]; intros s e HI; simpl;
    destruct (running s) eqn:Hr; try done.
  destruct (turn s) as [s1|e'] eqn:Ht; [eauto|]. intros [= <-]. by exists s.
Qed.

(** Turns of the loop, however much fuel there is. *)
Inductive turns : S → S → Prop :=
  | turns_none s : turns s s
  | turns_one s s' s'' : running s = true → turn s = Ok s' → turns s' s'' → turns s s''.

Lemma turns_trans s s' s'' : turns s s' → turns s' s'' → turns s s''.
Proof. induction 1; eauto using turns. Qed.

Lemma loop_turns fuel s s' :
  is_Some (loop fuel s) → turns s s' → running s' = false → loop fuel s = Some (Ok s').
Proof.
  intros Hsome Hturns Hend. revert fuel Hsome.
  induction Hturns as [s|s s1 s2 Hr Ht _ IH]; intros fuel Hsome.
  - destruct fuel; simpl; by rewrite Hend.
  - destruct fuel as [|fuel]; simpl in *; rewrite Hr in *; [by destruct Hsome|].
    rewrite Ht in *. by apply IH.
Qed.

Lemma loop_after fuel s s' r :
  loop fuel s = Some r → turns s s' → ∃ fuel', loop fuel' s' = Some r.
Proof.
  intros Hl Hturns. revert fuel Hl. induction Hturns as [s|s s1 s2 Hr Ht _ IH]; intros fuel Hl; [by exists fuel|].
  destruct fuel as [|fuel]; simpl in Hl; rewrite Hr in Hl; [done|]. rewrite Ht in Hl. eauto.
Qed.

Lemma loop_turns_Err fuel s s' e :
  is_Some (loop fuel s) → turns s s' → running s' = true → turn s' = Err e →
  loop fuel s = Some (Err e).
Proof.
  intros Hsome Hturns Hrun He. revert fuel Hsome.
  induction Hturns as [s|s s1 s2 Hr Ht _ IH]; intros fuel Hsome;
    (destruct fuel as [|fuel]; simpl in *; rewrite ?Hrun, ?Hr in *; [by destruct Hsome|]).
  - by rewrite He.
  - rewrite Ht in *. by apply IH.
Qed.
End loop.

(** What a loop comes to, running out of fuel being an error of its own. *)
Definition run_loop {S} (r : option (result S)) : result S := default (Err OutOfFuel) r.

(** ** State passing with exceptions

    A method of a stateful service: it reads and writes a state [S] and either
    returns or raises.  An exception keeps the state as it was when raised;
    what a [with] block does about it is modelled where the block is. *)

Definition M (S A : Type) : Type := S → result A * S.

Section monad.
Context {S : Type}.

#[export] Instance M_ret : MRet (M S) := λ A a s, (Ok a, s).
#[export] Instance M_bind : MBind (M S) := λ A B f m s,
  match m s with
  | (Ok a, s') => f a s'
  | (Err e, s') => (Err e, s')
  end.

Definition raise {A} (e : py_error) : M S A := λ s, (Err e, s).
Definition gets {A} (f : S → A) : M S A := λ s, (Ok (f s), s).
Definition modify (f : S → S) : M S unit := λ s, (Ok tt, f s).
Definition lift {A} (r : result A) : M S A := λ s, (r, s).

(** [try: m except: handler(e)]: the handler sees the state as it was when the
    exception was raised. *)
Definition catch {A} (m : M S A) (handler : py_error → M S A) : M S A := λ s,
  match m s with
  | (Ok a, s') => (Ok a, s')
  | (Err e, s') => handler e s'
  end.

(** A [for] statement whose body may write the state or raise. *)
Fixpoint for_each {A} (l : list A) (body : A → M S unit) : M S unit :=
  match l with
  | [] => mret tt
  | x :: l => body x ≫= λ _, for_each l body
  end.

(** *** Weakest preconditions *)

Definition wp {A} (m : M S A) (Q : result A → S → Prop) (s : S) : Prop :=
  Q (m s).1 (m s).2.

Lemma wp_ret {A} (a : A) (Q : result A → S → Prop) s :
  Q (Ok a) s → wp (mret a) Q s.
Proof. done. Qed.

Lemma wp_raise {A} e (Q : result A → S → Prop) s :
  Q (Err e) s → wp (raise e) Q s.
Proof. done. Qed.

Lemma wp_gets {A} (f : S → A) (Q : result A → S → Prop) s :
  Q (Ok (f s)) s → wp (gets f) Q s.
Proof. done. Qed.

Lemma wp_modify f (Q : result unit → S → Prop) s :
  Q (Ok tt) (f s) → wp (modify f) Q s.
Proof. done. Qed.

Lemma wp_lift {A} (r : result A) (Q : result A → S → Prop) s :
  Q r s → wp (lift r) Q s.
Proof. done. Qed.

Lemma wp_bind {A B} (m : M S A) (k : A → M S B) (Q : result B → S → Prop) s :
  wp m (λ r s', match r with
                | Ok a => wp (k a) Q s'
                | Err e => Q (Err e) s'
                end) s →
  wp (m ≫= k) Q s.
Proof.
  unfold wp, mbind, M_bind. by destruct (m s) as [[a|e] s'].
Qed.

Lemma wp_catch {A} (m : M S A) (handler : py_error → M S A) (Q : result A → S → Prop) s :
  wp m (λ r s', match r with
                | Ok a => Q (Ok a) s'
                | Err e => wp (handler e) Q s'
                end) s →
  wp (catch m handler) Q s.
Proof. unfold wp, catch. by destruct (m s) as [[a|e] s']. Qed.

Lemma wp_mono {A} (m : M S A) (Q Q' : result A → S → Prop) s :
  wp m Q s → (∀ r s', Q r s' → Q' r s') → wp m Q' s.
Proof. unfold wp. auto. Qed.

Lemma wp_run {A} (m : M S A) (Q : result A → S → Prop) s r s' :
  wp m Q s → m s = (r, s') → Q r s'.
Proof. unfold wp. intros H Hr. by rewrite Hr in H. Qed.

Lemma wp_snd {A} (m : M S A) (P : S → Prop) s : wp m (λ _ s', P s') s → P (m s).2.
Proof. unfold wp. by destruct (m s). Qed.

Lemma wp_of_run {A} (m : M S A) (Q : result A → S → Prop) s :
  (∀ r s', m s = (r, s') → Q r s') → wp m Q s.
Proof. unfold wp. intros H. apply H. by destruct (m s). Qed.

Lemma bind_run_Ok {A B} (m : M S A) (k : A → M S B) s b s' :
  (m ≫= k) s = (Ok b, s') ↔ ∃ a s1, m s = (Ok a, s1) ∧ k a s1 = (Ok b, s').
Proof.
  unfold mbind, M_bind. destruct (m s) as [[a|e] s1]; naive_solver.
Qed.

(** An invariant carried through a loop whose body keeps it on every exit. *)
Lemma wp_for_each {A} (l : list A) (body : A → M S unit)
    (I : S → Prop) (Q : result unit → S → Prop) s :
  (∀ x s, x ∈ l → I s →
    wp (body x) (λ r s', match r with Ok _ => I s' | Err e => Q (Err e) s' end) s) →
  (∀ s, I s → Q (Ok tt) s) →
  I s → wp (for_each l body) Q s.
Proof.
  revert s. induction l as [|x l IH]; intros s Hbody Hend HI; simpl.
  - by apply wp_ret, Hend.
  - apply wp_bind. eapply wp_mono.
    { apply Hbody; [set_solver|done]. }
    intros [[]|e] s' H; [|done]. apply IH; [|done..].
    intros y s'' ??. apply Hbody; [set_solver|done].
Qed.
End monad.

Arguments wp {S A} m Q s : simpl never.

(** Symbolic execution of a method, one primitive at a time. *)
Ltac wp_step :=
  match goal with
  | |- wp (mret _) _ _ => apply wp_ret
  | |- wp (raise _) _ _ => apply wp_raise
  | |- wp (gets _) _ _ => apply wp_gets
  | |- wp (modify _) _ _ => apply wp_modify
  | |- wp (lift _) _ _ => apply wp_lift
  | |- wp (mbind _ _) _ _ => apply wp_bind
  | |- wp (catch _ _) _ _ => apply wp_catch
  | |- wp (if ?b then _ else _) _ _ => destruct b eqn:?
  | |- wp (match ?x with _ => _ end) _ _ => destruct x eqn:?
  end.

(** ** Filters that keep everything, or nothing *)

Lemma filter_all {A} (P : A → Prop) `{∀ x, Decision (P x)} (l : list A) :
  (∀ x, x ∈ l → P x) → filter P l = l.
Proof.
  induction l as [|x l IH]; intros Hl; [done|].
  rewrite filter_cons_True by (apply Hl; set_solver). f_equal. apply IH. set_solver.
Qed.

Lemma filter_none {A} (P : A → Prop) `{∀ x, Decision (P x)} (l : list A) :
  (∀ x, x ∈ l → ¬ P x) → filter P l = [].
Proof.
  induction l as [|x l IH]; intros Hl; [done|].
  rewrite filter_cons_False by (apply Hl; set_solver). apply IH. set_solver.
Qed.

(** ** Tables keyed by a field *)

Section keyed.
Context {A K : Type} `{!EqDecision K} (key : A → K).

(** The first row with a key, and flushing a changed row. *)
Definition find_by (k : K) (l : list A) : option A :=
  list_find (λ x, key x = k) l ≫= λ p, Some p.2.

Definition replace_by (x : A) (l : list A) : list A :=
  map (λ y, if decide (key y = key x) then x else y) l.

Lemma find_by_Some k l x : find_by k l = Some x → x ∈ l ∧ key x = k.
Proof.
  unfold find_by. rewrite bind_Some. intros ([i y] & Hf & [= <-]).
  apply list_find_Some in Hf as (Hl & ? & _). split; [|done].
  by eapply list_elem_of_lookup_2.
Qed.

Lemma find_by_None k l : find_by k l = None ↔ ∀ x, x ∈ l → key x ≠ k.
Proof.
  unfold find_by. rewrite bind_None. split.
  - intros [H|([i y] & _ & ?)]; [|done]. apply list_find_None in H.
    rewrite Forall_forall in H. auto.
  - intros H. left. apply list_find_None, Forall_forall. auto.
Qed.

Lemma key_inj l x y : NoDup (key <$> l) → x ∈ l → y ∈ l → key x = key y → x = y.
Proof.
  induction l as [|z l IH]; [set_solver|]. rewrite fmap_cons, NoDup_cons.
  intros [Hz Hnd] Hx Hy Heq. rewrite list_elem_of_fmap in Hz.
  apply elem_of_cons in Hx as [->|Hx]; apply elem_of_cons in Hy as [->|Hy]; naive_solver.
Qed.

Lemma find_by_elem l x : NoDup (key <$> l) → x ∈ l → find_by (key x) l = Some x.
Proof.
  intros Hnd Hx. destruct (find_by (key x) l) as [y|] eqn:E.
  - apply find_by_Some in E as [? ?]. f_equal. by eapply key_inj.
  - by eapply find_by_None in E.
Qed.

Lemma find_by_unique l k x : NoDup (key <$> l) → find_by k l = Some x ↔ x ∈ l ∧ key x = k.
Proof.
  intros Hnd. split; [apply find_by_Some|]. intros [? <-]. by apply find_by_elem.
Qed.

Lemma filter_keys_NoDup (P : A → Prop) `{∀ x, Decision (P x)} (l : list A) :
  NoDup (key <$> l) → NoDup (key <$> filter P l).
Proof.
  induction l as [|x l IH]; [done|]. rewrite fmap_cons, NoDup_cons. intros [Hx Hnd].
  rewrite filter_cons. case_decide; [|by apply IH]. rewrite fmap_cons, NoDup_cons.
  split; [|by apply IH]. intros (y & Heq & [_ Hy]%list_elem_of_filter)%list_elem_of_fmap.
  apply Hx. rewrite Heq. by apply list_elem_of_fmap_2.
Qed.

Lemma replace_by_keys x l : key <$> replace_by x l = key <$> l.
Proof.
  unfold replace_by. induction l as [|y l IH]; simpl; [done|]. f_equal; [|done].
  by case_decide.
Qed.

Lemma elem_of_replace_by x l y :
  y ∈ replace_by x l ↔ (y = x ∧ ∃ z, z ∈ l ∧ key z = key x) ∨ (y ∈ l ∧ key y ≠ key x).
Proof.
  unfold replace_by. rewrite list_elem_of_fmap. split.
  - intros (z & -> & Hz). case_decide; naive_solver.
  - intros [[-> (z & Hz & Heq)]|[Hy Hne]].
    + exists z. by rewrite decide_True by done.
    + exists y. by rewrite decide_False by done.
Qed.

Lemma find_by_app_l k l l' x : find_by k l = Some x → find_by k (l ++ l') = Some x.
Proof.
  unfold find_by. induction l as [|y l IH]; [done|]. simpl. case_decide; [done|]. intros Hf.
  destruct (list_find _ l) as [[i z]|] eqn:E; [|done]. simpl in *.
  specialize (IH Hf). by destruct (list_find _ (l ++ l')) as [[]|].
Qed.

Lemma find_by_app_None k l l' : find_by k l = None → find_by k (l ++ l') = find_by k l'.
Proof.
  unfold find_by. induction l as [|y l IH]; [done|]. simpl. case_decide; [done|]. intros Hf.
  destruct (list_find _ l) as [[i z]|]; [done|]. simpl in *. specialize (IH eq_refl).
  destruct (list_find _ (l ++ l')) as [[]|], (list_find _ l') as [[]|]; simpl in *; congruence.
Qed.

Lemma find_by_singleton x : find_by (key x) [x] = Some x.
Proof. unfold find_by. simpl. by rewrite decide_True by done. Qed.

Lemma find_by_app_new x l : find_by (key x) l = None → find_by (key x) (l ++ [x]) = Some x.
Proof. intros H. rewrite find_by_app_None by done. apply find_by_singleton. Qed.

Lemma find_by_app_other k x l : k ≠ key x → find_by k (l ++ [x]) = find_by k l.
Proof.
  intros Hk. destruct (find_by k l) as [y|] eqn:E; [by apply find_by_app_l|].
  rewrite find_by_app_None by done. unfold find_by. simpl. by rewrite decide_False by done.
Qed.

Lemma find_by_replace_ne k x l : k ≠ key x → find_by k (replace_by x l) = find_by k l.
Proof.
  intros Hne. unfold find_by. induction l as [|y l IH]; [done|]. simpl.
  destruct (decide (key y = key x)) as [Heq|Heq].
  - rewrite !decide_False by congruence.
    by destruct (list_find _ (replace_by x l)), (list_find _ l).
  - case_decide; [done|].
    by destruct (list_find _ (replace_by x l)), (list_find _ l).
Qed.

Lemma find_by_replace_eq x l y :
  find_by (key x) l = Some y → find_by (key x) (replace_by x l) = Some x.
Proof.
  unfold find_by. induction l as [|z l IH]; [done|]. simpl.
  destruct (decide (key z = key x)) as [Heq|Heq].
  - by rewrite decide_True by done.
  - rewrite decide_False by done. intros H.
    destruct (list_find _ (replace_by x l)) as [[]|] eqn:E; simpl in *.
    + apply IH. by destruct (list_find _ l).
    + assert (None = Some x) as [=]. apply IH. by destruct (list_find _ l).
Qed.
End keyed.

Arguments find_by {A K _} key k l : simpl never.
Arguments replace_by {A K _} key x l : simpl never.
