(* ===== verification/PyNum.v ===== *)
(** Python numbers: [decimal.Decimal] arithmetic under the default context
    (28 digits, half-even), binary64 floats (the Standard Library's
    [SpecFloat]), the conversions [Decimal(str(x))], [float(d)] and [int(d)],
    and exact comparison between them.  Not modelled: the context's exponent
    limits (amounts here never reach [1E+999999]) and the sign of zero, which
    no comparison or conversion used by the sources observes. *)
From S2P Require Import Prelude.
From Stdlib Require Import SpecFloat.

Local Open Scope Z_scope.

(** ** Decimal *)

Record decimal : Type := Dec { coef : Z; expo : Z }.

#[export] Instance decimal_eq_dec : EqDecision decimal.
Proof. solve_decision. Defined.

Definition dec_of_Z (z : Z) : decimal := Dec z 0.
Definition dec0 : decimal := dec_of_Z 0.

(** The two coefficients at the smaller of the two exponents. *)
Definition aligned (a b : decimal) : Z * Z :=
  let e := Z.min (expo a) (expo b) in
  (coef a * 10 ^ (expo a - e), coef b * 10 ^ (expo b - e)).

Definition dec_cmp (a b : decimal) : comparison :=
  let '(x, y) := aligned a b in x ?= y.
Definition dec_ltb (a b : decimal) : bool :=
  match dec_cmp a b with Lt => true | _ => false end.
Definition dec_eqb (a b : decimal) : bool :=
  match dec_cmp a b with Eq => true | _ => false end.
Definition dec_leb (a b : decimal) : bool := negb (dec_ltb b a).

(** Division rounding half to even, for a positive divisor. *)
Definition div_half_even (n m : Z) : Z :=
  let q := n / m in
  match 2 * (n mod m) ?= m with
  | Lt => q
  | Gt => q + 1
  | Eq => if Z.even q then q else q + 1
  end.

Fixpoint ndigits_fuel (fuel : nat) (n : Z) : Z :=
  match fuel with
  | O => 1
  | S fuel => if n <? 10 then 1 else 1 + ndigits_fuel fuel (n / 10)
  end.

(** Decimal digits of a natural number; one bit of fuel per division by ten. *)
Definition ndigits (n : Z) : Z := ndigits_fuel (S (Z.to_nat (Z.log2 n))) n.

Definition context_prec : Z := 28.

(** Rounding an exact result to the context, as every operator does. *)
Definition dec_fix (d : decimal) : decimal :=
  if Z.abs (coef d) <? 10 ^ context_prec then d
  else
    let k := ndigits (Z.abs (coef d)) - context_prec in
    Dec (Z.sgn (coef d) * div_half_even (Z.abs (coef d)) (10 ^ k)) (expo d + k).

Definition dec_add (a b : decimal) : decimal :=
  let '(x, y) := aligned a b in dec_fix (Dec (x + y) (Z.min (expo a) (expo b))).
Definition dec_sub (a b : decimal) : decimal :=
  let '(x, y) := aligned a b in dec_fix (Dec (x - y) (Z.min (expo a) (expo b))).
Definition dec_neg (a : decimal) : decimal := dec_fix (Dec (- coef a) (expo a)).
Definition dec_max (a b : decimal) : decimal := if dec_ltb a b then b else a.

(** [int(d)]: truncation toward zero. *)
Definition dec_trunc (d : decimal) : Z :=
  if 0 <=? expo d then coef d * 10 ^ expo d else Z.quot (coef d) (10 ^ (- expo d)).

(** ** binary64 *)

Definition float : Type := spec_float.
Definition f_prec : Z := 53.
Definition f_emax : Z := 1024.

Definition float_finite (f : float) : bool :=
  match f with S754_zero _ | S754_finite _ _ _ => true | _ => false end.

(** [n / d] correctly rounded, for a positive [d]. *)
Definition float_of_ratio (n : Z) (d : positive) : float :=
  match n with
  | Z0 => S754_zero false
  | Zpos p => SFdiv f_prec f_emax (S754_finite false p 0) (S754_finite false d 0)
  | Zneg p => SFdiv f_prec f_emax (S754_finite true p 0) (S754_finite false d 0)
  end.

(** [float(d)]. *)
Definition float_of_dec (d : decimal) : float :=
  if 0 <=? expo d then float_of_ratio (coef d * 10 ^ expo d) 1
  else float_of_ratio (coef d) (Z.to_pos (10 ^ (- expo d))).

(** A finite float's exact value as a fraction. *)
Definition float_frac (f : float) : option (Z * Z) :=
  match f with
  | S754_zero _ => Some (0, 1)
  | S754_finite s m e =>
      let n := if s then Zneg m else Zpos m in
      Some (if 0 <=? e then (n * 2 ^ e, 1) else (n, 2 ^ (- e)))
  | _ => None
  end.

(** [int(f)] of a finite float. *)
Definition float_trunc (f : float) : option Z :=
  match float_frac f with Some (n, d) => Some (Z.quot n d) | None => None end.

(** [repr]: the shortest decimal that converts back to the float, and the
    closest one of that length.  [n/d > 0] is the float's value and
    [10^(k-1) <= n/d < 10^k]. *)
Definition shortest_at (f : float) (n d k : Z) (digits : Z) : option decimal :=
  let e := k - digits in
  let '(n', d') := if 0 <=? e then (n, d * 10 ^ e) else (n * 10 ^ (- e), d) in
  let lo := Dec (n' / d') e in
  let hi := Dec (n' / d' + 1) e in
  match SFeqb (float_of_dec lo) f, SFeqb (float_of_dec hi) f with
  | true, true => Some (Dec (div_half_even n' d') e)
  | true, false => Some lo
  | false, true => Some hi
  | false, false => None
  end.

Fixpoint shortest_from (fuel : nat) (f : float) (n d k digits : Z) : decimal :=
  match fuel, shortest_at f n d k digits with
  | _, Some r => r
  | S fuel, None => shortest_from fuel f n d k (digits + 1)
  | O, None => Dec 0 0
  end.

Definition decimal_exponent (n d : Z) : Z :=
  let k := ndigits n - ndigits d in
  let scaled_le :=
    if 0 <=? k then d * 10 ^ k <=? n else d <=? n * 10 ^ (- k) in
  if scaled_le then k + 1 else k.

(** [Decimal(repr(f))] for a finite float; seventeen digits always suffice. *)
Definition dec_of_float (f : float) : option decimal :=
  match f with
  | S754_zero _ => Some dec0
  | S754_finite s m e =>
      let '(n, d) := if 0 <=? e then (Zpos m * 2 ^ e, 1) else (Zpos m, 2 ^ (- e)) in
      let r := shortest_from 17 (S754_finite false m e) n d (decimal_exponent n d) 1 in
      Some (if s then Dec (- coef r) (expo r) else r)
  | _ => None
  end.

(** [float(z)] of an integer: beyond the largest float it raises. *)
Definition float_of_Z (z : Z) : result float :=
  match float_of_ratio z 1 with
  | S754_infinity _ => Err OverflowError
  | f => Ok f
  end.

(** ** A Python number: [int], [float] or [Decimal] *)

Inductive num : Type :=
  | NInt (z : Z)
  | NFloat (f : float)
  | NDec (d : decimal).

#[export] Instance spec_float_eq_dec : EqDecision spec_float.
Proof. solve_decision. Defined.
#[export] Instance num_eq_dec : EqDecision num.
Proof. solve_decision. Defined.

(** Exact value as a fraction with a positive denominator; [None] for an
    infinity or a NaN. *)
Definition num_frac (x : num) : option (Z * Z) :=
  match x with
  | NInt z => Some (z, 1)
  | NFloat f => float_frac f
  | NDec d =>
      Some (if 0 <=? expo d then (coef d * 10 ^ expo d, 1) else (coef d, 10 ^ (- expo d)))
  end.

Definition frac_cmp (a b : Z * Z) : comparison := (a.1 * b.2) ?= (b.1 * a.2).

(** [x < y].  A NaN is below nothing. *)
Definition num_lt (x y : num) : bool :=
  match num_frac x, num_frac y with
  | Some a, Some b => match frac_cmp a b with Lt => true | _ => false end
  | None, Some _ => match x with NFloat (S754_infinity true) => true | _ => false end
  | Some _, None => match y with NFloat (S754_infinity false) => true | _ => false end
  | None, None =>
      match x, y with
      | NFloat (S754_infinity true), NFloat (S754_infinity false) => true
      | _, _ => false
      end
  end.

(** [x == y]. *)
Definition num_eqb (x y : num) : bool :=
  match num_frac x, num_frac y with
  | Some a, Some b => match frac_cmp a b with Eq => true | _ => false end
  | None, None =>
      match x, y with
      | NFloat (S754_infinity s), NFloat (S754_infinity t) => Bool.eqb s t
      | _, _ => false
      end
  | _, _ => false
  end.

(** [Decimal(str(x))]; [None] when the result is not finite. *)
Definition dec_of_num (x : num) : option decimal :=
  match x with
  | NInt z => Some (dec_of_Z z)
  | NFloat f => dec_of_float f
  | NDec d => Some d
  end.

Example repr_tenth :
  dec_of_float (float_of_dec (Dec 1 (-1))) = Some (Dec 1 (-1)).
Proof. vm_compute. reflexivity. Qed.
Example repr_third :
  dec_of_float (float_of_ratio 1 3) = Some (Dec 3333333333333333 (-16)).
Proof. vm_compute. reflexivity. Qed.
Example repr_power_of_two_boundary :
  dec_of_float (S754_finite false (2 ^ 52) (-96)) = Some (Dec 5684341886080802 (-29)).
Proof. vm_compute. reflexivity. Qed.
Example repr_large : dec_eqb (default dec0 (dec_of_float (float_of_ratio (10 ^ 23) 1))) (Dec 1 23) = true.
Proof. vm_compute. reflexivity. Qed.
