(* ===== verification/PyValue.v ===== *)
(** JSON-shaped Python values, truthiness and [==], and the string operations
    the sources use: [str.strip], [int(str)] and [Decimal(str)].  A string is its
    UTF-8 encoding; whitespace and decimal digits are those of Unicode. *)
From S2P Require Import Prelude PyNum.
From Stdlib Require Import Ascii SpecFloat Sorted.

Local Open Scope Z_scope.

(** A value [json.loads] can produce.  A [dict] keeps insertion order and its
    keys are distinct. *)
Inductive value : Type :=
  | VNone
  | VBool (b : bool)
  | VNum (n : num)
  | VStr (s : string)
  | VList (l : list value)
  | VDict (d : list (string * value)).

Abbreviation dict := (list (string * value)).
Abbreviation VInt z := (VNum (NInt z)).

Fixpoint alist_get {A} (k : string) (d : list (string * A)) : option A :=
  match d with
  | [] => None
  | (k', x) :: d => if decide (k = k') then Some x else alist_get k d
  end.

(** [d.get(k)], and [k in d]. *)
Definition dict_get (k : string) (d : dict) : value := default VNone (alist_get k d).
Definition dict_has (k : string) (d : dict) : bool :=
  match alist_get k d with Some _ => true | None => false end.

(** [d[k] = x]: an existing key keeps its place. *)
Fixpoint dict_set (k : string) (x : value) (d : dict) : dict :=
  match d with
  | [] => [(k, x)]
  | (k', y) :: d => if decide (k = k') then (k', x) :: d else (k', y) :: dict_set k x d
  end.

(** [d.update(d')]. *)
Definition dict_update (d d' : dict) : dict :=
  fold_left (λ acc kv, dict_set kv.1 kv.2 acc) d' d.

(** The number a value is, a [bool] being an [int]. *)
Definition as_num (v : value) : option num :=
  match v with
  | VNum n => Some n
  | VBool b => Some (NInt (if b then 1 else 0))
  | _ => None
  end.

(** [a == b]. *)
Fixpoint py_eq (a b : value) : bool :=
  match a, b with
  | VNone, VNone => true
  | VStr s, VStr t => bool_decide (s = t)
  | VList l, VList m =>
      (fix go l m :=
         match l, m with
         | [], [] => true
         | x :: l, y :: m => py_eq x y && go l m
         | _, _ => false
         end) l m
  | VDict d, VDict d' =>
      (Nat.eqb (List.length d) (List.length d')) &&
      (fix go d :=
         match d with
         | [] => true
         | (k, x) :: d =>
             match alist_get k d' with Some y => py_eq x y | None => false end && go d
         end) d
  | _, _ =>
      match as_num a, as_num b with
      | Some x, Some y => num_eqb x y
      | _, _ => false
      end
  end.

Definition num_truthy (n : num) : bool := negb (num_eqb n (NInt 0)).

(** [bool(v)]. *)
Definition truthy (v : value) : bool :=
  match v with
  | VNone => false
  | VBool b => b
  | VNum n => num_truthy n
  | VStr s => negb (bool_decide (s = ""%string))
  | VList l => negb (bool_decide (List.length l = 0%nat))
  | VDict d => negb (bool_decide (List.length d = 0%nat))
  end.

(** [v is None]. *)
Definition is_none (v : value) : bool := match v with VNone => true | _ => false end.

(** [x or None] for an optional string: the empty string is falsy. *)
Definition str_truthy (s : option string) : option string :=
  match s with Some ""%string => None | s => s end.

(** ** Strings *)

Abbreviation chars := (list ascii).
Definition to_chars : string → chars := String.list_ascii_of_string.
Definition of_chars : chars → string := String.string_of_list_ascii.

Definition code (c : ascii) : Z := Z.of_N (N_of_ascii c).

Definition continuation (c : ascii) : bool := (128 <=? code c) && (code c <=? 191).

(** The code point at the head of [l] and the bytes that encode it; a byte that
    begins no encoding is none, and stands alone. *)
Definition code_point (l : chars) : Z * nat :=
  match l with
  | a :: l1 =>
      if code a <? 128 then (code a, 1%nat) else
      match l1 with
      | b :: l2 =>
          if (code a <? 192) || negb (continuation b) then (-1, 1%nat)
          else if code a <? 224 then ((code a - 192) * 64 + (code b - 128), 2%nat)
          else match l2 with
          | c :: l3 =>
              if negb (continuation c) then (-1, 1%nat)
              else if code a <? 240
              then (((code a - 224) * 64 + (code b - 128)) * 64 + (code c - 128), 3%nat)
              else match l3 with
              | d :: _ =>
                  if negb (continuation d) then (-1, 1%nat)
                  else ((((code a - 240) * 64 + (code b - 128)) * 64 + (code c - 128)) * 64 + (code d - 128), 4%nat)
              | [] => (-1, 1%nat)
              end
          | [] => (-1, 1%nat)
          end
      | [] => (-1, 1%nat)
      end
  | [] => (-1, 1%nat)
  end.

(** [chr(cp).isspace()]. *)
Definition is_space (cp : Z) : bool :=
  ((9 <=? cp) && (cp <=? 13)) || ((28 <=? cp) && (cp <=? 32)) || (cp =? 133) || (cp =? 160) ||
  (cp =? 5760) || ((8192 <=? cp) && (cp <=? 8202)) || (cp =? 8232) || (cp =? 8233) || (cp =? 8239) ||
  (cp =? 8287) || (cp =? 12288).

(** The bytes of the whitespace character [l] begins with, if it begins with one. *)
Definition space_width (l : chars) : nat :=
  let '(cp, n) := code_point l in if is_space cp then n else 0%nat.

Fixpoint drop_space_upto (fuel : nat) (l : chars) : chars :=
  match fuel, space_width l with
  | S fuel, S n => drop_space_upto fuel (List.skipn (S n) l)
  | _, _ => l
  end.

(** [s.lstrip()]. *)
Definition drop_space (l : chars) : chars := drop_space_upto (List.length l) l.

(** [s.rstrip()]. *)
Fixpoint drop_trailing (l : chars) : chars :=
  match l with
  | c :: l' => match drop_space l with [] => [] | _ => c :: drop_trailing l' end
  | [] => []
  end.

Definition strip_chars (l : chars) : chars := drop_trailing (drop_space l).

(** [s.strip()]. *)
Definition py_strip (s : string) : string := of_chars (strip_chars (to_chars s)).

(** An ASCII digit's value. *)
Definition digit_of (c : ascii) : option Z :=
  let n := code c in
  if (48 <=? n) && (n <=? 57) then Some (n - 48) else None.

(** The zeros of the decimal digits of Unicode (the category Nd), each followed by
    its nine others. *)
Definition decimal_zeros : list Z :=
  [48; 1632; 1776; 1984; 2406; 2534; 2662; 2790; 2918; 3046; 3174; 3302; 3430; 3558; 3664; 3792; 3872; 4160;
   4240; 6112; 6160; 6470; 6608; 6784; 6800; 6992; 7088; 7232; 7248; 42528; 43216; 43264; 43472; 43504; 43600;
   44016; 65296; 66720; 68912; 69734; 69872; 69942; 70096; 70384; 70736; 70864; 71248; 71360; 71472; 71904;
   72016; 72784; 73040; 73120; 73552; 92768; 92864; 93008; 120782; 120792; 120802; 120812; 120822; 123200;
   123632; 124144; 125264; 130032].

Fixpoint decimal_value_in (zeros : list Z) (cp : Z) : option Z :=
  match zeros with
  | [] => None
  | z :: zeros => if (z <=? cp) && (cp <=? z + 9) then Some (cp - z) else decimal_value_in zeros cp
  end.

(** [unicodedata.decimal(chr(cp))]. *)
Definition decimal_value (cp : Z) : option Z := decimal_value_in decimal_zeros cp.

(** Every decimal digit as the ASCII digit of its value, which is how [int],
    [float] and [Decimal] read a text; [skip] bytes belong to a digit read. *)
Fixpoint ascii_digits_from (skip : nat) (l : chars) : chars :=
  match l with
  | [] => []
  | c :: l' =>
      match skip with
      | S skip => ascii_digits_from skip l'
      | O =>
          let '(cp, n) := code_point l in
          match decimal_value cp with
          | Some x => ascii_of_N (Z.to_N (48 + x)) :: ascii_digits_from (Nat.pred n) l'
          | None => c :: ascii_digits_from 0 l'
          end
      end
  end.

Definition ascii_digits (l : chars) : chars := ascii_digits_from 0 l.

(** The leading digits of [l]: their value after [acc], how many, the rest. *)
Fixpoint take_digits (acc n : Z) (l : chars) : Z * Z * chars :=
  match l with
  | c :: l' =>
      match digit_of c with
      | Some x => take_digits (10 * acc + x) (n + 1) l'
      | None => (acc, n, l)
      end
  | [] => (acc, n, [])
  end.

Definition take_sign (l : chars) : bool * chars :=
  match l with
  | "-"%char :: l => (true, l)
  | "+"%char :: l => (false, l)
  | _ => (false, l)
  end.

Definition signed (neg : bool) (z : Z) : Z := if neg then - z else z.

(** The exponent part of a decimal literal, which must end the text. *)
Definition parse_exponent (l : chars) : option Z :=
  match l with
  | [] => Some 0
  | c :: l =>
      if bool_decide (c = "e"%char ∨ c = "E"%char) then
        let '(neg, l) := take_sign l in
        let '(z, n, rest) := take_digits 0 0 l in
        match rest with
        | [] => if n =? 0 then None else Some (signed neg z)
        | _ => None
        end
      else None
  end.

(** The exponents [Decimal(str)] converts exactly. *)
Definition max_emax : Z := 999999999999999999.
Definition min_etiny : Z := -1999999999999999997.

(** [Decimal(s)] when it is a finite number; [None] when the text is not a
    number, or names a NaN or an infinity, both of which the callers refuse
    alike. *)
Definition parse_decimal (s : string) : option decimal :=
  let l := filter (λ c, c ≠ "_"%char) (ascii_digits (strip_chars (to_chars s))) in
  let '(neg, l) := take_sign l in
  let '(whole, n, l) := take_digits 0 0 l in
  let '(c, n', frac, l) :=
    match l with
    | "."%char :: l => let '(c, k, l) := take_digits whole 0 l in (c, n + k, k, l)
    | _ => (whole, n, 0, l)
    end in
  if n' =? 0 then None else
  match parse_exponent l with
  | Some e =>
      if (max_emax <? e - frac + n' - 1) || (e - frac <? min_etiny) then None
      else Some (Dec (signed neg c) (e - frac))
  | None => None
  end.

(** Digits with single underscores between them. *)
Fixpoint int_digits (after_digit : bool) (acc : Z) (l : chars) : option Z :=
  match l with
  | [] => if after_digit then Some acc else None
  | c :: l =>
      match digit_of c with
      | Some x => int_digits true (10 * acc + x) l
      | None =>
          if bool_decide (c = "_"%char) && after_digit then int_digits false acc l
          else None
      end
  end.

(** [int(s)]. *)
Definition parse_int (s : string) : option Z :=
  let '(neg, l) := take_sign (ascii_digits (strip_chars (to_chars s))) in
  signed neg <$> int_digits false 0 l.

(** [int(v)]: [ValueError] and [TypeError] are told apart from the
    [OverflowError] an infinite float raises. *)
Definition py_int (v : value) : result Z :=
  match v with
  | VBool b => Ok (if b then 1 else 0)
  | VNum (NInt z) => Ok z
  | VNum (NFloat f) =>
      match f, float_trunc f with
      | S754_nan, _ => Err (ValueError "cannot convert float NaN to integer")
      | _, Some z => Ok z
      | _, None => Err OverflowError
      end
  | VNum (NDec d) => Ok (dec_trunc d)
  | VStr s =>
      match parse_int s with
      | Some z => Ok z
      | None => Err (ValueError "invalid literal for int()")
      end
  | _ => Err (TypeError "int() argument")
  end.

(** [Decimal(str(v))] when it is a finite number. *)
Definition dec_of_value (v : value) : option decimal :=
  match v with
  | VNum n => dec_of_num n
  | VStr s => parse_decimal s
  | _ => None
  end.

(** ** Ordering by name, as [sorted] and [ORDER BY] on a text column give *)

Section sorting.
Context {A : Type} (leb : A → A → bool).

Fixpoint insert_by (x : A) (l : list A) : list A :=
  match l with
  | [] => [x]
  | y :: l' => if leb y x then y :: insert_by x l' else x :: l
  end.

(** A stable sort: equal elements keep their order. *)
Definition sort_by (l : list A) : list A := fold_left (λ acc x, insert_by x acc) l [].

Lemma insert_by_perm x l : insert_by x l ≡ₚ x :: l.
Proof.
  induction l as [|y l IH]; simpl; [done|].
  destruct (leb y x); [|done]. rewrite IH. apply Permutation_swap.
Qed.

Lemma sort_by_perm l : sort_by l ≡ₚ l.
Proof.
  unfold sort_by.
  assert (∀ acc, fold_left (λ acc x, insert_by x acc) l acc ≡ₚ l ++ acc) as H.
  { induction l as [|x l IH]; intros acc; simpl; [done|].
    rewrite IH, insert_by_perm. by rewrite Permutation_middle. }
  by rewrite H, app_nil_r.
Qed.

Lemma elem_of_sort_by x l : x ∈ sort_by l ↔ x ∈ l.
Proof. by rewrite sort_by_perm. Qed.

Context (total : ∀ x y, leb x y = true ∨ leb y x = true).
Context (trans : ∀ x y z, leb x y = true → leb y z = true → leb x z = true).

Lemma insert_by_sorted x l :
  StronglySorted (λ a b, leb a b = true) l →
  StronglySorted (λ a b, leb a b = true) (insert_by x l).
Proof.
  induction 1 as [|y l Hl IH Hy]; simpl; [repeat constructor|].
  destruct (leb y x) eqn:E.
  - constructor; [done|]. rewrite Forall_forall in *. intros z Hz.
    rewrite insert_by_perm in Hz. apply elem_of_cons in Hz as [->|Hz]; auto.
  - assert (leb x y = true) as Hxy by (destruct (total x y); congruence).
    constructor; [by constructor|]. rewrite Forall_forall in *. intros z Hz.
    apply elem_of_cons in Hz as [->|Hz]; eauto.
Qed.

Lemma sort_by_sorted l : StronglySorted (λ a b, leb a b = true) (sort_by l).
Proof.
  unfold sort_by.
  assert (∀ acc, StronglySorted (λ a b, leb a b = true) acc →
    StronglySorted (λ a b, leb a b = true) (fold_left (λ acc x, insert_by x acc) l acc)) as H;
    [|apply H; constructor].
  induction l as [|x l IH]; intros acc Hacc; simpl; [done|]. by apply IH, insert_by_sorted.
Qed.
End sorting.

Definition string_leb (s t : string) : bool :=
  match String.compare s t with Gt => false | _ => true end.

Example strip_example : py_strip " a b	 " = "a b"%string.
Proof. vm_compute. reflexivity. Qed.
(** A no-break space and an ideographic space, and an Arabic and a fullwidth digit. *)
Example strip_wide :
  let text l := of_chars (map (λ z, ascii_of_N (Z.to_N z)) l) in
  py_strip (text [194; 160; 120; 32; 121; 227; 128; 128; 9]) = "x y"%string ∧
  parse_int (text [227; 128; 128; 217; 163; 239; 188; 149]) = Some 35.
Proof. by vm_compute. Qed.
Example decimal_example : parse_decimal " -1_2.50e3 " = Some (Dec (-1250) 1).
Proof. vm_compute. reflexivity. Qed.
Example decimal_nan : parse_decimal "NaN" = None.
Proof. vm_compute. reflexivity. Qed.
Example int_example : parse_int " +1_000" = Some 1000.
Proof. vm_compute. reflexivity. Qed.
Example eq_bool_int : py_eq (VBool true) (VInt 1) = true.
Proof. vm_compute. reflexivity. Qed.
Example eq_dict_order :
  py_eq (VDict [("a", VInt 8); ("b", VNone)]%string)
        (VDict [("b", VNone); ("a", VNum (NFloat (float_of_ratio 8 1)))]%string) = true.
Proof. vm_compute. reflexivity. Qed.
