(* ===== verification/JobMetadata.v ===== *)
(** What a job-backed fulfillment records about its jobs, and the prepared
    operation it freezes before dispatch: the models
    [JobFulfillmentMetadata] and [PreparedJobOperation] of
    [compute_provisioning/job_fulfillment.py], which read a JSON object and
    forbid any other field, and their dumps. *)
From S2P Require Import Prelude PyNum PyValue.

Local Open Scope Z_scope.

Inductive Operation : Type := op_create | op_teardown.
#[export] Instance Operation_eq_dec : EqDecision Operation.
Proof. solve_decision. Defined.

Definition operation_value (o : Operation) : string :=
  match o with op_create => "create" | op_teardown => "teardown" end.

Definition parse_operation (s : string) : option Operation :=
  if bool_decide (s = "create"%string) then Some op_create
  else if bool_decide (s = "teardown"%string) then Some op_teardown else None.

(** ** Fields of a model *)

(** A required non-empty string. *)
Definition str_field (k : string) (d : dict) : option string :=
  match alist_get k d with
  | Some (VStr s) => if bool_decide (s = ""%string) then None else Some s
  | _ => None
  end.

(** An optional string: absent, null or a string; [allowed] is its own
    constraint. *)
Definition opt_field (k : string) (allowed : string → bool) (d : dict) : option (option string) :=
  match alist_get k d with
  | None | Some VNone => Some None
  | Some (VStr s) => if allowed s then Some (Some s) else None
  | Some _ => None
  end.

Definition only_fields (names : list string) (d : dict) : bool :=
  forallb (λ kv : string * value, bool_decide (kv.1 ∈ names)) d.

Definition opt_value (s : option string) : value :=
  match s with Some s => VStr s | None => VNone end.

(** ** [JobFulfillmentMetadata] *)

Record JobFulfillmentMetadata : Type := {
  jm_create_job_id : string;
  jm_teardown_job_id : option string;
  jm_current_job_id : string;
  jm_operation : Operation;
  jm_host_id : string;
  jm_executor_target : string;
}.

Definition metadata_fields : list string :=
  ["create_job_id"; "teardown_job_id"; "current_job_id"; "operation"; "host_id";
   "executor_target"].

(** [JobFulfillmentMetadata.model_validate(d)]; [None] is a validation error. *)
Definition validate_metadata (d : dict) : option JobFulfillmentMetadata :=
  if only_fields metadata_fields d then
    create ← str_field "create_job_id" d;
    teardown ← opt_field "teardown_job_id" (λ _, true) d;
    current ← str_field "current_job_id" d;
    operation ← str_field "operation" d ≫= parse_operation;
    host ← str_field "host_id" d;
    target ← str_field "executor_target" d;
    Some {| jm_create_job_id := create; jm_teardown_job_id := teardown;
            jm_current_job_id := current; jm_operation := operation; jm_host_id := host;
            jm_executor_target := target |}
  else None.

(** [metadata.model_dump(mode="json")]. *)
Definition dump_metadata (m : JobFulfillmentMetadata) : dict :=
  [("create_job_id"%string, VStr (jm_create_job_id m));
   ("teardown_job_id"%string, opt_value (jm_teardown_job_id m));
   ("current_job_id"%string, VStr (jm_current_job_id m));
   ("operation"%string, VStr (operation_value (jm_operation m)));
   ("host_id"%string, VStr (jm_host_id m));
   ("executor_target"%string, VStr (jm_executor_target m))].

Definition _metadata (d : dict) : result JobFulfillmentMetadata :=
  match validate_metadata d with
  | Some m => Ok m
  | None => Err (ProviderConfigInvalidError "invalid job fulfillment metadata")
  end.

Definition fulfillment_executor_target (d : dict) : result string :=
  jm_executor_target <$> _metadata d.

(** ** [PreparedJobOperation] *)

Record PreparedJobOperation : Type := {
  pj_capacity_reservation_id : string;
  pj_operation : Operation;
  pj_offering_mode : string;
  pj_action : string;
  pj_host_id : string;
  pj_executor_target : string;
  pj_parameters : dict;
  pj_create_job_id : option string;
}.

Definition operation_fields : list string :=
  ["capacity_reservation_id"; "operation"; "offering_mode"; "action"; "host_id";
   "executor_target"; "parameters"; "create_job_id"].

Definition validate_operation (v : value) : option PreparedJobOperation :=
  match v with
  | VDict d =>
      if only_fields operation_fields d then
        i ← str_field "capacity_reservation_id" d;
        operation ← str_field "operation" d ≫= parse_operation;
        mode ← str_field "offering_mode" d;
        action ← str_field "action" d;
        host ← str_field "host_id" d;
        target ← str_field "executor_target" d;
        parameters ← match alist_get "parameters" d with Some (VDict p) => Some p | _ => None end;
        create ← opt_field "create_job_id" (λ s, negb (bool_decide (s = ""%string))) d;
        Some {| pj_capacity_reservation_id := i; pj_operation := operation;
                pj_offering_mode := mode; pj_action := action; pj_host_id := host;
                pj_executor_target := target; pj_parameters := parameters;
                pj_create_job_id := create |}
      else None
  | _ => None
  end.

Definition dump_operation (p : PreparedJobOperation) : value :=
  VDict [("capacity_reservation_id"%string, VStr (pj_capacity_reservation_id p));
         ("operation"%string, VStr (operation_value (pj_operation p)));
         ("offering_mode"%string, VStr (pj_offering_mode p));
         ("action"%string, VStr (pj_action p));
         ("host_id"%string, VStr (pj_host_id p));
         ("executor_target"%string, VStr (pj_executor_target p));
         ("parameters"%string, VDict (pj_parameters p));
         ("create_job_id"%string, opt_value (pj_create_job_id p))].

(** The constructors' own constraints. *)
Definition valid_metadata (m : JobFulfillmentMetadata) : bool :=
  forallb (λ s, negb (bool_decide (s = ""%string)))
    [jm_create_job_id m; jm_current_job_id m; jm_host_id m; jm_executor_target m].

Definition valid_operation (p : PreparedJobOperation) : bool :=
  forallb (λ s, negb (bool_decide (s = ""%string)))
    [pj_capacity_reservation_id p; pj_offering_mode p; pj_action p; pj_host_id p;
     pj_executor_target p] &&
  negb (bool_decide (pj_create_job_id p = Some ""%string)).

(** ** Round trips *)

Lemma parse_operation_value o : parse_operation (operation_value o) = Some o.
Proof. by destruct o. Qed.

Lemma str_field_set k s d : alist_get k d = Some (VStr s) → s ≠ ""%string → str_field k d = Some s.
Proof. intros Hk Hs. unfold str_field. by rewrite Hk, bool_decide_eq_false_2. Qed.

Lemma validate_dump_metadata m : valid_metadata m = true → validate_metadata (dump_metadata m) = Some m.
Proof.
  unfold valid_metadata. simpl. rewrite !andb_true_iff, !negb_true_iff, !bool_decide_eq_false.
  intros (Hc & Hcur & Hh & Ht & _). destruct m as [c t cur o h x]. simpl in *.
  unfold validate_metadata. replace (only_fields _ _) with true by done.
  rewrite (str_field_set "create_job_id" c), (str_field_set "current_job_id" cur),
    (str_field_set "host_id" h), (str_field_set "executor_target" x) by done.
  rewrite (str_field_set "operation" (operation_value o)) by (done || by destruct o). simpl.
  rewrite parse_operation_value. by destruct t.
Qed.

Lemma validate_dump_operation p :
  valid_operation p = true → validate_operation (dump_operation p) = Some p.
Proof.
  unfold valid_operation. simpl. rewrite !andb_true_iff, !negb_true_iff, !bool_decide_eq_false.
  intros [(Hi & Hm & Ha & Hh & Ht & _) Hc]. destruct p as [i o m a h t ps c]. simpl in *.
  unfold validate_operation, dump_operation. cbv iota.
  rewrite (str_field_set "capacity_reservation_id" i), (str_field_set "offering_mode" m),
    (str_field_set "action" a), (str_field_set "host_id" h), (str_field_set "executor_target" t)
    by done.
  rewrite (str_field_set "operation" (operation_value o)) by (done || by destruct o). simpl.
  rewrite parse_operation_value. simpl. destruct c as [c|]; [|done]. unfold opt_field. simpl.
  by rewrite bool_decide_eq_false_2 by congruence.
Qed.
