(* ===== verification/PyNumFacts.v ===== *)
(** Decimal arithmetic on whole amounts: exact below [10^28], and never
    rounded back below it. *)
From S2P Require Import Prelude PyNum PyValue.
From Stdlib Require Import Ascii SpecFloat.

Local Open Scope Z_scope.

Definition cap_limit : Z := 10 ^ context_prec.

(** ** Digits *)

Lemma ndigits_fuel_bounds fuel n :
  0 < n → Z.log2 n < Z.of_nat fuel →
  10 ^ (ndigits_fuel fuel n - 1) <= n < 10 ^ ndigits_fuel fuel n ∧ 1 <= ndigits_fuel fuel n.
Proof.
  revert n. induction fuel as [|fuel IH]; intros n Hn Hf.
  { pose proof (Z.log2_nonneg n). lia. }
  cbn [ndigits_fuel]. destruct (n <? 10) eqn:E.
  - apply Z.ltb_lt in E. simpl. lia.
  - apply Z.ltb_ge in E.
    assert (0 < n / 10) as Hpos by (apply Z.div_str_pos; lia).
    assert (Z.log2 (n / 10) < Z.of_nat fuel) as Hlog.
    { assert (Z.log2 (n / 10) <= Z.log2 (n / 2)) as H2.
      { apply Z.log2_le_mono, Z.div_le_compat_l; lia. }
      rewrite <- Z.div2_div in H2.
      assert (Z.log2 (Z.div2 n) = Z.log2 n - 1) as H3.
      { rewrite Z.div2_spec, Z.log2_shiftr by lia.
        pose proof (Z.log2_le_mono 2 n). change (Z.log2 2) with 1 in *. lia. }
      lia. }
    destruct (IH _ Hpos Hlog) as [[H1 H2] H3].
    set (k := ndigits_fuel fuel (n / 10)) in *.
    replace (1 + k - 1) with (Z.succ (k - 1)) by lia. replace (1 + k) with (Z.succ k) by lia.
    rewrite !Z.pow_succ_r by lia.
    pose proof (Z.div_mod n 10 ltac:(lia)). pose proof (Z.mod_pos_bound n 10 ltac:(lia)). lia.
Qed.

Lemma ndigits_bounds n :
  0 < n → 10 ^ (ndigits n - 1) <= n < 10 ^ ndigits n ∧ 1 <= ndigits n.
Proof.
  intros Hn. apply ndigits_fuel_bounds; [done|].
  rewrite Nat2Z.inj_succ, Z2Nat.id by apply Z.log2_nonneg. lia.
Qed.

Lemma ndigits_big n : cap_limit <= n → context_prec < ndigits n.
Proof.
  intros Hn. unfold cap_limit, context_prec in *.
  destruct (ndigits_bounds n) as [[_ Hlt] ?]; [lia|].
  destruct (decide (28 < ndigits n)) as [|Hle]; [done|].
  assert (10 ^ ndigits n <= 10 ^ 28) by (apply Z.pow_le_mono_r; lia). lia.
Qed.

(** ** Rounding *)

Lemma dec_fix_exact z e : Z.abs z < cap_limit → dec_fix (Dec z e) = Dec z e.
Proof. intros H. unfold dec_fix. simpl coef. by rewrite (proj2 (Z.ltb_lt _ _)). Qed.

Lemma div_half_even_floor n m : n / m <= div_half_even n m.
Proof. unfold div_half_even. destruct (_ ?= _); [destruct (Z.even _)|..]; lia. Qed.

(** A decimal whose value is a natural number not below the limit. *)
Definition huge (d : decimal) : Prop :=
  0 <= expo d ∧ cap_limit <= coef d * 10 ^ expo d.

Lemma dec_fix_huge n : cap_limit <= n → huge (dec_fix (Dec n 0)).
Proof.
  intros Hn. pose proof (ndigits_big n Hn) as Hk.
  assert (0 < n) by (unfold cap_limit, context_prec in Hn; lia).
  destruct (ndigits_bounds n) as [[Hlo _] _]; [done|].
  unfold dec_fix. simpl coef. simpl expo. rewrite Z.abs_eq by lia.
  rewrite (proj2 (Z.ltb_ge _ _)) by exact Hn. rewrite Z.sgn_pos, Z.mul_1_l by done.
  set (k := ndigits n - context_prec) in *. unfold huge. simpl coef. simpl expo.
  assert (1 <= k) by lia. split; [lia|]. rewrite Z.add_0_l.
  assert (10 ^ (context_prec - 1) <= div_half_even n (10 ^ k)) as Hdiv.
  { etrans; [|apply div_half_even_floor].
    apply Z.div_le_lower_bound; [apply Z.pow_pos_nonneg; lia|].
    rewrite <- Z.pow_add_r by (unfold context_prec in *; lia).
    by replace (k + (context_prec - 1)) with (ndigits n - 1) by lia. }
  assert (10 <= 10 ^ k) by (change 10 with (10 ^ 1) at 1; apply Z.pow_le_mono_r; lia).
  unfold cap_limit, context_prec in *. simpl (28 - 1) in Hdiv.
  change (10 ^ 28) with (10 ^ 27 * 10). nia.
Qed.

Lemma div_half_even_nonneg n m : 0 <= n → 0 < m → 0 <= div_half_even n m.
Proof. intros. etrans; [|apply div_half_even_floor]. by apply Z.div_pos. Qed.

Lemma dec_fix_negative z : z <= - cap_limit → coef (dec_fix (Dec z 0)) < 0.
Proof.
  intros Hz. pose proof (dec_fix_huge (- z) ltac:(lia)) as [He Hh].
  unfold dec_fix in *. simpl coef in *. simpl expo in *.
  assert (0 < cap_limit) by done.
  rewrite Z.abs_opp in *. destruct (_ <? _); simpl in *; [lia|].
  rewrite Z.sgn_neg by lia. rewrite Z.sgn_pos in Hh by lia.
  set (q := div_half_even _ _) in *. set (p := 10 ^ _) in *.
  assert (0 < q); [|lia]. destruct (decide (0 < q)); [done|].
  assert (0 <= p) by (apply Z.pow_nonneg; lia). nia.
Qed.

(** ** Amounts standing for natural numbers *)

(** [a] is exactly [z], or both are beyond the limit. *)
Definition counts (a : decimal) (z : Z) : Prop :=
  (a = dec_of_Z z ∧ 0 <= z < cap_limit) ∨ (huge a ∧ cap_limit <= z).

Lemma counts_zero : counts dec0 0.
Proof. left. done. Qed.

Lemma aligned_whole a y : 0 <= expo a → aligned a (dec_of_Z y) = (coef a * 10 ^ expo a, y).
Proof.
  intros. unfold aligned, dec_of_Z. simpl. rewrite Z.min_r by lia.
  rewrite !Z.sub_0_r. simpl. by rewrite Z.mul_1_r.
Qed.

Lemma min_expo_whole a y : 0 <= expo a → Z.min (expo a) (expo (dec_of_Z y)) = 0.
Proof. simpl. lia. Qed.

Lemma counts_add a x y : counts a x → 0 <= y → counts (dec_add a (dec_of_Z y)) (x + y).
Proof.
  intros Ha Hy. unfold dec_add.
  assert (0 <= expo a) as He by (destruct Ha as [[-> _]|[[? _] _]]; [done|done]).
  rewrite aligned_whole, min_expo_whole by done.
  destruct Ha as [[-> Hx]|[[_ Hh] Hx]]; simpl.
  - rewrite Z.mul_1_r. destruct (decide (x + y < cap_limit)).
    + left. rewrite dec_fix_exact by lia. split; [done|lia].
    + right. split; [apply dec_fix_huge; lia|lia].
  - right. split; [apply dec_fix_huge; lia|lia].
Qed.

(** The room left under a whole capacity: exact, or negative when what is
    held is beyond the limit. *)
Lemma sub_counts c a x :
  0 <= c < cap_limit → counts a x →
  dec_sub (dec_of_Z c) a = dec_of_Z (c - x) ∨ (coef (dec_sub (dec_of_Z c) a) < 0 ∧ c < x).
Proof.
  intros Hc Ha. unfold dec_sub, aligned.
  assert (0 <= expo a) as He by (destruct Ha as [[-> _]|[[? _] _]]; [done|done]).
  simpl (expo (dec_of_Z c)). simpl (coef (dec_of_Z c)). rewrite Z.min_l by lia.
  rewrite Z.sub_diag, Z.sub_0_r. simpl. rewrite Z.mul_1_r.
  destruct Ha as [[-> Hx]|[[_ Hh] Hx]]; simpl.
  - left. rewrite Z.mul_1_r, dec_fix_exact by lia. done.
  - right. destruct (decide (c - coef a * 10 ^ expo a <= - cap_limit)) as [Hl|Hl].
    + split; [by apply dec_fix_negative|lia].
    + rewrite dec_fix_exact by lia. simpl. lia.
Qed.

(** ** Comparisons *)

Definition dec_frac (d : decimal) : Z * Z :=
  if 0 <=? expo d then (coef d * 10 ^ expo d, 1) else (coef d, 10 ^ (- expo d)).

Lemma dec_frac_pos d : 0 < (dec_frac d).2.
Proof.
  unfold dec_frac. destruct (0 <=? expo d) eqn:E; simpl; [lia|].
  apply Z.leb_gt in E. apply Z.pow_pos_nonneg; lia.
Qed.

Lemma num_lt_dec a b :
  num_lt (NDec a) (NDec b) =
  ((dec_frac a).1 * (dec_frac b).2 <? (dec_frac b).1 * (dec_frac a).2).
Proof. done. Qed.

(** A decimal equal to a whole number. *)
Lemma dec_eqb_whole z a : dec_eqb (dec_of_Z z) a = true → (dec_frac a).1 = z * (dec_frac a).2.
Proof.
  unfold dec_eqb, dec_cmp, aligned, dec_frac. simpl.
  destruct (Z.compare_spec (z * 10 ^ (0 - Z.min 0 (expo a)))
    (coef a * 10 ^ (expo a - Z.min 0 (expo a)))) as [H| |]; [|done..]. intros _.
  destruct (0 <=? expo a) eqn:E; [apply Z.leb_le in E|apply Z.leb_gt in E]; simpl.
  - rewrite Z.min_l in H by lia. rewrite !Z.sub_0_r in H. simpl in H. lia.
  - rewrite Z.min_r in H by lia. rewrite Z.sub_diag in H.
    replace (0 - expo a) with (- expo a) in H by lia. simpl in H. lia.
Qed.

Lemma whole_not_below c a z :
  (dec_frac a).1 = z * (dec_frac a).2 → num_lt (NDec (dec_of_Z c)) (NDec a) = false → z <= c.
Proof.
  intros Ha. rewrite num_lt_dec. unfold dec_frac at 1 4. simpl. rewrite !Z.mul_1_r, Ha.
  pose proof (dec_frac_pos a). rewrite Z.ltb_ge. nia.
Qed.

Lemma negative_below a b :
  coef a < 0 → 0 <= (dec_frac b).1 → num_lt (NDec a) (NDec b) = true.
Proof.
  intros Ha Hb. rewrite num_lt_dec. apply Z.ltb_lt.
  pose proof (dec_frac_pos a). pose proof (dec_frac_pos b).
  assert ((dec_frac a).1 < 0); [|nia]. unfold dec_frac.
  destruct (0 <=? expo a) eqn:E; simpl; [|done]. apply Z.leb_le in E.
  assert (0 < 10 ^ expo a) by (apply Z.pow_pos_nonneg; lia). nia.
Qed.

(** ** Serialized amounts *)

Lemma serialize_whole a z :
  (if dec_eqb (dec_of_Z (dec_trunc a)) a then NInt (dec_trunc a) else NFloat (float_of_dec a)) =
  NInt z → dec_eqb (dec_of_Z z) a = true.
Proof. destruct (dec_eqb _ a) eqn:E; [|done]. by intros [= <-]. Qed.

Lemma dec_eqb_refl a : dec_eqb a a = true.
Proof. unfold dec_eqb, dec_cmp, aligned. by rewrite Z.compare_refl. Qed.

Lemma dec_trunc_whole z : dec_trunc (dec_of_Z z) = z.
Proof. unfold dec_trunc. simpl. lia. Qed.

Lemma dec_ltb_whole x y : dec_ltb (dec_of_Z x) (dec_of_Z y) = (x <? y).
Proof.
  unfold dec_ltb, dec_cmp, aligned. simpl. rewrite !Z.mul_1_r. unfold Z.ltb. by destruct (x ?= y).
Qed.

Lemma dec_ltb_negative a z : coef a < 0 → 0 <= z → dec_ltb a (dec_of_Z z) = true.
Proof.
  intros Ha Hz. unfold dec_ltb, dec_cmp, aligned. simpl.
  set (e := Z.min (expo a) 0).
  assert (0 < 10 ^ (expo a - e)) by (apply Z.pow_pos_nonneg; lia).
  assert (0 < 10 ^ (0 - e)) by (apply Z.pow_pos_nonneg; lia).
  destruct (Z.compare_spec (coef a * 10 ^ (expo a - e)) (z * 10 ^ (0 - e))); [nia|done|nia].
Qed.

(** * Lemmas on Python dictionaries: what setting, updating and reading keys give. *)

Local Close Scope Z_scope.

Lemma alist_get_dict_set k k' x d :
  alist_get k (dict_set k' x d) = if decide (k = k') then Some x else alist_get k d.
Proof.
  induction d as [|[j y] d IH]; simpl; [done|].
  destruct (decide (k' = j)) as [->|Hj]; simpl.
  - by destruct (decide (k = j)).
  - rewrite IH. destruct (decide (k = j)) as [->|]; [|done]. by rewrite decide_False.
Qed.

(** Updating keeps a key's value or takes one of the new bindings. *)
Lemma alist_get_dict_update k v d d' :
  alist_get k d = Some v →
  ∃ v', alist_get k (dict_update d d') = Some v' ∧ (v' = v ∨ (k, v') ∈ d').
Proof.
  unfold dict_update. revert d v. induction d' as [|[j x] d' IH]; intros d v Hd; simpl.
  { exists v. by split; [|left]. }
  destruct (decide (k = j)) as [->|Hne].
  - destruct (IH (dict_set j x d) x) as (v' & ? & [->|?]).
    { by rewrite alist_get_dict_set, decide_True. }
    + exists x. split; [done|]. right. apply list_elem_of_here.
    + exists v'. split; [done|]. right. by apply list_elem_of_further.
  - destruct (IH (dict_set j x d) v) as (v' & ? & [->|?]).
    { by rewrite alist_get_dict_set, decide_False. }
    + exists v. by split; [|left].
    + exists v'. split; [done|]. right. by apply list_elem_of_further.
Qed.

Lemma dict_get_set k k' x d : dict_get k (dict_set k' x d) = if decide (k = k') then x else dict_get k d.
Proof. unfold dict_get. rewrite alist_get_dict_set. by case_decide. Qed.

Lemma dict_get_set_eq k x d : dict_get k (dict_set k x d) = x.
Proof. by rewrite dict_get_set, decide_True. Qed.

Lemma dict_get_set_ne k k' x d : k ≠ k' → dict_get k (dict_set k' x d) = dict_get k d.
Proof. intros Hk. by rewrite dict_get_set, decide_False. Qed.

Lemma dict_has_set k k' x d : dict_has k (dict_set k' x d) = bool_decide (k = k') || dict_has k d.
Proof. unfold dict_has. rewrite alist_get_dict_set. case_decide; by case_bool_decide. Qed.

Lemma dict_set_not_nil k x d : dict_set k x d ≠ [].
Proof. destruct d as [|[k' y] d]; simpl; [done|]. by case_decide. Qed.

Local Open Scope Z_scope.

(** ** A float is its fraction's, however the fraction is written *)

(** The integer part of [n / d], and its rounding bits: whether the rest is at
    least a half, and whether it is neither nothing nor a half. *)
Definition quotient_record (n d : Z) : shr_record :=
  {| shr_m := n / d; shr_r := d <=? 2 * (n mod d); shr_s := negb ((2 * (n mod d)) mod d =? 0) |}.

Lemma quotient_record_scaled n d k :
  0 < d → 0 < k → quotient_record (n * k) (d * k) = quotient_record n d.
Proof.
  intros Hd Hk. unfold quotient_record.
  rewrite Z.div_mul_cancel_r, Z.mul_mod_distr_r by lia.
  replace (2 * (n mod d * k)) with (2 * (n mod d) * k) by lia. rewrite Z.mul_mod_distr_r by lia.
  f_equal.
  - destruct (Z.leb_spec d (2 * (n mod d))), (Z.leb_spec (d * k) (2 * (n mod d) * k)); nia.
  - f_equal. set (x := (2 * (n mod d)) mod d).
    destruct (Z.eqb_spec x 0), (Z.eqb_spec (x * k) 0); nia.
Qed.

Lemma new_location_record n d :
  0 <= n → 0 < d → shr_record_of_loc (n / d) (new_location d (n mod d)) = quotient_record n d.
Proof.
  intros Hn Hd. unfold new_location, new_location_even, new_location_odd, quotient_record.
  pose proof (Z.mod_pos_bound n d Hd) as Hr. set (r := n mod d) in *.
  destruct (Z.eqb_spec r 0) as [->|Hne].
  { rewrite Z.mul_0_r, Z.mod_0_l by lia. rewrite (proj2 (Z.leb_gt _ _)) by lia. by destruct (Z.even d). }
  assert (2 * r < d → (2 * r) mod d = 2 * r) as Hlow by (intros; apply Z.mod_small; lia).
  assert (d <= 2 * r → (2 * r) mod d = 2 * r - d) as Hhigh.
  { intros. symmetry. apply (Z.mod_unique_pos _ _ 1); lia. }
  assert ((r =? 0) = false) as Hr0 by lia.
  destruct (Z.even d) eqn:Hev.
  - destruct (Z.compare_spec (2 * r) d) as [Heq|Hlt|Hgt]; rewrite Hr0; cbn [shr_record_of_loc].
    + rewrite Hhigh, (proj2 (Z.leb_le _ _)), (proj2 (Z.eqb_eq _ _)) by lia. done.
    + rewrite Hlow, (proj2 (Z.leb_gt _ _)), (proj2 (Z.eqb_neq _ _)) by lia. done.
    + rewrite Hhigh, (proj2 (Z.leb_le _ _)), (proj2 (Z.eqb_neq _ _)) by lia. done.
  - assert (Z.odd d = true) as [h Hh]%Z.odd_spec by (by rewrite <- Z.negb_even, Hev).
    destruct (Z.compare_spec (2 * r + 1) d) as [Heq|Hlt|Hgt]; rewrite Hr0; cbn [shr_record_of_loc].
    + rewrite Hlow, (proj2 (Z.leb_gt _ _)), (proj2 (Z.eqb_neq _ _)) by lia. done.
    + rewrite Hlow, (proj2 (Z.leb_gt _ _)), (proj2 (Z.eqb_neq _ _)) by lia. done.
    + rewrite Hhigh, (proj2 (Z.leb_le _ _)), (proj2 (Z.eqb_neq _ _)) by lia. done.
Qed.

Lemma shr_1_quotient n d :
  0 <= n → 0 < d → shr_1 (quotient_record n d) = quotient_record n (2 * d).
Proof.
  intros Hn Hd. pose proof (Z.mod_pos_bound n d Hd) as Hr. pose proof (Z.div_mod n d ltac:(lia)) as Hq.
  assert (0 <= n / d) as Hq0 by (apply Z.div_pos; lia).
  set (q := n / d) in *. set (r := n mod d) in *.
  assert ((d <=? 2 * r) || negb ((2 * r) mod d =? 0) = negb (r =? 0)) as Hsticky.
  { destruct (Z.eqb_spec r 0) as [->|Hne].
    - rewrite Z.mul_0_r, Z.mod_0_l by lia. by rewrite (proj2 (Z.leb_gt _ _)) by lia.
    - destruct (Z.leb_spec d (2 * r)); [done|]. rewrite Z.mod_small by lia.
      by rewrite (proj2 (Z.eqb_neq _ _)) by lia. }
  assert (∀ h b, q = 2 * h + Z.b2z b → 0 <= h →
    quotient_record n (2 * d) = {| shr_m := h; shr_r := b; shr_s := negb (r =? 0) |}) as Hhalf.
  { intros h b Hqb Hh. unfold quotient_record.
    assert (n / (2 * d) = h ∧ n mod (2 * d) = Z.b2z b * d + r) as [-> ->].
    { assert (0 <= Z.b2z b * d + r < 2 * d) by (destruct b; simpl; lia).
      split; symmetry; [apply (Z.div_unique_pos _ _ _ (Z.b2z b * d + r))
                       |apply (Z.mod_unique_pos _ _ h)]; nia. }
    f_equal.
    - destruct b; simpl Z.b2z; [apply Z.leb_le|apply Z.leb_gt]; lia.
    - f_equal. replace (2 * (Z.b2z b * d + r)) with (2 * r + Z.b2z b * (2 * d)) by lia.
      rewrite Z.mod_add, Z.mod_small by lia.
      destruct (Z.eqb_spec (2 * r) 0), (Z.eqb_spec r 0); lia. }
  unfold quotient_record at 1. fold q r. cbn [shr_1]. rewrite Hsticky.
  destruct q as [|[p|p|]|] eqn:Hqe; [| | | |lia]; symmetry.
  - by apply (Hhalf 0 false).
  - apply (Hhalf (Zpos p) true); simpl; lia.
  - apply (Hhalf (Zpos p) false); simpl; lia.
  - by apply (Hhalf 0 true).
Qed.

Lemma iter_shr_quotient p n d :
  0 <= n → 0 < d → iter_pos shr_1 p (quotient_record n d) = quotient_record n (d * 2 ^ Zpos p).
Proof.
  intros Hn. revert d. induction p as [p IH|p IH|]; intros d Hd; cbn [iter_pos].
  - rewrite shr_1_quotient, !IH by lia. f_equal. replace (Zpos p~1) with (1 + (Zpos p + Zpos p)) by lia.
    rewrite (Z.pow_add_r 2 1), (Z.pow_add_r 2 (Zpos p)) by lia. lia.
  - rewrite !IH by lia. f_equal. replace (Zpos p~0) with (Zpos p + Zpos p) by lia.
    rewrite (Z.pow_add_r 2 (Zpos p)) by lia. lia.
  - rewrite shr_1_quotient by done. f_equal. lia.
Qed.

(** The exponents a binary64 can have, from zero. *)
Definition tiny : Z := 1074.

Lemma f_exponent e : fexp f_prec f_emax e = Z.max (e - 53) (- tiny).
Proof. unfold fexp, emin, f_prec, f_emax, tiny. lia. Qed.

(** [u] is the exponent, above the least one, that [n / d] is rounded at. *)
Definition rounds_at (n d u : Z) : Prop :=
  0 <= u ∧ n * 2 ^ tiny < d * 2 ^ (u + 53) ∧ (u = 0 ∨ d * 2 ^ (u + 52) <= n * 2 ^ tiny).

Lemma rounds_at_unique n d u v : 0 < d → rounds_at n d u → rounds_at n d v → u = v.
Proof.
  intros Hd (Hu & Hu1 & Hu2) (Hv & Hv1 & Hv2).
  assert (∀ x y, 0 <= x → 0 <= y → n * 2 ^ tiny < d * 2 ^ (x + 53) → d * 2 ^ (y + 52) <= n * 2 ^ tiny → y <= x) as H.
  { intros x y Hx Hy H1 H2. destruct (decide (y <= x)) as [|Hlt]; [done|].
    assert (2 ^ (x + 53) <= 2 ^ (y + 52)) by (apply Z.pow_le_mono_r; lia). nia. }
  destruct Hu2 as [->|Hu2], Hv2 as [->|Hv2]; [done|..].
  - pose proof (H 0 v). lia.
  - pose proof (H u 0). pose proof (H 0 u). lia.
  - pose proof (H u v). pose proof (H v u). lia.
Qed.

Lemma rounds_at_scaled n d u k : 0 < k → rounds_at n d u → rounds_at (n * k) (d * k) u.
Proof. intros Hk (Hu & H1 & H2). split_and!; [done|nia|]. destruct H2; [by left|right; nia]. Qed.

Lemma digits2_log2 p : Zpos (digits2_pos p) = Z.log2 (Zpos p) + 1.
Proof.
  induction p as [p IH|p IH|]; cbn [digits2_pos]; [..|done].
  - rewrite Pos2Z.inj_succ, IH, (Pos2Z.inj_xI p), Z.log2_succ_double by lia. lia.
  - rewrite Pos2Z.inj_succ, IH, (Pos2Z.inj_xO p), Z.log2_double by lia. lia.
Qed.

Lemma digits2_bounds p : 2 ^ (Zpos (digits2_pos p) - 1) <= Zpos p < 2 ^ Zpos (digits2_pos p).
Proof.
  rewrite digits2_log2. replace (Z.log2 (Zpos p) + 1 - 1) with (Z.log2 (Zpos p)) by lia.
  apply Z.log2_spec. lia.
Qed.

(** Dividing and shifting to the format's exponent. *)
Lemma quotient_rounds (n d : positive) :
  ∃ u, rounds_at (Zpos n) (Zpos d) u ∧
    (let '(q, e, l) := SFdiv_core_binary f_prec f_emax (Zpos n) 0 (Zpos d) 0 in
     shr_fexp f_prec f_emax q e l) =
    (quotient_record (Zpos n * 2 ^ tiny) (Zpos d * 2 ^ u), u - tiny).
Proof.
  unfold SFdiv_core_binary. cbn [Zdigits2].
  pose proof (digits2_bounds n) as Hdn. pose proof (digits2_bounds d) as Hdd.
  set (dn := Zpos (digits2_pos n)) in *. set (dd := Zpos (digits2_pos d)) in *.
  assert (0 < dn ∧ 0 < dd) as [Hdn0 Hdd0] by done.
  rewrite !Z.add_0_r, f_exponent. set (e := Z.min _ _).
  set (a := e + tiny). assert (0 <= a <= tiny) as Ha by (unfold a, e, tiny; lia).
  assert (match 0 - 0 - e with 0 => Zpos n | Zpos _ => Z.shiftl (Zpos n) (0 - 0 - e) | Zneg _ => 0 end
    = Zpos n * 2 ^ (tiny - a)) as ->.
  { replace (tiny - a) with (0 - 0 - e) by lia. destruct (0 - 0 - e) eqn:He; [simpl; lia| |unfold e in He; lia].
    by rewrite Z.shiftl_mul_pow2. }
  destruct (Z.div_eucl (Zpos n * 2 ^ (tiny - a)) (Zpos d)) as [q r] eqn:Hqr.
  assert (0 < 2 ^ (tiny - a)) as Hpow by lia.
  assert (q = Zpos n * 2 ^ (tiny - a) / Zpos d) as Hq by (unfold Z.div; by rewrite Hqr).
  assert (r = (Zpos n * 2 ^ (tiny - a)) mod Zpos d) as Hr by (unfold Z.modulo; by rewrite Hqr).
  unfold shr_fexp. rewrite Hq, Hr, new_location_record, <- Hq by lia.
  assert (2 ^ tiny = 2 ^ (tiny - a) * 2 ^ a) as Hlow by (rewrite <- Z.pow_add_r by lia; f_equal; lia).
  rewrite <- (quotient_record_scaled (Zpos n * 2 ^ (tiny - a)) (Zpos d) (2 ^ a)) by lia.
  rewrite <- Z.mul_assoc, <- Hlow.
  set (D := Zdigits2 q). assert (0 <= q) as Hq0 by (rewrite Hq; apply Z.div_pos; lia).
  assert (0 <= D ∧ q < 2 ^ D ∧ (q = 0 ∧ D = 0 ∨ 2 ^ (D - 1) <= q)) as (HD & HDhi & HDlo).
  { unfold D. destruct q as [|p|p]; [| |lia]; cbn [Zdigits2].
    - split_and!; [done|done|by left].
    - pose proof (digits2_bounds p). split_and!; [done|lia|right; lia]. }
  pose proof (Z.div_mod (Zpos n * 2 ^ (tiny - a)) (Zpos d) ltac:(lia)) as Hdiv. rewrite <- Hq, <- Hr in Hdiv.
  pose proof (Z.mod_pos_bound (Zpos n * 2 ^ (tiny - a)) (Zpos d) ltac:(lia)) as Hrb. rewrite <- Hr in Hrb.
  set (u := a + Z.max 0 (D - 53)).
  assert (0 < 2 ^ a) as Hpa by lia.
  exists u. split.
  - split_and!; [lia| |].
    + assert (Zpos n * 2 ^ (tiny - a) < Zpos d * 2 ^ D) by nia.
      assert (2 ^ D * 2 ^ a <= 2 ^ (u + 53)).
      { rewrite <- Z.pow_add_r by lia. apply Z.pow_le_mono_r; lia. }
      rewrite Hlow. nia.
    + destruct (decide (53 <= D)) as [H53|H53].
      * right. destruct HDlo as [[_ ?]|HDlo]; [lia|].
        replace (u + 52) with ((D - 1) + a) by lia. rewrite Z.pow_add_r, Hlow by lia.
        assert (Zpos d * 2 ^ (D - 1) <= Zpos n * 2 ^ (tiny - a)) by nia.
        rewrite !Z.mul_assoc. by apply Z.mul_le_mono_nonneg_r; [lia|].
      * left. destruct (decide (a = 0)) as [->|Hane]; [lia|]. exfalso.
        assert (e <= dn - dd - 53) as He by (unfold a in Hane; unfold e in *; lia).
        assert (2 ^ (dd + 52) <= Zpos n * 2 ^ (tiny - a)) as Hbig.
        { transitivity (2 ^ (dn - 1) * 2 ^ (tiny - a)); [|nia].
          rewrite <- Z.pow_add_r by lia. apply Z.pow_le_mono_r; lia. }
        rewrite Z.pow_add_r in Hbig by lia.
        assert (2 ^ 52 <= q) by (change (2 ^ 52) with 4503599627370496 in *; nia).
        assert (2 ^ D <= 2 ^ 52) by (apply Z.pow_le_mono_r; lia). lia.
  - rewrite f_exponent. unfold shr.
    replace (Z.max (D + e - 53) (- tiny) - e) with (Z.max (D - 53) (- a)) by lia.
    destruct (Z.max (D - 53) (- a)) as [|k|k] eqn:Hk.
    + f_equal; [f_equal; f_equal; f_equal; lia|lia].
    + rewrite iter_shr_quotient by lia. f_equal; [|lia]. f_equal.
      replace u with (a + Zpos k) by lia. rewrite Z.pow_add_r by lia. lia.
    + f_equal; [f_equal; f_equal; f_equal; lia|lia].
Qed.

Definition round_shifted (s : bool) (x : shr_record * Z) : float :=
  let '(mrs, e) := x in
  let '(mrs, e) := shr_fexp f_prec f_emax (round_nearest_even (shr_m mrs) (loc_of_shr_record mrs)) e loc_Exact in
  match shr_m mrs with
  | 0 => S754_zero s
  | Zpos m => if e <=? f_emax - f_prec then S754_finite s m e else S754_infinity s
  | _ => S754_nan
  end.

Lemma division_scaled s (n d k : positive) :
  SFdiv f_prec f_emax (S754_finite s (n * k) 0) (S754_finite false (d * k) 0) =
  SFdiv f_prec f_emax (S754_finite s n 0) (S754_finite false d 0).
Proof.
  assert (∀ n d : positive, SFdiv f_prec f_emax (S754_finite s n 0) (S754_finite false d 0) =
    round_shifted (xorb s false)
      (let '(q, e, l) := SFdiv_core_binary f_prec f_emax (Zpos n) 0 (Zpos d) 0 in
       shr_fexp f_prec f_emax q e l)) as Hdiv.
  { intros n' d'. unfold SFdiv, binary_round_aux, round_shifted. by destruct (SFdiv_core_binary _ _ _ _ _ _) as [[q e] l]. }
  rewrite !Hdiv. destruct (quotient_rounds n d) as (u & Hu & ->).
  destruct (quotient_rounds (n * k) (d * k)) as (v & Hv & ->). rewrite !Pos2Z.inj_mul in *.
  assert (v = u) as ->.
  { eapply (rounds_at_unique (Zpos n * Zpos k) (Zpos d * Zpos k)); [lia|done|by apply rounds_at_scaled]. }
  replace (Zpos n * Zpos k * 2 ^ tiny) with (Zpos n * 2 ^ tiny * Zpos k) by lia.
  replace (Zpos d * Zpos k * 2 ^ u) with (Zpos d * 2 ^ u * Zpos k) by lia.
  destruct Hu as [Hu0 _]. by rewrite quotient_record_scaled by lia.
Qed.

(** Equal fractions make one float. *)
Lemma float_of_ratio_scaled n (d k : positive) : float_of_ratio (n * Zpos k) (d * k) = float_of_ratio n d.
Proof. destruct n as [|p|p]; [done|..]; apply division_scaled. Qed.

Lemma float_of_equal_ratios n (d : positive) n' d' :
  n * Zpos d' = n' * Zpos d → float_of_ratio n d = float_of_ratio n' d'.
Proof.
  intros Heq. rewrite <- (float_of_ratio_scaled n d d'), Heq, Pos.mul_comm. apply float_of_ratio_scaled.
Qed.

(** Equal decimals are the same number, and have the same float. *)
Lemma dec_frac_max d : dec_frac d = (coef d * 10 ^ Z.max 0 (expo d), 10 ^ Z.max 0 (- expo d)).
Proof.
  unfold dec_frac. destruct (Z.leb_spec 0 (expo d)).
  - by rewrite !Z.max_r, Z.max_l by lia.
  - by rewrite Z.max_l, Z.max_r, Z.mul_1_r by lia.
Qed.

Lemma dec_eqb_frac a b :
  dec_eqb a b = true → (dec_frac a).1 * (dec_frac b).2 = (dec_frac b).1 * (dec_frac a).2.
Proof.
  unfold dec_eqb, dec_cmp, aligned. set (e := Z.min (expo a) (expo b)).
  destruct (Z.compare_spec (coef a * 10 ^ (expo a - e)) (coef b * 10 ^ (expo b - e))) as [Heq| |]; [|done..].
  intros _. set (m := Z.max 0 (- e)).
  assert (∀ d, e <= expo d →
    (dec_frac d).1 * 10 ^ m = coef d * 10 ^ (expo d - e) * 10 ^ (e + m) * (dec_frac d).2) as Hd.
  { intros d He. rewrite dec_frac_max. cbn [fst snd]. rewrite <-!Z.mul_assoc, <-!Z.pow_add_r by lia.
    do 2 f_equal. lia. }
  pose proof (Hd a ltac:(lia)) as Ha. pose proof (Hd b ltac:(lia)) as Hb. rewrite Heq in Ha.
  apply (Z.mul_reg_r _ _ (10 ^ m)); [lia|]. rewrite (Z.mul_comm _ (dec_frac b).2), (Z.mul_comm _ (dec_frac a).2).
  rewrite <-!Z.mul_assoc, Ha, Hb. lia.
Qed.

Lemma float_of_dec_frac d : float_of_dec d = float_of_ratio (dec_frac d).1 (Z.to_pos (dec_frac d).2).
Proof. unfold float_of_dec, dec_frac. by destruct (_ <=? _). Qed.

Lemma float_of_equal_decimals a b : dec_eqb a b = true → float_of_dec a = float_of_dec b.
Proof.
  intros Heq. rewrite !float_of_dec_frac. apply float_of_equal_ratios.
  pose proof (dec_frac_pos a). pose proof (dec_frac_pos b).
  rewrite !Z2Pos.id by done. by apply dec_eqb_frac.
Qed.

Lemma frac_cmp_equal x n d n' d' :
  0 < d → 0 < d' → n * d' = n' * d → frac_cmp x (n, d) = frac_cmp x (n', d') ∧ frac_cmp (n, d) x = frac_cmp (n', d') x.
Proof.
  intros Hd Hd' Heq. unfold frac_cmp. cbn [fst snd].
  rewrite (Zmult_compare_compat_r (x.1 * d) (n * x.2) d'), (Zmult_compare_compat_r (x.1 * d') (n' * x.2) d) by lia.
  rewrite (Zmult_compare_compat_r (n * x.2) (x.1 * d) d'), (Zmult_compare_compat_r (n' * x.2) (x.1 * d') d) by lia.
  replace (n * x.2 * d') with (n * d' * x.2) by lia. replace (n' * x.2 * d) with (n' * d * x.2) by lia.
  rewrite Heq. by replace (x.1 * d' * d) with (x.1 * d * d') by lia.
Qed.

Lemma num_equal_decimals a b :
  dec_eqb a b = true → ∀ x, num_eqb x (NDec a) = num_eqb x (NDec b) ∧
    num_lt x (NDec a) = num_lt x (NDec b) ∧ num_lt (NDec a) x = num_lt (NDec b) x.
Proof.
  intros Heq x. unfold num_eqb, num_lt. change (num_frac (NDec a)) with (Some (dec_frac a)).
  change (num_frac (NDec b)) with (Some (dec_frac b)). destruct (num_frac x) as [f|]; [|by destruct x as [|[]|]].
  pose proof (dec_frac_pos a) as Ha. pose proof (dec_frac_pos b) as Hb. apply dec_eqb_frac in Heq.
  destruct (dec_frac a) as [n d], (dec_frac b) as [n' d']. simpl in *.
  by destruct (frac_cmp_equal f n d n' d' Ha Hb Heq) as [-> ->].
Qed.

(** ** Whitespace at the ends of a text *)

Local Close Scope Z_scope.

(** An ASCII character that is no whitespace. *)
Definition solid (c : ascii) : bool := (code c <? 128)%Z && negb (is_space (code c)).

Lemma code_range c : (0 <= code c < 256)%Z.
Proof. unfold code. pose proof (N_ascii_bounded c). lia. Qed.

Lemma code_point_ascii c l : (code c < 128)%Z → code_point (c :: l) = (code c, 1).
Proof. intros Hc. unfold code_point. by rewrite (proj2 (Z.ltb_lt _ _) Hc). Qed.

Lemma continuation_ascii c : (code c < 128)%Z → continuation c = false.
Proof. intros Hc. unfold continuation. by rewrite (proj2 (Z.leb_gt _ _)) by lia. Qed.

(** An encoding ends before an ASCII character. *)
Lemma code_point_before y c z : (code c < 128)%Z → y ≠ [] → code_point (y ++ c :: z) = code_point y.
Proof.
  intros Hc Hy. pose proof (continuation_ascii c Hc) as Hk.
  destruct y as [|a [|b [|d [|e y]]]]; [done|..]; cbn [app code_point]; rewrite ?Hk;
    repeat case_match; simplify_eq; try done; by rewrite orb_true_r in *.
Qed.

Lemma code_point_width l : l ≠ [] → 1 <= (code_point l).2 <= length l.
Proof.
  destruct l as [|a [|b [|c [|d l]]]]; [done|..]; intros _; cbn [code_point]; repeat case_match; simpl; lia.
Qed.

Lemma code_point_take l : l ≠ [] → (0 <= (code_point l).1)%Z → code_point (take (code_point l).2 l) = code_point l.
Proof.
  intros Hl. destruct l as [|a [|b [|c [|d l]]]]; [done|..]; cbn [code_point];
    repeat (case_match; cbn [fst snd]; try lia); intros _; cbn [take code_point];
    repeat match goal with H : _ = _ |- _ => rewrite H; clear H end; done.
Qed.

Lemma space_width_ascii c l :
  (code c < 128)%Z → space_width (c :: l) = if is_space (code c) then 1 else 0.
Proof. intros Hc. unfold space_width. by rewrite code_point_ascii. Qed.

Lemma solid_code c : solid c = true → (code c < 128)%Z ∧ is_space (code c) = false.
Proof. unfold solid. intros [H1%Z.ltb_lt H2%negb_true_iff]%andb_true_iff. done. Qed.

Lemma space_width_solid c l : solid c = true → space_width (c :: l) = 0.
Proof. intros [H1 H2]%solid_code. by rewrite space_width_ascii, H2. Qed.

Lemma space_width_before y c z :
  (code c < 128)%Z → y ≠ [] → space_width (y ++ c :: z) = space_width y.
Proof. intros Hc Hy. unfold space_width. by rewrite code_point_before. Qed.

Lemma space_width_le l : space_width l <= length l.
Proof.
  unfold space_width. destruct l as [|c l]; [done|]. pose proof (code_point_width (c :: l) ltac:(done)).
  destruct (code_point _) as [cp n]. simpl in *. case_match; lia.
Qed.

(** A whitespace character by itself. *)
Lemma space_width_take l : space_width (take (space_width l) l) = space_width l.
Proof.
  unfold space_width at 2 3. destruct (code_point l) as [cp n] eqn:Hl. destruct (is_space cp) eqn:Hs; [|done].
  assert (l ≠ []) as Hne by (intros ->; injection Hl as <- <-; done).
  assert (0 <= cp)%Z as Hcp by (unfold is_space in Hs; lia).
  pose proof (code_point_take l Hne) as Ht. rewrite Hl in Ht. cbn [fst snd] in Ht.
  unfold space_width. rewrite Ht by done. by rewrite Hs.
Qed.

Lemma drop_space_upto_before fuel y c z :
  solid c = true → drop_space_upto fuel (y ++ c :: z) ≠ [].
Proof.
  intros Hc. revert y. induction fuel as [|fuel IH]; intros y; cbn [drop_space_upto]; [by destruct y|].
  destruct y as [|a y]; [simpl app; by rewrite space_width_solid|].
  rewrite space_width_before by (done || by apply solid_code).
  pose proof (space_width_le (a :: y)) as Hle. destruct (space_width (a :: y)) as [|n]; [done|].
  rewrite skipn_app. replace (S n - length (a :: y)) with 0 by lia. apply IH.
Qed.

Lemma drop_space_before y c z : solid c = true → drop_space (y ++ c :: z) ≠ [].
Proof. apply drop_space_upto_before. Qed.

Lemma drop_space_none l : space_width l = 0 → drop_space l = l.
Proof. intros Hl. unfold drop_space. destruct (length l); cbn [drop_space_upto]; [done|]. by rewrite Hl. Qed.

Lemma length_drop_space_upto fuel l : length (drop_space_upto fuel l) <= length l.
Proof.
  revert l. induction fuel as [|fuel IH]; intros l; cbn [drop_space_upto]; [done|].
  destruct (space_width l) as [|n]; [done|]. pose proof (IH (skipn (S n) l)). rewrite length_skipn in *. lia.
Qed.

Lemma length_drop_space l : length (drop_space l) <= length l.
Proof. apply length_drop_space_upto. Qed.

(** Nothing is dropped of a text that begins with no whitespace. *)
Lemma drop_space_fixed l : length (drop_space l) = length l → space_width l = 0.
Proof.
  unfold drop_space. pose proof (space_width_le l) as Hle. destruct (length l) as [|n] eqn:Hl; [lia|].
  cbn [drop_space_upto]. destruct (space_width l) as [|m]; [done|].
  pose proof (length_drop_space_upto n (skipn (S m) l)). rewrite length_skipn in *. lia.
Qed.

Lemma drop_space_solid c l : solid c = true → drop_space (c :: l) = c :: l.
Proof. intros Hc. by apply drop_space_none, space_width_solid. Qed.

Lemma length_drop_trailing l : length (drop_trailing l) <= length l.
Proof. induction l as [|c l IH]; cbn [drop_trailing]; [done|]. case_match; simpl; lia. Qed.

Lemma drop_trailing_fixed l : length (drop_trailing l) = length l → drop_trailing l = l.
Proof.
  induction l as [|c l IH]; cbn [drop_trailing]; [done|]. case_match; [done|]. simpl. intros [= Hl]. by rewrite IH.
Qed.

Lemma drop_trailing_app y c z :
  solid c = true → drop_trailing z = z → drop_trailing (y ++ c :: z) = y ++ c :: z.
Proof.
  intros Hc Hz. induction y as [|a y IH]; cbn [app drop_trailing].
  - rewrite drop_space_solid by done. by rewrite Hz.
  - pose proof (drop_space_before (a :: y) c z Hc) as Hd. cbn [app] in Hd. rewrite IH. by case_match.
Qed.

Lemma strip_solid l : Forall (λ c, solid c = true) l → drop_space l = l ∧ drop_trailing l = l.
Proof.
  intros Hl. split; [destruct Hl; [done|]; by apply drop_space_solid|].
  induction Hl as [|c l Hc _ IH]; [done|]. by apply (drop_trailing_app [] c l).
Qed.

(** Reading its digits changes nothing of an ASCII text. *)
Lemma ascii_digits_ascii l : Forall (λ c, code c < 128)%Z l → ascii_digits l = l.
Proof.
  unfold ascii_digits. induction 1 as [|c l Hc _ IH]; [done|]. cbn [ascii_digits_from].
  rewrite code_point_ascii by done. cbn [Nat.pred]. rewrite IH.
  destruct c as [[] [] [] [] [] [] [] []]; vm_compute in Hc; done.
Qed.
