(* ===== verification/PyTime.v ===== *)
(** [datetime] as the sources use it: aware instants with microseconds,
    [isoformat], [datetime.fromisoformat] (calendar dates, extended or basic;
    ISO week dates are not modelled and read as invalid), addition of a
    [timedelta], and [int(d.timestamp())]. *)
From S2P Require Import Prelude PyNum PyValue.
From Stdlib Require Import Ascii SpecFloat.

Local Open Scope Z_scope.

(** ** Proleptic Gregorian calendar, days counted from 1970-01-01 *)

Definition days_from_civil (y m d : Z) : Z :=
  let y := if m <=? 2 then y - 1 else y in
  let era := y / 400 in
  let yoe := y mod 400 in
  let doy := (153 * (if 2 <? m then m - 3 else m + 9) + 2) / 5 + d - 1 in
  let doe := yoe * 365 + yoe / 4 - yoe / 100 + doy in
  era * 146097 + doe - 719468.

(** Year of the era, month and day of a day of a 400-year era. *)
Definition civil_of_doe (doe : Z) : Z * Z * Z :=
  let yoe := (doe - doe / 1460 + doe / 36524 - doe / 146096) / 365 in
  let doy := doe - (365 * yoe + yoe / 4 - yoe / 100) in
  let mp := (5 * doy + 2) / 153 in
  let d := doy - (153 * mp + 2) / 5 + 1 in
  let m := if mp <? 10 then mp + 3 else mp - 9 in
  (yoe, m, d).

Definition civil_from_days (z : Z) : Z * Z * Z :=
  let z := z + 719468 in
  let '(yoe, m, d) := civil_of_doe (z mod 146097) in
  let y := yoe + (z / 146097) * 400 in
  (if m <=? 2 then y + 1 else y, m, d).

Definition is_leap (y : Z) : bool :=
  (y mod 4 =? 0) && (negb (y mod 100 =? 0) || (y mod 400 =? 0)).

Definition days_in_month (y m : Z) : Z :=
  if m =? 2 then (if is_leap y then 29 else 28)
  else if (m =? 4) || (m =? 6) || (m =? 9) || (m =? 11) then 30 else 31.

(** ** Aware datetimes *)

Definition us_per_second : Z := 1000000.
Definition us_per_day : Z := 86400 * us_per_second.

(** Local wall-clock microseconds since 1970-01-01T00:00, and the UTC offset. *)
Record datetime : Type := DT { local_us : Z; offset_us : Z }.

#[export] Instance datetime_eq_dec : EqDecision datetime.
Proof. solve_decision. Defined.

(** The point in time a datetime names, by which aware datetimes compare. *)
Definition instant (d : datetime) : Z := local_us d - offset_us d.

(** [datetime.min] and [datetime.max] as wall-clock microseconds. *)
Definition min_local_us : Z := days_from_civil 1 1 1 * us_per_day.
Definition max_local_us : Z := days_from_civil 10000 1 1 * us_per_day - 1.

Definition in_range (us : Z) : bool := (min_local_us <=? us) && (us <=? max_local_us).

Definition dt_leb (a b : datetime) : bool := instant a <=? instant b.
Definition dt_ltb (a b : datetime) : bool := instant a <? instant b.

(** [d + timedelta(microseconds=us)]. *)
Definition dt_add_us (d : datetime) (us : Z) : result datetime :=
  if in_range (local_us d + us) then Ok (DT (local_us d + us) (offset_us d))
  else Err OverflowError.

(** [timedelta(seconds=n)] of an integer: at most 999999999 days. *)
Definition timedelta_of_seconds (n : Z) : result Z :=
  if Z.abs (n / 86400) <=? 999999999 then Ok (n * us_per_second) else Err OverflowError.

(** [timedelta(seconds=f)] of a float: the fraction is scaled in binary64 and
    rounded half to even. *)
Definition timedelta_of_float (f : float) : result Z :=
  match f, float_trunc f with
  | S754_nan, _ => Err (ValueError "cannot convert float NaN to integer")
  | _, Some whole =>
      let frac := SFsub f_prec f_emax f (float_of_ratio whole 1) in
      let scaled := SFmul f_prec f_emax frac (float_of_ratio us_per_second 1) in
      let us :=
        match float_frac scaled with
        | Some (n, d) => Z.sgn n * div_half_even (Z.abs n) d
        | None => 0
        end in
      let total := whole * us_per_second + us in
      if Z.abs (total / us_per_day) <=? 999999999 then Ok total else Err OverflowError
  | _, None => Err OverflowError
  end.

(** [int(d.timestamp())]: the true division is a binary64 one. *)
Definition timestamp_int (d : datetime) : Z :=
  default 0 (float_trunc (float_of_ratio (instant d) 1000000)).

(** ** [isoformat] *)

Definition digit_char (z : Z) : ascii := ascii_of_N (Z.to_N (48 + z mod 10)).

(** The last [n] decimal digits of [z], zero padded. *)
Fixpoint pad_digits (n : nat) (z : Z) (acc : chars) : chars :=
  match n with
  | O => acc
  | S n => pad_digits n (z / 10) (digit_char z :: acc)
  end.

Definition pad (n : nat) (z : Z) : chars := pad_digits n z [].

Definition time_chars (s us : Z) : chars :=
  pad 2 (s / 3600) ++ ":"%char :: pad 2 (s / 60 mod 60) ++ ":"%char :: pad 2 (s mod 60) ++
  (if us =? 0 then [] else "."%char :: pad 6 us).

(** [HH:MM], with seconds and microseconds only when they are not zero. *)
Definition offset_text (s us : Z) : chars :=
  pad 2 (s / 3600) ++ ":"%char :: pad 2 (s / 60 mod 60) ++
  (if (s mod 60 =? 0) && (us =? 0) then []
   else ":"%char :: pad 2 (s mod 60) ++ (if us =? 0 then [] else "."%char :: pad 6 us)).

Definition offset_chars (off : Z) : chars :=
  (if off <? 0 then "-"%char else "+"%char) ::
  offset_text (Z.abs off / us_per_second) (Z.abs off mod us_per_second).

Definition isoformat_chars (d : datetime) : chars :=
  let '(y, m, dd) := civil_from_days (local_us d / us_per_day) in
  let t := local_us d mod us_per_day in
  pad 4 y ++ "-"%char :: pad 2 m ++ "-"%char :: pad 2 dd ++
  "T"%char :: time_chars (t / us_per_second) (t mod us_per_second) ++
  offset_chars (offset_us d).

Definition isoformat (d : datetime) : string := of_chars (isoformat_chars d).

(** ** [fromisoformat] *)

(** Exactly [n] digits. *)
Fixpoint read_digits (n : nat) (acc : Z) (l : chars) : option (Z * chars) :=
  match n, l with
  | O, _ => Some (acc, l)
  | S n, c :: l => x ← digit_of c; read_digits n (10 * acc + x) l
  | S _, [] => None
  end.

Definition all_digits (l : chars) : bool :=
  forallb (λ c, match digit_of c with Some _ => true | None => false end) l.

(** Up to six digits scaled to microseconds; further digits are dropped. *)
Definition read_fraction (l : chars) : option Z :=
  let n := Nat.min 6 (List.length l) in
  '(x, rest) ← read_digits n 0 l;
  if bool_decide (n = 0%nat) then None
  else if all_digits rest then Some (x * 10 ^ (6 - Z.of_nat n)) else None.

Definition is_point (c : ascii) : bool := bool_decide (c = "."%char ∨ c = ","%char).

(** Hour, minute, second, microsecond: components are separated by colons
    throughout or not at all, and a fraction may follow any of them. *)
Fixpoint read_clock (n : nat) (sep : option bool) (l : chars) : option (list Z * Z) :=
  match n with
  | O => us ← read_fraction l; Some ([], us)
  | S n =>
      '(x, rest) ← read_digits 2 0 l;
      match rest with
      | [] => Some ([x], 0)
      | [_] => None
      | c :: rest' =>
          let colon := bool_decide (c = ":"%char) in
          let sep := default colon sep in
          '(xs, us) ←
            (if sep && colon then read_clock n (Some sep) rest'
             else if is_point c then us ← read_fraction rest'; Some ([], us)
             else if negb sep then read_clock n (Some sep) rest
             else None);
          Some (x :: xs, us)
      end
  end.

Definition clock_seconds (xs : list Z) : Z :=
  3600 * nth 0 xs 0 + 60 * nth 1 xs 0 + nth 2 xs 0.

(** The time text up to the first sign or [Z], and what follows it. *)
Fixpoint split_zone (l : chars) : chars * option (ascii * chars) :=
  match l with
  | [] => ([], None)
  | c :: l =>
      if bool_decide (c = "+"%char ∨ c = "-"%char ∨ c = "Z"%char) then ([], Some (c, l))
      else let '(t, z) := split_zone l in (c :: t, z)
  end.

Definition read_offset (c : ascii) (l : chars) : option Z :=
  if bool_decide (c = "Z"%char) then
    match l with [] => Some 0 | _ => None end
  else
    '(xs, us) ← read_clock 3 None l;
    let s := clock_seconds xs in
    if s =? 0 then Some 0
    else if 86400 * us_per_second <=? s * us_per_second + us then None
    else Some (signed (bool_decide (c = "-"%char)) (s * us_per_second + us)).

Definition read_date (l : chars) : option (Z * chars) :=
  '(y, l) ← read_digits 4 0 l;
  '(m, d, l) ←
    match l with
    | "-"%char :: l =>
        '(m, l) ← read_digits 2 0 l;
        match l with
        | "-"%char :: l => '(d, l) ← read_digits 2 0 l; Some (m, d, l)
        | _ => None
        end
    | _ => '(m, l) ← read_digits 2 0 l; '(d, l) ← read_digits 2 0 l; Some (m, d, l)
    end;
  if (1 <=? y) && (1 <=? m) && (m <=? 12) && (1 <=? d) && (d <=? days_in_month y m)
  then Some (days_from_civil y m d, l) else None.

(** Wall-clock microseconds and the UTC offset, [None] when naive. *)
Definition fromisoformat_chars (l : chars) : option (Z * option Z) :=
  '(days, l) ← read_date l;
  match l with
  | [] => Some (days * us_per_day, None)
  | _ :: l =>
      let '(t, zone) := split_zone l in
      '(xs, us) ← read_clock 3 None t;
      if (nth 0 xs 0 <=? 23) && (nth 1 xs 0 <=? 59) && (nth 2 xs 0 <=? 59) then
        let local := days * us_per_day + clock_seconds xs * us_per_second + us in
        match zone with
        | None => Some (local, None)
        | Some (c, z) => off ← read_offset c z; Some (local, Some off)
        end
      else None
  end.

Definition epoch_example : datetime := DT 1700000000123456 0.

Example iso_example :
  isoformat epoch_example = "2023-11-14T22:13:20.123456+00:00"%string.
Proof. vm_compute. reflexivity. Qed.
Example iso_offset_example :
  isoformat (DT 0 (- 19800 * us_per_second)) = "1970-01-01T00:00:00-05:30"%string.
Proof. vm_compute. reflexivity. Qed.
Example from_iso_basic :
  fromisoformat_chars (to_chars "20240101T1234.5+0530") =
  Some (days_from_civil 2024 1 1 * us_per_day + (12 * 3600 + 34 * 60) * us_per_second + 500000,
        Some (19800 * us_per_second)).
Proof. vm_compute. reflexivity. Qed.
Example from_iso_bad_day : fromisoformat_chars (to_chars "2023-02-29") = None.
Proof. vm_compute. reflexivity. Qed.
