(* ===== verification/PyTimeFacts.v ===== *)
(** The text of a datetime reads back as the datetime. *)
From S2P Require Import Prelude PyNum PyValue PyNumFacts PyTime.
From Stdlib Require Import Ascii.

Local Open Scope Z_scope.

(** ** The calendar *)

Definition bump (m : Z) : Z := if m <=? 2 then 1 else 0.

Definition yoe_of (doe : Z) : Z := (doe - doe / 1460 + doe / 36524 - doe / 146096) / 365.
Definition doy_of (doe : Z) : Z :=
  doe - (365 * yoe_of doe + yoe_of doe / 4 - yoe_of doe / 100).

Section div_lia.
Ltac Zify.zify_post_hook ::= Z.div_mod_to_equations.

Lemma yoe_bound doe : 0 <= doe < 146097 → 0 <= yoe_of doe < 400.
Proof. unfold yoe_of. lia. Qed.
Lemma doy_bound doe : 0 <= doe < 146097 → 0 <= doy_of doe < 366.
Proof. unfold doy_of, yoe_of. lia. Qed.
Lemma doy_last_4 doe :
  0 <= doe < 146097 → doy_of doe = 365 → (yoe_of doe + 1) mod 4 = 0.
Proof. unfold doy_of, yoe_of. lia. Qed.
Lemma doy_last_100 doe :
  0 <= doe < 146097 → doy_of doe = 365 → (yoe_of doe + 1) mod 100 = 0 → yoe_of doe = 399.
Proof. unfold doy_of, yoe_of. lia. Qed.
Lemma doe_of_doy doe :
  doe = yoe_of doe * 365 + yoe_of doe / 4 - yoe_of doe / 100 + doy_of doe.
Proof. unfold doy_of. lia. Qed.
End div_lia.

(** Month and day of a day of the year counted from March. *)
Definition month_of (doy : Z) : Z :=
  let mp := (5 * doy + 2) / 153 in if mp <? 10 then mp + 3 else mp - 9.
Definition day_of (doy : Z) : Z := doy - (153 * ((5 * doy + 2) / 153) + 2) / 5 + 1.

(** Everything the round trip needs of one day of the year, as one test. *)
Definition doy_ok (doy : Z) : bool :=
  let m := month_of doy in
  let d := day_of doy in
  (1 <=? m) && (m <=? 12) && (1 <=? d) &&
  ((153 * (if 2 <? m then m - 3 else m + 9) + 2) / 5 + d - 1 =? doy) &&
  (Bool.eqb (m <=? 2) (306 <=? doy)) &&
  (d <=? (if m =? 2 then (if doy =? 365 then 29 else 28)
          else if (m =? 4) || (m =? 6) || (m =? 9) || (m =? 11) then 30 else 31)).

Lemma doy_ok_spec doy : 0 <= doy < 366 → doy_ok doy = true.
Proof.
  assert (forallb doy_ok (seqZ 0 366) = true) as Hall by (vm_compute; reflexivity).
  intros. eapply forallb_forall; [exact Hall|].
  apply list_elem_of_In, elem_of_seqZ. lia.
Qed.

Lemma leap_of_last_day doe :
  0 <= doe < 146097 → doy_of doe = 365 → is_leap (yoe_of doe + 1) = true.
Proof.
  intros Hd Hy. unfold is_leap.
  rewrite (doy_last_4 doe Hd Hy). simpl.
  destruct ((yoe_of doe + 1) mod 100 =? 0) eqn:E; [|done].
  apply Z.eqb_eq in E. by rewrite (doy_last_100 doe Hd Hy E).
Qed.

Lemma is_leap_era y k : is_leap (y + k * 400) = is_leap y.
Proof.
  unfold is_leap.
  replace ((y + k * 400) mod 4) with (y mod 4)
    by (replace (k * 400) with (k * 100 * 4) by lia; by rewrite Z.mod_add by lia).
  replace ((y + k * 400) mod 100) with (y mod 100)
    by (replace (k * 400) with (k * 4 * 100) by lia; by rewrite Z.mod_add by lia).
  by rewrite Z.mod_add by lia.
Qed.

Lemma days_from_civil_era y m d k :
  days_from_civil (y + k * 400) m d = days_from_civil y m d + k * 146097.
Proof.
  unfold days_from_civil.
  replace (if m <=? 2 then y + k * 400 - 1 else y + k * 400)
    with ((if m <=? 2 then y - 1 else y) + k * 400) by (destruct (m <=? 2); lia).
  rewrite Z.div_add, Z.mod_add by lia. lia.
Qed.

Definition civil_in_range (z : Z) : Prop :=
  days_from_civil 1 1 1 <= z < days_from_civil 10000 1 1.

Lemma civil_of_doe_ok doe :
  0 <= doe < 146097 →
  let '(yoe, m, d) := civil_of_doe doe in
  0 <= yoe < 400 ∧ 1 <= m <= 12 ∧ 1 <= d <= days_in_month (yoe + bump m) m ∧
  days_from_civil (yoe + bump m) m d = doe - 719468 ∧
  (306 <= doe → 1 <= yoe + bump m) ∧ (doe <= 146036 → yoe + bump m <= 399).
Proof.
  intros Hdoe. unfold civil_of_doe. fold (yoe_of doe) (doy_of doe).
  fold (month_of (doy_of doe)) (day_of (doy_of doe)).
  pose proof (yoe_bound doe Hdoe) as Hy. pose proof (doy_bound doe Hdoe) as Hd.
  pose proof (doy_ok_spec _ Hd) as Hok. unfold doy_ok in Hok.
  set (m := month_of (doy_of doe)) in *. set (d := day_of (doy_of doe)) in *.
  repeat (apply andb_true_iff in Hok; destruct Hok as [Hok ?]).
  repeat match goal with
    | H : (_ <=? _) = true |- _ => apply Z.leb_le in H
    | H : (_ =? _) = true |- _ => apply Z.eqb_eq in H
    | H : Bool.eqb _ _ = true |- _ => apply Bool.eqb_prop in H
    end.
  assert (bump m = 1 ∧ 306 <= doy_of doe ∨ bump m = 0 ∧ doy_of doe < 306) as Hbump.
  { unfold bump. destruct (m <=? 2), (306 <=? doy_of doe) eqn:E; try done;
      [apply Z.leb_le in E|apply Z.leb_gt in E]; lia. }
  pose proof (doe_of_doy doe) as Hsplit.
  assert (days_from_civil (yoe_of doe + bump m) m d = doe - 719468) as Hback.
  { unfold days_from_civil.
    replace (if m <=? 2 then yoe_of doe + bump m - 1 else yoe_of doe + bump m)
      with (yoe_of doe) by (unfold bump; destruct (m <=? 2); lia).
    rewrite Z.div_small, Z.mod_small by lia. lia. }
  split_and!; try lia.
  - unfold days_in_month. destruct (m =? 2) eqn:Em; [|done].
    destruct (doy_of doe =? 365) eqn:E365; [|destruct (is_leap _); lia].
    apply Z.eqb_eq in E365, Em. unfold bump. rewrite Em. simpl.
    by rewrite leap_of_last_day.
  - assert (yoe_of doe = 0 → doe = doy_of doe) by (intros E; rewrite E in Hsplit;
          change (0 * 365 + 0 / 4 - 0 / 100) with 0 in Hsplit; lia).
    lia.
  - assert (yoe_of doe = 399 → doe = 145731 + doy_of doe)
      by (intros E; rewrite E in Hsplit;
          change (399 * 365 + 399 / 4 - 399 / 100) with 145731 in Hsplit; lia).
    lia.
Qed.

Lemma civil_from_days_ok z :
  civil_in_range z →
  let '(y, m, d) := civil_from_days z in
  1 <= y <= 9999 ∧ 1 <= m <= 12 ∧ 1 <= d <= days_in_month y m ∧ days_from_civil y m d = z.
Proof.
  unfold civil_in_range. change (days_from_civil 1 1 1) with (-719162).
  change (days_from_civil 10000 1 1) with 2932897. intros Hz.
  unfold civil_from_days.
  set (doe := (z + 719468) mod 146097). set (k := (z + 719468) / 146097).
  assert (z + 719468 = 146097 * k + doe) as Hsplit by (unfold k, doe; apply Z.div_mod; lia).
  assert (0 <= doe < 146097) as Hdoe by (unfold doe; apply Z.mod_pos_bound; lia).
  pose proof (civil_of_doe_ok doe Hdoe) as Hok.
  destruct (civil_of_doe doe) as [[yoe m] d].
  destruct Hok as (Hy & Hm & Hd & Hback & Hlow & Hhigh).
  replace (if m <=? 2 then yoe + k * 400 + 1 else yoe + k * 400) with (yoe + bump m + k * 400)
    by (unfold bump; destruct (m <=? 2); lia).
  rewrite days_from_civil_era. unfold days_in_month in *. rewrite is_leap_era.
  assert (0 <= bump m <= 1) by (unfold bump; destruct (m <=? 2); lia).
  split_and!; lia.
Qed.

(** ** Digits *)

Lemma digit_of_digit_char z : digit_of (digit_char z) = Some (z mod 10).
Proof.
  unfold digit_char. pose proof (Z.mod_pos_bound z 10 ltac:(lia)) as H.
  remember (z mod 10) as x eqn:Hx. clear Hx.
  assert (x ∈ seqZ 0 10) as Hin by (apply elem_of_seqZ; lia).
  change (seqZ 0 10) with [0;1;2;3;4;5;6;7;8;9] in Hin.
  repeat (apply elem_of_cons in Hin as [->|Hin]; [vm_compute; reflexivity|]).
  by apply not_elem_of_nil in Hin.
Qed.

Lemma pad_digits_app n z acc : pad_digits n z acc = pad n z ++ acc.
Proof.
  unfold pad. revert z acc. induction n as [|n IH]; intros z acc; simpl; [done|].
  rewrite IH, (IH _ [_]), <- app_assoc. done.
Qed.

Lemma pad_S n z : pad (S n) z = pad n (z / 10) ++ [digit_char z].
Proof. unfold pad at 1. simpl. apply pad_digits_app. Qed.

Lemma length_pad n z : length (pad n z) = n.
Proof.
  revert z. induction n as [|n IH]; intros z; [done|].
  rewrite pad_S, length_app, IH. simpl. lia.
Qed.

Lemma read_digits_S n a l :
  read_digits (S n) a l =
  ('(x, l') ← read_digits n a l;
   match l' with c :: l'' => y ← digit_of c; Some (10 * x + y, l'') | [] => None end).
Proof.
  revert a l. induction n as [|n IH]; intros a l; [destruct l; done|].
  destruct l as [|c l]; [done|].
  change (read_digits (S (S n)) a (c :: l))
    with (x ← digit_of c; read_digits (S n) (10 * a + x) l).
  change (read_digits (S n) a (c :: l)) with (x ← digit_of c; read_digits n (10 * a + x) l).
  destruct (digit_of c) as [x|]; simpl; [apply IH|done].
Qed.

Lemma read_pad n a z rest :
  read_digits n a (pad n z ++ rest) = Some (a * 10 ^ Z.of_nat n + z mod 10 ^ Z.of_nat n, rest).
Proof.
  revert a z rest. induction n as [|n IH]; intros a z rest.
  - simpl. rewrite Z.mod_1_r. f_equal. f_equal. lia.
  - rewrite read_digits_S, pad_S, <- app_assoc, IH. simpl.
    rewrite digit_of_digit_char. simpl. f_equal. f_equal.
    rewrite Nat2Z.inj_succ, Z.pow_succ_r by lia.
    rewrite (Z.rem_mul_r z 10 (10 ^ Z.of_nat n)) by lia. lia.
Qed.

Lemma read_pad_small n z rest :
  0 <= z < 10 ^ Z.of_nat n → read_digits n 0 (pad n z ++ rest) = Some (z, rest).
Proof. intros. rewrite read_pad, Z.mod_small by done. done. Qed.

Lemma read_pad2 z rest : 0 <= z < 100 → read_digits 2 0 (pad 2 z ++ rest) = Some (z, rest).
Proof. intros. by apply read_pad_small. Qed.
Lemma read_pad4 z rest : 0 <= z < 10000 → read_digits 4 0 (pad 4 z ++ rest) = Some (z, rest).
Proof. intros. by apply read_pad_small. Qed.

(** Characters an unsigned clock text is made of. *)
Definition clock_char (c : ascii) : bool :=
  match digit_of c with Some _ => true | None => bool_decide (c = ":"%char ∨ c = "."%char) end.

Lemma clock_pad n z : Forall (λ c, clock_char c = true) (pad n z).
Proof.
  revert z. induction n as [|n IH]; intros z; [constructor|].
  rewrite pad_S. apply Forall_app. split; [done|].
  constructor; [|done]. unfold clock_char. by rewrite digit_of_digit_char.
Qed.

Lemma split_zone_clock l c z :
  Forall (λ c, clock_char c = true) l → c = "+"%char ∨ c = "-"%char →
  split_zone (l ++ c :: z) = (l, Some (c, z)).
Proof.
  intros Hl Hc. induction Hl as [|x l Hx _ IH]; simpl.
  - rewrite bool_decide_eq_true_2 by tauto. done.
  - rewrite bool_decide_eq_false_2, IH; [done|].
    intros [-> | [-> | ->]]; vm_compute in Hx; done.
Qed.

(** ** Clocks and offsets *)

Lemma time_chars_clock s us : Forall (λ c, clock_char c = true) (time_chars s us).
Proof.
  unfold time_chars.
  repeat first [apply Forall_app; split | apply clock_pad | constructor; [done|]
               | case_match; [constructor|]].
Qed.

Lemma all_digits_nil : all_digits [] = true.
Proof. done. Qed.

Lemma read_fraction_pad us : 0 <= us < 1000000 → read_fraction (pad 6 us) = Some us.
Proof.
  intros. unfold read_fraction. rewrite length_pad. simpl Nat.min.
  rewrite <- (app_nil_r (pad 6 us)), read_pad_small by done. simpl. f_equal. lia.
Qed.

Lemma pad_cons n z : ∃ c l, pad (S n) z = c :: l ∧ is_Some (digit_of c).
Proof.
  revert z. induction n as [|n IH]; intros z.
  - exists (digit_char z), []. rewrite digit_of_digit_char. eauto.
  - rewrite pad_S. destruct (IH (z / 10)) as (c & l & -> & ?). exists c, (l ++ [digit_char z]). eauto.
Qed.

(** One component followed by a colon. *)
Lemma read_clock_colon n sep x rest :
  0 <= x < 100 → rest ≠ [] → sep = None ∨ sep = Some true →
  read_clock (S n) sep (pad 2 x ++ ":"%char :: rest) =
  ('(xs, us) ← read_clock n (Some true) rest; Some (x :: xs, us)).
Proof.
  intros Hx Hrest Hsep. cbn [read_clock]. rewrite read_pad2 by done. simpl.
  destruct rest as [|c rest]; [done|]. by destruct Hsep as [-> | ->].
Qed.

Lemma read_clock_last n sep x : 0 <= x < 100 → read_clock (S n) sep (pad 2 x) = Some ([x], 0).
Proof.
  intros. cbn [read_clock]. rewrite <- (app_nil_r (pad 2 x)), read_pad2 by done. done.
Qed.

Lemma read_clock_point n x us :
  0 <= x < 100 → 0 <= us < 1000000 →
  read_clock (S n) (Some true) (pad 2 x ++ "."%char :: pad 6 us) = Some ([x], us).
Proof.
  intros. cbn [read_clock]. rewrite read_pad2 by done. simpl mbind.
  destruct (pad_cons 5 us) as (c & l & Hp & _). rewrite Hp.
  change (read_fraction (c :: l)) with (read_fraction (c :: l)).
  cbn -[read_fraction]. rewrite <- Hp, read_fraction_pad by done. done.
Qed.

Lemma pad2_app_not_nil x l : pad 2 x ++ l ≠ [].
Proof. destruct (pad_cons 1 x) as (c & l' & -> & _). done. Qed.
Lemma pad2_not_nil x : pad 2 x ≠ [].
Proof. rewrite <- (app_nil_r (pad 2 x)). apply pad2_app_not_nil. Qed.

Section clock.
Ltac Zify.zify_post_hook ::= Z.div_mod_to_equations.

Lemma clock_parts s :
  0 <= s < 86400 →
  0 <= s / 3600 < 24 ∧ 0 <= s / 60 mod 60 < 60 ∧ 0 <= s mod 60 < 60 ∧
  s = 3600 * (s / 3600) + 60 * (s / 60 mod 60) + s mod 60.
Proof. lia. Qed.
End clock.

Definition clock_list (s : Z) : list Z := [s / 3600; s / 60 mod 60; s mod 60].

Lemma clock_seconds_list s : 0 <= s < 86400 → clock_seconds (clock_list s) = s.
Proof. intros H. unfold clock_seconds, clock_list. simpl. destruct (clock_parts s H). lia. Qed.

(** The seconds and fraction that end a clock text. *)
Lemma read_clock_tail n x us :
  0 <= x < 100 → 0 <= us < 1000000 →
  read_clock (S n) (Some true)
    (pad 2 x ++ (if us =? 0 then [] else "."%char :: pad 6 us)) = Some ([x], us).
Proof.
  intros. destruct (us =? 0) eqn:E.
  - apply Z.eqb_eq in E as ->. rewrite app_nil_r. by apply read_clock_last.
  - by apply read_clock_point.
Qed.

Lemma read_time s us :
  0 <= s < 86400 → 0 <= us < 1000000 →
  read_clock 3 None (time_chars s us) = Some (clock_list s, us).
Proof.
  intros Hs Hus. destruct (clock_parts s Hs) as (? & ? & ? & _). unfold time_chars.
  rewrite read_clock_colon by (first [lia | apply pad2_app_not_nil | auto]).
  rewrite read_clock_colon by (first [lia | apply pad2_app_not_nil | auto]).
  by rewrite read_clock_tail by lia.
Qed.

(** Offsets the parser can produce: under a day, and not a bare fraction. *)
Definition valid_offset (off : Z) : Prop :=
  Z.abs off < us_per_day ∧ (off = 0 ∨ us_per_second <= Z.abs off).

Lemma read_offset_text s us :
  0 <= s < 86400 → 0 <= us < 1000000 →
  read_clock 3 None (offset_text s us) = Some (if (s mod 60 =? 0) && (us =? 0) then [s / 3600; s / 60 mod 60] else clock_list s, us).
Proof.
  intros Hs Hus. destruct (clock_parts s Hs) as (? & ? & ? & _). unfold offset_text.
  rewrite read_clock_colon by (first [lia | apply pad2_app_not_nil | auto]).
  destruct ((s mod 60 =? 0) && (us =? 0)) eqn:E.
  - apply andb_true_iff in E as [_ E%Z.eqb_eq]. subst us.
    by rewrite app_nil_r, read_clock_last by lia.
  - rewrite read_clock_colon by (first [lia | apply pad2_app_not_nil | auto]).
    by rewrite read_clock_tail by lia.
Qed.

Lemma offset_chars_cons off :
  ∃ c l, offset_chars off = c :: l ∧ (c = "+"%char ∨ c = "-"%char).
Proof. unfold offset_chars. destruct (off <? 0); eauto. Qed.

Lemma abs_parts off :
  Z.abs off < us_per_day →
  0 <= Z.abs off / us_per_second < 86400 ∧ 0 <= Z.abs off mod us_per_second < 1000000 ∧
  Z.abs off = Z.abs off / us_per_second * us_per_second + Z.abs off mod us_per_second.
Proof.
  intros H. unfold us_per_day in H.
  pose proof (Z.mod_pos_bound (Z.abs off) us_per_second ltac:(done)).
  pose proof (Z.div_mod (Z.abs off) us_per_second ltac:(done)) as Hs.
  unfold us_per_second in *. split_and!; lia.
Qed.

Lemma read_offset_chars off c l :
  valid_offset off → offset_chars off = c :: l → read_offset c l = Some off.
Proof.
  intros [Hlt Hbare] Hchars. destruct (abs_parts off Hlt) as (Hs & Hus & Heq).
  unfold offset_chars in Hchars.
  set (s := Z.abs off / us_per_second) in *. set (us := Z.abs off mod us_per_second) in *.
  injection Hchars as Hc Hl. unfold read_offset.
  rewrite bool_decide_eq_false_2 by (rewrite <- Hc; destruct (off <? 0); done).
  rewrite <- Hl, read_offset_text by done.
  set (xs := if _ && _ then _ else _).
  assert (clock_seconds xs = s) as Hcs.
  { unfold xs. destruct ((s mod 60 =? 0) && (us =? 0)) eqn:E; [|by apply clock_seconds_list].
    apply andb_true_iff in E as [E%Z.eqb_eq _]. destruct (clock_parts s Hs).
    unfold clock_seconds. simpl. lia. }
  simpl. rewrite Hcs. destruct (s =? 0) eqn:Es.
  - apply Z.eqb_eq in Es. f_equal. unfold us_per_second in *. lia.
  - rewrite (proj2 (Z.leb_gt _ _)) by (unfold us_per_day, us_per_second in *; lia).
    f_equal. rewrite <- Hc.
    destruct (off <? 0) eqn:Eo; simpl; [apply Z.ltb_lt in Eo|apply Z.ltb_ge in Eo];
      unfold signed; simpl; lia.
Qed.

(** ** The round trip *)

Definition valid_datetime (d : datetime) : Prop :=
  in_range (local_us d) = true ∧ valid_offset (offset_us d).

Lemma read_date_chars y m d rest :
  1 <= y <= 9999 → 1 <= m <= 12 → 1 <= d <= days_in_month y m →
  read_date (pad 4 y ++ "-"%char :: pad 2 m ++ "-"%char :: pad 2 d ++ rest) =
  Some (days_from_civil y m d, rest).
Proof.
  intros Hy Hm Hd.
  assert (d <= 31) by (unfold days_in_month in Hd; repeat case_match; lia).
  unfold read_date. rewrite read_pad4 by lia. cbn [mbind option_bind].
  rewrite read_pad2 by lia. cbn [mbind option_bind].
  rewrite read_pad2 by lia. cbn [mbind option_bind].
  rewrite !(proj2 (Z.leb_le _ _)) by lia. done.
Qed.

Lemma range_parts us :
  in_range us = true →
  civil_in_range (us / us_per_day) ∧ 0 <= us mod us_per_day < us_per_day ∧
  us = us / us_per_day * us_per_day + us mod us_per_day.
Proof.
  unfold in_range, min_local_us, max_local_us, civil_in_range.
  change (days_from_civil 1 1 1) with (-719162).
  change (days_from_civil 10000 1 1) with 2932897.
  intros [H1%Z.leb_le H2%Z.leb_le]%andb_true_iff.
  pose proof (Z.mod_pos_bound us us_per_day ltac:(done)).
  pose proof (Z.div_mod us us_per_day ltac:(done)).
  unfold us_per_day, us_per_second in *. split_and!; lia.
Qed.

Lemma time_parts t :
  0 <= t < us_per_day →
  0 <= t / us_per_second < 86400 ∧ 0 <= t mod us_per_second < 1000000 ∧
  t = t / us_per_second * us_per_second + t mod us_per_second.
Proof.
  intros H. pose proof (abs_parts t) as Ha. rewrite Z.abs_eq in Ha by lia. apply Ha. lia.
Qed.

Lemma fromisoformat_isoformat d :
  valid_datetime d →
  fromisoformat_chars (isoformat_chars d) = Some (local_us d, Some (offset_us d)).
Proof.
  intros [Hr Hoff]. destruct (range_parts _ Hr) as (Hc & Ht & Hsplit).
  pose proof (civil_from_days_ok _ Hc) as Hciv. unfold isoformat_chars.
  destruct (civil_from_days _) as [[y m] dd]. destruct Hciv as (Hy & Hm & Hd & Hdays).
  set (t := local_us d mod us_per_day) in *.
  destruct (time_parts t Ht) as (Hs & Hus & Htsplit).
  unfold fromisoformat_chars. rewrite read_date_chars by done. cbn [mbind option_bind].
  destruct (offset_chars_cons (offset_us d)) as (c & z & Hz & Hsign). rewrite Hz.
  rewrite split_zone_clock by (done || apply time_chars_clock).
  rewrite read_time by done. cbn [mbind option_bind nth clock_list].
  destruct (clock_parts _ Hs) as (? & ? & ? & _).
  rewrite !(proj2 (Z.leb_le _ _)) by lia. cbn [andb].
  rewrite (read_offset_chars _ _ _ Hoff Hz). cbn [mbind option_bind].
  change [t / us_per_second / 3600; t / us_per_second / 60 mod 60; t / us_per_second mod 60]
    with (clock_list (t / us_per_second)).
  rewrite clock_seconds_list by done. rewrite Hdays. f_equal. f_equal. lia.
Qed.

(** * What [fromisoformat] can produce is a datetime [isoformat] renders back:
    its fields are in range and its offset is under a day. *)

(** ** Digits *)

Lemma digit_of_bound c x : digit_of c = Some x → 0 <= x <= 9.
Proof.
  unfold digit_of. destruct (_ && _) eqn:E; [|done]. intros [= <-].
  apply andb_true_iff in E as [?%Z.leb_le ?%Z.leb_le]. lia.
Qed.

Lemma read_digits_bound n acc l x rest :
  0 <= acc → read_digits n acc l = Some (x, rest) → 0 <= x < (acc + 1) * 10 ^ Z.of_nat n.
Proof.
  revert acc l. induction n as [|n IH]; intros acc l Hacc; [intros [= <- <-]; simpl; lia|].
  destruct l as [|c l]; [done|].
  change (read_digits (S n) acc (c :: l)) with (x ← digit_of c; read_digits n (10 * acc + x) l).
  destruct (digit_of c) as [y|] eqn:Hy; [|done]. apply digit_of_bound in Hy. simpl mbind.
  intros H. apply IH in H; [|lia]. rewrite Nat2Z.inj_succ, Z.pow_succ_r by lia. nia.
Qed.

Lemma read_fraction_bound l us : read_fraction l = Some us → 0 <= us < 1000000.
Proof.
  unfold read_fraction. set (n := Nat.min 6 (length l)). assert (n <= 6)%nat as Hn by lia.
  destruct (read_digits n 0 l) as [[x rest]|] eqn:Hx; [|done]. cbn [mbind option_bind].
  apply read_digits_bound in Hx; [|lia]. destruct (bool_decide _); [done|].
  destruct (all_digits rest); [|done]. intros [= <-].
  assert (10 ^ Z.of_nat n * 10 ^ (6 - Z.of_nat n) = 1000000) as Hp.
  { rewrite <- Z.pow_add_r by lia. replace (_ + _) with 6 by lia. done. }
  assert (0 < 10 ^ (6 - Z.of_nat n)) by (apply Z.pow_pos_nonneg; lia). nia.
Qed.

Lemma read_clock_bound n sep l xs us :
  read_clock n sep l = Some (xs, us) →
  0 <= us < 1000000 ∧ Forall (λ x, 0 <= x) xs ∧ (length xs <= n)%nat.
Proof.
  revert sep l xs us. induction n as [|n IH]; intros sep l xs us; cbn [read_clock].
  { destruct (read_fraction l) eqn:Hf; [|done]. intros [= <- <-].
    apply read_fraction_bound in Hf. split_and!; [lia..|constructor|simpl; lia]. }
  destruct (read_digits 2 0 l) as [[x rest]|] eqn:Hx; [|done]. cbn [mbind option_bind].
  apply read_digits_bound in Hx; [|lia].
  destruct rest as [|c [|c' rest]]; [|done|].
  { intros [= <- <-]. split_and!; [lia..|repeat constructor; lia|simpl; lia]. }
  intros H. apply bind_Some in H as ([ys us'] & H & [= <- <-]).
  assert (0 <= us' < 1000000 ∧ Forall (λ x, 0 <= x) ys ∧ (length ys <= n)%nat) as (? & ? & ?).
  { destruct (_ && _); [by eapply IH|]. destruct (is_point c).
    - destruct (read_fraction _) eqn:Hf; [|done]. injection H as <- <-.
      apply read_fraction_bound in Hf. split_and!; [lia..|constructor|simpl; lia].
    - destruct (negb _); [by eapply IH|done]. }
  split_and!; [lia..|constructor; [lia|done]|simpl; lia].
Qed.

Lemma clock_seconds_nonneg xs : Forall (λ x, 0 <= x) xs → 0 <= clock_seconds xs.
Proof.
  intros H. unfold clock_seconds.
  assert (∀ i, 0 <= nth i xs 0); [|pose proof (H0 0%nat); pose proof (H0 1%nat);
    pose proof (H0 2%nat); lia].
  intros i. revert i. induction H as [|x xs Hx _ IH]; intros [|i]; simpl; try lia. apply IH.
Qed.

(** ** Calendar *)

Section calendar.
Ltac Zify.zify_post_hook ::= Z.div_mod_to_equations.

Lemma days_from_civil_range y m d :
  1 <= y <= 9999 → 1 <= m <= 12 → 1 <= d <= 31 →
  -719162 <= days_from_civil y m d <= 2932896.
Proof.
  intros Hy Hm Hd. unfold days_from_civil.
  assert (∀ q, 0 <= q →
    q / 400 * 146097 + (q mod 400 * 365 + q mod 400 / 4 - q mod 400 / 100) =
    365 * q + q / 4 - q / 100 + q / 400) as Hlin by (intros; lia).
  assert (m <= 2 ∨ 3 <= m) as [Hm2|Hm3] by lia.
  - rewrite (proj2 (Z.leb_le m 2)), (proj2 (Z.ltb_ge 2 m)) by lia.
    specialize (Hlin (y - 1) ltac:(lia)). lia.
  - rewrite (proj2 (Z.leb_gt m 2)), (proj2 (Z.ltb_lt 2 m)) by lia.
    specialize (Hlin y ltac:(lia)). lia.
Qed.
End calendar.

Lemma read_date_range l days rest :
  read_date l = Some (days, rest) → -719162 <= days <= 2932896.
Proof.
  unfold read_date. intros H. apply bind_Some in H as ([y l1] & Hy & H).
  apply read_digits_bound in Hy; [|lia]. apply bind_Some in H as ([[m d] l2] & _ & H).
  destruct (_ && _) eqn:E; [|done]. injection H as <- <-.
  repeat rewrite andb_true_iff in E. rewrite !Z.leb_le in E.
  apply days_from_civil_range; [simpl in Hy; lia|lia|].
  assert (days_in_month y m <= 31) by (unfold days_in_month; repeat case_match; lia). lia.
Qed.

(** ** Datetimes *)

Lemma read_offset_valid c l off : read_offset c l = Some off → valid_offset off.
Proof.
  unfold read_offset, valid_offset. destruct (bool_decide _).
  { destruct l; [|done]. intros [= <-]. unfold us_per_day, us_per_second. simpl. lia. }
  destruct (read_clock 3 None l) as [[xs us]|] eqn:Hc; [|done]. cbn [mbind option_bind].
  apply read_clock_bound in Hc as (Hus & Hxs & _). apply clock_seconds_nonneg in Hxs.
  destruct (clock_seconds xs =? 0) eqn:E0.
  { intros [= <-]. unfold us_per_day, us_per_second. simpl. lia. }
  apply Z.eqb_neq in E0. destruct (_ <=? _) eqn:E1; [done|]. apply Z.leb_gt in E1.
  intros [= <-]. unfold signed, us_per_day, us_per_second in *. destruct (bool_decide _); lia.
Qed.

Lemma in_range_days days t :
  -719162 <= days <= 2932896 → 0 <= t < us_per_day → in_range (days * us_per_day + t) = true.
Proof.
  intros Hd Ht. unfold in_range, min_local_us, max_local_us.
  change (days_from_civil 1 1 1) with (-719162). change (days_from_civil 10000 1 1) with 2932897.
  unfold us_per_day, us_per_second in *. apply andb_true_iff. rewrite !Z.leb_le. lia.
Qed.

Lemma fromisoformat_valid l us off :
  fromisoformat_chars l = Some (us, off) → valid_datetime (DT us (default 0 off)).
Proof.
  unfold fromisoformat_chars. intros H. apply bind_Some in H as ([days rest] & Hd & H).
  apply read_date_range in Hd. destruct rest as [|c rest].
  { injection H as <- <-. split; [|vm_compute; split; [done|by left]].
    simpl. rewrite <- (Z.add_0_r (_ * _)). by apply in_range_days. }
  destruct (split_zone rest) as [t zone].
  apply bind_Some in H as ([xs u] & Hc & H). apply read_clock_bound in Hc as (Hu & Hxs & _).
  apply clock_seconds_nonneg in Hxs as Hs.
  destruct (_ && _) eqn:E; [|done]. repeat rewrite andb_true_iff in E. rewrite !Z.leb_le in E.
  assert (in_range (days * us_per_day + clock_seconds xs * us_per_second + u) = true) as Hr.
  { rewrite <- Z.add_assoc. apply in_range_days; [done|].
    unfold clock_seconds, us_per_day, us_per_second in *. lia. }
  destruct zone as [[c' z]|].
  - apply bind_Some in H as (o & Ho & [= <- <-]). split; [done|]. by eapply read_offset_valid.
  - injection H as <- <-. split; [done|]. vm_compute. split; [done|by left].
Qed.

Lemma dt_add_us_valid d us d' : valid_datetime d → dt_add_us d us = Ok d' → valid_datetime d'.
Proof.
  unfold dt_add_us. intros [_ ?]. destruct (in_range _) eqn:E; [|done]. intros [= <-]. by split.
Qed.

(** ** The rendered text *)

(** Neither whitespace nor the letter that [parse_utc] rewrites. *)
Definition plain (c : ascii) : Prop := solid c = true ∧ c ≠ "Z"%char ∧ c ≠ " "%char.

Lemma plain_digit z : plain (digit_char z).
Proof.
  unfold plain. pose proof (digit_of_digit_char z) as H. unfold digit_of in H.
  destruct (_ && _) eqn:E; [|done]. apply andb_true_iff in E as [E1%Z.leb_le E2%Z.leb_le].
  split_and!.
  - unfold solid, is_space. lia.
  - intros Hz. rewrite Hz in E2. vm_compute in E2. by destruct E2.
  - intros Hz. rewrite Hz in E1. vm_compute in E1. by destruct E1.
Qed.

Lemma plain_pad n z : Forall plain (pad n z).
Proof.
  revert z. induction n as [|n IH]; intros z; [constructor|].
  rewrite pad_S. apply Forall_app. split; [done|]. constructor; [apply plain_digit|constructor].
Qed.

Ltac plain_text :=
  repeat first [apply Forall_app; split | apply plain_pad | constructor; [by vm_compute|]
               | case_match | constructor].

Lemma plain_isoformat d : Forall plain (isoformat_chars d).
Proof.
  unfold isoformat_chars. destruct (civil_from_days _) as [[y m] dd].
  unfold time_chars, offset_chars, offset_text. plain_text.
Qed.

Lemma isoformat_not_nil d : isoformat_chars d ≠ [].
Proof.
  unfold isoformat_chars. destruct (civil_from_days _) as [[y m] dd].
  destruct (pad_cons 3 y) as (c & l & -> & _). done.
Qed.

Lemma strip_chars_plain l : Forall plain l → strip_chars l = l.
Proof.
  intros H. assert (Forall (λ c, solid c = true) l) as [Hd Ht]%strip_solid.
  { eapply Forall_impl; [exact H|]. by intros c []. }
  unfold strip_chars. by rewrite Hd, Ht.
Qed.
