(* ===== verification/PyText.v ===== *)
(** Numbers and JSON strings as text: the number literals two regular
    expressions of the market query language accept, [int(s)] and [str(z)] with
    CPython's limit on the digits they convert, [Decimal.normalize] and
    [format(d, 'f')] under the default context, and [json.dumps] and
    [json.loads] of a string.

    A string here is its UTF-8 encoding, so a [\u] escape decodes to the bytes
    of its code point. *)
From S2P Require Import Prelude PyNum PyValue PyTime.
From Stdlib Require Import Ascii.

Local Open Scope Z_scope.

(** ** Characters *)

Definition is_ascii_digit (c : ascii) : bool := match digit_of c with Some _ => true | None => false end.

Definition in_codes (lo hi : Z) (c : ascii) : bool := (lo <=? code c) && (code c <=? hi).

(** [[A-Za-z_]]. *)
Definition is_name_start (c : ascii) : bool :=
  in_codes 65 90 c || in_codes 97 122 c || bool_decide (c = "_"%char).

Fixpoint span (p : ascii → bool) (l : chars) : chars * chars :=
  match l with
  | c :: l' => if p c then let '(a, b) := span p l' in (c :: a, b) else ([], l)
  | [] => ([], [])
  end.

Definition is_nil {A} (l : list A) : bool := match l with [] => true | _ => false end.

(** ** Number literals *)

(** Whether a text is a literal is asked of its digits' values: [\d] is any decimal
    digit. *)
Definition integer_form (l : chars) : bool :=
  let l := (take_sign l).2 in negb (is_nil l) && forallb is_ascii_digit l.

(** [[+-]?\d+]. *)
Definition integer_literal (l : chars) : bool := integer_form (ascii_digits l).

(** [[eE][+-]?\d+]. *)
Definition exponent_form (l : chars) : bool :=
  match l with
  | c :: l => bool_decide (c = "e"%char ∨ c = "E"%char) && integer_form l
  | [] => false
  end.

(** A number with a point, an exponent, or both. *)
Definition decimal_form (l : chars) : bool :=
  let '(whole, l) := span is_ascii_digit (take_sign l).2 in
  match l with
  | c :: l' =>
      if bool_decide (c = "."%char) then
        let '(frac, l) := span is_ascii_digit l' in
        (negb (is_nil whole) || negb (is_nil frac)) && (is_nil l || exponent_form l)
      else negb (is_nil whole) && exponent_form l
  | [] => false
  end.

Definition decimal_literal (l : chars) : bool := decimal_form (ascii_digits l).

(** ** [int(s)] and [str(z)] *)

Definition int_max_str_digits : Z := 4300.

(** [int(s)] of an integer literal. *)
Definition int_of_literal (l : chars) : result Z :=
  let '(neg, l) := take_sign (ascii_digits l) in
  if int_max_str_digits <? Z.of_nat (List.length l)
  then Err (ValueError "Exceeds the limit for integer string conversion")
  else
    match int_digits false 0 l with
    | Some z => Ok (signed neg z)
    | None => Err (ValueError "invalid literal for int()")
    end.

(** The decimal digits of a natural number. *)
Definition nat_chars (n : Z) : chars := pad (Z.to_nat (ndigits n)) n.

Definition sign_chars (neg : bool) : chars := if neg then ["-"%char] else [].

(** [str(z)]. *)
Definition int_chars (z : Z) : result chars :=
  if int_max_str_digits <? ndigits (Z.abs z)
  then Err (ValueError "Exceeds the limit for integer string conversion")
  else Ok (sign_chars (z <? 0) ++ nat_chars (Z.abs z)).

(** ** [format(d.normalize(), 'f')] *)

Definition context_emax : Z := 999999.
Definition context_emin : Z := -999999.
Definition context_etiny : Z := context_emin - (context_prec - 1).

(** The exponent of the leading digit. *)
Definition adjusted (d : decimal) : Z := expo d + ndigits (Z.abs (coef d)) - 1.

(** A nonzero value brought into the context: too large raises, too small is
    rounded to the least exponent. *)
Definition dec_finalize (d : decimal) : result decimal :=
  if context_emax <? adjusted d then Err DecimalOverflow
  else if (adjusted d <? context_emin) && (expo d <? context_etiny) then
    Ok (Dec (Z.sgn (coef d) * div_half_even (Z.abs (coef d)) (10 ^ (context_etiny - expo d)))
            context_etiny)
  else
    let d := dec_fix d in
    if context_emax <? adjusted d then Err DecimalOverflow else Ok d.

(** Trailing zeros of a coefficient moved to the exponent. *)
Fixpoint strip_zeros (fuel : nat) (c e : Z) : decimal :=
  match fuel with
  | O => Dec c e
  | S fuel => if c mod 10 =? 0 then strip_zeros fuel (c / 10) (e + 1) else Dec c e
  end.

(** The magnitude of [d.normalize()]; a zero has exponent zero. *)
Definition dec_normalize_abs (d : decimal) : result decimal :=
  d ← dec_finalize d;
  let c := Z.abs (coef d) in
  Ok (if c =? 0 then dec0 else strip_zeros (Z.to_nat (ndigits c)) c (expo d)).

(** [format(d, 'f')] of a magnitude. *)
Definition fixed_chars (d : decimal) : chars :=
  if 0 <=? expo d then nat_chars (coef d * 10 ^ expo d)
  else
    let k := - expo d in
    nat_chars (coef d / 10 ^ k) ++ "."%char :: pad (Z.to_nat k) (coef d).

(** The text the query renderers give a decimal. *)
Definition decimal_chars (d : decimal) : result chars :=
  if coef d =? 0 then Ok ["0"%char]
  else m ← dec_normalize_abs d; Ok (sign_chars (coef d <? 0) ++ fixed_chars m).

(** ** JSON strings *)

Definition hex_digit (z : Z) : ascii :=
  ascii_of_N (Z.to_N (if z <? 10 then 48 + z else 87 + z)).

Definition hex_value (c : ascii) : option Z :=
  if in_codes 48 57 c then Some (code c - 48)
  else if in_codes 97 102 c then Some (code c - 87)
  else if in_codes 65 70 c then Some (code c - 55)
  else None.

Definition quote : ascii := ascii_of_nat 34.
Definition backslash : ascii := ascii_of_nat 92.

(** The escapes of one letter: the character and its letter. *)
Definition escapes : list (Z * ascii) :=
  [(34, quote); (92, backslash); (10, "n"%char); (13, "r"%char); (9, "t"%char);
   (12, "f"%char); (8, "b"%char)].

Fixpoint escape_letter (n : Z) (l : list (Z * ascii)) : option ascii :=
  match l with
  | [] => None
  | (m, c) :: l => if n =? m then Some c else escape_letter n l
  end.

Fixpoint escaped_code (c : ascii) (l : list (Z * ascii)) : option Z :=
  match l with
  | [] => None
  | (m, d) :: l => if bool_decide (c = d) then Some m else escaped_code c l
  end.

Definition escape_char (c : ascii) : chars :=
  match escape_letter (code c) escapes with
  | Some d => [backslash; d]
  | None =>
      if code c <? 32
      then [backslash; "u"%char; "0"%char; "0"%char; hex_digit (code c / 16); hex_digit (code c mod 16)]
      else [c]
  end.

(** [json.dumps(s, ensure_ascii=False)]. *)
Definition json_string_chars (s : chars) : chars := quote :: flat_map escape_char s ++ [quote].

Definition byte_char (z : Z) : ascii := ascii_of_N (Z.to_N z).

Definition utf8 (cp : Z) : chars :=
  if cp <? 128 then [byte_char cp]
  else if cp <? 2048 then [byte_char (192 + cp / 64); byte_char (128 + cp mod 64)]
  else if cp <? 65536 then
    [byte_char (224 + cp / 4096); byte_char (128 + cp / 64 mod 64); byte_char (128 + cp mod 64)]
  else
    [byte_char (240 + cp / 262144); byte_char (128 + cp / 4096 mod 64);
     byte_char (128 + cp / 64 mod 64); byte_char (128 + cp mod 64)].

Definition hex4 (a b c d : ascii) : option Z :=
  x ← hex_value a; y ← hex_value b; z ← hex_value c; t ← hex_value d;
  Some (((x * 16 + y) * 16 + z) * 16 + t).

Definition high_surrogate (cp : Z) : bool := (55296 <=? cp) && (cp <=? 56319).
Definition low_surrogate (cp : Z) : bool := (56320 <=? cp) && (cp <=? 57343).

(** A [\u] escape of the low half of a pair. *)
Definition low_half (l : chars) : option Z :=
  match l with
  | b :: u :: c1 :: c2 :: c3 :: c4 :: _ =>
      if bool_decide (b = backslash) && bool_decide (u = "u"%char) then
        lo ← hex4 c1 c2 c3 c4; if low_surrogate lo then Some lo else None
      else None
  | _ => None
  end.

(** The body of a JSON string after its opening quote, up to the closing quote
    that must end the text.  [paired] says that the escape to come is the low
    half of a pair already decoded. *)
Fixpoint json_body (paired : bool) (l : chars) : option chars :=
  match l with
  | [] => None
  | c :: l =>
      if bool_decide (c = quote) then (if is_nil l then Some [] else None)
      else if bool_decide (c = backslash) then
        match l with
        | [] => None
        | e :: l =>
            if bool_decide (e = "u"%char) then
              match l with
              | c1 :: c2 :: c3 :: c4 :: l =>
                  cp ← hex4 c1 c2 c3 c4;
                  if paired then json_body false l else
                  match (if high_surrogate cp then low_half l else None) with
                  | Some lo =>
                      rest ← json_body true l;
                      Some (utf8 (65536 + (cp - 55296) * 1024 + (lo - 56320)) ++ rest)
                  | None => rest ← json_body false l; Some (utf8 cp ++ rest)
                  end
              | _ => None
              end
            else if bool_decide (e = "/"%char)
            then rest ← json_body false l; Some (e :: rest)
            else
              x ← escaped_code e escapes; rest ← json_body false l; Some (byte_char x :: rest)
        end
      else if code c <? 32 then None
      else rest ← json_body false l; Some (c :: rest)
  end.

(** [json.loads(text)] of a text that begins with a quote. *)
Definition json_string_of (l : chars) : option chars :=
  match l with
  | c :: l => if bool_decide (c = quote) then json_body false l else None
  | [] => None
  end.

Example json_pair :
  json_string_of ([quote] ++ [backslash] ++ to_chars "ud83d" ++ [backslash] ++ to_chars "ude00" ++ [quote])
  = Some (map byte_char [240; 159; 152; 128]).
Proof. vm_compute. reflexivity. Qed.
Example decimal_text_point :
  decimal_chars (Dec (-250) (-2)) = Ok (to_chars "-2.5") ∧
  decimal_chars (Dec 100 0) = Ok (to_chars "100") ∧ decimal_chars (Dec 5 (-3)) = Ok (to_chars "0.005").
Proof. vm_compute. done. Qed.
Example decimal_literals :
  map (λ s, decimal_literal (to_chars s)) ["5."; ".5"; "1e5"; "-1.e-5"; "."; "1"; "e5"; "1e"; "1.5x"]%string =
  [true; true; true; true; false; false; false; false; false].
Proof. vm_compute. reflexivity. Qed.
