(* ===== verification/QueryDsl.v ===== *)
(** The market query language ([market_core/query_dsl.py]): its lexer, its
    parser, the validation of a parsed query against field descriptors, and the
    canonical rendering of a validated one.

    Source positions count bytes.  A failure carries its code, position, field
    and accepted fields; its message is not modelled.  A loop of the source is a
    [loop] of its body with the length of what is left as fuel. *)
From S2P Require Import Prelude PyNum PyValue PyText.
From Stdlib Require Import Ascii.

Local Open Scope Z_scope.
Local Open Scope string_scope.
Local Open Scope list_scope.

(** ** Data *)

Inductive ComparisonOperator : Type :=
  | EQUAL | NOT_EQUAL | LESS_THAN | LESS_THAN_OR_EQUAL | GREATER_THAN | GREATER_THAN_OR_EQUAL
  | IN | NOT_IN.
#[export] Instance ComparisonOperator_eq_dec : EqDecision ComparisonOperator.
Proof. solve_decision. Defined.

Definition all_operators : list ComparisonOperator :=
  [EQUAL; NOT_EQUAL; LESS_THAN; LESS_THAN_OR_EQUAL; GREATER_THAN; GREATER_THAN_OR_EQUAL; IN; NOT_IN].

Definition operator_value (o : ComparisonOperator) : string :=
  match o with
  | EQUAL => "=" | NOT_EQUAL => "!=" | LESS_THAN => "<" | LESS_THAN_OR_EQUAL => "<="
  | GREATER_THAN => ">" | GREATER_THAN_OR_EQUAL => ">=" | IN => "in" | NOT_IN => "notin"
  end.

(** [ComparisonOperator(text)]. *)
Definition operator_of_text (s : string) : option ComparisonOperator :=
  snd <$> list_find (λ o, operator_value o = s) all_operators.

Inductive QueryValueType : Type := TSTRING | TINTEGER | TDECIMAL | TBOOLEAN.
#[export] Instance QueryValueType_eq_dec : EqDecision QueryValueType.
Proof. solve_decision. Defined.

Definition value_type_value (t : QueryValueType) : string :=
  match t with
  | TSTRING => "string" | TINTEGER => "integer" | TDECIMAL => "decimal" | TBOOLEAN => "boolean"
  end.

Inductive MissingValueRule : Type := MISSING_FAIL | MISSING_PASS.
#[export] Instance MissingValueRule_eq_dec : EqDecision MissingValueRule.
Proof. solve_decision. Defined.

Definition missing_value (m : MissingValueRule) : string :=
  match m with MISSING_FAIL => "fail" | MISSING_PASS => "pass" end.

Inductive TokenKind : Type :=
  | ATOM | STRING | OPERATOR | LEFT_BRACKET | RIGHT_BRACKET | COMMA | UNSUPPORTED.
#[export] Instance TokenKind_eq_dec : EqDecision TokenKind.
Proof. solve_decision. Defined.

Record SourceSpan : Type := Span { span_start : Z; span_end : Z }.

Record QueryToken : Type := {
  tok_kind : TokenKind;
  tok_text : string;
  tok_span : SourceSpan;
  tok_value : option string;
}.

Inductive ScalarValue : Type :=
  | SStr (s : string)
  | SInt (z : Z)
  | SDec (d : decimal)
  | SBool (b : bool).

Inductive LiteralValue : Type :=
  | LScalar (x : ScalarValue)
  | LTuple (xs : list ScalarValue).

Record QueryLiteral : Type := { lit_value : LiteralValue; lit_span : SourceSpan }.

Record QueryComparison : Type := {
  cmp_field : string;
  cmp_operator : ComparisonOperator;
  cmp_literal : QueryLiteral;
  cmp_span : SourceSpan;
}.

Record QueryExpression : Type := { source : string; comparisons : list QueryComparison }.

Record FieldDescriptor : Type := {
  fd_name : string;
  fd_value_type : QueryValueType;
  fd_operators : list ComparisonOperator;
  fd_aliases : list string;
  fd_on_missing : MissingValueRule;
  fd_repeated : bool;
  fd_description : option string;
  fd_requires : list string;
}.

Record ValidatedComparison : Type := {
  vc_field : string;
  vc_operator : ComparisonOperator;
  vc_value : LiteralValue;
  vc_span : SourceSpan;
}.

Definition ValidatedQuery : Type := list ValidatedComparison.

Definition syntax_error (code : string) (position : Z) (field : option string) : py_error :=
  QuerySyntaxError {| qe_code := code; qe_position := position; qe_field := field;
                      qe_accepted_fields := [] |}.

Definition validation_error (code : string) (position : Z) (field : string) (accepted : list string)
    : py_error :=
  QueryValidationError {| qe_code := code; qe_position := position; qe_field := Some field;
                          qe_accepted_fields := accepted |}.

(** ** Lexical classes *)

Definition is_field_char (c : ascii) : bool :=
  is_name_start c || is_ascii_digit c || bool_decide (c = "."%char) || bool_decide (c = "-"%char).

(** [_FIELD_RE.fullmatch]. *)
Definition field_name (l : chars) : bool :=
  match l with c :: l => is_name_start c && forallb is_field_char l | [] => false end.

Definition is_safe_char (c : ascii) : bool :=
  is_field_char c || bool_decide (c ∈ ["/"; ":"; "@"; "+"]%char).

(** [_SAFE_STRING_RE.fullmatch]. *)
Definition safe_string (l : chars) : bool :=
  match l with c :: l => is_name_start c && forallb is_safe_char l | [] => false end.

Definition is_delimiter_char (c : ascii) : bool :=
  bool_decide (c ∈ ["["; "]"; "="; "!"; "<"; ">"; ","; "("; ")"]%char).

(** The word [l] begins with, and what follows it: up to a whitespace character or
    a delimiter. *)
Fixpoint span_atom (l : chars) : chars * chars :=
  match l with
  | c :: l' =>
      if (0 <? space_width l)%nat || is_delimiter_char c then ([], l)
      else let '(word, rest) := span_atom l' in (c :: word, rest)
  | [] => ([], [])
  end.

Definition _SYMBOLIC_OPERATORS : list string := ["!="; "<="; ">="; "="; "<"; ">"].

Definition symbol_kind (c : ascii) : option TokenKind :=
  if bool_decide (c ∈ ["("; ")"]%char) then Some UNSUPPORTED
  else if bool_decide (c = "["%char) then Some LEFT_BRACKET
  else if bool_decide (c = "]"%char) then Some RIGHT_BRACKET
  else if bool_decide (c = ","%char) then Some COMMA
  else None.

(** [source.startswith(prefix, index)], and what follows the prefix. *)
Fixpoint strip_prefix (p l : chars) : option chars :=
  match p, l with
  | [], _ => Some l
  | a :: p, b :: l => if bool_decide (a = b) then strip_prefix p l else None
  | _ :: _, [] => None
  end.

Fixpoint first_operator (candidates : list string) (l : chars) : option (string * chars) :=
  match candidates with
  | [] => None
  | o :: os =>
      match strip_prefix (to_chars o) l with
      | Some rest => Some (o, rest)
      | None => first_operator os l
      end
  end.

(** ** The lexer *)

Definition make_token (kind : TokenKind) (text : chars) (i : Z) (value : option chars) : QueryToken :=
  {| tok_kind := kind; tok_text := of_chars text;
     tok_span := Span i (i + Z.of_nat (List.length text)); tok_value := of_chars <$> value |}.

(** Up to and including the closing quote. *)
Fixpoint closing (escaped : bool) (l : chars) : option (chars * chars) :=
  match l with
  | [] => None
  | c :: l =>
      if bool_decide (c = quote) && negb escaped then Some ([c], l)
      else
        '(text, rest) ← closing (bool_decide (c = backslash) && negb escaped) l;
        Some (c :: text, rest)
  end.

(** [_lex_string]: [l] follows the opening quote at [i]. *)
Definition _lex_string (l : chars) (i : Z) : result (QueryToken * chars) :=
  match closing false l with
  | None => Err (syntax_error "unterminated_string" i None)
  | Some (body, rest) =>
      match json_string_of (quote :: body) with
      | None => Err (syntax_error "invalid_string_escape" i None)
      | Some value => Ok (make_token STRING (quote :: body) i (Some value), rest)
      end
  end.

(** The text from [index] on, [index], and the tokens so far. *)
Definition lexing : Type := chars * Z * list QueryToken.

Definition word_kind (text : chars) : TokenKind :=
  if bool_decide (of_chars text ∈ ["in"; "notin"]) then OPERATOR else ATOM.

Definition lex_turn (s : lexing) : result lexing :=
  let '(l, i, tokens) := s in
  match l with
  | [] => Ok s
  | c :: rest =>
      if (0 <? space_width l)%nat
      then Ok (List.skipn (space_width l) l, i + Z.of_nat (space_width l), tokens)
      else match symbol_kind c with
      | Some kind => Ok (rest, i + 1, tokens ++ [make_token kind [c] i None])
      | None =>
          if bool_decide (c = quote) then
            '(t, rest) ← _lex_string rest i; Ok (rest, span_end (tok_span t), tokens ++ [t])
          else match first_operator _SYMBOLIC_OPERATORS l with
          | Some (o, rest) =>
              let t := make_token OPERATOR (to_chars o) i None in
              Ok (rest, span_end (tok_span t), tokens ++ [t])
          | None =>
              let '(text, rest) := span_atom l in
              if is_nil text then Err (syntax_error "unsupported_character" i None)
              else
                let t := make_token (word_kind text) text i (Some text) in
                Ok (rest, span_end (tok_span t), tokens ++ [t])
          end
      end
  end.

Definition lex_running (s : lexing) : bool := negb (is_nil s.1.1).

Definition lex_loop (l : chars) : option (result lexing) :=
  loop lex_running lex_turn (List.length l) (l, 0, []).

Definition lex_query (source : string) : result (list QueryToken) :=
  s ← run_loop (lex_loop (to_chars source)); Ok s.2.

(** ** The parser *)

Definition _token_scalar (t : QueryToken) : result ScalarValue :=
  if bool_decide (tok_kind t = STRING) then Ok (SStr (default "" (tok_value t)))
  else if bool_decide (tok_text t = "true") then Ok (SBool true)
  else if bool_decide (tok_text t = "false") then Ok (SBool false)
  else if integer_literal (to_chars (tok_text t)) then SInt <$> int_of_literal (to_chars (tok_text t))
  else if decimal_literal (to_chars (tok_text t)) then
    match parse_decimal (tok_text t) with
    | Some d => Ok (SDec d)
    | None => Err (syntax_error "invalid_decimal" (span_start (tok_span t)) None)
    end
  else Ok (SStr (tok_text t)).

Definition is_value_token (t : QueryToken) : bool := bool_decide (tok_kind t ∈ [ATOM; STRING]).

(** The rest of a list that opened at [start]. *)
Fixpoint parse_list (field : string) (start : Z) (expect_value : bool) (values : list ScalarValue)
    (tokens : list QueryToken) : result (QueryLiteral * list QueryToken) :=
  match tokens with
  | [] => Err (syntax_error "unterminated_list" start (Some field))
  | t :: tokens =>
      let expected code := Err (syntax_error code (span_start (tok_span t)) (Some field)) in
      if bool_decide (tok_kind t = RIGHT_BRACKET) then
        if expect_value && negb (is_nil values) then expected "expected_list_value"
        else Ok ({| lit_value := LTuple values; lit_span := Span start (span_end (tok_span t)) |}, tokens)
      else if (expect_value : bool) then
        if negb (is_value_token t) then expected "expected_list_value"
        else v ← _token_scalar t; parse_list field start false (values ++ [v]) tokens
      else if bool_decide (tok_kind t = COMMA) then parse_list field start true values tokens
      else expected "expected_comma"
  end.

Definition _parse_literal (t : QueryToken) (tokens : list QueryToken) (field : string)
    : result (QueryLiteral * list QueryToken) :=
  let start := span_start (tok_span t) in
  if bool_decide (tok_kind t = UNSUPPORTED)
  then Err (syntax_error "unsupported_syntax" start (Some field))
  else if bool_decide (tok_kind t = LEFT_BRACKET) then parse_list field start true [] tokens
  else if negb (is_value_token t) then Err (syntax_error "expected_value" start (Some field))
  else v ← _token_scalar t; Ok ({| lit_value := LScalar v; lit_span := tok_span t |}, tokens).

Definition parsing : Type := list QueryToken * list QueryComparison.

Definition parse_comparison (t : QueryToken) (tokens : list QueryToken)
    : result (QueryComparison * list QueryToken) :=
  let at_start := span_start (tok_span t) in
  let field := tok_text t in
  if bool_decide (tok_kind t = UNSUPPORTED) then Err (syntax_error "unsupported_syntax" at_start None)
  else if negb (bool_decide (tok_kind t = ATOM)) || negb (field_name (to_chars field))
  then Err (syntax_error "expected_field" at_start None)
  else match tokens with
  | [] => Err (syntax_error "expected_operator" (span_end (tok_span t)) (Some field))
  | o :: tokens =>
      match operator_of_text (tok_text o) with
      | None => Err (syntax_error "expected_operator" (span_start (tok_span o)) (Some field))
      | Some op =>
          match tokens with
          | [] => Err (syntax_error "expected_value" (span_end (tok_span o)) (Some field))
          | v :: tokens =>
              '(literal, rest) ← _parse_literal v tokens field;
              Ok ({| cmp_field := field; cmp_operator := op; cmp_literal := literal;
                     cmp_span := Span at_start (span_end (lit_span literal)) |}, rest)
          end
      end
  end.

Definition parse_turn (s : parsing) : result parsing :=
  match s.1 with
  | [] => Ok s
  | t :: tokens => '(c, rest) ← parse_comparison t tokens; Ok (rest, s.2 ++ [c])
  end.

Definition parse_running (s : parsing) : bool := negb (is_nil s.1).

Definition parse_loop (tokens : list QueryToken) : option (result parsing) :=
  loop parse_running parse_turn (List.length tokens) (tokens, []).

Definition parse_tokens (tokens : list QueryToken) : result (list QueryComparison) :=
  s ← run_loop (parse_loop tokens); Ok s.2.

Definition parse_query (source : string) : result QueryExpression :=
  tokens ← lex_query source;
  if is_nil tokens then Err (syntax_error "empty_query" 0 None)
  else cs ← parse_tokens tokens; Ok {| source := source; comparisons := cs |}.

(** ** Descriptors *)

(** [FieldDescriptor.__post_init__]. *)
Definition check_descriptor (d : FieldDescriptor) : result FieldDescriptor :=
  let names := fd_name d :: fd_aliases d in
  if negb (forallb (λ n, field_name (to_chars n)) names)
  then Err (ValueError "invalid query field name")
  else if negb (bool_decide (NoDup names)) then Err (ValueError "duplicate query field alias")
  else if is_nil (fd_operators d) then Err (ValueError "query field must allow an operator")
  else if bool_decide (fd_name d ∈ fd_requires d) then Err (ValueError "query field requires itself")
  else Ok d.

Definition vocabulary : Type := list (string * FieldDescriptor).

(** [name in by_name], else [by_name[name] = descriptor]. *)
Fixpoint add_names (names : list string) (d : FieldDescriptor) (by_name : vocabulary)
    : result vocabulary :=
  match names with
  | [] => Ok by_name
  | n :: names =>
      match alist_get n by_name with
      | Some _ => Err (ValueError "duplicate query field or alias")
      | None => add_names names d (by_name ++ [(n, d)])
      end
  end.

Fixpoint add_descriptors (ds : list FieldDescriptor) (maps : vocabulary * vocabulary)
    : result (vocabulary * vocabulary) :=
  match ds with
  | [] => Ok maps
  | d :: ds =>
      match alist_get (fd_name d) maps.2 with
      | Some _ => Err (ValueError "duplicate query field descriptor")
      | None =>
          by_name ← add_names (fd_name d :: fd_aliases d) d maps.1;
          add_descriptors ds (by_name, maps.2 ++ [(fd_name d, d)])
      end
  end.

Definition _descriptor_maps (ds : list FieldDescriptor) : result (vocabulary * vocabulary) :=
  maps ← add_descriptors ds ([], []);
  if forallb (λ d, forallb (λ t, match alist_get t maps.2 with Some _ => true | None => false end)
                           (fd_requires d)) maps.2.*2
  then Ok maps
  else Err (ValueError "query field requires undeclared field").

(** ** Validation *)

Definition scalar_type (x : ScalarValue) : QueryValueType :=
  match x with SStr _ => TSTRING | SInt _ => TINTEGER | SDec _ => TDECIMAL | SBool _ => TBOOLEAN end.

(** The value a field of type [ty] takes from a literal, if it takes it: a
    decimal field takes an integer as a decimal. *)
Definition coerce_scalar (ty : QueryValueType) (x : ScalarValue) : option ScalarValue :=
  match ty, x with
  | TDECIMAL, SInt z => Some (SDec (dec_of_Z z))
  | _, _ => if bool_decide (scalar_type x = ty) then Some x else None
  end.

Definition _validate_scalar (x : ScalarValue) (d : FieldDescriptor) (position : Z)
    (accepted : list string) : result ScalarValue :=
  match coerce_scalar (fd_value_type d) x with
  | Some x => Ok x
  | None => Err (validation_error "invalid_value_type" position (fd_name d) accepted)
  end.

Definition expects_list (o : ComparisonOperator) : bool := bool_decide (o ∈ [IN; NOT_IN]).

Definition _validate_literal_shape (c : QueryComparison) (d : FieldDescriptor)
    (accepted : list string) : result LiteralValue :=
  let position := span_start (lit_span (cmp_literal c)) in
  let refuse code := Err (validation_error code position (fd_name d) accepted) in
  match lit_value (cmp_literal c), expects_list (cmp_operator c) with
  | LScalar x, false => LScalar <$> _validate_scalar x d position accepted
  | LTuple xs, true =>
      if is_nil xs then refuse "empty_list"
      else LTuple <$> mapM_result (λ x, _validate_scalar x d position accepted) xs
  | _, _ => refuse "invalid_value_shape"
  end.

Fixpoint validate_each (by_name : vocabulary) (accepted seen : list string)
    (cs : list QueryComparison) : result (list string * ValidatedQuery) :=
  match cs with
  | [] => Ok (seen, [])
  | c :: cs =>
      let refuse code field :=
        Err (validation_error code (span_start (cmp_span c)) field accepted) in
      match alist_get (cmp_field c) by_name with
      | None => refuse "unknown_field" (cmp_field c)
      | Some d =>
          if negb (bool_decide (cmp_operator c ∈ fd_operators d))
          then refuse "unsupported_operator" (fd_name d)
          else if bool_decide (fd_name d ∈ seen) && negb (fd_repeated d)
          then refuse "duplicate_field" (fd_name d)
          else
            v ← _validate_literal_shape c d accepted;
            '(seen, rest) ← validate_each by_name accepted (seen ++ [fd_name d]) cs;
            Ok (seen, {| vc_field := fd_name d; vc_operator := cmp_operator c; vc_value := v;
                         vc_span := cmp_span c |} :: rest)
      end
  end.

Fixpoint check_co_requirements (canonical : vocabulary) (accepted seen : list string)
    (vs : ValidatedQuery) : result unit :=
  match vs with
  | [] => Ok tt
  | v :: vs =>
      let requires := default [] (fd_requires <$> alist_get (vc_field v) canonical) in
      if forallb (λ t, bool_decide (t ∈ seen)) requires
      then check_co_requirements canonical accepted seen vs
      else Err (validation_error "missing_co_requirement" (span_start (vc_span v)) (vc_field v) accepted)
  end.

Definition validate_query (e : QueryExpression) (ds : list FieldDescriptor) : result ValidatedQuery :=
  '(by_name, canonical) ← _descriptor_maps ds;
  let accepted := sort_by string_leb by_name.*1 in
  '(seen, validated) ← validate_each by_name accepted [] (comparisons e);
  check_co_requirements canonical accepted seen validated ≫= λ _,
  Ok validated.

Definition compile_query (source : string) (ds : list FieldDescriptor) : result ValidatedQuery :=
  e ← parse_query source; validate_query e ds.

(** ** Canonical rendering *)

Definition is_reserved_word (s : string) : bool :=
  bool_decide (s ∈ ["true"; "false"; "in"; "notin"]).

Definition _render_scalar (x : ScalarValue) : result chars :=
  match x with
  | SBool b => Ok (to_chars (if b then "true" else "false"))
  | SDec d => decimal_chars d
  | SInt z => int_chars z
  | SStr s =>
      Ok (if safe_string (to_chars s) && negb (is_reserved_word s) then to_chars s
          else json_string_chars (to_chars s))
  end.

(** [sep.join(texts)]. *)
Fixpoint join_chars (sep : chars) (texts : list chars) : chars :=
  match texts with
  | [] => []
  | [t] => t
  | t :: texts => t ++ sep ++ join_chars sep texts
  end.

Definition _render_literal (v : LiteralValue) : result chars :=
  match v with
  | LScalar x => _render_scalar x
  | LTuple xs =>
      texts ← mapM_result _render_scalar xs; Ok ("["%char :: join_chars [","%char] texts ++ ["]"%char])
  end.

Definition render_comparison (c : ValidatedComparison) : result chars :=
  literal ← _render_literal (vc_value c);
  Ok (to_chars (vc_field c) ++ to_chars (operator_value (vc_operator c)) ++ literal).

Definition render_canonical_query (q : ValidatedQuery) : result string :=
  texts ← mapM_result render_comparison q; Ok (of_chars (join_chars [" "%char] texts)).

(** ** Public descriptor metadata *)

Definition descriptor_leb (a b : FieldDescriptor) : bool := string_leb (fd_name a) (fd_name b).

(** Operators by their text, as [sorted(..., key=value)]. *)
Definition sorted_operators (os : list ComparisonOperator) : list string :=
  sort_by string_leb (operator_value <$> remove_dups os).

Definition field_metadata (d : FieldDescriptor) : value :=
  let strings l := VList (VStr <$> l) in
  VDict ([("name", VStr (fd_name d));
          ("aliases", strings (sort_by string_leb (fd_aliases d)));
          ("value_type", VStr (value_type_value (fd_value_type d)));
          ("operators", strings (sorted_operators (fd_operators d)));
          ("on_missing", VStr (missing_value (fd_on_missing d)));
          ("repeated", VBool (fd_repeated d))]
         ++ match fd_description d with Some t => [("description", VStr t)] | None => [] end
         ++ (if is_nil (fd_requires d) then [] else [("requires", strings (fd_requires d))])).

Definition field_reference_json (ds : list FieldDescriptor) : result (list value) :=
  let ordered := sort_by descriptor_leb ds in
  _descriptor_maps ordered ≫= λ _, Ok (field_metadata <$> ordered).

Definition join (sep : string) (l : list string) : string :=
  of_chars (join_chars (to_chars sep) (to_chars <$> l)).

Definition field_line (d : FieldDescriptor) : string :=
  let aliases := sort_by string_leb (fd_aliases d) in
  fd_name d +:+ ": " +:+ value_type_value (fd_value_type d)
  +:+ " operators=" +:+ join "," (sorted_operators (fd_operators d))
  +:+ " missing=" +:+ missing_value (fd_on_missing d)
  +:+ (if is_nil aliases then "" else " aliases=" +:+ join "," aliases)
  +:+ (if fd_repeated d then " repeated" else "")
  +:+ (if is_nil (fd_requires d) then "" else " requires=" +:+ join "," (fd_requires d))
  +:+ match fd_description d with Some t => " — " +:+ t | None => "" end.

Definition newline : string := String (ascii_of_nat 10) EmptyString.

Definition render_field_reference (ds : list FieldDescriptor) : result string :=
  let ordered := sort_by descriptor_leb ds in
  _descriptor_maps ordered ≫= λ _, Ok (join newline (field_line <$> ordered)).

(** [QueryError.to_dict] but for the message. *)
Definition to_dict (e : query_error) : dict :=
  [("code", VStr (qe_code e)); ("position", VInt (qe_position e))]
  ++ match qe_field e with Some f => [("field", VStr f)] | None => [] end
  ++ (if is_nil (qe_accepted_fields e) then []
      else [("accepted_fields", VList (VStr <$> qe_accepted_fields e))]).
