(* ===== verification/QueryLexer.v ===== *)
(** The lexer of the market query language always finishes, and its tokens tile
    the source: each is a slice of it, in order, with white space between. *)
From S2P Require Import Prelude PyNum PyValue PyNumFacts PyText QueryDsl.
From Stdlib Require Import Ascii.

Local Open Scope Z_scope.
Local Open Scope string_scope.
Local Open Scope list_scope.

(** ** Text *)

Lemma to_of_chars l : to_chars (of_chars l) = l.
Proof. apply String.list_ascii_of_string_of_list_ascii. Qed.

Lemma of_to_chars s : of_chars (to_chars s) = s.
Proof. apply String.string_of_list_ascii_of_string. Qed.

Lemma to_chars_inj s t : to_chars s = to_chars t → s = t.
Proof. intros H. rewrite <-(of_to_chars s), <-(of_to_chars t). by f_equal. Qed.

Create HintDb chars.
#[export] Hint Rewrite to_of_chars of_to_chars : chars.

Lemma is_nil_true {A} (l : list A) : is_nil l = true → l = [].
Proof. by destruct l. Qed.

Lemma is_nil_false {A} (l : list A) : is_nil l = false → l ≠ [].
Proof. by destruct l. Qed.

Lemma span_parts p l a b :
  span p l = (a, b) →
  l = a ++ b ∧ Forall (λ c, p c = true) a ∧ match b with [] => True | c :: _ => p c = false end.
Proof.
  revert a b. induction l as [|c l IH]; intros a b; simpl; [by intros [= <- <-]|].
  destruct (p c) eqn:Hc; [|by intros [= <- <-]].
  destruct (span p l) as [a' b']. intros [= <- <-]. destruct (IH a' b' eq_refl) as (-> & ? & ?).
  split_and!; [done|by constructor|done].
Qed.

Lemma span_atom_parts l a b : span_atom l = (a, b) → l = a ++ b.
Proof.
  revert a b. induction l as [|c l IH]; intros a b; cbn [span_atom]; [by intros [= <- <-]|].
  destruct (_ || _); [by intros [= <- <-]|]. destruct (span_atom l) as [a' b'].
  intros [= <- <-]. by rewrite (IH a' b' eq_refl).
Qed.

Lemma span_app p a b :
  Forall (λ c, p c = true) a → match b with [] => True | c :: _ => p c = false end →
  span p (a ++ b) = (a, b).
Proof.
  induction 1 as [|c a Hc _ IH]; intros Hb; simpl.
  - destruct b as [|c b]; [done|]. simpl. by rewrite Hb.
  - by rewrite Hc, IH.
Qed.

Lemma strip_prefix_Some p l r : strip_prefix p l = Some r ↔ l = p ++ r.
Proof.
  revert l. induction p as [|a p IH]; intros l; simpl; [naive_solver|].
  destruct l as [|b l]; [naive_solver|]. case_bool_decide; [|naive_solver].
  rewrite IH. naive_solver.
Qed.

Lemma first_operator_Some os l o r :
  first_operator os l = Some (o, r) → o ∈ os ∧ l = to_chars o ++ r.
Proof.
  induction os as [|o' os IH]; simpl; [done|].
  destruct (strip_prefix _ l) as [r'|] eqn:Hp.
  - intros [= <- <-]. apply strip_prefix_Some in Hp. split; [left|done].
  - intros [? ?]%IH. split; [by right|done].
Qed.

Lemma closing_Some b l text rest : closing b l = Some (text, rest) → l = text ++ rest.
Proof.
  revert b text rest. induction l as [|c l IH]; intros b text rest; simpl; [done|].
  destruct (_ && _); [by intros [= <- <-]|].
  destruct (closing _ l) as [[t r]|] eqn:Hc; simpl; [|done]. intros [= <- <-].
  by rewrite (IH _ _ _ Hc).
Qed.

(** ** One turn *)

Definition length_Z {A} (l : list A) : Z := Z.of_nat (List.length l).

(** A token is the slice of the text before it was read. *)
Definition slice_at (t : QueryToken) (text : chars) (i : Z) : Prop :=
  tok_text t = of_chars text ∧ tok_span t = Span i (i + length_Z text) ∧ text ≠ [].

Lemma slice_token kind text i value : text ≠ [] → slice_at (make_token kind text i value) text i.
Proof. done. Qed.

(** One whitespace character, and any number of them. *)
Definition is_space_char (w : chars) : Prop := space_width w = List.length w ∧ (0 < List.length w)%nat.

Inductive spaces : chars → Prop :=
  | no_spaces : spaces []
  | more_spaces w l : is_space_char w → spaces l → spaces (w ++ l).

Lemma lex_turn_Ok c rest i tokens l' i' tokens' :
  lex_turn (c :: rest, i, tokens) = Ok (l', i', tokens') →
  (∃ w, is_space_char w ∧ c :: rest = w ++ l' ∧ i' = i + length_Z w ∧ tokens' = tokens) ∨
  (∃ text t, c :: rest = text ++ l' ∧ slice_at t text i ∧ i' = i + length_Z text ∧
     tokens' = tokens ++ [t]).
Proof.
  unfold lex_turn. set (n := space_width (c :: rest)). destruct (Nat.ltb_spec 0 n) as [Hn|_].
  { intros [= <- <- <-]. left. exists (take n (c :: rest)). unfold is_space_char, length_Z.
    assert (List.length (take n (c :: rest)) = n) as Hl.
    { rewrite length_firstn. pose proof (space_width_le (c :: rest)). unfold n in *. lia. }
    pose proof (space_width_take (c :: rest)) as Hs. fold n in Hs. rewrite Hs, Hl. split_and!; [done|lia| |done..].
    by rewrite firstn_skipn. }
  destruct (symbol_kind c) as [kind|].
  { intros [= <- <- <-]. right. exists [c], (make_token kind [c] i None). by split_and!. }
  case_bool_decide as Hq.
  { unfold _lex_string. destruct (closing false rest) as [[body rest']|] eqn:Hc; [|done].
    destruct (json_string_of _) as [v|]; [|done]. intros [= <- <- <-]. right.
    exists (quote :: body). eexists. rewrite (closing_Some _ _ _ _ Hc), Hq.
    split_and!; [done|by apply slice_token|done..]. }
  destruct (first_operator _ _) as [[o rest']|] eqn:Ho.
  { intros [= <- <- <-]. apply first_operator_Some in Ho as [Ho ->]. right.
    exists (to_chars o). eexists. split_and!; [done| |done..]. apply slice_token.
    intros Hnil. assert (o = "") as -> by (by apply to_chars_inj).
    unfold _SYMBOLIC_OPERATORS in Ho. set_solver. }
  destruct (span_atom (c :: rest)) as [text rest'] eqn:Hs.
  destruct (is_nil text) eqn:Hn; [done|]. intros [= <- <- <-]. right.
  apply span_atom_parts in Hs as ->. exists text. eexists. split_and!; [done| |done..].
  apply slice_token. by apply is_nil_false.
Qed.

Lemma lex_turn_Err l i tokens e :
  lex_turn (l, i, tokens) = Err e → ∃ code, e = syntax_error code i None.
Proof.
  unfold lex_turn. destruct l as [|c rest]; [done|]. destruct (Nat.ltb _ _); [done|].
  destruct (symbol_kind c); [done|]. case_bool_decide.
  { unfold _lex_string. destruct (closing false rest) as [[body rest']|].
    - destruct (json_string_of _); [done|]. intros [= <-]. by eexists.
    - intros [= <-]. by eexists. }
  destruct (first_operator _ _) as [[o rest']|]; [done|].
  destruct (span_atom (c :: rest)) as [text rest']. destruct (is_nil text); [|done].
  intros [= <-]. by eexists.
Qed.

#[global] Arguments lex_turn : simpl never.

(** ** The whole source *)

(** Tokens tile [l], which starts at [i]. *)
Inductive tiles : chars → Z → list QueryToken → Prop :=
  | tiles_end l i : spaces l → tiles l i []
  | tiles_token gap text rest i t ts :
      spaces gap → slice_at t text (i + length_Z gap) →
      tiles rest (i + length_Z gap + length_Z text) ts →
      tiles (gap ++ text ++ rest) i (t :: ts).

Lemma length_Z_app {A} (l l' : list A) : length_Z (l ++ l') = length_Z l + length_Z l'.
Proof. unfold length_Z. rewrite length_app. lia. Qed.

Lemma tiles_space w l i ts : is_space_char w → tiles l (i + length_Z w) ts → tiles (w ++ l) i ts.
Proof.
  intros Hw. inversion 1 as [? ? Hl|gap text rest ? t ts' Hgap Ht Hrest]; subst.
  - constructor. by constructor.
  - assert (i + length_Z w + length_Z gap = i + length_Z (w ++ gap)) as Heq by (rewrite length_Z_app; lia).
    rewrite Heq in *. rewrite app_assoc. apply tiles_token; [by constructor|done..].
Qed.

Lemma lex_loop_tiles fuel l i tokens l' i' tokens' :
  loop lex_running lex_turn fuel (l, i, tokens) = Some (Ok (l', i', tokens')) →
  ∃ ts, tokens' = tokens ++ ts ∧ tiles l i ts.
Proof.
  revert l i tokens. induction fuel as [|fuel IH]; intros [|c l] i tokens;
    cbn [loop lex_running is_nil negb fst snd]; try done;
    try (intros [= <- <- <-]; exists []; rewrite app_nil_r; by repeat constructor).
  destruct (lex_turn (c :: l, i, tokens)) as [[[l1 i1] tokens1]|e] eqn:Ht; [|done].
  intros Hloop. destruct (IH _ _ _ Hloop) as (ts & -> & Hts).
  destruct (lex_turn_Ok _ _ _ _ _ _ _ Ht) as [(w & Hw & Heq & -> & ->)|(text & t & Heq & Hsl & -> & ->)].
  - exists ts. split; [done|]. rewrite Heq. by apply tiles_space.
  - exists (t :: ts). rewrite <-app_assoc. split; [done|]. rewrite Heq.
    assert (length_Z (@nil ascii) = 0) as H0 by done.
    apply (tiles_token [] text l1); rewrite ?H0, ?Z.add_0_r; first [done | constructor].
Qed.

(** Fuel for every character is enough. *)
Lemma lex_loop_total l : is_Some (lex_loop l).
Proof.
  unfold lex_loop. apply (loop_total _ _ (λ s, List.length s.1.1) (λ _, True)); try done.
  - intros [[[|c l1] i] tokens] [[l2 i2] tokens2] _ Hr Ht; [done|]. split; [done|].
    simpl. apply lex_turn_Ok in Ht as [(w & [_ Hw] & Heq & _)|(text & t & Heq & (_ & _ & Hne) & _)];
      apply (f_equal List.length) in Heq; rewrite length_app in Heq; simpl in Heq; [lia|].
    destruct text; [done|]. simpl in Heq. lia.
  - intros [[[|c l1] i] tokens] _ Hr; [done|]. simpl. lia.
Qed.

Lemma lex_query_Ok source tokens :
  lex_query source = Ok tokens ↔
  ∃ l i, lex_loop (to_chars source) = Some (Ok (l, i, tokens)).
Proof.
  unfold lex_query, run_loop. destruct (lex_loop_total (to_chars source)) as [r ->]. simpl.
  destruct r as [[[l i] ts]|e]; simpl; naive_solver.
Qed.

Lemma lex_query_tiles source tokens : lex_query source = Ok tokens → tiles (to_chars source) 0 tokens.
Proof.
  intros (l & i & H)%lex_query_Ok. by apply lex_loop_tiles in H as (ts & -> & ?).
Qed.

(** A lexer error names a position of the source. *)
Lemma lex_query_Err source e :
  lex_query source = Err e →
  ∃ code i, e = syntax_error code i None ∧ 0 <= i < length_Z (to_chars source).
Proof.
  unfold lex_query, run_loop. destruct (lex_loop_total (to_chars source)) as [r Hr]. rewrite Hr. simpl.
  destruct r as [s|e']; simpl; [done|]. intros [= ->]. unfold lex_loop in Hr.
  apply (loop_raises _ _ (λ s, 0 <= s.1.2 ∧ s.1.2 + length_Z s.1.1 = length_Z (to_chars source)))
    in Hr as ([[l i] tokens] & [Hi Hl] & Hrun & Ht); [| |simpl; lia].
  - apply lex_turn_Err in Ht as [code ->]. exists code, i. split; [done|]. simpl in *.
    destruct l; [done|]. unfold length_Z in *. simpl in *. lia.
  - intros [[[|c l] i] tokens] [[l2 i2] tokens2] [Hi Hl] Hrun Ht; [done|]. simpl in *.
    apply lex_turn_Ok in Ht as [(text & _ & Heq & -> & _)|(text & t & Heq & _ & -> & _)].
    all: rewrite Heq, length_Z_app in Hl; unfold length_Z in *; lia.
Qed.

(** What tiling says of each token. *)
Lemma tiles_bounds l i ts t :
  tiles l i ts → t ∈ ts →
  i <= span_start (tok_span t) ∧ span_start (tok_span t) < span_end (tok_span t) ∧
  span_end (tok_span t) <= i + length_Z l.
Proof.
  induction 1 as [|gap text rest i t' ts Hgap (Htext & Hspan & Hne) Hrest IH]; [set_solver|].
  rewrite !length_Z_app.
  assert (0 < length_Z text) by (destruct text; [done|]; unfold length_Z; simpl; lia).
  assert (0 <= length_Z gap ∧ 0 <= length_Z rest) by (unfold length_Z; lia).
  intros [->|Ht]%elem_of_cons.
  - rewrite Hspan. simpl. lia.
  - specialize (IH Ht). lia.
Qed.

(** * The parser of the market query language always finishes, and a query it
    refuses is refused at a position of the source. *)

(** ** Integer literals *)

Lemma int_digits_all b acc l :
  forallb is_ascii_digit l = true → (b = true ∨ l ≠ []) → is_Some (int_digits b acc l).
Proof.
  revert b acc. induction l as [|c l IH]; intros b acc; simpl; [destruct b; naive_solver|].
  intros [Hc Hl]%andb_true_iff _. unfold is_ascii_digit in Hc. destruct (digit_of c); [|done].
  apply IH; [done|by left].
Qed.

Lemma int_of_literal_Err l e :
  integer_literal l = true → int_of_literal l = Err e →
  ∃ what, e = ValueError what ∧ int_max_str_digits < length_Z (take_sign (ascii_digits l)).2.
Proof.
  unfold integer_literal, integer_form, int_of_literal. destruct (take_sign _) as [neg l']. simpl.
  intros [Hne Hl]%andb_true_iff. destruct (_ <? _)%Z eqn:Hlim.
  - intros [= <-]. eexists. split; [done|]. unfold length_Z. lia.
  - destruct (int_digits_all false 0 l' Hl) as [z ->]; [|done].
    right. apply is_nil_false. by apply negb_true_iff.
Qed.

(** A token whose integer [int] refuses to convert. *)
Definition long_integer (t : QueryToken) : Prop :=
  integer_literal (to_chars (tok_text t)) = true ∧
  int_max_str_digits < length_Z (take_sign (ascii_digits (to_chars (tok_text t)))).2.

(** ** Refusals *)

Definition within (n : Z) (t : QueryToken) : Prop :=
  0 <= span_start (tok_span t) ∧ span_start (tok_span t) <= span_end (tok_span t) ∧
  span_end (tok_span t) <= n.

(** A failure of parsing [tokens]: a syntax error with a position of the
    source, or an integer too long for [int]. *)
Definition refusal (n : Z) (tokens : list QueryToken) (e : py_error) : Prop :=
  (∃ code p field, e = syntax_error code p field ∧ 0 <= p <= n) ∨
  (∃ what t, e = ValueError what ∧ t ∈ tokens ∧ long_integer t).

Lemma refusal_at n tokens code p field : 0 <= p <= n → refusal n tokens (syntax_error code p field).
Proof. left. by exists code, p, field. Qed.

Lemma refusal_suffix n used tokens e : refusal n tokens e → refusal n (used ++ tokens) e.
Proof. intros [H|(what & t & -> & ? & ?)]; [by left|right]. exists what, t. set_solver. Qed.

Lemma token_scalar_Err n t tokens e :
  within n t → _token_scalar t = Err e → refusal n (t :: tokens) e.
Proof.
  intros Ht. unfold _token_scalar. repeat (case_bool_decide; [done|]).
  destruct (integer_literal _) eqn:Hi.
  - destruct (int_of_literal _) as [z|e'] eqn:He; [done|]. intros [= <-].
    apply int_of_literal_Err in He as (what & -> & ?); [|done]. right. exists what, t.
    split_and!; [done|by left|by unfold long_integer].
  - destruct (decimal_literal _); [|done]. destruct (parse_decimal _); [done|]. intros [= <-].
    apply refusal_at. unfold within in Ht. lia.
Qed.

Lemma parse_list_Err n field start expect values tokens e :
  0 <= start <= n → Forall (within n) tokens →
  parse_list field start expect values tokens = Err e → refusal n tokens e.
Proof.
  intros Hs Hts. revert expect values. induction Hts as [|t tokens Ht Hts IH]; intros expect values.
  { intros [= <-]. by apply refusal_at. }
  simpl. assert (∀ code, refusal n (t :: tokens) (syntax_error code (span_start (tok_span t)) (Some field)))
    as Hat by (intros; apply refusal_at; unfold within in Ht; lia).
  case_bool_decide; [destruct (_ && _); [by intros [= <-]|done]|]. destruct expect.
  - destruct (negb _); [by intros [= <-]|].
    destruct (_token_scalar t) as [v|e'] eqn:Hv; simpl; [by intros ?%IH%(refusal_suffix n [t])|].
    intros [= <-]. by eapply token_scalar_Err.
  - case_bool_decide; [by intros ?%IH%(refusal_suffix n [t])|by intros [= <-]].
Qed.

Lemma parse_literal_Err n t tokens field e :
  within n t → Forall (within n) tokens →
  _parse_literal t tokens field = Err e → refusal n (t :: tokens) e.
Proof.
  intros Ht Hts. unfold _parse_literal.
  assert (0 <= span_start (tok_span t) <= n) as Hs by (unfold within in Ht; lia).
  case_bool_decide; [intros [= <-]; by apply refusal_at|]. case_bool_decide.
  { intros ?%(parse_list_Err n); [|done..]. by apply (refusal_suffix n [t]). }
  destruct (negb _); [intros [= <-]; by apply refusal_at|].
  destruct (_token_scalar t) as [v|e'] eqn:Hv; simpl; [done|]. intros [= <-]. by eapply token_scalar_Err.
Qed.

Lemma parse_comparison_Err n t tokens e :
  within n t → Forall (within n) tokens →
  parse_comparison t tokens = Err e → refusal n (t :: tokens) e.
Proof.
  intros Ht Hts. unfold parse_comparison.
  assert (0 <= span_start (tok_span t) <= n ∧ 0 <= span_end (tok_span t) <= n) as [Hs He]
    by (unfold within in Ht; lia).
  case_bool_decide; [intros [= <-]; by apply refusal_at|].
  destruct (_ || _); [intros [= <-]; by apply refusal_at|].
  destruct Hts as [|o tokens Ho Hts]; [intros [= <-]; by apply refusal_at|].
  assert (0 <= span_start (tok_span o) <= n ∧ 0 <= span_end (tok_span o) <= n) as [Hos Hoe]
    by (unfold within in Ho; lia).
  destruct (operator_of_text _); [|intros [= <-]; by apply refusal_at].
  destruct Hts as [|v tokens Hv Hts]; [intros [= <-]; by apply refusal_at|].
  destruct (_parse_literal _ _ _) as [[lit rest]|e'] eqn:Hl; simpl; [done|]. intros [= <-].
  apply (parse_literal_Err n) in Hl; [|done..]. by apply (refusal_suffix n [t; o]).
Qed.

(** ** Progress *)

Lemma parse_list_rest field start expect values tokens lit rest :
  parse_list field start expect values tokens = Ok (lit, rest) → rest `suffix_of` tokens.
Proof.
  revert expect values. induction tokens as [|t tokens IH]; intros expect values; [done|]. simpl.
  case_bool_decide; [destruct (_ && _); [done|]; intros [= _ <-]; by apply suffix_cons_r|].
  destruct expect; [destruct (negb _); [done|]; destruct (_token_scalar t); simpl; [|done]
                   |case_bool_decide; [|done]]; intros ?%IH; by apply suffix_cons_r.
Qed.

Lemma parse_literal_rest t tokens field lit rest :
  _parse_literal t tokens field = Ok (lit, rest) → rest `suffix_of` tokens.
Proof.
  unfold _parse_literal. case_bool_decide; [done|]. case_bool_decide; [apply parse_list_rest|].
  destruct (negb _); [done|]. destruct (_token_scalar t); simpl; [|done]. by intros [= _ <-].
Qed.

Lemma parse_comparison_rest t tokens c rest :
  parse_comparison t tokens = Ok (c, rest) → rest `suffix_of` tokens.
Proof.
  unfold parse_comparison. case_bool_decide; [done|]. destruct (_ || _); [done|].
  destruct tokens as [|o tokens]; [done|]. destruct (operator_of_text _); [|done].
  destruct tokens as [|v tokens]; [done|].
  destruct (_parse_literal _ _ _) as [[lit rest']|e] eqn:Hl; simpl; [|done]. intros [= _ <-].
  do 2 apply suffix_cons_r. by eapply parse_literal_rest.
Qed.

(** ** The whole query *)

Lemma parse_turn_rest t tokens cs s' :
  parse_turn (t :: tokens, cs) = Ok s' → s'.1 `suffix_of` tokens.
Proof.
  unfold parse_turn. simpl. destruct (parse_comparison t tokens) as [[c rest]|e] eqn:Hc; simpl; [|done].
  intros [= <-]. by eapply parse_comparison_rest.
Qed.

Lemma parse_loop_total tokens : is_Some (parse_loop tokens).
Proof.
  unfold parse_loop. apply (loop_total _ _ (λ s, List.length s.1) (λ _, True)); try done.
  - intros [[|t ts] cs] s' _ Hr Ht; [done|]. split; [done|].
    apply parse_turn_rest, suffix_length in Ht. simpl. lia.
  - intros [[|t ts] cs] _ Hr; [done|]. simpl. lia.
Qed.

Lemma parse_tokens_Err n tokens e :
  Forall (within n) tokens → parse_tokens tokens = Err e → refusal n tokens e.
Proof.
  intros Hts. unfold parse_tokens, run_loop. destruct (parse_loop_total tokens) as [r Hr].
  rewrite Hr. simpl. destruct r as [s|e']; simpl; [done|]. intros [= ->]. unfold parse_loop in Hr.
  apply (loop_raises _ _ (λ s, s.1 `suffix_of` tokens)) in Hr
    as ([[|t ts] cs] & Hsuf & Hrun & Ht); [done| | |done].
  - unfold parse_turn in Ht. simpl in Ht. destruct (parse_comparison t ts) as [[c rest]|e'] eqn:Hc; [done|].
    injection Ht as <-. destruct Hsuf as [used Heq]. simpl in Heq. rewrite Heq in Hts |- *.
    apply refusal_suffix. apply Forall_app in Hts as [_ Hts]. inversion Hts; subst.
    by apply parse_comparison_Err.
  - intros [[|t ts] cs] s' Hsuf Hrun Ht; [done|]. apply parse_turn_rest in Ht. simpl in *.
    etrans; [done|]. etrans; [|done]. by apply suffix_cons_r.
Qed.

(** A parsed query's fields are field names: what [parse_comparison] accepts. *)
Lemma lex_within source tokens :
  lex_query source = Ok tokens → Forall (within (length_Z (to_chars source))) tokens.
Proof.
  intros Ht%lex_query_tiles. apply Forall_forall. intros t Hin.
  pose proof (tiles_bounds _ _ _ _ Ht Hin). unfold within. lia.
Qed.

Lemma tiles_slice l i ts t :
  tiles l i ts → t ∈ ts → ∃ before after, l = before ++ to_chars (tok_text t) ++ after.
Proof.
  induction 1 as [|gap text rest i t' ts _ (Htext & _) _ IH]; [set_solver|].
  intros [->|Hin]%elem_of_cons.
  - exists gap, rest. by rewrite Htext, to_of_chars.
  - destruct (IH Hin) as (before & after & ->). exists (gap ++ text ++ before), after.
    by rewrite <-!app_assoc.
Qed.
