(* ===== verification/PyTextFacts.v ===== *)
(** Text that reads back: [str(z)] as an integer literal, [format(d, 'f')] as a
    number literal of the same value, and a JSON string as itself. *)
From S2P Require Import Prelude PyNum PyNumFacts PyValue PyTime PyTimeFacts PyText QueryDsl.
From S2P Require Import QueryLexer.
From Stdlib Require Import Ascii.

Local Open Scope Z_scope.

(** ** JSON strings *)

Lemma json_body_escape c rest :
  json_body false (escape_char c ++ rest) = (cons c) <$> json_body false rest.
Proof. destruct c as [[] [] [] [] [] [] [] []]; reflexivity. Qed.

Lemma closing_plain c l :
  c ≠ quote → c ≠ backslash →
  closing false (c :: l) = ('(t, r) ← closing false l; Some (c :: t, r)).
Proof. intros Hq Hb. simpl. by rewrite !bool_decide_eq_false_2. Qed.

Lemma closing_escaped d l :
  closing false (backslash :: d :: l) = ('(t, r) ← closing false l; Some (backslash :: d :: t, r)).
Proof.
  cbn [closing]. rewrite (bool_decide_eq_false_2 (backslash = quote)) by done.
  rewrite andb_false_r. simpl. rewrite andb_false_r. by destruct (closing false l) as [[]|].
Qed.

(** A character stands for itself, or is escaped by a backslash and what follows
    it up to neither a quote nor another backslash. *)
Definition escape_shape (c : ascii) : bool :=
  match escape_char c with
  | [d] => bool_decide (d = c ∧ c ≠ quote ∧ c ≠ backslash)
  | b :: d :: l => bool_decide (b = backslash ∧ Forall (λ x, x ≠ quote ∧ x ≠ backslash) l)
  | [] => false
  end.

Lemma escape_char_shape c :
  (escape_char c = [c] ∧ c ≠ quote ∧ c ≠ backslash) ∨
  (∃ d l, escape_char c = backslash :: d :: l ∧ Forall (λ x, x ≠ quote ∧ x ≠ backslash) l).
Proof.
  assert (escape_shape c = true) as H
    by (destruct c as [[] [] [] [] [] [] [] []]; vm_compute; reflexivity).
  unfold escape_shape in H. destruct (escape_char c) as [|b [|d l]]; [done| |];
    apply bool_decide_eq_true in H; [left|right]; destruct H as [-> H]; [done|by exists d, l].
Qed.

Lemma closing_plains l rest :
  Forall (λ x, x ≠ quote ∧ x ≠ backslash) l →
  closing false (l ++ rest) = ('(t, r) ← closing false rest; Some (l ++ t, r)).
Proof.
  induction 1 as [|c l [Hq Hb] _ IH]; [simpl; by destruct (closing false rest) as [[]|]|].
  rewrite <-app_comm_cons, closing_plain, IH by done. by destruct (closing false rest) as [[]|].
Qed.

Lemma closing_escape c rest :
  closing false (escape_char c ++ rest) =
  ('(t, r) ← closing false rest; Some (escape_char c ++ t, r)).
Proof.
  destruct (escape_char_shape c) as [(-> & ? & ?)|(d & l & -> & Hl)].
  - by apply (closing_plain c rest).
  - rewrite <-!app_comm_cons, closing_escaped, closing_plains by done.
    by destruct (closing false rest) as [[]|].
Qed.

Lemma json_body_string s : json_body false (flat_map escape_char s ++ [quote]) = Some s.
Proof.
  induction s as [|c s IH]; [reflexivity|]. simpl. by rewrite <-app_assoc, json_body_escape, IH.
Qed.

Lemma json_string_roundtrip s : json_string_of (json_string_chars s) = Some s.
Proof. apply json_body_string. Qed.

Lemma closing_string s rest :
  closing false (flat_map escape_char s ++ quote :: rest) = Some (flat_map escape_char s ++ [quote], rest).
Proof.
  induction s as [|c s IH]; [reflexivity|]. simpl. by rewrite <-!app_assoc, closing_escape, IH.
Qed.

(** ** Digits *)

Lemma is_digit_char z : is_ascii_digit (digit_char z) = true.
Proof. unfold is_ascii_digit. by rewrite digit_of_digit_char. Qed.

Lemma pad_digit n z : Forall (λ c, is_ascii_digit c = true) (pad n z).
Proof.
  revert z. induction n as [|n IH]; intros z; [constructor|].
  rewrite pad_S. apply Forall_app. split; [done|]. repeat constructor. apply is_digit_char.
Qed.

Lemma ndigits_pos n : 0 <= n → 1 <= ndigits n.
Proof.
  intros Hn. destruct (decide (n = 0)) as [->|Hne]; [done|].
  apply (ndigits_bounds n); lia.
Qed.

Lemma ndigits_above n : 0 <= n → n < 10 ^ ndigits n.
Proof.
  intros Hn. destruct (decide (n = 0)) as [->|Hne]; [done|]. apply (ndigits_bounds n); lia.
Qed.

Lemma nat_chars_digits n : Forall (λ c, is_ascii_digit c = true) (nat_chars n).
Proof. apply pad_digit. Qed.

Lemma length_nat_chars n : 0 <= n → Z.of_nat (length (nat_chars n)) = ndigits n.
Proof. intros Hn. unfold nat_chars. rewrite length_pad. pose proof (ndigits_pos n Hn). lia. Qed.

Lemma nat_chars_cons n : 0 <= n → ∃ c l, nat_chars n = c :: l ∧ is_ascii_digit c = true.
Proof.
  intros Hn. pose proof (nat_chars_digits n) as Hd. pose proof (length_nat_chars n Hn) as Hl.
  pose proof (ndigits_pos n Hn). destruct (nat_chars n) as [|c l]; [simpl in Hl; lia|].
  exists c, l. split; [done|]. by inversion Hd.
Qed.

(** Reading digits one by one. *)
Lemma int_digits_pad k b acc n rest :
  int_digits b acc (pad (S k) n ++ rest) =
  int_digits true (acc * 10 ^ Z.of_nat (S k) + n mod 10 ^ Z.of_nat (S k)) rest.
Proof.
  revert b n rest. induction k as [|k IH]; intros b n rest.
  - change (pad 1 n) with [digit_char n]. simpl. rewrite digit_of_digit_char. f_equal.
    change (10 ^ Z.of_nat 1) with 10. lia.
  - rewrite pad_S, <-app_assoc, IH. simpl app. cbn [int_digits]. rewrite digit_of_digit_char. f_equal.
    rewrite (Nat2Z.inj_succ (S k)), Z.pow_succ_r by lia.
    rewrite (Z.rem_mul_r n 10 (10 ^ Z.of_nat (S k))) by lia. lia.
Qed.

Lemma take_digits_pad k acc cnt n rest :
  take_digits acc cnt (pad k n ++ rest) =
  take_digits (acc * 10 ^ Z.of_nat k + n mod 10 ^ Z.of_nat k) (cnt + Z.of_nat k) rest.
Proof.
  revert acc cnt n rest. induction k as [|k IH]; intros acc cnt n rest.
  - simpl. rewrite Z.mod_1_r. f_equal; lia.
  - rewrite pad_S, <-app_assoc, IH. simpl app. cbn [take_digits]. rewrite digit_of_digit_char.
    rewrite (Nat2Z.inj_succ k), Z.pow_succ_r by lia. f_equal; [|lia].
    rewrite (Z.rem_mul_r n 10 (10 ^ Z.of_nat k)) by lia. lia.
Qed.

Lemma take_digits_nat cnt n rest :
  0 <= n → take_digits 0 cnt (nat_chars n ++ rest) = take_digits n (cnt + ndigits n) rest.
Proof.
  intros Hn. unfold nat_chars. rewrite take_digits_pad. pose proof (ndigits_pos n Hn).
  rewrite Z2Nat.id, Z.mod_small; [done|split; [done|by apply ndigits_above]|lia].
Qed.

Lemma int_digits_nat n : 0 <= n → int_digits false 0 (nat_chars n) = Some n.
Proof.
  intros Hn. unfold nat_chars. pose proof (ndigits_pos n Hn) as Hp.
  destruct (Z.to_nat (ndigits n)) as [|k] eqn:Hk; [lia|].
  rewrite <-(app_nil_r (pad _ _)), int_digits_pad. simpl. f_equal.
  rewrite <-Hk, Z2Nat.id, Z.mod_small; [lia|split; [done|by apply ndigits_above]|lia].
Qed.

(** ** Signs *)

Lemma take_sign_digit c l : is_ascii_digit c = true → take_sign (c :: l) = (false, c :: l).
Proof. destruct c as [[] [] [] [] [] [] [] []]; done. Qed.

Lemma take_sign_chars neg l :
  match l with c :: _ => is_ascii_digit c = true | [] => False end →
  take_sign (sign_chars neg ++ l) = (neg, l).
Proof. destruct neg, l as [|c l]; try done. apply take_sign_digit. Qed.

Lemma take_sign_nat neg n rest :
  0 <= n → take_sign (sign_chars neg ++ nat_chars n ++ rest) = (neg, nat_chars n ++ rest).
Proof.
  intros Hn. destruct (nat_chars_cons n Hn) as (c & l & -> & Hc). by apply take_sign_chars.
Qed.

Lemma forallb_Forall {A} (p : A → bool) l : Forall (λ x, p x = true) l → forallb p l = true.
Proof. induction 1 as [|x l Hx _ IH]; simpl; [done|]. by rewrite Hx. Qed.

Lemma Forall_forallb {A} (p : A → bool) l : forallb p l = true → Forall (λ x, p x = true) l.
Proof.
  induction l as [|x l IH]; simpl; [constructor|]. intros [Hx Hl]%andb_true_iff. by constructor; [|apply IH].
Qed.

Lemma nat_chars_not_nil n : 0 <= n → is_nil (nat_chars n) = false.
Proof. intros Hn. by destruct (nat_chars_cons n Hn) as (c & l & -> & _). Qed.

(** ** The characters of numbers *)

(** Neither white space nor an underscore. *)
Definition number_char (c : ascii) : bool :=
  is_ascii_digit c || bool_decide (c = "-"%char) || bool_decide (c = "."%char).

Lemma number_char_plain c : number_char c = true → solid c = true ∧ c ≠ "_"%char.
Proof. destruct c as [[] [] [] [] [] [] [] []]; vm_compute; intros; by split. Qed.

Lemma ascii_digits_number l : Forall (λ c, number_char c = true) l → ascii_digits l = l.
Proof.
  intros Hl. apply ascii_digits_ascii. eapply Forall_impl; [exact Hl|].
  intros c Hc. by apply solid_code, number_char_plain.
Qed.

Lemma digits_number l :
  Forall (λ c, is_ascii_digit c = true) l → Forall (λ c, number_char c = true) l.
Proof. intros H. apply (Forall_impl _ _ _ H). intros c Hc. unfold number_char. by rewrite Hc. Qed.

Lemma sign_number neg : Forall (λ c, number_char c = true) (sign_chars neg).
Proof. destruct neg; repeat constructor. Qed.

Lemma signed_number neg n : Forall (λ c, number_char c = true) (sign_chars neg ++ nat_chars n).
Proof. apply Forall_app. split; [apply sign_number|apply digits_number, nat_chars_digits]. Qed.

(** ** Integers *)

(** The text of an integer within the conversion limit. *)
Lemma integer_literal_nat neg n : 0 <= n → integer_literal (sign_chars neg ++ nat_chars n) = true.
Proof.
  intros Hn. unfold integer_literal. rewrite ascii_digits_number by apply signed_number.
  unfold integer_form. rewrite <-(app_nil_r (nat_chars n)), take_sign_nat by done. simpl.
  rewrite app_nil_r, nat_chars_not_nil by done. simpl. apply forallb_Forall, nat_chars_digits.
Qed.

Lemma int_of_literal_nat neg n :
  0 <= n → ndigits n <= int_max_str_digits →
  int_of_literal (sign_chars neg ++ nat_chars n) = Ok (signed neg n).
Proof.
  intros Hn Hlim. unfold int_of_literal. rewrite ascii_digits_number by apply signed_number.
  rewrite <-(app_nil_r (nat_chars n)), take_sign_nat by done. rewrite app_nil_r.
  rewrite length_nat_chars by done. destruct (Z.ltb_spec int_max_str_digits (ndigits n)); [lia|].
  by rewrite int_digits_nat.
Qed.

Lemma signed_abs z : signed (z <? 0) (Z.abs z) = z.
Proof. unfold signed. destruct (Z.ltb_spec z 0); lia. Qed.

Lemma int_chars_reads z l :
  int_chars z = Ok l → integer_literal l = true ∧ int_of_literal l = Ok z.
Proof.
  unfold int_chars. destruct (Z.ltb_spec int_max_str_digits (ndigits (Z.abs z))); [done|].
  intros [= <-]. split; [apply integer_literal_nat; lia|].
  rewrite int_of_literal_nat by lia. by rewrite signed_abs.
Qed.

(** ** Decimals *)

(** The decimals whose text is their exact value: at most 28 digits, not too
    small for the context, and of no more digits than an integer may have. *)
Definition exact_text (d : decimal) : Prop :=
  coef d = 0 ∨
  (Z.abs (coef d) < 10 ^ context_prec ∧ context_etiny <= expo d ∧ adjusted d < int_max_str_digits).

Lemma dec_eqb_shift a b e e' : e <= e' → a = b * 10 ^ (e' - e) → dec_eqb (Dec a e) (Dec b e') = true.
Proof.
  intros He ->. unfold dec_eqb, dec_cmp, aligned. cbn [coef expo]. rewrite Z.min_l by done.
  rewrite Z.sub_diag, Z.mul_1_r. by rewrite Z.compare_refl.
Qed.

Lemma dec_eqb_shift_l a b e e' : e' <= e → b = a * 10 ^ (e - e') → dec_eqb (Dec a e) (Dec b e') = true.
Proof.
  intros He ->. unfold dec_eqb, dec_cmp, aligned. cbn [coef expo]. rewrite Z.min_r by done.
  rewrite Z.sub_diag, Z.mul_1_r. by rewrite Z.compare_refl.
Qed.

Lemma ndigits_le n k : 0 <= n → 1 <= k → n < 10 ^ k → ndigits n <= k.
Proof.
  intros Hn Hk Hlt. destruct (decide (n = 0)) as [->|Hne]; [done|].
  destruct (ndigits_bounds n ltac:(lia)) as [[Hlow _] _].
  assert (10 ^ (ndigits n - 1) < 10 ^ k) as H by lia. apply Z.pow_lt_mono_r_iff in H; lia.
Qed.

Lemma strip_zeros_value fuel c e :
  0 < c → ∃ c' e', strip_zeros fuel c e = Dec c' e' ∧ e <= e' ∧ 0 < c' ∧ c = c' * 10 ^ (e' - e).
Proof.
  revert c e. induction fuel as [|fuel IH]; intros c e Hc; simpl.
  { exists c, e. rewrite Z.sub_diag, Z.pow_0_r. split_and!; [done|lia..]. }
  destruct (Z.eqb_spec (c mod 10) 0) as [Hz|].
  - pose proof (Z.div_mod c 10 ltac:(lia)). destruct (IH (c / 10) (e + 1)) as (c' & e' & -> & He & Hc' & Heq); [lia|].
    exists c', e'. split_and!; [done|lia|done|].
    replace (e' - e) with (Z.succ (e' - (e + 1))) by lia. rewrite Z.pow_succ_r by lia. lia.
  - exists c, e. rewrite Z.sub_diag, Z.pow_0_r. split_and!; [done|lia..].
Qed.

Lemma dec_finalize_exact d : coef d ≠ 0 → exact_text d → dec_finalize d = Ok d.
Proof.
  intros Hne [?|(Hc & He & Ha)]; [done|]. unfold dec_finalize.
  unfold context_emax, int_max_str_digits in *.
  destruct (Z.ltb_spec 999999 (adjusted d)); [lia|].
  rewrite (proj2 (Z.ltb_ge (expo d) context_etiny)), andb_false_r by done.
  destruct d as [c e]. rewrite dec_fix_exact by done.
  destruct (Z.ltb_spec 999999 (adjusted (Dec c e))); [lia|done].
Qed.

(** What is written of an exact decimal, before its sign. *)
Lemma normalize_exact d :
  coef d ≠ 0 → exact_text d →
  ∃ c e, dec_normalize_abs d = Ok (Dec c e) ∧ expo d <= e ∧ 0 < c ∧
    Z.abs (coef d) = c * 10 ^ (e - expo d).
Proof.
  intros Hne Hex. unfold dec_normalize_abs. rewrite dec_finalize_exact by done.
  cbn [mbind result_bind]. destruct (Z.eqb_spec (Z.abs (coef d)) 0); [lia|].
  destruct (strip_zeros_value (Z.to_nat (ndigits (Z.abs (coef d)))) (Z.abs (coef d)) (expo d))
    as (c & e & -> & ? & ? & ?); [lia|]. by exists c, e.
Qed.

Lemma whole_digits d c e :
  exact_text d → coef d ≠ 0 → expo d <= e → 0 <= e → 0 < c → Z.abs (coef d) = c * 10 ^ (e - expo d) →
  ndigits (c * 10 ^ e) <= int_max_str_digits.
Proof.
  intros [?|(_ & _ & Ha)] Hne He H0 Hc Heq; [done|]. unfold adjusted in Ha.
  pose proof (ndigits_above (Z.abs (coef d)) ltac:(lia)) as Habove.
  pose proof (ndigits_pos (Z.abs (coef d)) ltac:(lia)) as Hpos.
  set (n := ndigits (Z.abs (coef d))) in *. pose proof (Z.pow_pos_nonneg 10 e ltac:(lia) H0).
  apply ndigits_le; [nia|done|].
  destruct (decide (0 <= expo d)) as [Hd|Hd].
  - replace (c * 10 ^ e) with (Z.abs (coef d) * 10 ^ expo d).
    + apply Z.lt_le_trans with (10 ^ n * 10 ^ expo d).
      * apply Z.mul_lt_mono_pos_r; [lia|done].
      * rewrite <-Z.pow_add_r by lia. apply Z.pow_le_mono_r; lia.
    + rewrite Heq, <-Z.mul_assoc, <-Z.pow_add_r by lia. do 2 f_equal. lia.
  - assert (c * 10 ^ e * 10 ^ (- expo d) < 10 ^ n) as Hlt.
    { rewrite <-Z.mul_assoc, <-Z.pow_add_r by lia. by replace (e + - expo d) with (e - expo d) by lia; rewrite <-Heq. }
    assert (0 <= n + expo d).
    { destruct (decide (0 <= n + expo d)); [done|exfalso].
      assert (10 ^ n < 10 ^ (- expo d)) by (apply Z.pow_lt_mono_r; lia).
      assert (1 <= c * 10 ^ e) by nia. nia. }
    replace n with (n + expo d + - expo d) in Hlt by lia.
    rewrite (Z.pow_add_r 10 (n + expo d)) in Hlt by lia.
    apply Z.mul_lt_mono_pos_r in Hlt; [|lia].
    apply Z.lt_le_trans with (10 ^ (n + expo d)); [done|]. apply Z.pow_le_mono_r; lia.
Qed.

(** *** A number with a point *)

Definition point_chars (neg : bool) (w f : Z) (k : nat) : chars :=
  sign_chars neg ++ nat_chars w ++ "."%char :: pad k f.

Lemma point_number neg w f k : Forall (λ c, number_char c = true) (point_chars neg w f k).
Proof.
  repeat (apply Forall_app; split); [apply sign_number|apply digits_number, nat_chars_digits|].
  constructor; [done|]. apply digits_number, pad_digit.
Qed.

Lemma span_digits_app l rest :
  Forall (λ c, is_ascii_digit c = true) l → match rest with [] => True | c :: _ => is_ascii_digit c = false end →
  span is_ascii_digit (l ++ rest) = (l, rest).
Proof. apply span_app. Qed.

Lemma decimal_literal_point neg w f k : 0 <= w → decimal_literal (point_chars neg w f k) = true.
Proof.
  intros Hw. unfold decimal_literal. rewrite ascii_digits_number by apply point_number.
  unfold decimal_form, point_chars. rewrite take_sign_nat by done. cbn [snd].
  rewrite span_digits_app by (done || apply nat_chars_digits).
  rewrite bool_decide_eq_true_2 by done. rewrite <-(app_nil_r (pad k f)).
  rewrite span_digits_app by (done || apply pad_digit). rewrite nat_chars_not_nil by done. done.
Qed.

Lemma integer_literal_point neg w f k : 0 <= w → integer_literal (point_chars neg w f k) = false.
Proof.
  intros Hw. unfold integer_literal. rewrite ascii_digits_number by apply point_number.
  unfold integer_form, point_chars. rewrite take_sign_nat by done. cbn [snd].
  rewrite forallb_app. simpl. by rewrite !andb_false_r.
Qed.

Lemma strip_number l : Forall (λ c, number_char c = true) l → drop_space l = l ∧ drop_trailing l = l.
Proof.
  intros Hl. apply strip_solid. eapply Forall_impl; [exact Hl|]. intros c Hc. by apply number_char_plain.
Qed.

Lemma clean_number l :
  Forall (λ c, number_char c = true) l → filter (λ c, c ≠ "_"%char) (ascii_digits (strip_chars l)) = l.
Proof.
  intros Hl. unfold strip_chars. destruct (strip_number l Hl) as [-> ->]. rewrite ascii_digits_number by done.
  apply filter_all. intros c Hc. rewrite Forall_forall in Hl. by apply number_char_plain, Hl.
Qed.

Lemma parse_decimal_point neg w f k :
  0 <= w → ndigits w <= context_prec + int_max_str_digits →
  Z.of_nat k <= - context_etiny →
  parse_decimal (of_chars (point_chars neg w f k)) =
  Some (Dec (signed neg (w * 10 ^ Z.of_nat k + f mod 10 ^ Z.of_nat k)) (- Z.of_nat k)).
Proof.
  intros Hw Hn Hk. unfold parse_decimal. rewrite to_of_chars, clean_number by apply point_number.
  unfold point_chars. rewrite take_sign_nat, take_digits_nat by done.
  change (take_digits w (0 + ndigits w) ("."%char :: pad k f)) with (w, 0 + ndigits w, "."%char :: pad k f).
  rewrite <-(app_nil_r (pad k f)), take_digits_pad.
  cbn [take_digits parse_exponent]. rewrite !Z.add_0_l. cbn [Z.sub].
  pose proof (ndigits_pos w Hw). unfold context_etiny, context_emin, context_prec, int_max_str_digits in *.
  destruct (Z.eqb_spec (ndigits w + Z.of_nat k) 0); [lia|].
  unfold max_emax, min_etiny.
  destruct (Z.ltb_spec 999999999999999999 (0 - Z.of_nat k + (ndigits w + Z.of_nat k) - 1)); [lia|].
  destruct (Z.ltb_spec (0 - Z.of_nat k) (-1999999999999999997)); [lia|done].
Qed.

Lemma signed_mul neg x y : signed neg (x * y) = signed neg x * y.
Proof. destruct neg; simpl; lia. Qed.

Lemma signed_sign c : signed (c <? 0) (Z.abs c) = c.
Proof. apply signed_abs. Qed.

(** *** A whole number *)

Definition whole_chars (neg : bool) (n : Z) : chars := sign_chars neg ++ nat_chars n.

Lemma whole_number neg n : Forall (λ c, number_char c = true) (whole_chars neg n).
Proof. apply signed_number. Qed.

Lemma parse_decimal_whole neg n :
  0 <= n → ndigits n <= int_max_str_digits →
  parse_decimal (of_chars (whole_chars neg n)) = Some (Dec (signed neg n) 0).
Proof.
  intros Hn Hlim. unfold parse_decimal. rewrite to_of_chars, clean_number by apply whole_number.
  unfold whole_chars. rewrite <-(app_nil_r (nat_chars n)), take_sign_nat, take_digits_nat by done.
  cbn [take_digits parse_exponent]. pose proof (ndigits_pos n Hn). unfold int_max_str_digits, max_emax, min_etiny in *.
  destruct (Z.eqb_spec (0 + ndigits n) 0); [lia|].
  destruct (Z.ltb_spec 999999999999999999 (0 - 0 + (0 + ndigits n) - 1)); [lia|done].
Qed.

(** The text of an exact decimal is a whole number, or one with a point, of its
    value. *)
Inductive decimal_text (d : decimal) : chars → Prop :=
  | whole_text neg n :
      0 <= n → ndigits n <= int_max_str_digits → dec_eqb d (Dec (signed neg n) 0) = true →
      decimal_text d (whole_chars neg n)
  | point_text neg w f k :
      0 <= w → ndigits w <= context_prec + int_max_str_digits → Z.of_nat k <= - context_etiny →
      dec_eqb d (Dec (signed neg (w * 10 ^ Z.of_nat k + f mod 10 ^ Z.of_nat k)) (- Z.of_nat k)) = true →
      decimal_text d (point_chars neg w f k).

Lemma whole_value d c e :
  0 <= e → expo d <= e → Z.abs (coef d) = c * 10 ^ (e - expo d) →
  dec_eqb d (Dec (signed (coef d <? 0) (c * 10 ^ e)) 0) = true.
Proof.
  intros Hp He Heq. rewrite signed_mul. destruct d as [cd ed]. cbn [coef expo] in *.
  assert (cd = signed (cd <? 0) c * 10 ^ (e - ed)) as Hcd by (by rewrite <-signed_mul, <-Heq, signed_abs).
  destruct (Z.le_gt_cases ed 0).
  - apply dec_eqb_shift; [done|]. rewrite <-Z.mul_assoc, <-Z.pow_add_r by lia.
    by replace (e + (0 - ed)) with (e - ed) by lia.
  - apply dec_eqb_shift_l; [lia|]. rewrite Hcd at 2. rewrite <-Z.mul_assoc, <-Z.pow_add_r by lia.
    by replace (e - ed + (ed - 0)) with e by lia.
Qed.

Lemma decimal_chars_text d : exact_text d → ∃ l, decimal_chars d = Ok l ∧ decimal_text d l.
Proof.
  intros Hex. unfold decimal_chars. destruct (Z.eqb_spec (coef d) 0) as [H0|Hne].
  { eexists. split; [done|]. apply (whole_text d false 0); [lia|by vm_compute|]. destruct d as [c e]. simpl in H0. subst c.
    unfold dec_eqb, dec_cmp, aligned. simpl. done. }
  destruct (normalize_exact d Hne Hex) as (c & e & -> & He & Hc & Heq). cbn [mbind result_bind].
  eexists. split; [done|]. unfold fixed_chars. cbn [coef expo].
  destruct (Z.leb_spec 0 e) as [Hp|Hp].
  - pose proof (whole_digits d c e Hex Hne He Hp Hc Heq) as Hn.
    pose proof (Z.pow_pos_nonneg 10 e ltac:(lia) Hp).
    apply whole_text; [nia|done|by apply whole_value].
  - assert (0 <= c / 10 ^ (- e)) as Hw by (apply Z.div_pos; [lia|apply Z.pow_pos_nonneg; lia]).
    change (sign_chars _ ++ _ ++ _) with
      (point_chars (coef d <? 0) (c / 10 ^ (- e)) c (Z.to_nat (- e))).
    assert (0 < 10 ^ (- e)) as Hpow by (apply Z.pow_pos_nonneg; lia).
    destruct Hex as [?|(Hlim & Htiny & _)]; [done|].
    assert (c <= Z.abs (coef d)) as Hle by (assert (0 < 10 ^ (e - expo d)) by (apply Z.pow_pos_nonneg; lia); nia).
    assert (ndigits (c / 10 ^ (- e)) <= context_prec) as Hn.
    { apply ndigits_le; [done|done|]. apply Z.le_lt_trans with c; [|lia].
      apply Z.div_le_upper_bound; nia. }
    unfold int_max_str_digits, context_prec in *.
    apply point_text; [done|unfold int_max_str_digits, context_prec in *; lia|lia|].
    rewrite Z2Nat.id, Z.opp_involutive by lia.
    replace (c / 10 ^ (- e) * 10 ^ (- e) + c mod 10 ^ (- e)) with c
      by (pose proof (Z.div_mod c (10 ^ (- e))); lia).
    destruct d as [cd ed]. cbn [coef expo] in *. apply dec_eqb_shift; [done|].
    by rewrite <-signed_mul, <-Heq, signed_abs.
Qed.

Lemma decimal_text_number d l : decimal_text d l → Forall (λ c, number_char c = true) l.
Proof. destruct 1; [apply whole_number|apply point_number]. Qed.

Lemma decimal_text_not_nil d l : decimal_text d l → l ≠ [].
Proof.
  destruct 1 as [neg n Hn|neg w f k Hw]; unfold whole_chars, point_chars.
  - destruct (nat_chars_cons n Hn) as (x & l & -> & _). by destruct neg.
  - destruct (nat_chars_cons w Hw) as (x & l & -> & _). by destruct neg.
Qed.

(** The text is a number literal, and [Decimal] reads the value back. *)
Lemma decimal_text_parses d l :
  decimal_text d l → ∃ d', parse_decimal (of_chars l) = Some d' ∧ dec_eqb d d' = true.
Proof.
  destruct 1; eexists; (split; [|done]); [by apply parse_decimal_whole|by apply parse_decimal_point].
Qed.

Lemma decimal_chars_reads d :
  exact_text d → ∃ l, decimal_chars d = Ok l ∧ Forall (λ c, number_char c = true) l ∧ l ≠ [] ∧
    ((integer_literal l = true ∧ ∃ z, int_of_literal l = Ok z ∧ dec_eqb d (dec_of_Z z) = true) ∨
     (integer_literal l = false ∧ decimal_literal l = true ∧
      ∃ d', parse_decimal (of_chars l) = Some d' ∧ dec_eqb d d' = true)).
Proof.
  intros Hex. destruct (decimal_chars_text d Hex) as (l & Hl & Ht). exists l.
  split_and!; [done|by eapply decimal_text_number|by eapply decimal_text_not_nil|].
  destruct Ht as [neg n Hn Hlim Heq|neg w f k Hw Hlim Hk Heq]; [left|right].
  - split; [by apply integer_literal_nat|]. eexists. by split; [apply int_of_literal_nat|].
  - split; [by apply integer_literal_point|]. split; [by apply decimal_literal_point|].
    apply (decimal_text_parses d). by apply point_text.
Qed.
