(* ===== verification/QueryTyping.v ===== *)
(** Validation of a market query as a type system: the vocabularies descriptors
    may form, the queries that are well typed over one, and what validation
    makes of them. *)
From S2P Require Import Prelude PyNum PyValue PyText QueryDsl QueryLexer.
From Stdlib Require Import Ascii.

Local Open Scope string_scope.
Local Open Scope list_scope.

(** ** Association lists *)

Lemma alist_get_elem {A} k (l : list (string * A)) x : alist_get k l = Some x → (k, x) ∈ l.
Proof.
  induction l as [|[k' y] l IH]; simpl; [done|]. case_decide; [intros [= <-]; subst; left|right; auto].
Qed.

Lemma alist_get_None {A} k (l : list (string * A)) : alist_get k l = None ↔ k ∉ l.*1.
Proof.
  induction l as [|[k' y] l IH]; simpl; [set_solver|]. rewrite not_elem_of_cons.
  case_decide; naive_solver.
Qed.

Lemma alist_get_unique {A} k (l : list (string * A)) x :
  NoDup l.*1 → (alist_get k l = Some x ↔ (k, x) ∈ l).
Proof.
  intros Hnd. split; [apply alist_get_elem|]. intros Hin.
  destruct (alist_get k l) as [y|] eqn:Hg.
  - f_equal. apply alist_get_elem in Hg.
    assert ((k, y) = (k, x)) as [=] by (by eapply (key_inj fst)). done.
  - apply alist_get_None in Hg. destruct Hg. by apply (list_elem_of_fmap_2 fst) in Hin.
Qed.

(** ** Vocabularies *)

Definition names (d : FieldDescriptor) : list string := fd_name d :: fd_aliases d.

Definition entries (d : FieldDescriptor) : vocabulary := (λ n, (n, d)) <$> names d.
Definition own_entry (d : FieldDescriptor) : string * FieldDescriptor := (fd_name d, d).

(** No name means two fields, and a co-requirement names a field. *)
Record usable_vocabulary (ds : list FieldDescriptor) : Prop := {
  uv_names : NoDup (ds ≫= names);
  uv_requires : ∀ d t, d ∈ ds → t ∈ fd_requires d → t ∈ fd_name <$> ds;
}.

Lemma add_names_spec ns d m m' :
  add_names ns d m = Ok m' ↔
  (NoDup ns ∧ ∀ n, n ∈ ns → n ∉ m.*1) ∧ m' = m ++ ((λ n, (n, d)) <$> ns).
Proof.
  revert m. induction ns as [|n ns IH]; intros m; simpl.
  { rewrite app_nil_r. split; [intros [= <-]; split; [split; [constructor|set_solver]|done]|naive_solver]. }
  destruct (alist_get n m) as [d'|] eqn:Hg.
  - split; [done|]. intros [[_ H] _]. destruct (H n); [left|].
    apply alist_get_elem in Hg. by apply (list_elem_of_fmap_2 fst) in Hg.
  - apply alist_get_None in Hg. rewrite IH, NoDup_cons, fmap_app, <-app_assoc. simpl.
    split; intros [[H1 H2] ->]; (split; [split|done]).
    + split; [|done]. intros Hn. specialize (H2 n Hn). set_solver.
    + set_solver.
    + apply H1.
    + intros n' Hn'. specialize (H2 n'). set_solver.
Qed.

Lemma entries_keys d : (entries d).*1 = names d.
Proof.
  unfold entries. rewrite <-list_fmap_compose.
  rewrite (list_fmap_ext _ id); [apply list_fmap_id|done].
Qed.

Lemma add_descriptors_spec ds m c r :
  NoDup m.*1 → c.*1 ⊆ m.*1 →
  add_descriptors ds (m, c) = Ok r ↔
  NoDup (m.*1 ++ (ds ≫= names)) ∧ r = (m ++ (ds ≫= entries), c ++ (own_entry <$> ds)).
Proof.
  revert m c. induction ds as [|d ds IH]; intros m c Hm Hc.
  { simpl. rewrite !app_nil_r. naive_solver. }
  rewrite !bind_cons, fmap_cons. cbn [add_descriptors fst snd].
  assert (fd_name d ∈ m.*1 → ¬ NoDup (m.*1 ++ names d ++ (ds ≫= names))) as Hdup.
  { intros Hin Hnd. apply NoDup_app in Hnd as (_ & Hd & _). apply (Hd _ Hin). set_solver. }
  destruct (alist_get (fd_name d) c) as [d'|] eqn:Hg.
  { split; [done|]. intros [Hnd _]. destruct Hdup; [|done]. apply Hc.
    apply alist_get_elem in Hg. by apply (list_elem_of_fmap_2 fst) in Hg. }
  change (fd_name d :: fd_aliases d) with (names d).
  destruct (add_names (names d) d m) as [m'|e] eqn:Ha; cbn [mbind result_bind].
  - apply add_names_spec in Ha as [[Hn Hdis] ->]. change ((λ n, (n, d)) <$> names d) with (entries d).
    rewrite IH.
    + by rewrite fmap_app, entries_keys, <-!app_assoc.
    + rewrite fmap_app, entries_keys. apply NoDup_app. split_and!; [done| |done]. set_solver.
    + rewrite !fmap_app, entries_keys. simpl. intros x. rewrite !elem_of_app.
      intros [?|?%list_elem_of_singleton]; [left; by apply Hc|right; subst; by left].
  - split; [done|]. intros [Hnd ->]. assert (add_names (names d) d m = Ok (m ++ entries d)) as Hok.
    { apply add_names_spec. apply NoDup_app in Hnd as (_ & Hd & Hnd).
      apply NoDup_app in Hnd as (? & _). split; [|done]. split; [done|]. intros n Hn Hm'.
      apply (Hd _ Hm'). apply elem_of_app. by left. }
    congruence.
Qed.

Lemma own_entries_keys ds : (own_entry <$> ds).*1 = fd_name <$> ds.
Proof. by rewrite <-list_fmap_compose. Qed.

Lemma own_entries_values ds : (own_entry <$> ds).*2 = ds.
Proof. rewrite <-list_fmap_compose. rewrite (list_fmap_ext _ id); [apply list_fmap_id|done]. Qed.

(** The maps are made exactly for a usable vocabulary. *)
Lemma descriptor_maps_spec ds maps :
  _descriptor_maps ds = Ok maps ↔
  usable_vocabulary ds ∧ maps = (ds ≫= entries, own_entry <$> ds).
Proof.
  unfold _descriptor_maps. destruct (add_descriptors ds ([], [])) as [r|e] eqn:Ha; simpl.
  - apply (add_descriptors_spec ds [] [] r) in Ha as [Hnd ->]; [|constructor|done]. simpl.
    rewrite own_entries_values.
    destruct (forallb _ ds) eqn:Hf.
    + split; [intros [= <-]; split; [|done]|naive_solver]. constructor; [done|].
      rewrite forallb_forall in Hf. intros d t Hd Ht.
      apply list_elem_of_In in Hd. specialize (Hf d Hd). rewrite forallb_forall in Hf.
      apply list_elem_of_In in Ht. specialize (Hf t Ht).
      destruct (alist_get t _) eqn:Hg; [|done]. apply alist_get_elem in Hg.
      rewrite <-own_entries_keys. by apply (list_elem_of_fmap_2 fst) in Hg.
    + split; [done|]. intros [[_ Hreq] _].
      enough (forallb (λ d, forallb (λ t, match alist_get t (own_entry <$> ds) with
        | Some _ => true | None => false end) (fd_requires d)) ds = true) by congruence.
      apply forallb_forall. intros d Hd. apply forallb_forall. intros t Ht.
      apply list_elem_of_In in Hd, Ht. destruct (alist_get t _) eqn:Hg; [done|].
      apply alist_get_None in Hg. rewrite own_entries_keys in Hg. by destruct Hg; eapply Hreq.
  - split; [done|]. intros [[Hnd _] _].
    enough (add_descriptors ds ([], []) = Ok (ds ≫= entries, own_entry <$> ds)) by congruence.
    apply add_descriptors_spec; [constructor|done|done].
Qed.

(** ** Names *)

Lemma elem_of_entries ds f d : (f, d) ∈ ds ≫= entries ↔ d ∈ ds ∧ f ∈ names d.
Proof.
  rewrite list_elem_of_bind. unfold entries. split.
  - intros (d' & (n & [= -> ->] & Hn)%list_elem_of_fmap & Hd). done.
  - intros [Hd Hf]. exists d. split; [|done]. by apply (list_elem_of_fmap_2 (λ n, (n, d))).
Qed.

Lemma all_keys ds : (ds ≫= entries).*1 = ds ≫= names.
Proof.
  induction ds as [|d ds IH]; [done|]. by rewrite !bind_cons, fmap_app, entries_keys, IH.
Qed.

(** A field name, alias or not, means one descriptor. *)
Definition resolves (ds : list FieldDescriptor) (f : string) (d : FieldDescriptor) : Prop :=
  d ∈ ds ∧ f ∈ names d.

Section vocabulary.
Context (ds : list FieldDescriptor) (Husable : usable_vocabulary ds).

Lemma lookup_name f d : alist_get f (ds ≫= entries) = Some d ↔ resolves ds f d.
Proof.
  rewrite alist_get_unique by (rewrite all_keys; apply Husable). apply elem_of_entries.
Qed.

Lemma resolves_unique f d d' : resolves ds f d → resolves ds f d' → d = d'.
Proof. rewrite <-!lookup_name. congruence. Qed.

Lemma own_name d : d ∈ ds → resolves ds (fd_name d) d.
Proof. split; [done|left]. Qed.

Lemma lookup_own d : d ∈ ds → alist_get (fd_name d) (own_entry <$> ds) = Some d.
Proof.
  intros Hd. destruct (alist_get _ _) as [d'|] eqn:Hg.
  - apply alist_get_elem, list_elem_of_fmap in Hg as (x & [= Hn ->] & Hx). f_equal.
    apply (resolves_unique (fd_name d)); [rewrite Hn|]; by apply own_name.
  - apply alist_get_None in Hg. rewrite own_entries_keys in Hg. destruct Hg. by apply list_elem_of_fmap_2.
Qed.
End vocabulary.

(** ** Typing *)

(** The value a field of a type takes from a literal. *)
Inductive scalar_typing : QueryValueType → ScalarValue → ScalarValue → Prop :=
  | typed_string s : scalar_typing TSTRING (SStr s) (SStr s)
  | typed_integer z : scalar_typing TINTEGER (SInt z) (SInt z)
  | typed_decimal d : scalar_typing TDECIMAL (SDec d) (SDec d)
  | typed_boolean b : scalar_typing TBOOLEAN (SBool b) (SBool b)
  | integer_as_decimal z : scalar_typing TDECIMAL (SInt z) (SDec (dec_of_Z z)).

Inductive literal_typing (d : FieldDescriptor) : ComparisonOperator → LiteralValue → LiteralValue → Prop :=
  | scalar_literal o x y :
      expects_list o = false → scalar_typing (fd_value_type d) x y →
      literal_typing d o (LScalar x) (LScalar y)
  | list_literal o xs ys :
      expects_list o = true → xs ≠ [] → Forall2 (scalar_typing (fd_value_type d)) xs ys →
      literal_typing d o (LTuple xs) (LTuple ys).

Inductive comparison_typing (ds : list FieldDescriptor) (c : QueryComparison) : ValidatedComparison → Prop :=
  | typed_comparison d v :
      resolves ds (cmp_field c) d → cmp_operator c ∈ fd_operators d →
      literal_typing d (cmp_operator c) (lit_value (cmp_literal c)) v →
      comparison_typing ds c {| vc_field := fd_name d; vc_operator := cmp_operator c; vc_value := v;
                                vc_span := cmp_span c |}.

Definition at_most_once (n : string) (l : list string) : Prop :=
  ∀ before after, l = before ++ n :: after → n ∉ before.

(** Only a repeatable field is compared more than once. *)
Definition fields_once (ds : list FieldDescriptor) (fields : list string) : Prop :=
  ∀ d, d ∈ ds → fd_repeated d = false → at_most_once (fd_name d) fields.

Definition co_requirements_met (ds : list FieldDescriptor) (fields : list string) : Prop :=
  ∀ d t, d ∈ ds → fd_name d ∈ fields → t ∈ fd_requires d → t ∈ fields.

Record query_typing (ds : list FieldDescriptor) (cs : list QueryComparison) (q : ValidatedQuery) : Prop := {
  qt_vocabulary : usable_vocabulary ds;
  qt_comparisons : Forall2 (comparison_typing ds) cs q;
  qt_once : fields_once ds (vc_field <$> q);
  qt_co_requirements : co_requirements_met ds (vc_field <$> q);
}.

(** ** Validation decides typing *)

Lemma coerce_scalar_typing ty x y : coerce_scalar ty x = Some y ↔ scalar_typing ty x y.
Proof.
  split.
  - destruct ty, x; simpl; try case_bool_decide; intros [= <-]; by try constructor.
  - by intros [].
Qed.

Lemma validate_scalar_typing x d p accepted y :
  _validate_scalar x d p accepted = Ok y ↔ scalar_typing (fd_value_type d) x y.
Proof.
  unfold _validate_scalar. rewrite <-coerce_scalar_typing. destruct (coerce_scalar _ _); naive_solver.
Qed.

Lemma mapM_result_Ok {A B} (f : A → result B) l l' :
  mapM_result f l = Ok l' ↔ Forall2 (λ x y, f x = Ok y) l l'.
Proof.
  revert l'. induction l as [|x l IH]; intros l'; simpl.
  { split; [intros [= <-]; constructor|by inversion 1]. }
  split.
  - destruct (f x) as [y|] eqn:Hf; simpl; [|done]. destruct (mapM_result f l) as [ys|]; simpl; [|done].
    intros [= <-]. constructor; [done|]. by apply IH.
  - inversion 1 as [|? y ? ys Hy Hys]; subst. rewrite Hy. simpl. apply IH in Hys. by rewrite Hys.
Qed.

Lemma validate_literal_typing c d accepted v :
  _validate_literal_shape c d accepted = Ok v ↔
  literal_typing d (cmp_operator c) (lit_value (cmp_literal c)) v.
Proof.
  unfold _validate_literal_shape. destruct (lit_value _) as [x|xs], (expects_list _) eqn:Ho;
    try (split; [done|by inversion 1; congruence]).
  - destruct (_validate_scalar _ _ _ _) as [y|e] eqn:Hv; simpl.
    + apply validate_scalar_typing in Hv. split; [intros [= <-]; by constructor|].
      inversion 1 as [? ? y' _ Hy|]; subst. apply coerce_scalar_typing in Hv, Hy. congruence.
    + split; [done|]. inversion 1 as [? ? y' _ Hy|]; subst.
      eapply validate_scalar_typing in Hy. rewrite Hy in Hv. done.
  - destruct (is_nil xs) eqn:Hn.
    { apply is_nil_true in Hn. split; [done|by inversion 1]. }
    apply is_nil_false in Hn.
    assert (∀ ys, mapM_result (λ x, _validate_scalar x d
        (span_start (lit_span (cmp_literal c))) accepted) xs = Ok ys ↔
      Forall2 (scalar_typing (fd_value_type d)) xs ys) as Hmap.
    { intros ys. rewrite mapM_result_Ok. split; intros H; (eapply Forall2_impl; [exact H|]); intros ??;
        apply validate_scalar_typing. }
    destruct (mapM_result _ xs) as [ys|e]; simpl.
    + split; [intros [= <-]; constructor; [done..|by apply Hmap]|].
      inversion 1 as [|? ? ys' _ _ Hys]; subst. by apply Hmap in Hys as [= ->].
    + split; [done|]. inversion 1 as [|? ? ys' _ _ Hys]; subst. by apply Hmap in Hys.
Qed.

Lemma at_most_once_snoc n l x : at_most_once n (l ++ [x]) ↔ at_most_once n l ∧ (x = n → n ∉ l).
Proof.
  split.
  - intros H. split; [|intros ->; by apply (H l [])].
    intros before after ->. apply (H before (after ++ [x])). by rewrite <-app_assoc.
  - intros [H Hx] before after. destruct after as [|y after _] using rev_ind.
    + intros [-> [= ->]]%app_inj_tail. by apply Hx.
    + rewrite app_comm_cons, app_assoc. intros [-> _]%app_inj_tail. by eapply H.
Qed.

Lemma at_most_once_app n l l' : at_most_once n (l ++ l') → at_most_once n l.
Proof.
  intros H before after ->. apply (H before (after ++ l')). by rewrite <-app_assoc.
Qed.

Section validating.
Context (ds : list FieldDescriptor) (Husable : usable_vocabulary ds) (accepted : list string).

Lemma fields_once_snoc seen d :
  d ∈ ds → fields_once ds seen →
  (fields_once ds (seen ++ [fd_name d]) ↔
   bool_decide (fd_name d ∈ seen) && negb (fd_repeated d) = false).
Proof.
  intros Hd Hseen. split.
  - intros H. destruct (fd_repeated d) eqn:Hr; [by rewrite andb_false_r|].
    rewrite andb_true_r. apply bool_decide_eq_false. specialize (H d Hd Hr).
    apply at_most_once_snoc in H as [_ H]. by apply H.
  - intros Hb d' Hd' Hr. apply at_most_once_snoc. split; [by apply Hseen|]. intros Hn.
    assert (d' = d) as ->.
    { eapply (resolves_unique ds Husable); [by apply own_name|]. rewrite <-Hn. by apply own_name. }
    rewrite Hr, andb_true_r in Hb. by apply bool_decide_eq_false in Hb.
Qed.

Lemma fields_once_app l l' : fields_once ds (l ++ l') → fields_once ds l.
Proof. intros H d Hd Hr. eapply at_most_once_app, H; done. Qed.

Lemma validate_each_spec seen cs r :
  fields_once ds seen →
  validate_each (ds ≫= entries) accepted seen cs = Ok r ↔
  r.1 = seen ++ (vc_field <$> r.2) ∧ Forall2 (comparison_typing ds) cs r.2 ∧ fields_once ds r.1.
Proof.
  revert seen r. induction cs as [|c cs IH]; intros seen [seen' q] Hseen.
  { simpl. split; [intros [= <- <-]; simpl; rewrite app_nil_r; by split_and!|].
    intros (Hs & Hq & _). inversion Hq; subst. simpl. by rewrite app_nil_r. }
  cbn [validate_each fst snd]. split.
  - destruct (alist_get _ _) as [d|] eqn:Hg; [|done]. apply lookup_name in Hg; [|done].
    destruct (negb _) eqn:Ho; [done|]. apply negb_false_iff, bool_decide_eq_true in Ho.
    destruct (_ && _) eqn:Hd; [done|].
    destruct (_validate_literal_shape _ _ _) as [v|e] eqn:Hv; [|done]. cbn [mbind result_bind].
    destruct (validate_each _ _ _ cs) as [[seen1 q1]|e] eqn:Hr; [|done]. cbn [mbind result_bind].
    intros [= <- <-]. apply fields_once_snoc in Hd as Hs; [|apply Hg|done].
    apply IH in Hr as (Hs1 & Hq1 & Ho1); [|done]. simpl in *.
    rewrite Hs1, <-app_assoc in *. split_and!; [done| |done].
    constructor; [|done]. constructor; [done..|]. by eapply validate_literal_typing.
  - intros (-> & Hq & Hf). inversion Hq as [|? v ? q1 Hv Hq1]; subst.
    destruct Hv as [d v Hres Ho Hl]. simpl in *.
    rewrite (proj2 (lookup_name ds Husable _ _) Hres).
    rewrite bool_decide_eq_true_2 by done. cbn [negb].
    assert (fields_once ds (seen ++ [fd_name d])) as Hs.
    { eapply fields_once_app. rewrite <-app_assoc. exact Hf. }
    rewrite (proj1 (fields_once_snoc seen d (proj1 Hres) Hseen) Hs).
    rewrite (proj2 (validate_literal_typing c d accepted v) Hl). cbn [mbind result_bind].
    rewrite (proj2 (IH (seen ++ [fd_name d]) (seen ++ fd_name d :: (vc_field <$> q1), q1) Hs)); [done|].
    simpl. rewrite <-app_assoc. by split_and!.
Qed.

Lemma check_co_requirements_spec seen q :
  Forall (λ v, ∃ d, d ∈ ds ∧ vc_field v = fd_name d) q →
  check_co_requirements (own_entry <$> ds) accepted seen q = Ok tt ↔
  ∀ d t, d ∈ ds → fd_name d ∈ vc_field <$> q → t ∈ fd_requires d → t ∈ seen.
Proof.
  induction 1 as [|v q (d & Hd & Hv) _ IH]; cbn [check_co_requirements]; [set_solver|].
  rewrite Hv, (lookup_own ds Husable d Hd). simpl. destruct (forallb _ _) eqn:Hf.
  - rewrite IH. assert (∀ t, t ∈ fd_requires d → t ∈ seen) as Hreq.
    { intros t Ht. rewrite forallb_forall in Hf. apply list_elem_of_In in Ht.
      by apply Hf, bool_decide_eq_true in Ht. }
    split; intros H d' t Hd' Hn Ht; [|apply (H d'); [done|by right|done]].
    apply elem_of_cons in Hn as [Hn|Hn]; [|by apply (H d')].
    assert (d' = d) as ->; [|by apply Hreq].
    rewrite Hv in Hn. eapply (resolves_unique ds Husable); [by apply own_name|]. rewrite Hn. by apply own_name.
  - split; [done|]. intros H. enough (forallb (λ t, bool_decide (t ∈ seen)) (fd_requires d) = true) by congruence.
    apply forallb_forall. intros t Ht%list_elem_of_In. apply bool_decide_eq_true. apply (H d); [done| |done].
    apply elem_of_cons. by left.
Qed.
End validating.

Lemma typing_fields ds cs q :
  Forall2 (comparison_typing ds) cs q → Forall (λ v, ∃ d, d ∈ ds ∧ vc_field v = fd_name d) q.
Proof.
  induction 1 as [|c v cs q [d v' [Hd _] _ _] _ IH]; constructor; [|done]. by exists d.
Qed.

Lemma validate_query_typing e ds q : validate_query e ds = Ok q ↔ query_typing ds (comparisons e) q.
Proof.
  unfold validate_query. destruct (_descriptor_maps ds) as [[by_name canonical]|err] eqn:Hm.
  - apply descriptor_maps_spec in Hm as [Hu [= -> ->]]. cbn [mbind result_bind].
    set (accepted := sort_by _ _).
    assert (fields_once ds []) as H0 by (intros d _ _ [] after; done).
    assert (∀ q, query_typing ds (comparisons e) q →
      validate_each (ds ≫= entries) accepted [] (comparisons e) = Ok (vc_field <$> q, q)) as Hcomplete.
    { intros q' [_ Hq Ho _]. apply (validate_each_spec ds Hu); [done|]. by split_and!. }
    destruct (validate_each _ _ _ _) as [[seen q']|err] eqn:Hv; cbn [mbind result_bind];
      [|by split; [done|intros ?%Hcomplete]].
    apply (validate_each_spec ds Hu) in Hv as (Hs & Ht & Ho); [|done]. simpl in *. subst seen.
    pose proof (check_co_requirements_spec ds Hu accepted (vc_field <$> q') q' (typing_fields _ _ _ Ht)) as Hc.
    destruct (check_co_requirements _ _ _ _) as [[]|err]; cbn [mbind result_bind]; split.
    + intros [= <-]. constructor; [done..|exact (proj1 Hc eq_refl)].
    + by intros [= _ ->]%Hcomplete.
    + done.
    + intros Hq. pose proof (Hcomplete _ Hq) as [= _ ->]. discriminate (proj2 Hc (qt_co_requirements _ _ _ Hq)).
  - split; [done|]. intros [Hu _ _ _].
    assert (_descriptor_maps ds = Ok (ds ≫= entries, own_entry <$> ds)) by by apply descriptor_maps_spec.
    congruence.
Qed.
