(* ===== verification/QueryRoundtrip.v ===== *)
(** Canonical rendering reads back: the lexer and the parser undo what
    [render_canonical_query] writes, comparison by comparison. *)
From S2P Require Import Prelude PyNum PyNumFacts PyValue PyText PyTextFacts.
From S2P Require Import QueryDsl QueryLexer QueryTyping.
From Stdlib Require Import Ascii.

Local Open Scope Z_scope.
Local Open Scope string_scope.
Local Open Scope list_scope.

(** ** Reading one piece of text *)

(** An ASCII character of a word. *)
Definition is_atom_char (c : ascii) : bool := solid c && negb (is_delimiter_char c).

Lemma name_start_classes c :
  is_name_start c = true →
  is_atom_char c = true ∧ c ≠ quote ∧ is_ascii_digit c = false ∧
  c ≠ "+"%char ∧ c ≠ "-"%char ∧ c ≠ "."%char ∧ c ≠ "="%char.
Proof. destruct c as [[] [] [] [] [] [] [] []]; vm_compute; intros; by split_and!. Qed.

Lemma safe_char_atom c : is_safe_char c = true → is_atom_char c = true.
Proof. destruct c as [[] [] [] [] [] [] [] []]; vm_compute; done. Qed.

Lemma field_char_atom c : is_field_char c = true → is_atom_char c = true.
Proof. destruct c as [[] [] [] [] [] [] [] []]; vm_compute; done. Qed.

Lemma number_char_atom c :
  number_char c = true → is_atom_char c = true ∧ c ≠ quote ∧ c ≠ "="%char ∧ is_name_start c = false.
Proof. destruct c as [[] [] [] [] [] [] [] []]; vm_compute; intros; by split_and!. Qed.

Lemma atom_char_alone c :
  is_atom_char c = true →
  (∀ l, space_width (c :: l) = 0%nat) ∧ is_delimiter_char c = false ∧ symbol_kind c = None ∧
  ∀ l, first_operator _SYMBOLIC_OPERATORS (c :: l) = None.
Proof.
  intros Hc. split; [|destruct c as [[] [] [] [] [] [] [] []]; vm_compute in Hc |- *; done].
  intros l. apply andb_true_iff in Hc as [Hc _]. by apply space_width_solid.
Qed.

(** White space or a delimiter comes next, or nothing. *)
Definition ends_word (rest : chars) : Prop :=
  match rest with [] => True | c :: _ => code c < 128 ∧ is_atom_char c = false end.

Lemma span_atom_app w rest :
  Forall (λ c, is_atom_char c = true) w → ends_word rest → span_atom (w ++ rest) = (w, rest).
Proof.
  intros Hw Hend. induction Hw as [|c w Hc _ IH].
  - destruct rest as [|c rest]; [done|]. destruct Hend as [Ha Hc]. cbn [app span_atom].
    rewrite space_width_ascii by done. unfold is_atom_char, solid in Hc. rewrite (proj2 (Z.ltb_lt _ _)) in Hc by done.
    by destruct (is_space (code c)), (is_delimiter_char c).
  - destruct (atom_char_alone c Hc) as (Hs & Hd & _). cbn [app span_atom]. by rewrite Hs, Hd, IH.
Qed.

Lemma lex_word c w rest i ts :
  Forall (λ x, is_atom_char x = true) (c :: w) → c ≠ quote → ends_word rest →
  lex_turn ((c :: w) ++ rest, i, ts) =
  Ok (rest, i + length_Z (c :: w), ts ++ [make_token (word_kind (c :: w)) (c :: w) i (Some (c :: w))]).
Proof.
  intros Hw Hq Hend. unfold lex_turn. rewrite <-app_comm_cons.
  destruct (atom_char_alone c) as (-> & _ & -> & Hop); [by inversion Hw|]. cbn [Nat.ltb Nat.leb].
  rewrite bool_decide_eq_false_2 by done. rewrite Hop.
  rewrite (app_comm_cons w rest c), (span_atom_app (c :: w) rest) by done. done.
Qed.

Lemma lex_symbol o rest i ts :
  o ∈ [EQUAL; NOT_EQUAL; LESS_THAN; LESS_THAN_OR_EQUAL; GREATER_THAN; GREATER_THAN_OR_EQUAL] →
  match rest with [] => False | c :: _ => c ≠ "="%char end →
  let text := to_chars (operator_value o) in
  lex_turn (text ++ rest, i, ts) = Ok (rest, i + length_Z text, ts ++ [make_token OPERATOR text i None]).
Proof.
  intros Ho Hrest. destruct rest as [|c rest]; [done|].
  assert (bool_decide ("="%char = c) = false) as Hc by (by apply bool_decide_eq_false_2).
  repeat (apply elem_of_cons in Ho as [->|Ho]; [unfold lex_turn; cbn; rewrite ?Hc; reflexivity|]).
  by apply not_elem_of_nil in Ho.
Qed.

Lemma lex_quoted s rest i ts :
  let text := json_string_chars s in
  lex_turn (text ++ rest, i, ts) =
  Ok (rest, i + length_Z text, ts ++ [make_token STRING text i (Some s)]).
Proof.
  cbv zeta. unfold json_string_chars. unfold lex_turn. rewrite <-app_comm_cons.
  rewrite space_width_solid by done. cbn [Nat.ltb Nat.leb]. change (symbol_kind quote) with (@None TokenKind). cbn iota.
  rewrite bool_decide_eq_true_2 by done. unfold _lex_string. rewrite <-app_assoc. simpl app.
  rewrite closing_string. change (quote :: flat_map escape_char s ++ [quote]) with (json_string_chars s).
  by rewrite json_string_roundtrip.
Qed.

(** ** Scalars *)

Definition ends_comparison (rest : chars) : Prop :=
  match rest with [] => True | c :: _ => c = " "%char end.

Lemma ends_comparison_word rest : ends_comparison rest → ends_word rest.
Proof. destruct rest; simpl; [done|]. by intros ->. Qed.

(** A text the lexer takes as one token, which is the literal [x]. *)
Definition reads_as (l : chars) (x : ScalarValue) : Prop :=
  match l with [] => False | c :: _ => c ≠ "="%char end ∧
  ∀ rest i ts, ends_comparison rest → ∃ t,
    lex_turn (l ++ rest, i, ts) = Ok (rest, i + length_Z l, ts ++ [t]) ∧
    is_value_token t = true ∧ _token_scalar t = Ok x ∧ tok_span t = Span i (i + length_Z l).

Lemma reads_word c w x :
  Forall (λ x, is_atom_char x = true) (c :: w) → c ≠ quote → c ≠ "="%char →
  word_kind (c :: w) = ATOM →
  (∀ i, _token_scalar (make_token ATOM (c :: w) i (Some (c :: w))) = Ok x) →
  reads_as (c :: w) x.
Proof.
  intros Hw Hq He Hk Hx. split; [done|]. intros rest i ts Hrest. eexists. split_and!.
  - apply lex_word; [done..|by apply ends_comparison_word].
  - rewrite Hk. done.
  - rewrite Hk. apply Hx.
  - done.
Qed.

Lemma reads_string s : reads_as (json_string_chars (to_chars s)) (SStr s).
Proof.
  split; [done|]. intros rest i ts _. eexists. split_and!; [apply lex_quoted|done| |done].
  unfold _token_scalar. simpl. by rewrite of_to_chars.
Qed.

Lemma reads_bool (b : bool) : reads_as (to_chars (if b then "true" else "false")) (SBool b).
Proof. destruct b; (apply reads_word; [by apply (bool_decide_unpack _)|done..]). Qed.

Lemma ascii_digits_name c w : is_name_start c = true → ascii_digits (c :: w) = c :: ascii_digits w.
Proof.
  intros Hc. unfold ascii_digits at 1. cbn [ascii_digits_from]. rewrite code_point_ascii.
  - destruct c as [[] [] [] [] [] [] [] []]; vm_compute in Hc; done.
  - destruct c as [[] [] [] [] [] [] [] []]; vm_compute in Hc |- *; done.
Qed.

(** A word that starts like a name is no number. *)
Lemma name_not_number c w :
  is_name_start c = true → integer_literal (c :: w) = false ∧ decimal_literal (c :: w) = false.
Proof.
  intros Hc. unfold integer_literal, decimal_literal. rewrite ascii_digits_name by done. set (l := ascii_digits w).
  apply name_start_classes in Hc as (_ & _ & Hd & Hp & Hm & Hdot & _).
  assert (take_sign (c :: l) = (false, c :: l)) as Hs by (destruct c as [[] [] [] [] [] [] [] []]; done).
  unfold integer_form, decimal_form. rewrite Hs. simpl. rewrite Hd.
  by rewrite bool_decide_eq_false_2.
Qed.

Lemma reads_safe s :
  safe_string (to_chars s) = true → is_reserved_word s = false → reads_as (to_chars s) (SStr s).
Proof.
  intros Hs Hr. destruct (to_chars s) as [|c w] eqn:Heq; [done|]. simpl in Hs.
  apply andb_true_iff in Hs as [Hc Hw]. pose proof (name_start_classes c Hc) as (Ha & Hq & _ & _ & _ & _ & He).
  assert (of_chars (c :: w) = s) as Hof by (by rewrite <-Heq, of_to_chars).
  unfold is_reserved_word in Hr. apply bool_decide_eq_false in Hr.
  apply reads_word; [|done|done| |].
  - constructor; [done|]. apply Forall_forallb in Hw. apply (Forall_impl _ _ _ Hw).
    intros x. apply safe_char_atom.
  - unfold word_kind. rewrite Hof, bool_decide_eq_false_2; [done|]. intros Hin. apply Hr.
    by do 2 apply list_elem_of_further.
  - intros i. unfold _token_scalar, make_token. cbn [tok_text tok_kind tok_value].
    rewrite bool_decide_eq_false_2 by done. rewrite Hof, Heq.
    rewrite !bool_decide_eq_false_2 by (intros ->; apply Hr; by apply (bool_decide_unpack _)).
    by destruct (name_not_number c w Hc) as [-> ->].
Qed.

Lemma number_not_word l w :
  Forall (λ c, number_char c = true) l → match to_chars w with c :: _ => number_char c = false | [] => False end →
  of_chars l ≠ w.
Proof. intros Hl Hw <-. rewrite to_of_chars in Hw. destruct Hl; [done|congruence]. Qed.

Lemma number_word l : Forall (λ c, number_char c = true) l → word_kind l = ATOM.
Proof.
  intros Hl. unfold word_kind. rewrite bool_decide_eq_false_2; [done|].
  rewrite elem_of_cons, list_elem_of_singleton. intros [Hw|Hw]; revert Hw; by apply number_not_word.
Qed.

Lemma reads_number l x :
  Forall (λ c, number_char c = true) l → l ≠ [] →
  (integer_literal l = true ∧ (∃ z, int_of_literal l = Ok z ∧ x = SInt z) ∨
   integer_literal l = false ∧ decimal_literal l = true ∧ ∃ d, parse_decimal (of_chars l) = Some d ∧ x = SDec d) →
  reads_as l x.
Proof.
  intros Hl Hne Hx. destruct l as [|c w]; [done|].
  destruct (number_char_atom c) as (_ & Hq & He & _); [by inversion Hl|].
  apply reads_word; [|done|done|by apply number_word|].
  - apply (Forall_impl _ _ _ Hl). intros y Hy. by apply number_char_atom.
  - intros i. unfold _token_scalar, make_token. cbn [tok_text tok_kind tok_value].
    rewrite bool_decide_eq_false_2 by done. rewrite to_of_chars.
    rewrite !bool_decide_eq_false_2 by (by apply number_not_word).
    destruct Hx as [[-> (z & -> & ->)]|(-> & -> & d & -> & ->)]; done.
Qed.

(** Equal values: a decimal of equal amount. *)
Definition scalar_same (x y : ScalarValue) : Prop :=
  match x, y with
  | SDec d, SDec d' => dec_eqb d d' = true
  | _, _ => x = y
  end.

Definition exact_scalar (x : ScalarValue) : Prop :=
  match x with SDec d => exact_text d | _ => True end.

(** A rendered scalar is read as a literal its field takes for an equal value. *)
Lemma render_scalar_reads x l :
  exact_scalar x → _render_scalar x = Ok l →
  ∃ y z, reads_as l y ∧ scalar_typing (scalar_type x) y z ∧ scalar_same x z.
Proof.
  destruct x as [s|z|d|b]; simpl; intros Hex.
  - intros [= <-]. exists (SStr s), (SStr s). split_and!; [|constructor|done].
    destruct (safe_string _) eqn:Hs; simpl; [|apply reads_string].
    destruct (is_reserved_word s) eqn:Hr; simpl; [apply reads_string|by apply reads_safe].
  - intros Hl. exists (SInt z), (SInt z). split_and!; [|constructor|done].
    pose proof (int_chars_reads z l Hl) as [Hi Hz]. unfold int_chars in Hl.
    destruct (_ <? _)%Z; [done|]. injection Hl as <-.
    apply reads_number; [| |left; split; [done|by exists z]].
    + apply Forall_app. split; [apply sign_number|apply digits_number, nat_chars_digits].
    + destruct (nat_chars_cons (Z.abs z)) as (c & w & -> & _); [lia|]. by destruct (z <? 0)%Z.
  - intros Hl. destruct (decimal_chars_reads d Hex) as (l' & Hl' & Hn & Hne & Hread).
    rewrite Hl in Hl'. injection Hl' as <-.
    destruct Hread as [(Hi & z & Hz & Heq)|(Hi & Hd & d' & Hp & Heq)].
    + exists (SInt z), (SDec (dec_of_Z z)). split_and!; [|constructor|done]. apply reads_number; [done..|left; split; [done|by exists z]].
    + exists (SDec d'), (SDec d'). split_and!; [|constructor|done]. apply reads_number; [done..|right; split; [done|split; [done|by exists d']]].
  - intros [= <-]. exists (SBool b), (SBool b). split_and!; [apply reads_bool|constructor|done].
Qed.

(** ** Comparisons *)

(** A name the lexer reads as a field. *)
Definition plain_name (f : string) : Prop :=
  field_name (to_chars f) = true ∧ f ∉ ["in"; "notin"].

Definition symbolic : list ComparisonOperator :=
  [EQUAL; NOT_EQUAL; LESS_THAN; LESS_THAN_OR_EQUAL; GREATER_THAN; GREATER_THAN_OR_EQUAL].

Lemma symbolic_iff o : expects_list o = false ↔ o ∈ symbolic.
Proof.
  assert (expects_list o = negb (bool_decide (o ∈ symbolic))) as -> by (by destruct o).
  by rewrite negb_false_iff, bool_decide_eq_true.
Qed.

Lemma operator_of_value o : operator_of_text (operator_value o) = Some o.
Proof. by destruct o. Qed.

Lemma operator_ends_word o rest : o ∈ symbolic → ends_word (to_chars (operator_value o) ++ rest).
Proof. rewrite <-symbolic_iff. by destruct o. Qed.

Lemma field_name_atoms l : field_name l = true → Forall (λ c, is_atom_char c = true) l ∧ ∃ c w, l = c :: w ∧ c ≠ quote.
Proof.
  destruct l as [|c w]; [done|]. simpl. intros [Hc Hw]%andb_true_iff.
  apply name_start_classes in Hc as (Ha & Hq & _). split; [|by exists c, w].
  constructor; [done|]. apply Forall_forallb in Hw. apply (Forall_impl _ _ _ Hw).
  intros x. apply field_char_atom.
Qed.

Lemma lex_field f rest i ts :
  field_name (to_chars f) = true → ends_word rest →
  lex_turn (to_chars f ++ rest, i, ts) =
  Ok (rest, i + length_Z (to_chars f),
      ts ++ [make_token (word_kind (to_chars f)) (to_chars f) i (Some (to_chars f))]).
Proof.
  intros Hf Hrest. destruct (field_name_atoms _ Hf) as (Ha & c & w & Heq & Hq).
  rewrite Heq in *. by apply lex_word.
Qed.

Lemma plain_name_kind f : plain_name f → word_kind (to_chars f) = ATOM.
Proof.
  intros [_ Hf]. unfold word_kind. by rewrite of_to_chars, bool_decide_eq_false_2.
Qed.

Lemma lex_running_app c w rest i ts : lex_running ((c :: w) ++ rest, i, ts) = true.
Proof. done. Qed.

Lemma lex_running_cons l i ts : l ≠ [] → lex_running (l, i, ts) = true.
Proof. by destruct l. Qed.

(** What a comparison was read as, but for positions. *)
Definition spells (c : QueryComparison) (f : string) (o : ComparisonOperator) (x : ScalarValue) : Prop :=
  cmp_field c = f ∧ cmp_operator c = o ∧ lit_value (cmp_literal c) = LScalar x.

Abbreviation lexes := (turns lex_running lex_turn).
Abbreviation parses := (turns parse_running parse_turn).

Definition reads_comparison (l : chars) (f : string) (o : ComparisonOperator) (x : ScalarValue) : Prop :=
  ∀ rest i ts, ends_comparison rest → ∃ t1 t2 t3,
    lexes (l ++ rest, i, ts) (rest, i + length_Z l, ts ++ [t1; t2; t3]) ∧
    ∀ tokens, ∃ c, parse_comparison t1 (t2 :: t3 :: tokens) = Ok (c, tokens) ∧ spells c f o x.

Lemma to_chars_not_nil f : field_name (to_chars f) = true → to_chars f ≠ [].
Proof. by destruct (to_chars f). Qed.

Lemma reads_comparison_text f o l x :
  plain_name f → o ∈ symbolic → reads_as l x →
  reads_comparison (to_chars f ++ to_chars (operator_value o) ++ l) f o x.
Proof.
  intros Hf Ho [Hl Hx] rest i ts Hrest. set (op := to_chars (operator_value o)).
  assert (op ≠ []) as Hop by (by destruct o).
  destruct (Hx rest (i + length_Z (to_chars f) + length_Z op)
    ((ts ++ [make_token ATOM (to_chars f) i (Some (to_chars f))]) ++
     [make_token OPERATOR op (i + length_Z (to_chars f)) None]) Hrest)
    as (t3 & Hlex & Hvalue & Hscalar & _).
  exists (make_token ATOM (to_chars f) i (Some (to_chars f))),
    (make_token OPERATOR op (i + length_Z (to_chars f)) None), t3. split.
  - rewrite <-!app_assoc. eapply turns_one.
    + apply lex_running_cons. destruct Hf as [Hf _]. by destruct (to_chars f).
    + rewrite lex_field by (apply Hf || by apply operator_ends_word).
      by rewrite plain_name_kind.
    + eapply turns_one.
      * apply lex_running_cons. by destruct op.
      * apply lex_symbol; [done|]. by destruct l.
      * eapply turns_one; [apply lex_running_cons; by destruct l|exact Hlex|].
        rewrite <-!app_assoc, !length_Z_app, !Z.add_assoc. apply turns_none.
  - intros tokens. unfold parse_comparison. cbn [tok_kind tok_text tok_span make_token].
    rewrite bool_decide_eq_false_2 by done. rewrite bool_decide_eq_true_2 by done.
    rewrite of_to_chars. destruct Hf as [-> Hf]. cbn [negb orb].
    unfold op. rewrite of_to_chars, operator_of_value. unfold _parse_literal.
    assert (tok_kind t3 = ATOM ∨ tok_kind t3 = STRING) as Hk.
    { unfold is_value_token in Hvalue. apply bool_decide_eq_true in Hvalue. rewrite elem_of_cons, list_elem_of_singleton in Hvalue. done. }
    rewrite !bool_decide_eq_false_2 by (destruct Hk; congruence).
    rewrite Hvalue. cbn [negb]. rewrite Hscalar. cbn [mbind result_bind].
    eexists. split; [done|]. by split_and!.
Qed.

Lemma render_comparison_reads v l :
  plain_name (vc_field v) → expects_list (vc_operator v) = false →
  render_comparison v = Ok l → ∀ x, vc_value v = LScalar x → exact_scalar x →
  ∃ y z, reads_comparison l (vc_field v) (vc_operator v) y ∧ scalar_typing (scalar_type x) y z ∧ scalar_same x z.
Proof.
  intros Hf Ho Hl x Hx Hex. unfold render_comparison in Hl. rewrite Hx in Hl. simpl in Hl.
  destruct (_render_scalar x) as [lit|e] eqn:Hr; simpl in Hl; [|done]. injection Hl as <-.
  destruct (render_scalar_reads x lit Hex Hr) as (y & z & Hy & ? & ?). exists y, z.
  split_and!; [|done..]. apply reads_comparison_text; [done|by apply symbolic_iff|done].
Qed.

(** ** Queries *)

Definition spec : Type := string * ComparisonOperator * ScalarValue.

Lemma reads_joined texts more (specs : list spec) :
  Forall2 (λ l '(f, o, x), reads_comparison l f o x) texts specs →
  ∀ i ts, ∃ tokens i',
    lexes (join_chars [" "%char] (texts ++ more), i, ts) (join_chars [" "%char] more, i', ts ++ tokens) ∧
    ∀ tail cs, ∃ cs', parses (tokens ++ tail, cs) (tail, cs ++ cs') ∧
      Forall2 (λ c '(f, o, x), spells c f o x) cs' specs.
Proof.
  induction 1 as [|l [[f o] x] texts specs Hl Hrest IH]; intros i ts.
  { exists [], i. rewrite app_nil_r. split; [apply turns_none|].
    intros tail cs. exists []. rewrite app_nil_r. split; [apply turns_none|constructor]. }
  assert (∃ rest, ends_comparison rest ∧ join_chars [" "%char] (l :: texts ++ more) = l ++ rest ∧
    ∀ i ts, ∃ i', lexes (rest, i, ts) (join_chars [" "%char] (texts ++ more), i', ts))
    as (rest & He & Heq & Hspace).
  { destruct (texts ++ more) as [|l' texts'].
    - exists []. split_and!; [done|by rewrite app_nil_r|]. intros. eexists. apply turns_none.
    - exists (" "%char :: join_chars [" "%char] (l' :: texts')). split_and!; [done|done|].
      intros j us. exists (j + 1). eapply turns_one; [done|reflexivity|apply turns_none]. }
  rewrite <-app_comm_cons, Heq.
  destruct (Hl rest i ts He) as (t1 & t2 & t3 & Hlex & Hparse).
  destruct (Hspace (i + length_Z l) (ts ++ [t1; t2; t3])) as (j & Hj).
  destruct (IH j (ts ++ [t1; t2; t3])) as (tokens & i' & Hlex' & Hparse').
  exists (t1 :: t2 :: t3 :: tokens), i'. split.
  - rewrite <-app_assoc in Hlex'. eapply turns_trans; [exact Hlex|]. by eapply turns_trans.
  - intros tail cs. destruct (Hparse (tokens ++ tail)) as (c & Hc & Hspell).
    destruct (Hparse' tail (cs ++ [c])) as (cs' & Hcs' & Hspecs). exists (c :: cs'). split.
    + eapply turns_one; [done| |rewrite <-app_assoc in Hcs'; exact Hcs'].
      unfold parse_turn. cbn [app fst snd]. rewrite Hc. done.
    + by constructor.
Qed.

(** Text whose comparisons read as [specs] is parsed as them. *)
Lemma parse_query_joined texts (specs : list spec) :
  Forall2 (λ l '(f, o, x), reads_comparison l f o x) texts specs → specs ≠ [] →
  ∃ e, parse_query (of_chars (join_chars [" "%char] texts)) = Ok e ∧
    Forall2 (λ c '(f, o, x), spells c f o x) (comparisons e) specs.
Proof.
  intros Hread Hne. destruct (reads_joined texts [] specs Hread 0 []) as (tokens & i & Hlex & Hparse).
  destruct (Hparse [] []) as (cs & Hcs & Hspecs). rewrite app_nil_r in *. simpl in *.
  unfold parse_query, lex_query. rewrite to_of_chars. unfold lex_loop.
  rewrite (loop_turns _ _ _ _ _ (lex_loop_total _) Hlex) by done. cbn [run_loop default id mbind result_bind snd].
  assert (is_nil tokens = false) as ->.
  { destruct tokens; [|done]. inversion Hcs; [|done]. subst. by inversion Hspecs; subst. }
  unfold parse_tokens, parse_loop.
  rewrite (loop_turns _ _ _ _ _ (parse_loop_total _) Hcs) by done. cbn [run_loop default id mbind result_bind snd].
  by eexists.
Qed.

(** ** A membership comparison *)

(** The first two tokens of a rendered membership comparison: its operator has
    become part of the field's word. *)
Lemma lex_membership f o l rest i ts :
  field_name (to_chars f) = true → expects_list o = true →
  ∃ t b i', lexes (to_chars f ++ to_chars (operator_value o) ++ "["%char :: l ++ rest, i, ts)
                  (l ++ rest, i', ts ++ [t; b]) ∧
    ∀ tokens, ∃ e, parse_comparison t (b :: tokens) = Err e.
Proof.
  intros Hf Ho. destruct (field_name_atoms _ Hf) as (Ha & c & w & Heq & Hq).
  set (word := to_chars f ++ to_chars (operator_value o)).
  assert (Forall (λ c, is_atom_char c = true) word) as Hword.
  { apply Forall_app. split; [done|]. by destruct o; try done; repeat constructor. }
  exists (make_token (word_kind word) word i (Some word)), (make_token LEFT_BRACKET ["["%char] (i + length_Z word) None).
  eexists. split.
  - assert (word = c :: w ++ to_chars (operator_value o)) as Hcons by (unfold word; by rewrite Heq).
    rewrite app_assoc. fold word. eapply turns_one; [apply lex_running_cons; unfold word; by rewrite Heq| |].
    + rewrite !Hcons. rewrite Hcons in Hword. by apply lex_word.
    + rewrite <-?Hcons. eapply turns_one; [done|reflexivity|]. rewrite <-app_assoc. apply turns_none.
  - intros tokens. unfold parse_comparison. case_bool_decide; [by eexists|].
    destruct (_ || _); [by eexists|]. simpl. by eexists.
Qed.

(** Text that goes on with a membership comparison is refused. *)
Lemma parse_membership texts (specs : list spec) f o l more :
  Forall2 (λ l '(f, o, x), reads_comparison l f o x) texts specs →
  field_name (to_chars f) = true → expects_list o = true →
  ∃ e, parse_query (of_chars (join_chars [" "%char]
    (texts ++ (to_chars f ++ to_chars (operator_value o) ++ "["%char :: l) :: more))) = Err e.
Proof.
  intros Hread Hf Ho. set (v := to_chars f ++ _ ++ _).
  destruct (reads_joined texts (v :: more) specs Hread 0 []) as (tokens & i & Hlex & Hparse).
  assert (∃ rest, join_chars [" "%char] (v :: more) = v ++ rest) as (rest & Hrest).
  { destruct more as [|l' more]; [exists []; by rewrite app_nil_r|by eexists]. }
  rewrite Hrest in Hlex. unfold v in Hlex. rewrite <-!app_assoc in Hlex.
  destruct (lex_membership f o l rest i ([] ++ tokens) Hf Ho) as (t & b & i' & Hlex' & Herr).
  pose proof (turns_trans _ _ _ _ _ Hlex Hlex') as Hall. simpl in Hall.
  unfold parse_query. destruct (lex_query _) as [all|e] eqn:Hq; cbn [mbind result_bind]; [|by eexists].
  apply lex_query_Ok in Hq as (l' & j & Hloop). rewrite to_of_chars in Hloop.
  destruct (loop_after _ _ _ _ _ _ Hloop Hall) as [fuel Hfuel].
  apply lex_loop_tiles in Hfuel as (ts & -> & _). rewrite <-app_assoc. simpl.
  destruct (is_nil _); [by eexists|].
  destruct (Hparse (t :: b :: ts) []) as (cs & Hcs & _). destruct (Herr ts) as [e He].
  unfold parse_tokens, parse_loop.
  rewrite (loop_turns_Err _ _ _ _ _ e (parse_loop_total _) Hcs); [by eexists|done|].
  unfold parse_turn. simpl. by rewrite He.
Qed.
