(* ===== verification/QueryProperties.v ===== *)
(** What the market query language promises: parsing always ends, refusals point
    into the source, validation is a type system, and which canonical
    renderings read back. *)
From S2P Require Import Prelude PyNum PyNumFacts PyValue PyText PyTextFacts QueryDsl.
From S2P Require Import QueryLexer.
From S2P Require Import QueryLexer QueryTyping QueryRoundtrip.
From Stdlib Require Import Ascii.

Local Open Scope Z_scope.
Local Open Scope string_scope.
Local Open Scope list_scope.

(** ** Termination and refusals *)

(** C40: lexing and parsing end.  On any source the lexer's loop ends within one
    turn per character, and on any tokens the parser's loop within one turn per
    token: each turn consumes some of what is left, so neither can spin. *)
Theorem parsing_ends source :
  is_Some (lex_loop (to_chars source)) ∧
  (∀ tokens, is_Some (parse_loop tokens)) ∧
  parse_query source ≠ Err OutOfFuel.
Proof.
  split_and!; [apply lex_loop_total|apply parse_loop_total|]. unfold parse_query.
  destruct (lex_query source) as [tokens|e] eqn:Hl; cbn [mbind result_bind].
  - destruct (is_nil tokens); [done|]. destruct (parse_tokens tokens) as [cs|e] eqn:Hp; [done|]. simpl.
    intros [= ->]. apply (parse_tokens_Err (length_Z (to_chars source))) in Hp; [|by apply lex_within].
    destruct Hp as [(? & ? & ? & ? & _)|(? & ? & ? & _)]; done.
  - intros [= ->]. by apply lex_query_Err in Hl as (? & ? & ? & _).
Qed.

(** A refused source is refused at one of its positions.  Whatever parsing
    refuses, it reports as a syntax error whose position lies in the source, or
    the source contains an integer of more digits than [int] converts. *)
Theorem refusals_point_into_source source e :
  parse_query source = Err e →
  (∃ qe, e = QuerySyntaxError qe ∧ 0 <= qe_position qe <= length_Z (to_chars source)) ∨
  (∃ what before text after, e = ValueError what ∧ to_chars source = before ++ text ++ after ∧
     integer_literal text = true ∧ int_max_str_digits < length_Z (take_sign (ascii_digits text)).2).
Proof.
  unfold parse_query. destruct (lex_query source) as [tokens|e'] eqn:Hl; cbn [mbind result_bind].
  - destruct (is_nil tokens).
    { intros [= <-]. left. eexists. split; [done|]. unfold length_Z. simpl. lia. }
    destruct (parse_tokens tokens) as [cs|e'] eqn:Hp; cbn [mbind result_bind]; [done|]. intros [= <-].
    apply (parse_tokens_Err (length_Z (to_chars source))) in Hp; [|by apply lex_within].
    destruct Hp as [(code & p & field & -> & Hp)|(what & t & -> & Ht & Hi & Hlen)].
    + left. by eexists.
    + right. apply lex_query_tiles in Hl. destruct (tiles_slice _ _ _ _ Hl Ht) as (before & after & Heq).
      by exists what, before, (to_chars (tok_text t)), after.
  - intros [= <-]. apply lex_query_Err in Hl as (code & i & -> & Hi). left. eexists.
    split; [done|]. simpl. lia.
Qed.

(** ** Validation *)

(** C38: validation decides typing.  A parsed query is accepted exactly when it
    is well typed over a vocabulary in which no name means two fields, and the
    validated query is then its elaboration: every name resolved, every value
    taken at its field's type, in source order. *)
Theorem validation_decides_typing e ds q :
  validate_query e ds = Ok q ↔ query_typing ds (comparisons e) q.
Proof. apply validate_query_typing. Qed.

Definition scalars (v : LiteralValue) : list ScalarValue :=
  match v with LScalar x => [x] | LTuple xs => xs end.

(** C39: a compiled query is well typed.  Each of its comparisons is on a declared
    field, by a canonical name, with an operator the field allows; it compares
    with a nonempty list exactly for a membership operator and with one value
    otherwise; and every value has the field's type. *)
Theorem compiled_query_is_typed source ds q :
  compile_query source ds = Ok q →
  Forall (λ v, ∃ d, d ∈ ds ∧ vc_field v = fd_name d ∧ vc_operator v ∈ fd_operators d ∧
    (expects_list (vc_operator v) = true ↔ ∃ xs, vc_value v = LTuple xs) ∧
    scalars (vc_value v) ≠ [] ∧
    Forall (λ x, scalar_type x = fd_value_type d) (scalars (vc_value v))) q.
Proof.
  unfold compile_query. destruct (parse_query source) as [e|]; [|done]. cbn [mbind result_bind].
  intros [_ Hq _ _]%validate_query_typing.
  assert (∀ ty x y, scalar_typing ty x y → scalar_type y = ty) as Hty by (by destruct 1).
  induction Hq as [|c v cs q [d v' [Hd _] Ho Hl] _ IH]; constructor; [|done].
  exists d. simpl. split_and!; [done..| | |]; destruct Hl as [o x y He Hx|o xs ys He Hne Hxs]; simpl.
  - split; [by rewrite He|by intros [? ?]].
  - split; [intros _; by exists ys|done].
  - done.
  - intros ->. by inversion Hxs; subst.
  - repeat constructor. by eapply Hty.
  - clear He Hne. induction Hxs; constructor; eauto.
Qed.

(** ** Canonical rendering *)

(** The values whose text is exact. *)
Definition exact_value (v : ValidatedComparison) : Prop :=
  match vc_value v with LScalar x => exact_scalar x | LTuple _ => True end.

Definition comparison_same (v v' : ValidatedComparison) : Prop :=
  vc_field v' = vc_field v ∧ vc_operator v' = vc_operator v ∧
  match vc_value v, vc_value v' with
  | LScalar x, LScalar x' => scalar_same x x'
  | x, x' => x = x'
  end.

Lemma parse_loop_grows tokens s : tokens ≠ [] → parse_loop tokens = Some (Ok s) → s.2 ≠ [].
Proof.
  intros Hne Hl. unfold parse_loop in Hl.
  apply (loop_invariant _ _ (λ s, s.1 ≠ [] ∨ s.2 ≠ [])) in Hl as [[H|H] Hend]; [|done| |by left].
  - unfold parse_running in Hend. by destruct (s.1).
  - intros [[|t ts] cs] s' _ Hr Ht; [done|]. unfold parse_turn in Ht. simpl in Ht.
    destruct (parse_comparison t ts) as [[c rest]|]; [|done]. injection Ht as <-. right. simpl.
    intros Hnil. by apply app_nil in Hnil as [_ ?].
Qed.

Lemma compiled_query_typing source ds q :
  compile_query source ds = Ok q → q ≠ [] ∧ ∃ cs, query_typing ds cs q.
Proof.
  unfold compile_query. destruct (parse_query source) as [e|] eqn:Hp; [|done]. cbn [mbind result_bind].
  intros Hq%validate_query_typing. split; [|by eexists].
  unfold parse_query in Hp. destruct (lex_query source) as [tokens|]; [|done]. cbn [mbind result_bind] in Hp.
  destruct (is_nil tokens) eqn:Hn; [done|]. unfold parse_tokens, run_loop in Hp.
  destruct (parse_loop_total tokens) as [r Hr]. rewrite Hr in Hp. destruct r as [s|]; [|done].
  simpl in Hp. injection Hp as <-. apply parse_loop_grows in Hr; [|by apply is_nil_false].
  intros ->. destruct Hq as [_ Hq _ _]. by inversion Hq; subst.
Qed.

(** A comparison read back types as it did. *)
Lemma typed_again ds c v c' x y z :
  comparison_typing ds c v → vc_value v = LScalar x →
  spells c' (vc_field v) (vc_operator v) y → scalar_typing (scalar_type x) y z →
  ∃ v', comparison_typing ds c' v' ∧ vc_field v' = vc_field v ∧ vc_operator v' = vc_operator v ∧
    vc_value v' = LScalar z.
Proof.
  intros [d v1 [Hd _] Ho Hl] Hx (Hf & Hop & Hlit) Hy. simpl in *. subst v1.
  inversion Hl as [o x0 ? He Hx0|]; subst. eexists. split; [apply (typed_comparison ds c' d (LScalar z))|].
  - rewrite Hf. split; [done|]. left.
  - by rewrite Hop.
  - rewrite Hlit, Hop. constructor; [done|]. assert (scalar_type x = fd_value_type d) as <-; [|done].
    by destruct Hx0.
  - by rewrite Hop.
Qed.

Lemma rendered_texts q text :
  render_canonical_query q = Ok text →
  ∃ texts, Forall2 (λ v l, render_comparison v = Ok l) q texts ∧
    text = of_chars (join_chars [" "%char] texts).
Proof.
  unfold render_canonical_query. destruct (mapM_result _ q) as [texts|] eqn:Hm; [|done].
  intros [= <-]. apply mapM_result_Ok in Hm. by exists texts.
Qed.

(** Rendered comparisons without membership operators read as literals their
    fields take for equal values. *)
Lemma rendered_reads ds cs q texts :
  Forall2 (comparison_typing ds) cs q → Forall (λ d, plain_name (fd_name d)) ds →
  Forall exact_value q → Forall (λ v, expects_list (vc_operator v) = false) q →
  Forall2 (λ v l, render_comparison v = Ok l) q texts →
  ∃ specs : list spec, Forall2 (λ l '(f, o, y), reads_comparison l f o y) texts specs ∧
    ∀ cs', Forall2 (λ c '(f, o, y), spells c f o y) cs' specs →
      ∃ q', Forall2 (comparison_typing ds) cs' q' ∧ Forall2 comparison_same q q'.
Proof.
  intros Ht Hplain. revert texts.
  induction Ht as [|c v cs q Hv Ht IH]; intros texts Hex Hsc Hl.
  { inversion Hl; subst. exists []. split; [constructor|]. intros cs' Hcs'. inversion Hcs'; subst.
    exists []. by split. }
  inversion Hl as [|? l ? texts' Hlv Hl']; subst. inversion Hex; subst. inversion Hsc; subst.
  destruct (IH texts') as (specs & Hread & Hagain); [done..|].
  assert (plain_name (vc_field v)) as Hf.
  { destruct Hv as [d v' [Hd _] _ _]. simpl. rewrite Forall_forall in Hplain. by apply Hplain. }
  assert (∃ x, vc_value v = LScalar x) as [x Hx].
  { destruct Hv as [d v' _ _ Hv]. simpl in *. inversion Hv; [by eexists|congruence]. }
  destruct (render_comparison_reads v l Hf) with (x := x) as (y & z & Hy & Hz & Hsame); [done..| |].
  { unfold exact_value in *. by rewrite Hx in *. }
  exists ((vc_field v, vc_operator v, y) :: specs). split; [by constructor|].
  intros cs' Hcs'. inversion Hcs' as [|c' ? cs1 ? Hc' Hcs1]; subst.
  destruct (Hagain cs1 Hcs1) as (q' & Hq' & Hqq').
  destruct (typed_again ds c v c' x y z) as (v' & Hv' & ? & ? & Hvv'); [done..|].
  exists (v' :: q'). split; [by constructor|]. constructor; [|done].
  split_and!; [done..|]. by rewrite Hx, Hvv'.
Qed.

Lemma same_fields q q' : Forall2 comparison_same q q' → vc_field <$> q' = vc_field <$> q.
Proof. induction 1 as [|v v' q q' (Hf & _) _ IH]; [done|]. by rewrite !fmap_cons, Hf, IH. Qed.

(** C37: a canonical rendering without membership operators reads back.  If no
    field is named like an operator, and each decimal compared with is zero or has
    fewer than 29 digits, an exponent the decimal context holds, and at most 4300
    digits before its point (the limit of the integer its text is read as: the
    rendering of 1e5000 does not read back), compiling the rendering over the same
    descriptors gives the same comparisons in the same order, with decimals of
    equal amount. *)
Theorem canonical_rendering_reads_back source ds q text :
  Forall (λ d, plain_name (fd_name d)) ds →
  compile_query source ds = Ok q → render_canonical_query q = Ok text →
  Forall exact_value q → Forall (λ v, expects_list (vc_operator v) = false) q →
  ∃ q', compile_query text ds = Ok q' ∧ Forall2 comparison_same q q'.
Proof.
  intros Hplain Hc Hr Hex Hsc.
  destruct (compiled_query_typing _ _ _ Hc) as (Hne & cs & [Hu Hq Honce Hreq]).
  destruct (rendered_texts _ _ Hr) as (texts & Htexts & ->).
  destruct (rendered_reads ds cs q texts) as (specs & Hread & Hagain); [done..|].
  destruct (parse_query_joined texts specs Hread) as (e & He & Hspecs).
  { intros ->. inversion Hread; subst. by inversion Htexts; subst. }
  destruct (Hagain _ Hspecs) as (q' & Hq' & Hsame). exists q'. split; [|done].
  unfold compile_query. rewrite He. cbn [mbind result_bind]. apply validate_query_typing.
  constructor; [done..| |]; by rewrite (same_fields _ _ Hsame).
Qed.

(** A rendered membership comparison never reads back.  The renderer puts no
    space between the field and [in] or [notin], so the lexer takes both as one
    word, and compiling the rendering fails over any descriptors. *)
Theorem membership_rendering_never_reads_back source ds q text ds' :
  Forall (λ d, plain_name (fd_name d)) ds →
  compile_query source ds = Ok q → render_canonical_query q = Ok text →
  Forall exact_value q → Exists (λ v, expects_list (vc_operator v) = true) q →
  ∃ e, compile_query text ds' = Err e.
Proof.
  intros Hplain Hc Hr Hex Hin.
  destruct (compiled_query_typing _ _ _ Hc) as (_ & cs & [_ Hq _ _]).
  destruct (rendered_texts _ _ Hr) as (texts & Htexts & ->).
  enough (∃ e, parse_query (of_chars (join_chars [" "%char] texts)) = Err e) as [e He].
  { exists e. unfold compile_query. by rewrite He. }
  assert (∃ q1 v q2, q = q1 ++ v :: q2 ∧ expects_list (vc_operator v) = true ∧
    Forall (λ v, expects_list (vc_operator v) = false) q1) as (q1 & v & q2 & -> & Hv & Hq1).
  { clear -Hin. induction Hin as [v q Hv|v q _ (q1 & v' & q2 & -> & Hv' & Hq1)].
    - exists [], v, q. by split_and!.
    - destruct (expects_list (vc_operator v)) eqn:Hv.
      + exists [], v, (q1 ++ v' :: q2). by split_and!.
      + exists (v :: q1), v', q2. split_and!; [done..|by constructor]. }
  apply Forall2_app_inv_r in Hq as (cs1 & cs2 & Hcs1 & Hcs2 & ->).
  apply Forall2_app_inv_l in Htexts as (texts1 & texts2 & Ht1 & Ht2 & ->).
  apply Forall_app in Hex as [Hex1 _].
  destruct (rendered_reads ds cs1 q1 texts1) as (specs & Hread & _); [done..|].
  inversion Ht2 as [|? l ? texts3 Hl _]; subst. inversion Hcs2 as [|c ? ? ? Hcv _]; subst.
  assert (field_name (to_chars (vc_field v)) = true) as Hf.
  { destruct Hcv as [d v' [Hd _] _ _]. simpl. rewrite Forall_forall in Hplain. by apply Hplain. }
  assert (∃ xs, vc_value v = LTuple xs) as [xs Hxs].
  { destruct Hcv as [d v' _ _ Hcv]. simpl in *. inversion Hcv; [congruence|by eexists]. }
  unfold render_comparison in Hl. rewrite Hxs in Hl. simpl in Hl.
  destruct (mapM_result _ xs) as [items|]; [|done]. simpl in Hl. injection Hl as <-.
  by eapply parse_membership.
Qed.

(** * The query language on the resource vocabulary of its test suite: what its
    sources compile to, where they are refused, and instances of its theorems. *)

Definition field (name : string) (ty : QueryValueType) (ops : list ComparisonOperator)
    (aliases : list string) (repeated : bool) : FieldDescriptor :=
  {| fd_name := name; fd_value_type := ty; fd_operators := ops; fd_aliases := aliases;
     fd_on_missing := MISSING_FAIL; fd_repeated := repeated; fd_description := None; fd_requires := [] |}.

Definition demo_fields : list FieldDescriptor :=
  [field "gpu_model" TSTRING [EQUAL; IN] [] false;
   field "gpu_count_min" TINTEGER [GREATER_THAN; GREATER_THAN_OR_EQUAL] ["gpu_count"] false;
   field "price" TDECIMAL [EQUAL; LESS_THAN_OR_EQUAL] [] false;
   field "static_ip" TBOOLEAN [EQUAL] [] false;
   field "tag" TSTRING [EQUAL] [] true].

Definition q (s : string) : string := String quote s.

(** A quoted string: the text between two quotes. *)
Definition quoted (s : string) : string := q (s +:+ q "").

Definition demo_source : string :=
  "gpu_count>=04 gpu_model=" +:+ quoted "RTX 6000 Ada" +:+ " price=2.00 static_ip=false".

Definition demo_query : ValidatedQuery :=
  match compile_query demo_source demo_fields with Ok q => q | Err _ => [] end.

Definition demo_text : string :=
  "gpu_count_min>=4 gpu_model=" +:+ quoted "RTX 6000 Ada" +:+ " price=2 static_ip=false".

Example demo_renders : render_canonical_query demo_query = Ok demo_text.
Proof. vm_compute. reflexivity. Qed.

Definition membership_source : string := "gpu_model in [H200," +:+ quoted "RTX 6000 Ada" +:+ "]".
Definition membership_query : ValidatedQuery :=
  match compile_query membership_source demo_fields with Ok q => q | Err _ => [] end.

Example membership_renders :
  render_canonical_query membership_query = Ok ("gpu_modelin[H200," +:+ quoted "RTX 6000 Ada" +:+ "]").
Proof. vm_compute. reflexivity. Qed.

Definition refused_at (source : string) : option (string * Z) :=
  match parse_query source with Err (QuerySyntaxError e) => Some (qe_code e, qe_position e) | _ => None end.

Example refusals_of_the_test_suite :
  map refused_at
    [""; "gpu_model=(H200)"; "gpu_model=" +:+ q "unterminated"; "gpu_model in [H200 A100]";
     "gpu_model in [H200,]"; "gpu_model=H200 or gpu_model=A100"; "gpu_model"; "gpu_model="] =
  map Some
    [("empty_query", 0); ("unsupported_syntax", 10); ("unterminated_string", 10);
     ("expected_comma", 19); ("expected_list_value", 19); ("expected_operator", 18);
     ("expected_operator", 9); ("expected_value", 10)].
Proof. vm_compute. reflexivity. Qed.

Definition validation_code (source : string) : option string :=
  match compile_query source demo_fields with Err (QueryValidationError e) => Some (qe_code e) | _ => None end.

Example validations_of_the_test_suite :
  map validation_code
    ["provider_secret=x"; "gpu_count=4"; "gpu_count>=four"; "gpu_model in H200"; "gpu_model in []";
     "gpu_count>=2 gpu_count_min>=4"] =
  map Some
    ["unknown_field"; "unsupported_operator"; "invalid_value_type"; "invalid_value_shape";
     "empty_list"; "duplicate_field"].
Proof. vm_compute. reflexivity. Qed.

Example repeated_field_keeps_source_order :
  match compile_query "tag=fast tag=local" demo_fields with
  | Ok vs => map vc_value vs = [LScalar (SStr "fast"); LScalar (SStr "local")]
  | Err _ => False
  end.
Proof. vm_compute. reflexivity. Qed.

(** Beyond the decimal context a rendering is a rounded value. *)
Example rendering_rounds :
  decimal_chars (Dec 12345678901234567890123456789 (-29)) = Ok (to_chars "0.1234567890123456789012345679").
Proof. vm_compute. reflexivity. Qed.

Lemma demo_fields_plain : Forall (λ d, plain_name (fd_name d)) demo_fields.
Proof. repeat (apply Forall_cons_2; [split; [reflexivity|by apply (bool_decide_unpack _)]|]). constructor. Qed.

Lemma refusals_point_into_source_witness :
  (∃ qe, syntax_error "unsupported_syntax" 10 (Some "gpu_model") = QuerySyntaxError qe ∧
     0 <= qe_position qe <= length_Z (to_chars "gpu_model=(H200)")) ∨
  (∃ what before text after, syntax_error "unsupported_syntax" 10 (Some "gpu_model") = ValueError what ∧
     to_chars "gpu_model=(H200)" = before ++ text ++ after ∧
     integer_literal text = true ∧ int_max_str_digits < length_Z (take_sign (ascii_digits text)).2).
Proof. apply (refusals_point_into_source "gpu_model=(H200)"). vm_compute. reflexivity. Defined.

Lemma compiled_query_is_typed_witness :
  Forall (λ v, ∃ d, d ∈ demo_fields ∧ vc_field v = fd_name d ∧ vc_operator v ∈ fd_operators d ∧
    (expects_list (vc_operator v) = true ↔ ∃ xs, vc_value v = LTuple xs) ∧
    scalars (vc_value v) ≠ [] ∧
    Forall (λ x, scalar_type x = fd_value_type d) (scalars (vc_value v))) demo_query.
Proof. apply (compiled_query_is_typed demo_source). vm_compute. reflexivity. Defined.

Lemma canonical_rendering_reads_back_witness :
  ∃ q', compile_query demo_text demo_fields = Ok q' ∧ Forall2 comparison_same demo_query q'.
Proof.
  apply (canonical_rendering_reads_back demo_source demo_fields demo_query demo_text).
  - apply demo_fields_plain.
  - vm_compute. reflexivity.
  - apply demo_renders.
  - repeat (apply Forall_cons_2; [done || (right; vm_compute; done)|]). constructor.
  - repeat constructor.
Defined.

Lemma membership_rendering_never_reads_back_witness :
  ∃ e, compile_query ("gpu_modelin[H200," +:+ quoted "RTX 6000 Ada" +:+ "]") demo_fields = Err e.
Proof.
  apply (membership_rendering_never_reads_back membership_source demo_fields membership_query).
  - apply demo_fields_plain.
  - vm_compute. reflexivity.
  - apply membership_renders.
  - repeat constructor.
  - by left.
Defined.
