(* ===== verification/FilterSpec.v ===== *)
(** The registry's filter specification ([core_registry/api/filter_spec.py]): its
    declarations, what the loader checks of a parsed document, and the dump of
    a filter.  Reading YAML, pydantic's typing of the document and the sha256
    of its encoding are not modelled. *)
From S2P Require Import Prelude PyNum PyValue PyText QueryDsl QueryTyping.
From Stdlib Require Import Ascii.
From stdpp Require Import relations.

Local Open Scope string_scope.
Local Open Scope list_scope.

(** ** Declarations *)

Inductive Op : Type := op_in | op_range | op_not_in | op_exists.
#[export] Instance Op_eq_dec : EqDecision Op.
Proof. solve_decision. Defined.

Definition op_value (o : Op) : string :=
  match o with op_in => "in" | op_range => "range" | op_not_in => "not_in" | op_exists => "exists" end.

Inductive ValueType : Type := vt_string | vt_integer | vt_number | vt_boolean | vt_address | vt_decimal_text.
#[export] Instance ValueType_eq_dec : EqDecision ValueType.
Proof. solve_decision. Defined.

Definition vt_value (t : ValueType) : string :=
  match t with
  | vt_string => "string" | vt_integer => "integer" | vt_number => "number"
  | vt_boolean => "boolean" | vt_address => "address" | vt_decimal_text => "decimal_text"
  end.

Inductive AliasKind : Type := lower_bound | upper_bound.
#[export] Instance AliasKind_eq_dec : EqDecision AliasKind.
Proof. solve_decision. Defined.

Definition alias_kind_value (k : AliasKind) : string :=
  match k with lower_bound => "lower_bound" | upper_bound => "upper_bound" end.

Inductive OnMissing : Type := om_fail | om_pass.
#[export] Instance OnMissing_eq_dec : EqDecision OnMissing.
Proof. solve_decision. Defined.

Definition on_missing_value (m : OnMissing) : string :=
  match m with om_fail => "fail" | om_pass => "pass" end.

Record FilterDecl : Type := {
  fl_name : string;
  fl_path : string;
  fl_query_name : option string;
  fl_query_aliases : list string;
  fl_op : Op;
  fl_value_type : ValueType;
  fl_alias_kind : option AliasKind;
  fl_on_missing : OnMissing;
  fl_indexed : bool;
  fl_requires : list string;
}.

(** ** Loading *)

(** [declaration.query_name or declaration.name], and the aliases. *)
Definition query_names (d : FilterDecl) : list string :=
  default (fl_name d) (str_truthy (fl_query_name d)) :: fl_query_aliases d.

Fixpoint check_query_names (names seen : list string) : result (list string) :=
  match names with
  | [] => Ok seen
  | n :: names =>
      if negb (field_name (to_chars n)) then Err (ValueError "invalid query name")
      else if bool_decide (n ∈ seen) then Err (ValueError "duplicate query name in spec")
      else check_query_names names (n :: seen)
  end.

Fixpoint check_names (filters : list FilterDecl) (seen_filters seen_queries : list string) : result unit :=
  match filters with
  | [] => Ok tt
  | d :: filters =>
      if bool_decide (fl_name d ∈ seen_filters) then Err (ValueError "duplicate filter name in spec")
      else if negb (bool_decide (NoDup (query_names d))) then Err (ValueError "duplicate query name on filter")
      else
        seen_queries ← check_query_names (query_names d) seen_queries;
        check_names filters (fl_name d :: seen_filters) seen_queries
  end.

(** [{f.name: f for f in filters}], whose names are distinct once checked. *)
Definition by_name (filters : list FilterDecl) : list (string * FilterDecl) :=
  (λ d, (fl_name d, d)) <$> filters.

Fixpoint check_targets (names : list string) (d : FilterDecl) (targets : list string) : result unit :=
  match targets with
  | [] => Ok tt
  | t :: targets =>
      if bool_decide (t = fl_name d) then Err (ValueError "declares requires on itself")
      else if negb (bool_decide (t ∈ names)) then Err (ValueError "requires undeclared filter")
      else check_targets names d targets
  end.

Fixpoint check_each_targets (names : list string) (filters : list FilterDecl) : result unit :=
  match filters with
  | [] => Ok tt
  | d :: filters => check_targets names d (fl_requires d) ≫= λ _, check_each_targets names filters
  end.

(** ** Co-requirements have no cycle *)

Inductive Color : Type := WHITE | GRAY | BLACK.
#[export] Instance Color_eq_dec : EqDecision Color.
Proof. solve_decision. Defined.

Section acyclic.
Context (requires : string → list string).

(** The loop over one filter's targets, visiting with [visit]. *)
Fixpoint visit_targets (visit : string → gmap string Color → option (result (gmap string Color)))
    (targets : list string) (color : gmap string Color) : option (result (gmap string Color)) :=
  match targets with
  | [] => Some (Ok color)
  | t :: targets =>
      if bool_decide (color !! t = Some GRAY) then Some (Err (ValueError "cycle in filter requires"))
      else if bool_decide (color !! t = Some WHITE) then
        match visit t color with
        | Some (Ok color) => visit_targets visit targets color
        | r => r
        end
      else visit_targets visit targets color
  end.

(** [visit(name, path)]; the recursion is as deep as there are white names. *)
Fixpoint visit (fuel : nat) (name : string) (color : gmap string Color)
    : option (result (gmap string Color)) :=
  match fuel with
  | O => None
  | S fuel =>
      match visit_targets (visit fuel) (requires name) (<[name := GRAY]> color) with
      | Some (Ok color) => Some (Ok (<[name := BLACK]> color))
      | r => r
      end
  end.

Fixpoint visit_all (fuel : nat) (names : list string) (color : gmap string Color)
    : option (result (gmap string Color)) :=
  match names with
  | [] => Some (Ok color)
  | n :: names =>
      if bool_decide (color !! n = Some WHITE) then
        match visit fuel n color with
        | Some (Ok color) => visit_all fuel names color
        | r => r
        end
      else visit_all fuel names color
  end.

Definition all_white (names : list string) : gmap string Color :=
  list_to_map ((λ n, (n, WHITE)) <$> names).

Definition depth_first (names : list string) : option (result (gmap string Color)) :=
  visit_all (List.length names) names (all_white names).
End acyclic.

Definition requires_of (filters : list FilterDecl) (n : string) : list string :=
  default [] (fl_requires <$> alist_get n (by_name filters)).

Definition _check_requires_acyclic (filters : list FilterDecl) : result unit :=
  run_loop (depth_first (requires_of filters) (fl_name <$> filters)) ≫= λ _, Ok tt.

(** What [load_filter_spec] checks of the parsed document. *)
Definition check_filter_spec (filters : list FilterDecl) : result unit :=
  check_names filters [] [] ≫= λ _,
  check_each_targets (fl_name <$> filters) filters ≫= λ _,
  _check_requires_acyclic filters.

(** ** The served document *)

Definition opt_value {A} (f : A → string) (o : option A) : value :=
  match o with Some a => VStr (f a) | None => VNone end.

Definition _dump_filter (d : FilterDecl) : dict :=
  [("name", VStr (fl_name d)); ("path", VStr (fl_path d));
   ("query_name", opt_value id (fl_query_name d));
   ("query_aliases", VList (VStr <$> fl_query_aliases d));
   ("op", VStr (op_value (fl_op d))); ("value_type", VStr (vt_value (fl_value_type d)));
   ("alias_kind", opt_value alias_kind_value (fl_alias_kind d));
   ("on_missing", VStr (on_missing_value (fl_on_missing d))); ("indexed", VBool (fl_indexed d))]
  ++ (if is_nil (fl_requires d) then [] else [("requires", VList (VStr <$> fl_requires d))]).

(** The body [_spec_body] serves, over the digest of its canonical encoding. *)
Definition spec_body (digest : dict → string) (version : Z) (listing_shape : dict)
    (schema_identity : option (string * Z)) (filters : list FilterDecl) : dict :=
  let dumped := VList ((VDict ∘ _dump_filter) <$> filters) in
  let schema := match schema_identity with
                | Some (i, v) => [("schema", VDict [("id", VStr i); ("version", VInt v)])]
                | None => []
                end in
  let hashed := [("version", VInt version); ("listing_shape", VDict listing_shape);
                 ("filters", dumped)] ++ schema in
  [("version", VInt version); ("etag", VStr (digest hashed));
   ("listing_shape", VDict listing_shape); ("filters", dumped)] ++ schema.

(** * The loader of filter specifications: its depth-first search ends, and finds a
    cycle of co-requirements exactly when there is one. *)

Lemma length_filter_le {A} (P Q : A → Prop) `{∀ x, Decision (P x)} `{∀ x, Decision (Q x)} l :
  (∀ x, P x → Q x) → (length (filter P l) ≤ length (filter Q l))%nat.
Proof.
  intros HPQ. induction l as [|x l IH]; [done|]. rewrite !filter_cons.
  destruct (decide (P x)), (decide (Q x)); simpl; naive_solver lia.
Qed.

Lemma length_filter_lt {A} (P Q : A → Prop) `{∀ x, Decision (P x)} `{∀ x, Decision (Q x)} l x :
  (∀ x, P x → Q x) → x ∈ l → Q x → ¬ P x → (length (filter P l) < length (filter Q l))%nat.
Proof.
  intros HPQ Hx HQ HP. induction l as [|y l IH]; [by apply not_elem_of_nil in Hx|].
  rewrite !filter_cons. apply elem_of_cons in Hx as [<-|Hx].
  - rewrite (decide_False (P := P x)), (decide_True (P := Q x)) by done. simpl.
    pose proof (length_filter_le P Q l HPQ). lia.
  - specialize (IH Hx). destruct (decide (P y)), (decide (Q y)); simpl; naive_solver lia.
Qed.

(** ** Depth-first search *)

Section search.
Context (requires : string → list string).

Definition edge (a b : string) : Prop := b ∈ requires a.

(** No endless chain of co-requirements starts at a name. *)
Definition grounded : string → Prop := Acc (λ b a, edge a b).

Definition blacks_grounded (color : gmap string Color) : Prop :=
  ∀ n, color !! n = Some BLACK → grounded n.

(** What a search does to the colors besides blackening. *)
Record advanced (color color' : gmap string Color) : Prop := {
  adv_gray n : color' !! n = Some GRAY ↔ color !! n = Some GRAY;
  adv_black n : color !! n = Some BLACK → color' !! n = Some BLACK;
  adv_white n : color' !! n = Some WHITE → color !! n = Some WHITE;
  adv_none n : color' !! n = None ↔ color !! n = None;
}.

Lemma advanced_refl color : advanced color color.
Proof. done. Qed.

Lemma advanced_trans c1 c2 c3 : advanced c1 c2 → advanced c2 c3 → advanced c1 c3.
Proof. intros [] []. constructor; naive_solver. Qed.

Lemma advanced_visit n color color' :
  color !! n = Some WHITE → advanced (<[n := GRAY]> color) color' → advanced color (<[n := BLACK]> color').
Proof.
  intros Hn [Hg Hb Hw Ho].
  constructor; intros m; specialize (Hg m); specialize (Hb m); specialize (Hw m); specialize (Ho m);
    (destruct (decide (m = n)) as [->|Hne];
     [rewrite lookup_insert_eq, ?Hn; first [done|by split]
     |rewrite lookup_insert_ne by done; rewrite lookup_insert_ne in Hg, Hb, Hw, Ho by done; done]).
Qed.

(** Names outside the search are no filters: they require nothing. *)
Context (names : list string).
Context (Hclosed : ∀ n, n ∉ names → requires n = []).

Definition colors_names (color : gmap string Color) : Prop := ∀ n, color !! n = None ↔ n ∉ names.

Lemma colors_names_advanced color color' : advanced color color' → colors_names color → colors_names color'.
Proof. intros Ha Hn n. by rewrite (adv_none _ _ Ha). Qed.

Lemma colors_names_gray color n : colors_names color → n ∈ names → colors_names (<[n := GRAY]> color).
Proof.
  intros Hc Hn m. destruct (decide (m = n)) as [->|]; [by rewrite lookup_insert_eq|].
  by rewrite lookup_insert_ne.
Qed.

Lemma undeclared_grounded n : n ∉ names → grounded n.
Proof.
  intros Hn. constructor. intros t Ht. unfold edge in Ht. rewrite Hclosed in Ht by done.
  by apply not_elem_of_nil in Ht.
Qed.

Lemma white_named color n : colors_names color → color !! n = Some WHITE → n ∈ names.
Proof. intros Hc Hn. destruct (decide (n ∈ names)) as [|Hnot]; [done|]. apply Hc in Hnot. congruence. Qed.

Abbreviation searching := (string → gmap string Color → option (result (gmap string Color))).

(** *** A search that ends well *)

Definition settles (search : searching) : Prop := ∀ n color color',
  colors_names color → color !! n = Some WHITE → blacks_grounded color →
  search n color = Some (Ok color') →
  blacks_grounded color' ∧ advanced color color' ∧ color' !! n = Some BLACK.

Lemma visit_targets_settles search targets color color' :
  settles search → colors_names color → blacks_grounded color →
  visit_targets search targets color = Some (Ok color') →
  blacks_grounded color' ∧ advanced color color' ∧
  ∀ t, t ∈ targets → color' !! t = Some BLACK ∨ color' !! t = None.
Proof.
  intros Hv. revert color. induction targets as [|t targets IH]; intros color Hn Hc; simpl.
  { intros [= <-]. split_and!; [done|done|set_solver]. }
  case_bool_decide as Hgray; [done|]. case_bool_decide as Hwhite.
  - destruct (search t color) as [[color1|e]|] eqn:Hvisit; [|done..]. intros Hrest.
    destruct (Hv _ _ _ Hn Hwhite Hc Hvisit) as (Hc1 & Ha1 & Ht).
    destruct (IH color1 (colors_names_advanced _ _ Ha1 Hn) Hc1 Hrest) as (Hc' & Ha' & Hts).
    split_and!; [done|by eapply advanced_trans|].
    intros t' [->|Ht']%elem_of_cons; [|by apply Hts]. left. by apply Ha'.
  - intros Hrest. destruct (IH color Hn Hc Hrest) as (Hc' & Ha' & Hts). split_and!; [done|done|].
    intros t' [->|Ht']%elem_of_cons; [|by apply Hts].
    destruct (color !! t) as [[]|] eqn:Ht; [done|done|left; by apply Ha'|right; by apply Ha'].
Qed.

Lemma visit_settles fuel : settles (visit requires fuel).
Proof.
  induction fuel as [|fuel IH]; intros n color color' Hnames Hn Hc; simpl; [done|].
  pose proof (white_named _ _ Hnames Hn) as Hin.
  destruct (visit_targets _ _ _) as [[color1|e]|] eqn:Ht; [|done..]. intros [= <-].
  assert (blacks_grounded (<[n := GRAY]> color)) as Hc0.
  { intros m. destruct (decide (m = n)) as [->|]; [by rewrite lookup_insert_eq|].
    rewrite lookup_insert_ne by done. apply Hc. }
  destruct (visit_targets_settles _ _ _ _ IH (colors_names_gray _ _ Hnames Hin) Hc0 Ht) as (Hc1 & Ha1 & Hts).
  pose proof (colors_names_advanced _ _ Ha1 (colors_names_gray _ _ Hnames Hin)) as Hnames1.
  split_and!; [|by eapply advanced_visit|by rewrite lookup_insert_eq].
  intros m Hm. destruct (decide (m = n)) as [->|Hne]; [|rewrite lookup_insert_ne in Hm by done; by apply Hc1].
  constructor. intros t Ht'. destruct (Hts t Ht') as [Hb|Ho]; [by apply Hc1|].
  apply undeclared_grounded. by apply Hnames1.
Qed.

Lemma visit_all_settles fuel ns color color' :
  colors_names color → blacks_grounded color →
  visit_all requires fuel ns color = Some (Ok color') →
  blacks_grounded color' ∧ advanced color color' ∧ ∀ n, n ∈ ns → color' !! n ≠ Some WHITE.
Proof.
  revert color. induction ns as [|n ns IH]; intros color Hn Hc; simpl.
  { intros [= <-]. split_and!; [done|done|set_solver]. }
  case_bool_decide as Hwhite.
  - destruct (visit requires fuel n color) as [[color1|e]|] eqn:Hv; [|done..]. intros Hrest.
    destruct (visit_settles _ _ _ _ Hn Hwhite Hc Hv) as (Hc1 & Ha1 & Hb).
    destruct (IH color1 (colors_names_advanced _ _ Ha1 Hn) Hc1 Hrest) as (Hc' & Ha' & Hns).
    split_and!; [done|by eapply advanced_trans|].
    intros m [->|Hm]%elem_of_cons; [|by apply Hns]. apply Ha' in Hb. congruence.
  - intros Hrest. destruct (IH color Hn Hc Hrest) as (Hc' & Ha' & Hns). split_and!; [done|done|].
    intros m [->|Hm]%elem_of_cons; [|by apply Hns]. intros Hw. by apply Ha' in Hw.
Qed.

(** *** A search that finds a cycle *)

Definition cyclic : Prop := ∃ n, tc edge n n.

(** Every name of the current path leads to [n]. *)
Definition path_to (n : string) (color : gmap string Color) : Prop :=
  ∀ g, color !! g = Some GRAY → rtc edge g n.

Definition finds (search : searching) : Prop := ∀ n color e,
  colors_names color → blacks_grounded color → color !! n = Some WHITE → path_to n color →
  search n color = Some (Err e) → cyclic.

Lemma visit_targets_finds search n targets color e :
  settles search → finds search → colors_names color → blacks_grounded color →
  path_to n color → (∀ t, t ∈ targets → edge n t) →
  visit_targets search targets color = Some (Err e) → cyclic.
Proof.
  intros Hset Hv. revert color. induction targets as [|t targets IH]; intros color Hn Hc Hpath Hts; simpl; [done|].
  assert (edge n t) as Hedge by (apply Hts; left).
  case_bool_decide as Hgray.
  { intros _. exists n. apply tc_rtc_r with t; [by apply tc_once|]. by apply Hpath. }
  case_bool_decide as Hwhite.
  - destruct (search t color) as [[color1|e1]|] eqn:Hvisit; [|intros [= <-]|done].
    + destruct (Hset _ _ _ Hn Hwhite Hc Hvisit) as (Hc1 & Ha1 & _).
      apply IH; [by eapply colors_names_advanced|done| |set_solver].
      intros g Hg. by apply Hpath, (adv_gray _ _ Ha1).
    + eapply Hv; [done|done|done| |done]. intros g Hg. eapply rtc_r; [by apply Hpath|done].
  - apply IH; [done..|set_solver].
Qed.

Lemma gray_grounded color n : blacks_grounded color → blacks_grounded (<[n := GRAY]> color).
Proof.
  intros Hc m. destruct (decide (m = n)) as [->|]; [by rewrite lookup_insert_eq|].
  rewrite lookup_insert_ne by done. apply Hc.
Qed.

Lemma visit_finds fuel : finds (visit requires fuel).
Proof.
  induction fuel as [|fuel IH]; intros n color e Hnames Hc Hn Hpath; simpl; [done|].
  pose proof (white_named _ _ Hnames Hn) as Hin.
  destruct (visit_targets _ _ _) as [[color1|e1]|] eqn:Ht; [done| |done]. intros _.
  refine (visit_targets_finds _ n _ _ _ (visit_settles fuel) IH (colors_names_gray _ _ Hnames Hin)
    (gray_grounded _ _ Hc) _ _ Ht); [|done].
  intros g. destruct (decide (g = n)) as [->|]; [done|]. rewrite lookup_insert_ne by done. apply Hpath.
Qed.

Lemma visit_all_finds fuel ns color e :
  colors_names color → blacks_grounded color → (∀ n, color !! n ≠ Some GRAY) →
  visit_all requires fuel ns color = Some (Err e) → cyclic.
Proof.
  revert color. induction ns as [|n ns IH]; intros color Hn Hc Hgray; simpl; [done|].
  case_bool_decide as Hwhite; [|by apply IH].
  destruct (visit requires fuel n color) as [[color1|e1]|] eqn:Hv; [|intros [= <-]|done].
  - destruct (visit_settles _ _ _ _ Hn Hwhite Hc Hv) as (Hc1 & Ha1 & _).
    apply IH; [by eapply colors_names_advanced|done|]. intros m Hm%(adv_gray _ _ Ha1). by apply (Hgray m).
  - eapply visit_finds; [done|done|done| |done]. intros g Hg. by destruct (Hgray g).
Qed.

(** *** The search ends *)

Definition whites (color : gmap string Color) : nat :=
  length (filter (λ n, color !! n = Some WHITE) names).

Lemma whites_advanced color color' : advanced color color' → (whites color' ≤ whites color)%nat.
Proof. intros Ha. apply length_filter_le. intros n. apply Ha. Qed.

Lemma whites_gray color n :
  n ∈ names → color !! n = Some WHITE → (whites (<[n := GRAY]> color) < whites color)%nat.
Proof.
  intros Hin Hn. apply (length_filter_lt _ _ _ n); [|done|done|by rewrite lookup_insert_eq].
  intros m. destruct (decide (m = n)) as [->|]; [by rewrite lookup_insert_eq|]. by rewrite lookup_insert_ne.
Qed.

Lemma visit_targets_ends search targets color bound :
  settles search →
  (∀ n color, colors_names color → blacks_grounded color → color !! n = Some WHITE →
     (whites color ≤ bound)%nat → is_Some (search n color)) →
  colors_names color → blacks_grounded color → (whites color ≤ bound)%nat →
  is_Some (visit_targets search targets color).
Proof.
  intros Hset Hv. revert color. induction targets as [|t targets IH]; intros color Hn Hc Hb; simpl; [by eexists|].
  case_bool_decide; [by eexists|]. case_bool_decide as Hwhite; [|by apply IH].
  destruct (Hv t color Hn Hc Hwhite Hb) as [[color1|e] Hvisit]; rewrite Hvisit; [|by eexists].
  destruct (Hset _ _ _ Hn Hwhite Hc Hvisit) as (Hc1 & Ha1 & _).
  pose proof (whites_advanced _ _ Ha1). apply IH; [by eapply colors_names_advanced|done|lia].
Qed.

Lemma visit_ends fuel n color :
  colors_names color → blacks_grounded color → color !! n = Some WHITE →
  (whites color ≤ fuel)%nat → is_Some (visit requires fuel n color).
Proof.
  revert n color. induction fuel as [|fuel IH]; intros n color Hnames Hc Hn Hw;
    pose proof (whites_gray color n (white_named _ _ Hnames Hn) Hn) as Hlt; [lia|]. simpl.
  destruct (visit_targets_ends (visit requires fuel) (requires n) (<[n := GRAY]> color) fuel)
    as [[color1|e] ->]; [apply visit_settles|done| | |lia|by eexists|by eexists].
  - by apply colors_names_gray, (white_named color).
  - by apply gray_grounded.
Qed.

Lemma visit_all_ends fuel ns color :
  colors_names color → blacks_grounded color → (whites color ≤ fuel)%nat →
  is_Some (visit_all requires fuel ns color).
Proof.
  revert color. induction ns as [|n ns IH]; intros color Hn Hc Hb; simpl; [by eexists|].
  case_bool_decide as Hwhite; [|by apply IH].
  destruct (visit_ends fuel n color Hn Hc Hwhite Hb) as [[color1|e] Hvisit]; rewrite Hvisit; [|by eexists].
  destruct (visit_settles _ _ _ _ Hn Hwhite Hc Hvisit) as (Hc1 & Ha1 & _).
  pose proof (whites_advanced _ _ Ha1). apply IH; [by eapply colors_names_advanced|done|lia].
Qed.

(** *** What the search decides *)

Lemma all_white_lookup n : all_white names !! n = if decide (n ∈ names) then Some WHITE else None.
Proof.
  unfold all_white. clear. induction names as [|m l IH]; [done|]. rewrite fmap_cons, list_to_map_cons.
  destruct (decide (n = m)) as [->|Hne].
  - rewrite lookup_insert_eq, decide_True by left. done.
  - rewrite lookup_insert_ne, IH by done. by repeat case_decide; set_solver.
Qed.

Lemma grounded_acyclic : (∀ n, grounded n) → ¬ cyclic.
Proof.
  intros Hg [n Hn]. induction (Hg n) as [n _ IH].
  inversion Hn as [? ? Hself|? m ? Hm Hmn]; subst; [by apply (IH n Hself)|].
  apply (IH m Hm). by eapply tc_r.
Qed.

Lemma depth_first_decides :
  ∃ r, depth_first requires names = Some r ∧ (is_ok r = true ↔ ¬ cyclic).
Proof.
  assert (colors_names (all_white names)) as Hn.
  { intros n. rewrite all_white_lookup. by case_decide. }
  assert (blacks_grounded (all_white names)) as Hb.
  { intros n. rewrite all_white_lookup. by case_decide. }
  assert (∀ n, all_white names !! n ≠ Some GRAY) as Hg.
  { intros n. rewrite all_white_lookup. by case_decide. }
  destruct (visit_all_ends (length names) names (all_white names) Hn Hb) as [r Hr].
  { apply length_filter. }
  exists r. split; [done|]. destruct r as [color|e]; simpl.
  - split; [intros _|done]. destruct (visit_all_settles _ _ _ _ Hn Hb Hr) as (Hc & Ha & Hw).
    apply grounded_acyclic. intros n. destruct (decide (n ∈ names)) as [Hin|]; [|by apply undeclared_grounded].
    apply Hc. destruct (color !! n) as [[]|] eqn:Hcol; [by destruct (Hw n Hin)| |done|].
    + apply (adv_gray _ _ Ha) in Hcol. by destruct (Hg n).
    + apply (adv_none _ _ Ha) in Hcol. by apply Hn in Hcol.
  - split; [done|]. intros Hnc. destruct Hnc. by eapply visit_all_finds.
Qed.
End search.

(** ** The loader *)

Lemma check_query_names_spec ns seen r :
  NoDup seen →
  check_query_names ns seen = Ok r ↔
  Forall (λ n, field_name (to_chars n) = true) ns ∧ NoDup (seen ++ ns) ∧ r = reverse ns ++ seen.
Proof.
  revert seen. induction ns as [|n ns IH]; intros seen Hseen; simpl.
  { rewrite app_nil_r. split; [intros [= <-]; by repeat constructor|by intros (_ & _ & ->)]. }
  rewrite reverse_cons, <-app_assoc, Forall_cons. destruct (field_name (to_chars n)); simpl; [|naive_solver].
  case_bool_decide as Hin.
  - split; [done|]. intros (_ & Hnd & _). apply NoDup_app in Hnd as (_ & Hd & _). destruct (Hd n Hin). left.
  - assert (NoDup ((n :: seen) ++ ns) ↔ NoDup (seen ++ n :: ns)) as Hmove
      by (by rewrite <-Permutation_middle).
    rewrite IH, Hmove by (by constructor). naive_solver.
Qed.

Lemma check_names_spec filters seen_filters seen_queries :
  NoDup seen_filters → NoDup seen_queries →
  check_names filters seen_filters seen_queries = Ok tt ↔
  NoDup (seen_filters ++ (fl_name <$> filters)) ∧ NoDup (seen_queries ++ (filters ≫= query_names)) ∧
  Forall (λ n, field_name (to_chars n) = true) (filters ≫= query_names).
Proof.
  revert seen_filters seen_queries. induction filters as [|d filters IH]; intros sf sq Hsf Hsq.
  { simpl. rewrite !app_nil_r. split; [by repeat constructor|done]. }
  cbn [check_names]. rewrite bind_cons, fmap_cons. case_bool_decide as Hin.
  { split; [done|]. intros (Hnd & _). apply NoDup_app in Hnd as (_ & Hd & _). destruct (Hd _ Hin). left. }
  case_bool_decide as Hown; simpl negb; cbv iota.
  2: { split; [done|]. intros (_ & Hnd & _). destruct Hown.
       apply NoDup_app in Hnd as (_ & _ & Hnd). by apply NoDup_app in Hnd as (? & _). }
  rewrite Forall_app, app_assoc. destruct (check_query_names _ sq) as [sq'|e] eqn:Hq; cbn [mbind result_bind].
  - apply check_query_names_spec in Hq as (Hf & Hnd & ->); [|done].
    assert (reverse (query_names d) ++ sq ≡ₚ sq ++ query_names d) as Hperm
      by (by rewrite reverse_Permutation, Permutation_app_comm).
    assert (NoDup ((fl_name d :: sf) ++ (fl_name <$> filters)) ↔ NoDup (sf ++ fl_name d :: (fl_name <$> filters)))
      as Hmove by (by rewrite <-Permutation_middle).
    rewrite IH, Hmove, Hperm; [|by constructor|by rewrite Hperm]. naive_solver.
  - split; [done|]. intros (_ & Hnd & Hf & _).
    enough (check_query_names (query_names d) sq = Ok (reverse (query_names d) ++ sq)) by congruence.
    apply check_query_names_spec; [done|]. split_and!; [done| |done]. by apply NoDup_app in Hnd as (? & _).
Qed.

(** What the loader demands: names and query names tell filters apart and can be
    written in a query, and co-requirements name other filters without a cycle. *)
Record sound_spec (filters : list FilterDecl) : Prop := {
  ss_names : NoDup (fl_name <$> filters);
  ss_query_names : NoDup (filters ≫= query_names);
  ss_query_syntax : Forall (λ n, field_name (to_chars n) = true) (filters ≫= query_names);
  ss_targets : ∀ d t, d ∈ filters → t ∈ fl_requires d → t ∈ fl_name <$> filters;
  ss_acyclic : ¬ cyclic (requires_of filters);
}.

Lemma check_targets_spec names d targets :
  check_targets names d targets = Ok tt ↔ ∀ t, t ∈ targets → t ≠ fl_name d ∧ t ∈ names.
Proof.
  induction targets as [|t targets IH]; simpl; [set_solver|].
  case_bool_decide; [split; [done|]; intros H'; by destruct (H' t) as [? _]; [left|]|].
  case_bool_decide; simpl; [rewrite IH; set_solver|]. split; [done|]. intros H'.
  by destruct (H' t) as [_ ?]; [left|].
Qed.

Lemma check_each_targets_spec names filters :
  check_each_targets names filters = Ok tt ↔
  ∀ d t, d ∈ filters → t ∈ fl_requires d → t ≠ fl_name d ∧ t ∈ names.
Proof.
  induction filters as [|d filters IH]; simpl; [set_solver|].
  destruct (check_targets names d (fl_requires d)) as [[]|e] eqn:Ht; simpl.
  - rewrite IH. rewrite check_targets_spec in Ht. set_solver.
  - split; [done|]. intros H. enough (check_targets names d (fl_requires d) = Ok tt) by congruence.
    apply check_targets_spec. intros t. apply H. left.
Qed.

Lemma by_name_keys filters : (by_name filters).*1 = fl_name <$> filters.
Proof. unfold by_name. by rewrite <-list_fmap_compose. Qed.

Lemma requires_of_undeclared filters n : n ∉ fl_name <$> filters → requires_of filters n = [].
Proof.
  intros Hn. unfold requires_of. destruct (alist_get n (by_name filters)) eqn:Hg; [|done].
  apply alist_get_elem, (list_elem_of_fmap_2 fst) in Hg. rewrite by_name_keys in Hg. done.
Qed.

Lemma check_acyclic_spec filters :
  _check_requires_acyclic filters = Ok tt ↔ ¬ cyclic (requires_of filters).
Proof.
  unfold _check_requires_acyclic.
  destruct (depth_first_decides (requires_of filters) (fl_name <$> filters)) as (r & Hr & Hok).
  { intros n. apply requires_of_undeclared. }
  rewrite Hr. simpl. rewrite <-Hok. by destruct r.
Qed.

(** A filter that requires itself is a cycle of one. *)
Lemma self_requirement filters d :
  NoDup (fl_name <$> filters) → d ∈ filters → fl_name d ∈ fl_requires d → cyclic (requires_of filters).
Proof.
  intros Hnd Hd Hself. exists (fl_name d). apply tc_once. unfold edge, requires_of.
  rewrite (proj2 (alist_get_unique _ (by_name filters) d ltac:(by rewrite by_name_keys))); [done|].
  apply (list_elem_of_fmap_2 (λ d, (fl_name d, d))), Hd.
Qed.

Lemma check_filter_spec_sound filters :
  check_filter_spec filters = Ok tt ↔ sound_spec filters.
Proof.
  unfold check_filter_spec.
  assert (check_names filters [] [] = Ok tt ↔ NoDup (fl_name <$> filters) ∧
    NoDup (filters ≫= query_names) ∧ Forall (λ n, field_name (to_chars n) = true) (filters ≫= query_names))
    as Hnames by (apply check_names_spec; constructor).
  split.
  - destruct (check_names _ _ _) as [[]|]; [|done]. destruct (check_each_targets _ _) as [[]|] eqn:Ht; [|done].
    cbn [mbind result_bind]. intros Ha%check_acyclic_spec.
    rewrite check_each_targets_spec in Ht. destruct (proj1 Hnames eq_refl) as (? & ? & ?).
    constructor; [done..| |done]. intros d t Hd Hreq. by apply (Ht d t).
  - intros [H1 H2 H3 H4 H5]. rewrite (proj2 Hnames) by done. cbn [mbind result_bind].
    rewrite (proj2 (check_each_targets_spec _ _)).
    + cbn [mbind result_bind]. by apply check_acyclic_spec.
    + intros d t Hd Ht. split; [|by eapply H4]. intros ->. by destruct H5; eapply self_requirement.
Qed.

(** A filter specification is loaded exactly when it is sound: filters and
    query names are distinct and every query name can be written in a query,
    every co-requirement names a declared filter, and co-requirements have no
    cycle.  The depth-first search for a cycle always ends. *)
Theorem loader_decides_soundness filters :
  check_filter_spec filters = Ok tt ↔ sound_spec filters.
Proof. apply check_filter_spec_sound. Qed.
