(* ===== verification/PyWire.v ===== *)
(** Text operations of the values a query parameter carries: [str.split],
    [str.lower], [startswith], and the numbers [int], [float] and [Decimal]
    read.  As in PyValue.v, a string is its UTF-8 encoding. *)
From S2P Require Import Prelude PyNum PyValue PyText QueryDsl PyNumFacts QueryLexer.
From S2P Require Import PyTextFacts.
From Stdlib Require Import Ascii SpecFloat.

Local Open Scope Z_scope.

(** ** Prefixes, cases and fields *)

(** [s[len(p):]] of a string that starts with [p]. *)
Definition str_after (p s : string) : option string := of_chars <$> strip_prefix (to_chars p) (to_chars s).

Definition lower_char (c : ascii) : ascii :=
  if in_codes 65 90 c then ascii_of_N (N_of_ascii c + 32) else c.

(** [s.lower()]. *)
Definition py_lower (s : string) : string := of_chars (lower_char <$> to_chars s).

(** [l.split(sep, 1)]: what is before the first separator, and after it. *)
Fixpoint split_once (sep : ascii) (l : chars) : chars * option chars :=
  match l with
  | [] => ([], None)
  | c :: l =>
      if decide (c = sep) then ([], Some l)
      else let '(before, after) := split_once sep l in (c :: before, after)
  end.

(** [l.split(sep)]: one field more than there are separators. *)
Fixpoint split_chars (sep : ascii) (l : chars) : list chars :=
  match l with
  | [] => [[]]
  | c :: l =>
      let fields := split_chars sep l in
      if decide (c = sep) then [] :: fields
      else match fields with f :: fields => (c :: f) :: fields | [] => [[c]] end
  end.

(** [l[1:-1]] of a text whose first and last characters [first] and [last] accept. *)
Definition enclosed (first last : ascii → bool) (l : chars) : option (ascii * chars * ascii) :=
  match l with
  | a :: ((_ :: _) as l') =>
      let b := List.last l' a in
      if first a && last b then Some (a, removelast l', b) else None
  | _ => None
  end.

(** ** Numbers *)

(** [int(s)]: a literal of more than 4300 digits is refused like text that is
    not a literal. *)
Definition int_of_text (s : string) : option Z :=
  let digits := List.filter is_ascii_digit (ascii_digits (to_chars s)) in
  if int_max_str_digits <? Z.of_nat (List.length digits) then None else parse_int s.

(** Underscores stand between two digits, and are dropped. *)
Fixpoint drop_underscores (after_digit : bool) (l : chars) : option chars :=
  match l with
  | [] => Some []
  | c :: l =>
      if decide (c = "_"%char) then
        match l with
        | d :: _ => if after_digit && is_ascii_digit d then drop_underscores false l else None
        | [] => None
        end
      else (cons c) <$> drop_underscores (is_ascii_digit c) l
  end.

(** A number in decimal notation: sign, digits with at most one point, exponent. *)
Definition decimal_notation (l : chars) : option (bool * decimal) :=
  let '(neg, l) := take_sign l in
  let '(whole, n, l) := take_digits 0 0 l in
  let '(c, n', frac, l) :=
    match l with
    | "."%char :: l => let '(c, k, l) := take_digits whole 0 l in (c, n + k, k, l)
    | _ => (whole, n, 0, l)
    end in
  if n' =? 0 then None else (λ e, (neg, Dec (signed neg c) (e - frac))) <$> parse_exponent l.

(** The names of the values that are not finite. *)
Definition special_float (l : chars) : option float :=
  let '(neg, l) := take_sign l in
  let name := py_lower (of_chars l) in
  if bool_decide (name ∈ ["inf"; "infinity"]%string) then Some (S754_infinity neg)
  else if bool_decide (name = "nan"%string) then Some S754_nan
  else None.

(** [float(s)]: the nearest float, an infinity when the number is too large. *)
Definition float_of_text (s : string) : option float :=
  match drop_underscores false (ascii_digits (strip_chars (to_chars s))) with
  | Some l =>
      match decimal_notation l with
      | Some (neg, d) => Some (if coef d =? 0 then S754_zero neg else float_of_dec d)
      | None => special_float l
      end
  | None => None
  end.

Example float_texts :
  float_of_text "1_0.5e1" = Some (float_of_dec (Dec 105 0)) ∧ float_of_text "-Infinity" = Some (S754_infinity true)
  ∧ float_of_text "1__0" = None ∧ float_of_text "1_.0" = None ∧ float_of_text " 1e999 " = Some (S754_infinity false)
  ∧ float_of_text "1e" = None ∧ float_of_text "." = None.
Proof. vm_compute. by split_and!. Qed.

(** ** Iteration that stops early *)

(** [any(f(x) for x in l)] and [all(...)]: what raises after the answer is known
    is not reached. *)
Fixpoint py_any {A} (f : A → result bool) (l : list A) : result bool :=
  match l with
  | [] => Ok false
  | x :: l => b ← f x; if (b : bool) then Ok true else py_any f l
  end.

Fixpoint py_all {A} (f : A → result bool) (l : list A) : result bool :=
  match l with
  | [] => Ok true
  | x :: l => b ← f x; if (b : bool) then py_all f l else Ok false
  end.

Lemma py_any_Ok {A} (f : A → result bool) (g : A → bool) l :
  (∀ x, x ∈ l → f x = Ok (g x)) → py_any f l = Ok (existsb g l).
Proof.
  induction l as [|x l IH]; intros Hf; simpl; [done|]. rewrite (Hf x) by left.
  cbn [mbind result_bind]. destruct (g x); [done|]. apply IH. intros y Hy. apply Hf. by right.
Qed.

Lemma py_all_Ok {A} (f : A → result bool) (g : A → bool) l :
  (∀ x, x ∈ l → f x = Ok (g x)) → py_all f l = Ok (forallb g l).
Proof.
  induction l as [|x l IH]; intros Hf; simpl; [done|]. rewrite (Hf x) by left.
  cbn [mbind result_bind]. destruct (g x); [|done]. apply IH. intros y Hy. apply Hf. by right.
Qed.

(** * Lemmas on the text operations of PyWire.v: what is written into a set form
    or an interval is what splitting and stripping give back, and the texts of
    numbers are read as numbers. *)

(** ** Stripping *)

(** No space at either end. *)
Definition trimmed (l : chars) : Prop := drop_space l = l ∧ drop_trailing l = l.

Lemma strip_trimmed l : strip_chars l = l ↔ trimmed l.
Proof.
  unfold strip_chars, trimmed. split; [|by intros [-> ->]]. intros H. pose proof (f_equal length H) as Hl.
  pose proof (length_drop_trailing (drop_space l)). pose proof (length_drop_space l).
  assert (drop_space l = l) as Hd by (apply drop_space_none, drop_space_fixed; lia).
  split; [done|]. by rewrite Hd in H.
Qed.

Lemma trimmed_ends a l b : solid a = true → solid b = true → trimmed (a :: l ++ [b]).
Proof. intros Ha Hb. split; [by apply drop_space_solid|]. by apply (drop_trailing_app (a :: l) b []). Qed.

Lemma trimmed_number l : Forall (λ c, number_char c = true) l → trimmed l.
Proof. apply strip_number. Qed.

(** ** Fields *)

Lemma split_chars_plain sep f l : sep ∉ f → split_chars sep (f ++ sep :: l) = f :: split_chars sep l.
Proof.
  induction f as [|c f IH]; intros Hf; simpl; [by rewrite decide_True|].
  apply not_elem_of_cons in Hf as [Hc Hf]. by rewrite IH, decide_False by congruence.
Qed.

Lemma split_chars_last sep f : sep ∉ f → split_chars sep f = [f].
Proof.
  induction f as [|c f IH]; intros Hf; simpl; [done|].
  apply not_elem_of_cons in Hf as [Hc Hf]. by rewrite IH, decide_False by congruence.
Qed.

Lemma split_join sep fields :
  fields ≠ [] → Forall (λ f, sep ∉ f) fields → split_chars sep (join_chars [sep] fields) = fields.
Proof.
  intros Hne Hf. induction Hf as [|f fields Hsep Hf IH]; [done|]. destruct fields as [|g fields].
  - by apply split_chars_last.
  - change (join_chars [sep] (f :: g :: fields)) with (f ++ sep :: join_chars [sep] (g :: fields)).
    rewrite split_chars_plain, IH by done. done.
Qed.

Lemma split_once_app sep f l : sep ∉ f → split_once sep (f ++ sep :: l) = (f, Some l).
Proof.
  induction f as [|c f IH]; intros Hf; simpl; [by rewrite decide_True|].
  apply not_elem_of_cons in Hf as [Hc Hf]. by rewrite IH, decide_False by congruence.
Qed.

Lemma enclosed_ends first last a l b :
  first a = true → last b = true → enclosed first last (a :: l ++ [b]) = Some (a, l, b).
Proof.
  intros Ha Hb.
  transitivity (let c := List.last (l ++ [b]) a in
    if first a && last c then Some (a, removelast (l ++ [b]), c) else None); [by destruct l|].
  simpl. by rewrite last_last, Ha, Hb, removelast_last.
Qed.

Lemma join_chars_last fields :
  fields ≠ [] → ∃ pre f, fields = pre ++ [f] ∧
    (join_chars [","%char] fields = f ∨ ∃ l, join_chars [","%char] fields = l ++ ","%char :: f).
Proof.
  induction fields as [|f fields IH]; [done|]. intros _. destruct fields as [|g fields].
  { exists [], f. split; [done|by left]. }
  destruct IH as (pre & x & Heq & Hj); [done|]. exists (f :: pre), x. split; [by rewrite Heq|right].
  change (join_chars _ (f :: g :: fields)) with (f ++ ","%char :: join_chars [","%char] (g :: fields)).
  destruct Hj as [->|[l ->]]; [by exists f|]. exists (f ++ ","%char :: l). by rewrite <-app_assoc.
Qed.

(** Joining trimmed fields adds no space at the ends. *)
Lemma trimmed_join fields : Forall trimmed fields → trimmed (join_chars [","%char] fields).
Proof.
  intros Hf. destruct fields as [|f fields]; [done|]. split.
  - inversion Hf as [|? ? [Hd _] _]; subst. destruct fields as [|g fields]; [done|].
    change (join_chars _ (f :: g :: fields)) with (f ++ ","%char :: join_chars [","%char] (g :: fields)).
    destruct f as [|c f]; [by apply drop_space_solid|]. apply drop_space_none.
    rewrite space_width_before by done. apply drop_space_fixed. by rewrite Hd.
  - destruct (join_chars_last (f :: fields)) as (pre & x & Heq & Hj); [done|]. rewrite Heq in Hf.
    apply Forall_app in Hf as [_ Hx]. inversion Hx as [|? ? [_ Hd] _]; subst.
    destruct Hj as [->|[l ->]]; [done|]. by apply drop_trailing_app.
Qed.

(** ** Numbers *)

Lemma filter_length_le {A} (p : A → bool) l : (length (List.filter p l) ≤ length l)%nat.
Proof. induction l as [|x l IH]; simpl; [done|]. destruct (p x); simpl; lia. Qed.

Lemma filter_digits l : Forall (λ c, is_ascii_digit c = true) l → List.filter is_ascii_digit l = l.
Proof. induction 1 as [|c l Hc _ IH]; simpl; [done|]. by rewrite Hc, IH. Qed.

(** [str(z)] is read back by [int]. *)
Lemma int_of_text_chars z l : int_chars z = Ok l → int_of_text (of_chars l) = Some z.
Proof.
  unfold int_chars. destruct (Z.ltb_spec int_max_str_digits (ndigits (Z.abs z))) as [|Hlim]; [done|].
  intros [= <-]. unfold int_of_text, parse_int. rewrite to_of_chars.
  assert (strip_chars (whole_chars (z <? 0) (Z.abs z)) = whole_chars (z <? 0) (Z.abs z)) as Hs
    by apply strip_trimmed, trimmed_number, whole_number.
  unfold whole_chars in Hs. rewrite Hs, ascii_digits_number by apply signed_number.
  pose proof (nat_chars_digits (Z.abs z)) as Hd.
  assert (List.filter is_ascii_digit (sign_chars (z <? 0) ++ nat_chars (Z.abs z)) = nat_chars (Z.abs z)) as ->.
  { rewrite List.filter_app, (filter_digits _ Hd). by destruct (z <? 0). }
  rewrite length_nat_chars by lia. rewrite (proj2 (Z.ltb_ge _ _) Hlim).
  rewrite <-(app_nil_r (nat_chars _)), take_sign_nat by lia.
  rewrite app_nil_r, int_digits_nat by lia. simpl. by rewrite signed_abs.
Qed.

Lemma drop_underscores_number b l : Forall (λ c, number_char c = true) l → drop_underscores b l = Some l.
Proof.
  intros Hl. revert b. induction Hl as [|c l Hc _ IH]; intros b; simpl; [done|].
  destruct (number_char_plain c Hc) as [_ Hne]. rewrite decide_False, IH by done. done.
Qed.

(** On number characters [float] reads the decimal that [Decimal] does. *)
Lemma decimal_notation_number l d :
  Forall (λ c, number_char c = true) l → parse_decimal (of_chars l) = Some d →
  ∃ neg, decimal_notation l = Some (neg, d).
Proof.
  intros Hl. unfold parse_decimal, decimal_notation. rewrite to_of_chars, clean_number by done.
  destruct (take_sign l) as [neg l1]. destruct (take_digits 0 0 l1) as [[whole n] l2].
  match goal with |- context [match l2 with _ => _ end] => destruct (match l2 with
    | "."%char :: l => let '(c, k, l) := take_digits whole 0 l in (c, n + k, k, l)
    | _ => (whole, n, 0, l2) end) as [[[c n'] frac] l3] end.
  destruct (n' =? 0); [done|]. destruct (parse_exponent l3) as [e|]; [|done].
  destruct (_ || _); [done|]. intros [= <-]. by exists neg.
Qed.

Lemma float_of_text_number l d :
  Forall (λ c, number_char c = true) l → parse_decimal (of_chars l) = Some d → coef d ≠ 0 →
  float_of_text (of_chars l) = Some (float_of_dec d).
Proof.
  intros Hl Hp Hd. unfold float_of_text. rewrite to_of_chars, (proj2 (strip_trimmed l)) by by apply trimmed_number.
  rewrite ascii_digits_number, drop_underscores_number by done. destruct (decimal_notation_number l d Hl Hp) as [neg ->].
  by rewrite (proj2 (Z.eqb_neq _ _)).
Qed.

(** *** A decimal's float is a number *)

Lemma shr_1_nonneg r : 0 <= shr_m r → 0 <= shr_m (shr_1 r).
Proof. destruct r as [[|[p|p|]|p] b s]; simpl; lia. Qed.

Lemma iter_pos_invariant {A} (P : A → Prop) (f : A → A) p x :
  (∀ x, P x → P (f x)) → P x → P (iter_pos f p x).
Proof. intros Hf. revert x. induction p as [p IH|p IH|]; intros x Hx; simpl; auto. Qed.

Lemma shr_fexp_nonneg m e l : 0 <= m → 0 <= shr_m (shr_fexp f_prec f_emax m e l).1.
Proof.
  intros Hm. unfold shr_fexp, shr. assert (0 <= shr_m (shr_record_of_loc m l)) by (by destruct l as [|[]]).
  destruct (_ - e); [done| |done]. cbn [fst]. apply (iter_pos_invariant (λ r, 0 <= shr_m r)); [|done].
  apply shr_1_nonneg.
Qed.

Lemma round_nonneg m l : 0 <= m → 0 <= round_nearest_even m l.
Proof. intros Hm. destruct l as [|[]]; simpl; [done| |done|lia]. destruct (Z.even m); lia. Qed.

Lemma rounded_is_number s m e l : 0 <= m → binary_round_aux f_prec f_emax s m e l ≠ S754_nan.
Proof.
  intros Hm. unfold binary_round_aux.
  pose proof (shr_fexp_nonneg m e l Hm) as H1. destruct (shr_fexp f_prec f_emax m e l) as [r1 e1]. cbn [fst] in H1.
  pose proof (shr_fexp_nonneg _ e1 loc_Exact (round_nonneg _ (loc_of_shr_record r1) H1)) as H2.
  destruct (shr_fexp f_prec f_emax _ e1 loc_Exact) as [r2 e2]. cbn [fst] in H2.
  destruct (shr_m r2); [done|by destruct (_ <=? _)|lia].
Qed.

Lemma quotient_is_number s m e s' m' e' :
  SFdiv f_prec f_emax (S754_finite s m e) (S754_finite s' m' e') ≠ S754_nan.
Proof.
  unfold SFdiv, SFdiv_core_binary. match goal with |- context [Z.div_eucl ?a ?b] =>
    assert (0 <= a) as Ha; [|pose proof (Z.div_pos a b Ha ltac:(lia)) as Hq;
      unfold Z.div in Hq; destruct (Z.div_eucl a b) as [q r]] end.
  - match goal with |- context [match ?x with _ => _ end] => destruct x end; [done| |done].
    by apply Z.shiftl_nonneg.
  - by apply rounded_is_number.
Qed.

Lemma float_of_dec_number d : float_of_dec d ≠ S754_nan.
Proof.
  unfold float_of_dec. destruct (0 <=? expo d); unfold float_of_ratio.
  - destruct (_ * _); [done|apply quotient_is_number..].
  - destruct (coef d); [done|apply quotient_is_number..].
Qed.

(** *** Order of numbers *)

Definition is_nan (x : num) : bool := match x with NFloat S754_nan => true | _ => false end.

Lemma frac_cmp_flip a b : frac_cmp b a = CompOpp (frac_cmp a b).
Proof. unfold frac_cmp. by rewrite Z.compare_antisym. Qed.

(** Of two numbers, exactly one of the three holds. *)
Lemma num_lt_total x y :
  is_nan x = false → is_nan y = false → num_lt y x = negb (num_lt x y || num_eqb x y).
Proof.
  intros Hx Hy. unfold num_lt, num_eqb.
  destruct (num_frac x) as [a|] eqn:Ha, (num_frac y) as [b|] eqn:Hb.
  - rewrite (frac_cmp_flip a b). by destruct (frac_cmp a b).
  - destruct y as [|[| [] | |]|]; done.
  - destruct x as [|[| [] | |]|]; done.
  - destruct x as [|[| [] | |]|], y as [|[| [] | |]|]; done.
Qed.

Lemma num_eqb_sym x y : num_eqb x y = num_eqb y x.
Proof.
  unfold num_eqb. destruct (num_frac x) as [a|], (num_frac y) as [b|]; [|done..|].
  - rewrite (frac_cmp_flip a b). by destruct (frac_cmp a b).
  - by destruct x as [|[| [] | |]|], y as [|[| [] | |]|].
Qed.
