(* ===== verification/FilterEval.v ===== *)
(** The registry's listing filters ([core_registry/api/filter_eval.py]): the
    criteria a request's parameters stand for, and what a listing must show to
    meet them.

    JSONPath is third-party code: [JsonPath] is what the module uses of it.
    The projection of a settlement option's lifecycle terms belongs to another
    component, which [LifecycleTerms] stands for. *)
From S2P Require Import Prelude PyNum PyValue PyText QueryDsl PyWire FilterSpec.
From Stdlib Require Import Ascii.

Local Open Scope Z_scope.
Local Open Scope string_scope.
Local Open Scope list_scope.

Class JsonPath : Type := {
  jsonpath : Type;
  jsonpath_parse : string → result jsonpath;
  (** The values of [path.find(listing)]. *)
  find : jsonpath → dict → list value;
}.

(** What the lifecycle term codec projects, whose keys queries may name. *)
Class LifecycleTerms : Type := {
  LIFECYCLE_QUERY_FIELDS : list string;
  project_terms : value → result dict;
}.

(** ** Criteria *)

Record _Range : Type := {
  rg_min : option value;
  rg_max : option value;
  rg_min_inclusive : bool;
  rg_max_inclusive : bool;
}.

(** [x < b] and [x > b] of a number [x]. *)
Definition below (x : num) (b : value) : result bool :=
  match as_num b with Some y => Ok (num_lt x y) | None => Err (TypeError "'<' not supported") end.
Definition above (x : num) (b : value) : result bool :=
  match as_num b with Some y => Ok (num_lt y x) | None => Err (TypeError "'>' not supported") end.

Definition contains (r : _Range) (x : num) : result bool :=
  low ← match rg_min r with
        | Some b => lt ← below x b;
                    Ok (lt || (py_eq (VNum x) b && negb (rg_min_inclusive r)))
        | None => Ok false
        end;
  if (low : bool) then Ok false else
  high ← match rg_max r with
         | Some b => gt ← above x b;
                     Ok (gt || (py_eq (VNum x) b && negb (rg_max_inclusive r)))
         | None => Ok false
         end;
  Ok (negb high).

Record Criterion `{JsonPath} : Type := {
  cr_name : string;
  cr_path : jsonpath;
  cr_on_missing : OnMissing;
  cr_op : Op;
  cr_value_type : ValueType;
  cr_values : option (list value);
  cr_range : option _Range;
  cr_exists_target : option bool;
  cr_option_scoped : bool;
}.

(** ** Coercion *)

Definition _finite_decimal (raw : string) : option decimal := parse_decimal raw.

Definition boolean_of_text (raw : string) : option bool :=
  if bool_decide (py_lower raw ∈ ["true"; "1"; "yes"]) then Some true
  else if bool_decide (py_lower raw ∈ ["false"; "0"; "no"]) then Some false
  else None.

Definition expect {A} (what : string) (x : option A) : result A :=
  match x with Some a => Ok a | None => Err (FilterParamError what) end.

Definition _coerce_scalar (raw : string) (ty : ValueType) : result value :=
  match ty with
  | vt_string | vt_address => Ok (VStr raw)
  | vt_integer => (λ z, VInt z) <$> expect "expected integer" (int_of_text raw)
  | vt_number => (VNum ∘ NFloat) <$> expect "expected number" (float_of_text raw)
  | vt_decimal_text => (VNum ∘ NDec) <$> expect "expected finite decimal text" (_finite_decimal raw)
  | vt_boolean => VBool <$> expect "expected boolean" (boolean_of_text raw)
  end.

(** ** Set forms *)

Definition starts_with (cs : list ascii) (s : string) : bool :=
  match to_chars s with c :: _ => bool_decide (c ∈ cs) | [] => false end.

(** Whether the payload's syntax is the operator's. *)
Definition payload_fits (o : Op) (payload : string) : bool :=
  match o with
  | op_in | op_not_in => starts_with ["["%char] payload
  | op_range => starts_with ["["%char; "("%char] payload
  | op_exists => bool_decide (is_Some (boolean_of_text payload))
  end.

Fixpoint try_operators (operators : list Op) (raw : string) : option (Op * string) :=
  match operators with
  | [] => None
  | o :: operators =>
      match str_after (op_value o ++ ":") raw with
      | Some payload => if payload_fits o payload then Some (o, payload) else try_operators operators raw
      | None => try_operators operators raw
      end
  end.

Definition _try_set_form (raw : string) : option (Op * string) :=
  try_operators [op_not_in; op_range; op_exists; op_in] raw.

Definition is_char (cs : list ascii) (c : ascii) : bool := bool_decide (c ∈ cs).

Definition _parse_value_list (payload : string) (ty : ValueType) : result (list value) :=
  match enclosed (is_char ["["%char]) (is_char ["]"%char]) (strip_chars (to_chars payload)) with
  | None => Err (FilterParamError "set form must be enclosed")
  | Some (_, inner, _) =>
      let inner := strip_chars inner in
      if is_nil inner then Ok []
      else mapM_result (λ item, _coerce_scalar (of_chars (strip_chars item)) ty) (split_chars ","%char inner)
  end.

Definition coerce_bound (l : chars) (ty : ValueType) : result (option value) :=
  let l := strip_chars l in
  if is_nil l then Ok None else Some <$> _coerce_scalar (of_chars l) ty.

Definition _parse_interval (payload : string) (ty : ValueType) : result _Range :=
  match enclosed (is_char ["["%char; "("%char]) (is_char ["]"%char; ")"%char])
                 (strip_chars (to_chars payload)) with
  | None => Err (FilterParamError "range form requires delimiters")
  | Some (opening, inner, closing) =>
      match split_once ","%char inner with
      | (_, None) => Err (FilterParamError "range form needs a separator")
      | (min_raw, Some max_raw) =>
          lo ← coerce_bound min_raw ty;
          hi ← coerce_bound max_raw ty;
          match lo, hi with
          | None, None => Err (FilterParamError "range needs at least one bound")
          | _, _ => Ok {| rg_min := lo; rg_max := hi;
                          rg_min_inclusive := bool_decide (opening = "["%char);
                          rg_max_inclusive := bool_decide (closing = "]"%char) |}
          end
      end
  end.

(** The range a single value stands for. *)
Definition bound_range (k : option AliasKind) (v : value) : result _Range :=
  match k with
  | Some lower_bound =>
      Ok {| rg_min := Some v; rg_max := None; rg_min_inclusive := true; rg_max_inclusive := true |}
  | Some upper_bound =>
      Ok {| rg_min := None; rg_max := Some v; rg_min_inclusive := true; rg_max_inclusive := true |}
  | None => Err (FilterParamError "range filter with no alias_kind needs raw set-form")
  end.

Section evaluation.
Context `{!JsonPath, !LifecycleTerms}.

Definition criterion (d : FilterDecl) (path : jsonpath) (m : OnMissing) (ty : ValueType)
    (values : option (list value)) (range : option _Range) (target : option bool) : Criterion :=
  {| cr_name := fl_name d; cr_path := path; cr_on_missing := m; cr_op := fl_op d; cr_value_type := ty;
     cr_values := values; cr_range := range; cr_exists_target := target; cr_option_scoped := false |}.

Definition _build_criterion (d : FilterDecl) (raw : string) (on_missing : OnMissing) : result Criterion :=
  parsed ← jsonpath_parse (fl_path d);
  let build := criterion d parsed on_missing in
  let ty := fl_value_type d in
  match _try_set_form raw with
  | Some (op_token, payload) =>
      if negb (bool_decide (op_token = fl_op d)) then Err (FilterParamError "filter declares another op") else
      match op_token with
      | op_in | op_not_in =>
          values ← _parse_value_list payload ty; Ok (build ty (Some values) None None)
      | op_range => rng ← _parse_interval payload ty; Ok (build ty None (Some rng) None)
      | op_exists =>
          wants ← expect "expected boolean" (boolean_of_text payload);
          Ok (build vt_string None None (Some wants))
      end
  | None =>
      match fl_op d with
      | op_in => coerced ← _coerce_scalar raw ty; Ok (build ty (Some [coerced]) None None)
      | op_range =>
          coerced ← _coerce_scalar raw ty;
          rng ← bound_range (fl_alias_kind d) coerced;
          Ok (build ty None (Some rng) None)
      | op_not_in | op_exists => Err (FilterParamError "filter must be invoked via set-form")
      end
  end.

(** ** The criteria of a request *)

Definition _STRICT_PREFIX : string := "strict.".

(** A request's parameters: their names are distinct. *)
Definition query_params : Type := list (string * string).

Fixpoint _extract_strict_overrides (names : list string) (params : query_params)
    : result (query_params * list (string * OnMissing)) :=
  match params with
  | [] => Ok ([], [])
  | (k, v) :: params =>
      match str_after _STRICT_PREFIX k with
      | None =>
          '(real, overrides) ← _extract_strict_overrides names params; Ok ((k, v) :: real, overrides)
      | Some target =>
          if bool_decide (target = "") then Err (FilterParamError "strict.: missing filter name")
          else if negb (bool_decide (target ∈ names)) then Err (FilterParamError "strict: unknown filter")
          else
            wants_strict ← expect "expected boolean" (boolean_of_text v);
            '(real, overrides) ← _extract_strict_overrides names params;
            Ok (real, (target, if wants_strict : bool then om_fail else om_pass) :: overrides)
      end
  end.

Definition supplied (params : query_params) : list string :=
  (filter (λ kv, kv.2 ≠ "") params).*1.

(** Whether the filters that each supplied filter requires are supplied. *)
Definition co_required (filters : list FilterDecl) (names : list string) : bool :=
  forallb (λ n, match alist_get n (by_name filters) with
                | Some d => forallb (λ t, bool_decide (t ∈ names)) (fl_requires d)
                | None => true
                end) names.

Definition is_option_path (path : string) : bool :=
  bool_decide (is_Some (str_after "$.settlement_options[" path)).

Definition set_option_scoped (b : bool) (c : Criterion) : Criterion :=
  {| cr_name := cr_name c; cr_path := cr_path c; cr_on_missing := cr_on_missing c; cr_op := cr_op c;
     cr_value_type := cr_value_type c; cr_values := cr_values c; cr_range := cr_range c;
     cr_exists_target := cr_exists_target c; cr_option_scoped := b |}.

Fixpoint build_each (filters : list FilterDecl) (overrides : list (string * OnMissing))
    (params : query_params) : result (list Criterion) :=
  match params with
  | [] => Ok []
  | (name, raw) :: params =>
      if bool_decide (raw = "") then build_each filters overrides params else
      match alist_get name (by_name filters) with
      | None => Err (FilterParamError "unknown filter")
      | Some d =>
          c ← _build_criterion d raw (default (fl_on_missing d) (alist_get name overrides));
          cs ← build_each filters overrides params;
          Ok (set_option_scoped (is_option_path (fl_path d)) c :: cs)
      end
  end.

Definition build_criteria (filters : list FilterDecl) (params : query_params) : result (list Criterion) :=
  '(real, overrides) ← _extract_strict_overrides (fl_name <$> filters) params;
  if negb (co_required filters (supplied real)) then Err (FilterParamError "requires another filter")
  else build_each filters overrides real.

(** ** Evaluation *)

Definition is_lifecycle (c : Criterion) : bool :=
  bool_decide (cr_name c ∈ LIFECYCLE_QUERY_FIELDS) || bool_decide (cr_name c = "option_asset").

Definition as_dict (v : value) : option dict := match v with VDict d => Some d | _ => None end.

(** [option.get(k) if isinstance(option, Mapping) else getattr(option, k, None)]
    of a JSON value. *)
Definition member (k : string) (v : value) : value :=
  match as_dict v with Some d => dict_get k d | None => VNone end.

Definition settlement_option_asset (option : value) : value := member "asset" (member "price" option).
Definition settlement_option_lifecycle (option : value) : value := member "lifecycle" option.

(** What a [for] loop over a JSON value visits. *)
Definition iterate (v : value) : result (list value) :=
  match v with
  | VList l => Ok l
  | VDict d => Ok (VStr <$> d.*1)
  | VStr s => Ok ((λ c, VStr (String c EmptyString)) <$> to_chars s)
  | _ => Err (TypeError "object is not iterable")
  end.

(** [listing.get("settlement_options", [])]. *)
Definition settlement_options (listing : dict) : result (list value) :=
  iterate (default (VList []) (alist_get "settlement_options" listing)).

(** What one option shows of a lifecycle criterion; a [ValueError] is nothing. *)
Definition option_value (c : Criterion) (option : value) : result (list value) :=
  match
    (if bool_decide (cr_name c = "option_asset") then Ok (settlement_option_asset option)
     else dict_get (cr_name c) <$> project_terms (settlement_option_lifecycle option))
  with
  | Ok v => Ok (if is_none v then [] else [v])
  | Err (ValueError _) => Ok []
  | Err e => Err e
  end.

Definition _resolve (listing : dict) (c : Criterion) : result (list value) :=
  if is_lifecycle c then
    options ← settlement_options listing;
    values ← mapM_result (option_value c) options;
    Ok (List.concat values)
  else Ok (List.filter (λ v, negb (is_none v)) (find (cr_path c) listing)).

Definition _coerce_resolved_decimal (v : value) : option decimal :=
  match v with VStr s => _finite_decimal s | _ => None end.

Definition passes_missing (c : Criterion) : bool := bool_decide (cr_on_missing c = om_pass).

(** [v in set(values)]. *)
Definition in_set (values : list value) (v : value) : result bool :=
  match v with
  | VList _ | VDict _ => Err (TypeError "unhashable type")
  | _ => Ok (existsb (py_eq v) values)
  end.

(** The values a [decimal_text] criterion compares. *)
Definition comparable (c : Criterion) (resolved : list value) : list value :=
  if bool_decide (cr_value_type c = vt_decimal_text) && bool_decide (cr_op c ∈ [op_in; op_not_in; op_range])
  then (VNum ∘ NDec) <$> omap _coerce_resolved_decimal resolved
  else resolved.

Definition evaluate (listing : dict) (c : Criterion) : result bool :=
  resolved ← _resolve listing c;
  if is_nil resolved then Ok (passes_missing c) else
  let resolved := comparable c resolved in
  if is_nil resolved then Ok (passes_missing c) else
  let sset := default [] (cr_values c) in
  match cr_op c with
  | op_in => py_any (in_set sset) resolved
  | op_not_in => py_all (λ v, negb <$> in_set sset v) resolved
  | op_range =>
      match cr_range c with
      | None => Err (RuntimeError "assert rng is not None")
      | Some rng => py_any (contains rng) (omap as_num resolved)
      end
  | op_exists => Ok (bool_decide (cr_exists_target c = Some true))
  end.

Definition evaluate_all (listing : dict) (criteria : list Criterion) : result bool :=
  if negb (existsb is_lifecycle criteria) then py_all (evaluate listing) criteria else
  let of_option c := is_lifecycle c || cr_option_scoped c in
  let option_criteria := List.filter of_option criteria in
  let other := List.filter (λ c, negb (of_option c)) criteria in
  rest ← py_all (evaluate listing) other;
  if negb rest then Ok false else
  options ← settlement_options listing;
  py_any (λ option, py_all (evaluate (dict_set "settlement_options" (VList [option]) listing))
                           option_criteria) options.
End evaluation.
