(* ===== verification/ResourceQuery.v ===== *)
(** The buyer's side of listing filters ([registry_client/query.py]): a query
    is compiled, against the filter specification a registry serves, into the
    parameters of a listing request. *)
From S2P Require Import Prelude PyNum PyValue PyText QueryDsl PyWire FilterSpec FilterEval.
From Stdlib Require Import Ascii.

Local Open Scope Z_scope.
Local Open Scope string_scope.
Local Open Scope list_scope.

Definition _RESERVED_PARAMETERS : list string := ["etag"; "limit"; "offset"; "publisher"; "status"].

Definition vocabulary_error {A} (what : string) : result A := Err (FilterVocabularyError what).

Record _ResourceField : Type := {
  rf_descriptor : FieldDescriptor;
  rf_parameter : string;
  rf_filter_op : Op;
  rf_alias_kind : option AliasKind;
  rf_requires : list string;
}.

(** ** The vocabulary a registry serves *)

Definition _required_string (raw : dict) (key : string) : result string :=
  match dict_get key raw with
  | VStr s => if bool_decide (s = "") then vocabulary_error key else Ok s
  | _ => vocabulary_error key
  end.

(** The strings of [raw.get(key) or []]. *)
Fixpoint all_strings (l : list value) : option (list string) :=
  match l with
  | [] => Some []
  | VStr s :: l => (cons s) <$> all_strings l
  | _ :: _ => None
  end.

Definition strings_or_empty (raw : dict) (key : string) : result (list string) :=
  let v := dict_get key raw in
  if negb (truthy v) then Ok [] else
  match v with
  | VList l => match all_strings l with Some ss => Ok ss | None => vocabulary_error key end
  | _ => vocabulary_error key
  end.

Definition alias_kind_of (v : value) : result (option AliasKind) :=
  match v with
  | VNone => Ok None
  | VStr "lower_bound" => Ok (Some lower_bound)
  | VStr "upper_bound" => Ok (Some upper_bound)
  | VList _ | VDict _ => Err (TypeError "unhashable type")
  | _ => vocabulary_error "alias_kind"
  end.

Definition missing_rule_of (v : value) : result MissingValueRule :=
  match v with
  | VStr "fail" => Ok MISSING_FAIL
  | VStr "pass" => Ok MISSING_PASS
  | _ => vocabulary_error "on_missing"
  end.

Definition _value_type (v : value) : result QueryValueType :=
  match v with
  | VStr "string" | VStr "address" => Ok TSTRING
  | VStr "integer" => Ok TINTEGER
  | VStr "number" | VStr "decimal_text" => Ok TDECIMAL
  | VStr "boolean" => Ok TBOOLEAN
  | _ => vocabulary_error "value_type"
  end.

Definition op_of_text (s : string) : option Op :=
  List.find (λ o, bool_decide (op_value o = s)) [op_in; op_range; op_not_in; op_exists].

Definition _operators (o : Op) (k : option AliasKind) : list ComparisonOperator :=
  match o, k with
  | op_in, _ => [EQUAL; IN]
  | op_not_in, _ => [NOT_EQUAL; NOT_IN]
  | op_exists, _ => [EQUAL]
  | op_range, Some lower_bound => [GREATER_THAN; GREATER_THAN_OR_EQUAL]
  | op_range, Some upper_bound => [LESS_THAN; LESS_THAN_OR_EQUAL]
  | op_range, None => [LESS_THAN; LESS_THAN_OR_EQUAL; GREATER_THAN; GREATER_THAN_OR_EQUAL]
  end.

(** One declaration; [isinstance(raw, dict)] is the caller's. *)
Definition resource_field (raw : dict) : result _ResourceField :=
  parameter ← _required_string raw "name";
  if bool_decide (parameter ∈ _RESERVED_PARAMETERS) then vocabulary_error "reserved parameter" else
  let query_name := dict_get "query_name" raw in
  query_name ← (if truthy query_name
                then match query_name with VStr s => Ok s | _ => vocabulary_error "query_name" end
                else Ok parameter);
  aliases ← strings_or_empty raw "query_aliases";
  filter_op ← _required_string raw "op";
  alias_kind ← alias_kind_of (dict_get "alias_kind" raw);
  requires ← strings_or_empty raw "requires";
  if negb (forallb (λ t, negb (bool_decide (t = ""))) requires) then vocabulary_error "requires" else
  on_missing ← missing_rule_of (default (VStr "fail") (alist_get "on_missing" raw));
  value_type ← _value_type (dict_get "value_type" raw);
  match op_of_text filter_op with
  | None => vocabulary_error "op"
  | Some o =>
      descriptor ← check_descriptor
        {| fd_name := query_name; fd_value_type := value_type; fd_operators := _operators o alias_kind;
           fd_aliases := aliases; fd_on_missing := on_missing; fd_repeated := false;
           fd_description := Some ("registry filter parameter " ++ parameter)%string; fd_requires := [] |};
      Ok {| rf_descriptor := descriptor; rf_parameter := parameter; rf_filter_op := o;
            rf_alias_kind := alias_kind; rf_requires := requires |}
  end.

Definition set_fd_requires (ts : list string) (d : FieldDescriptor) : FieldDescriptor :=
  {| fd_name := fd_name d; fd_value_type := fd_value_type d; fd_operators := fd_operators d;
     fd_aliases := fd_aliases d; fd_on_missing := fd_on_missing d; fd_repeated := fd_repeated d;
     fd_description := fd_description d; fd_requires := ts |}.

(** [{field.parameter: field.descriptor.name for field in fields}]: of equal
    parameters the last one counts. *)
Definition query_name_by_parameter (fields : list _ResourceField) (p : string) : option string :=
  alist_get p (rev ((λ f, (rf_parameter f, fd_name (rf_descriptor f))) <$> fields)).

Definition resolve_field (fields : list _ResourceField) (f : _ResourceField) : result _ResourceField :=
  if is_nil (rf_requires f) then Ok f else
  targets ← mapM_result (λ t, match query_name_by_parameter fields t with
                              | Some n => Ok n
                              | None => vocabulary_error "requires an undeclared filter"
                              end) (rf_requires f);
  descriptor ← check_descriptor (set_fd_requires targets (rf_descriptor f));
  Ok {| rf_descriptor := descriptor; rf_parameter := rf_parameter f; rf_filter_op := rf_filter_op f;
        rf_alias_kind := rf_alias_kind f; rf_requires := rf_requires f |}.

Definition _resolve_requires (fields : list _ResourceField) : result (list _ResourceField) :=
  mapM_result (resolve_field fields) fields.

Definition _resource_fields (filters : list value) : result (list _ResourceField) :=
  fields ← mapM_result (λ raw, match raw with
                               | VDict d => resource_field d
                               | _ => vocabulary_error "declaration must be an object"
                               end) filters;
  fields ← _resolve_requires fields;
  match field_reference_json (rf_descriptor <$> fields) with
  | Ok _ => Ok fields
  | Err _ => vocabulary_error "registry filter query names are ambiguous"
  end.

(** ** Comparisons as parameters *)

Definition compilation_error {A} (what : string) : result A := Err (ResourceQueryCompilationError what).

Definition _scalar (x : ScalarValue) : result chars :=
  match x with
  | SBool b => Ok (to_chars (if b then "true" else "false"))
  | SDec d => decimal_chars d
  | SInt z => int_chars z
  | SStr s => Ok (to_chars s)
  end.

(** Whether the registry would read the text of a single value as a set form. *)
Fixpoint reinterprets (operators : list Op) (value : string) : bool :=
  match operators with
  | [] => false
  | o :: operators =>
      match str_after (op_value o ++ ":") value with
      | Some payload => payload_fits o payload
      | None => reinterprets operators value
      end
  end.

Definition _wire_reinterprets_scalar : string → bool :=
  reinterprets [op_not_in; op_range; op_exists; op_in].

Definition is_delimiter (c : ascii) : bool := is_char [","%char; "["%char; "]"%char] c.

Definition list_item (x : ScalarValue) : result chars :=
  item ← _scalar x;
  if negb (bool_decide (strip_chars item = item)) || existsb is_delimiter item
  then compilation_error "registry set-form cannot represent one supplied list value"
  else Ok item.

Definition _list (xs : list ScalarValue) : result chars :=
  items ← mapM_result list_item xs;
  Ok ("["%char :: join_chars [","%char] items ++ ["]"%char]).

Definition assertion_error {A} : result A := Err (RuntimeError "AssertionError").

Definition with_prefix (o : Op) (payload : chars) : string :=
  of_chars (to_chars (op_value o ++ ":") ++ payload).

Definition scalar_of (v : LiteralValue) : result ScalarValue :=
  match v with LScalar x => Ok x | LTuple _ => assertion_error end.

(** The interval notation of an ordering. *)
Definition interval (o : ComparisonOperator) (text : chars) : result chars :=
  match o with
  | GREATER_THAN => Ok ("("%char :: text ++ [","%char; ")"%char])
  | GREATER_THAN_OR_EQUAL => Ok ("["%char :: text ++ [","%char; ")"%char])
  | LESS_THAN => Ok ("("%char :: ","%char :: text ++ [")"%char])
  | LESS_THAN_OR_EQUAL => Ok ("("%char :: ","%char :: text ++ ["]"%char])
  | _ => assertion_error
  end.

Definition is_plain_bound (o : ComparisonOperator) (k : option AliasKind) : bool :=
  bool_decide (o = GREATER_THAN_OR_EQUAL ∧ k = Some lower_bound)
  || bool_decide (o = LESS_THAN_OR_EQUAL ∧ k = Some upper_bound).

Definition _compile_comparison (c : ValidatedComparison) (f : _ResourceField) : result (string * string) :=
  wire ←
    match rf_filter_op f with
    | op_in =>
        if bool_decide (vc_operator c = EQUAL) then
          x ← scalar_of (vc_value c);
          rendered ← _scalar x;
          match x with
          | SStr s => if _wire_reinterprets_scalar s
                      then compilation_error "registry wire cannot represent the supplied value"
                      else Ok s
          | _ => Ok (of_chars rendered)
          end
        else match vc_value c with
             | LTuple xs => with_prefix op_in <$> _list xs
             | LScalar _ => assertion_error
             end
    | op_not_in =>
        with_prefix op_not_in <$> _list (match vc_value c with LTuple xs => xs | LScalar x => [x] end)
    | op_exists =>
        match vc_value c with
        | LScalar (SBool b) => with_prefix op_exists <$> _scalar (SBool b)
        | _ => assertion_error
        end
    | op_range =>
        x ← scalar_of (vc_value c);
        rendered ← _scalar x;
        if is_plain_bound (vc_operator c) (rf_alias_kind f) then Ok (of_chars rendered)
        else with_prefix op_range <$> interval (vc_operator c) rendered
    end;
  Ok (rf_parameter f, wire).

(** ** Compilation *)

Record CompiledResourceQuery : Type := {
  rq_registry_url : string;
  rq_etag : string;
  rq_schema_id : option string;
  rq_schema_version : option Z;
  rq_canonical_query : string;
  rq_parameters : list (string * string);
}.

Record FilterSpecResponse : Type := {
  fr_etag : string;
  fr_filters : list value;
  fr_schema_id : option string;
  fr_schema_version : option Z;
}.

Fixpoint drop_slashes (l : chars) : chars :=
  match l with "/"%char :: l => drop_slashes l | _ => l end.

(** [url.rstrip("/")]. *)
Definition rstrip_slashes (url : string) : string := of_chars (rev (drop_slashes (rev (to_chars url)))).

(** [by_name[comparison.field]]. *)
Definition field_named (fields : list _ResourceField) (n : string) : result _ResourceField :=
  match alist_get n (rev ((λ f, (fd_name (rf_descriptor f), f)) <$> fields)) with
  | Some f => Ok f
  | None => Err (LookupError n)
  end.

Definition compile_parameters (fields : list _ResourceField) (q : ValidatedQuery)
    : result (list (string * string)) :=
  mapM_result (λ c, f ← field_named fields (vc_field c); _compile_comparison c f) q.

Definition compile_resource_query (source : string) (spec : FilterSpecResponse) (registry_url : string)
    : result CompiledResourceQuery :=
  let normalized_url := rstrip_slashes registry_url in
  if bool_decide (normalized_url = "") then Err (ValueError "registry_url must not be empty")
  else if bool_decide (fr_etag spec = "") then vocabulary_error "registry filter spec is missing its etag"
  else
    fields ← _resource_fields (fr_filters spec);
    validated ← compile_query source (rf_descriptor <$> fields);
    parameters ← compile_parameters fields validated;
    canonical_query ← render_canonical_query validated;
    Ok {| rq_registry_url := normalized_url; rq_etag := fr_etag spec; rq_schema_id := fr_schema_id spec;
          rq_schema_version := fr_schema_version spec; rq_canonical_query := canonical_query;
          rq_parameters := parameters |}.
