(* ===== verification/ResourceQueryFacts.v ===== *)
(** What a compiled comparison says to the registry: the text of each value is
    coerced back to the value, each parameter is recognised as the form it was
    written in, and the criterion built from it is the comparison's. *)
From S2P Require Import Prelude PyNum PyValue PyNumFacts PyText QueryDsl QueryLexer.
From S2P Require Import PyTextFacts QueryTyping QueryRoundtrip PyWire FilterSpec.
From S2P Require Import FilterEval ResourceQuery.
From Stdlib Require Import Ascii.

Local Open Scope string_scope.
Local Open Scope list_scope.

(** ** Values *)

(** The type a query gives the values of a filter. *)
Definition query_type (ty : ValueType) : QueryValueType :=
  match ty with
  | vt_string | vt_address => TSTRING
  | vt_integer => TINTEGER
  | vt_number | vt_decimal_text => TDECIMAL
  | vt_boolean => TBOOLEAN
  end.

(** The decimal the text of [d] denotes: [d] itself, in as few digits as it takes. *)
Definition wire_dec (d : decimal) : decimal :=
  match decimal_chars d with Ok l => default d (parse_decimal (of_chars l)) | Err _ => d end.

(** The value the registry compares with. *)
Definition wire_value (ty : ValueType) (x : ScalarValue) : value :=
  match x with
  | SStr s => VStr s
  | SInt z => VInt z
  | SBool b => VBool b
  | SDec d => VNum (if bool_decide (ty = vt_decimal_text) then NDec (wire_dec d)
                    else NFloat (float_of_dec (wire_dec d)))
  end.

(** The value the buyer's literal stands for at a filter of type [ty]: text,
    integers, booleans and decimals of decimal text exactly; a number of a filter
    of numbers as the binary64 nearest to it. *)
Definition literal_value (ty : ValueType) (x : ScalarValue) : value :=
  match x with
  | SStr s => VStr s
  | SInt z => VInt z
  | SBool b => VBool b
  | SDec d => VNum (if bool_decide (ty = vt_decimal_text) then NDec d else NFloat (float_of_dec d))
  end.

Lemma wire_dec_same d : exact_text d → dec_eqb d (wire_dec d) = true.
Proof.
  intros Hex. unfold wire_dec. destruct (decimal_chars_text d Hex) as (l & -> & Ht).
  by destruct (decimal_text_parses d l Ht) as (d' & -> & Heq).
Qed.

(** What the registry reads back is the literal: it equals the same values. *)
Lemma wire_value_same ty x : exact_scalar x → ∀ v, py_eq v (wire_value ty x) = py_eq v (literal_value ty x).
Proof.
  destruct x as [s|z|d|b]; try done. intros Hd v. pose proof (wire_dec_same d Hd) as Heq.
  unfold wire_value, literal_value. case_bool_decide.
  - destruct v; simpl; try done; by rewrite (proj1 (num_equal_decimals _ _ Heq _)).
  - by rewrite (float_of_equal_decimals _ _ Heq).
Qed.

(** And it is the same bound. *)
Lemma wire_bound_same ty x :
  exact_scalar x →
  match as_num (wire_value ty x), as_num (literal_value ty x) with
  | Some y, Some z => ∀ n, num_lt n y = num_lt n z ∧ num_lt y n = num_lt z n
  | None, None => True
  | _, _ => False
  end.
Proof.
  destruct x as [s|z|d|b]; try done. intros Hd. pose proof (wire_dec_same d Hd) as Heq.
  unfold wire_value, literal_value. case_bool_decide; cbn [as_num].
  - intros n. by destruct (num_equal_decimals _ _ Heq n) as (_ & -> & ->).
  - by rewrite (float_of_equal_decimals _ _ Heq).
Qed.

Lemma dec_eqb_zero d d' : dec_eqb d d' = true → coef d' = 0%Z → coef d = 0%Z.
Proof.
  unfold dec_eqb, dec_cmp, aligned. destruct d as [c e], d' as [c' e']. cbn [coef expo].
  intros Heq ->. destruct (Z.compare_spec (c * 10 ^ (e - e `min` e')) (0 * 10 ^ (e' - e `min` e'))) as [H| |]; [|done..].
  assert (0 < 10 ^ (e - e `min` e'))%Z by (apply Z.pow_pos_nonneg; lia). nia.
Qed.

Lemma coerce_decimal_text ty d l :
  query_type ty = TDECIMAL → exact_text d → decimal_chars d = Ok l →
  _coerce_scalar (of_chars l) ty = Ok (wire_value ty (SDec d)).
Proof.
  intros Hty Hex Hl. unfold wire_value, wire_dec. rewrite Hl.
  destruct (decimal_chars_text d Hex) as (l' & Hl' & Ht). rewrite Hl in Hl'. injection Hl' as <-.
  destruct (decimal_text_parses d l Ht) as (d' & Hp & Heq). rewrite Hp. cbn [default].
  destruct ty; try done; simpl.
  - destruct (decide (coef d' = 0%Z)) as [H0|Hne].
    + unfold decimal_chars in Hl. rewrite (dec_eqb_zero _ _ Heq H0) in Hl. simpl in Hl. injection Hl as <-.
      by injection Hp as <-.
    + by rewrite (float_of_text_number l d' (decimal_text_number d l Ht) Hp Hne).
  - unfold _finite_decimal. by rewrite Hp.
Qed.

Lemma coerce_text ty x l :
  scalar_type x = query_type ty → exact_scalar x → _scalar x = Ok l →
  _coerce_scalar (of_chars l) ty = Ok (wire_value ty x).
Proof.
  destruct x as [s|z|d|b]; simpl; intros Hty Hex Hl.
  - injection Hl as <-. rewrite of_to_chars. by destruct ty.
  - destruct ty; try done. simpl. by rewrite (int_of_text_chars z l Hl).
  - by apply coerce_decimal_text.
  - injection Hl as <-. destruct ty; try done. by destruct b.
Qed.

(** Numbers are written in digits, signs and points. *)
Lemma number_text ty x l :
  query_type ty ∈ [TINTEGER; TDECIMAL] → scalar_type x = query_type ty → exact_scalar x → _scalar x = Ok l →
  Forall (λ c, number_char c = true) l ∧ l ≠ [].
Proof.
  intros Hty Hx. destruct x as [s|z|d|b]; simpl in *; intros Hex Hl.
  - rewrite <-Hx in Hty. by repeat (apply elem_of_cons in Hty as [?|Hty]; [done|]); inversion Hty.
  - unfold int_chars in Hl. destruct (_ <? _)%Z; [done|]. injection Hl as <-.
    split; [apply (whole_number (z <? 0)%Z (Z.abs z))|].
    destruct (nat_chars_cons (Z.abs z)) as (c & w & -> & _); [lia|]. by destruct (z <? 0)%Z.
  - destruct (decimal_chars_text d Hex) as (l' & Hl' & Ht). rewrite Hl in Hl'. injection Hl' as <-.
    split; [by eapply decimal_text_number|by eapply decimal_text_not_nil].
  - rewrite <-Hx in Hty. by repeat (apply elem_of_cons in Hty as [?|Hty]; [done|]); inversion Hty.
Qed.

(** ** Forms *)

Lemma str_after_app p l : str_after p (of_chars (to_chars p ++ l)) = Some (of_chars l).
Proof. unfold str_after. rewrite to_of_chars, (proj2 (strip_prefix_Some _ _ l)); done. Qed.

Lemma str_after_head a p s t : str_after (String a p) s = Some t → ∃ s', s = String a s'.
Proof.
  destruct s as [|b s]; [done|]. unfold str_after, to_chars. cbn. case_decide; [subst; eauto|done].
Qed.

(** A set form is recognised as the operator's it is written for. *)
Lemma try_set_form_with o l :
  payload_fits o (of_chars l) = true → _try_set_form (with_prefix o l) = Some (o, of_chars l).
Proof.
  intros Hfit. unfold _try_set_form, with_prefix.
  destruct o; cbn [try_operators]; repeat (rewrite str_after_app, Hfit; done);
    unfold str_after at 1; rewrite to_of_chars; cbn -[payload_fits of_chars to_chars];
    repeat (unfold str_after at 1; rewrite to_of_chars; cbn -[payload_fits of_chars to_chars]).
  all: by rewrite ?Hfit.
Qed.

(** A text the buyer may send as it is stands for itself. *)
Lemma plain_text_is_plain s : _wire_reinterprets_scalar s = false → _try_set_form s = None.
Proof.
  unfold _wire_reinterprets_scalar, _try_set_form. cbn [reinterprets try_operators].
  repeat match goal with
  | |- context [str_after (op_value ?o ++ ":") s] =>
      let H := fresh "H" in
      destruct (str_after (op_value o ++ ":") s) eqn:H;
      [intros ->; apply str_after_head in H as [? ->]; reflexivity|]
  end. done.
Qed.

Lemma number_is_plain l : Forall (λ c, number_char c = true) l → _wire_reinterprets_scalar (of_chars l) = false.
Proof.
  intros Hl. destruct Hl as [|c l Hc _]; [done|].
  destruct c as [[] [] [] [] [] [] [] []]; done.
Qed.

Lemma scalar_is_plain ty x l :
  query_type ty ≠ TSTRING → scalar_type x = query_type ty → exact_scalar x → _scalar x = Ok l →
  _wire_reinterprets_scalar (of_chars l) = false.
Proof.
  intros Hty Hx Hex Hl. destruct (decide (query_type ty = TBOOLEAN)) as [Hb|Hb].
  - rewrite Hb in Hx. destruct x as [| | |b]; try done. injection Hl as <-. by destruct b.
  - apply number_is_plain. eapply number_text; [|done..]. by destruct ty; try done; repeat constructor.
Qed.

(** ** Lists *)

Lemma list_item_Ok x item :
  list_item x = Ok item ↔ _scalar x = Ok item ∧ trimmed item ∧ Forall (λ c, is_delimiter c = false) item.
Proof.
  unfold list_item. rewrite result_bind_Ok. split.
  - intros (l & Hl & H). case_bool_decide as Hs; simpl in H; [|done].
    destruct (existsb is_delimiter l) eqn:He; [done|]. injection H as <-.
    split_and!; [done|by apply strip_trimmed|]. apply Forall_forall. intros c Hc.
    destruct (is_delimiter c) eqn:Hd; [|done]. exfalso. apply not_true_iff_false in He. apply He.
    apply existsb_exists. exists c. by rewrite <-list_elem_of_In.
  - intros (Hl & Ht & Hd). exists item. split; [done|]. rewrite bool_decide_eq_true_2 by by apply strip_trimmed.
    destruct (existsb is_delimiter item) eqn:He; [|done]. apply existsb_exists in He as (c & Hc%list_elem_of_In & H).
    rewrite Forall_forall in Hd. by rewrite (Hd c Hc) in H.
Qed.

Lemma no_delimiter c l : is_delimiter c = true → Forall (λ c, is_delimiter c = false) l → c ∉ l.
Proof. intros Hc Hl Hin. rewrite Forall_forall in Hl. by rewrite (Hl c Hin) in Hc. Qed.

(** A list of one empty text is written like the empty list. *)
Definition only_empty (items : list chars) : Prop := items = [[]].

Lemma join_is_nil items : items ≠ [] → ¬ only_empty items → is_nil (join_chars [","%char] items) = false.
Proof.
  destruct items as [|i [|j items]]; [done| |]; intros _ Hne; [by destruct i|].
  by destruct i.
Qed.

Lemma parse_value_list_items ty xs items :
  xs ≠ [] → Forall (λ x, scalar_type x = query_type ty ∧ exact_scalar x) xs →
  mapM_result list_item xs = Ok items → ¬ only_empty items →
  _parse_value_list (of_chars ("["%char :: join_chars [","%char] items ++ ["]"%char])) ty
  = Ok (wire_value ty <$> xs).
Proof.
  intros Hxs Hty Hm Hne. apply mapM_result_Ok in Hm.
  assert (items ≠ []) as Hitems by (intros ->; inversion Hm; by subst).
  assert (Forall (λ item, trimmed item ∧ Forall (λ c, is_delimiter c = false) item) items) as Hi.
  { clear -Hm. induction Hm as [|x item xs items Hx _ IH]; constructor; [|done]. by apply list_item_Ok in Hx as (_ & ? & ?). }
  unfold _parse_value_list. rewrite to_of_chars.
  rewrite (proj2 (strip_trimmed _)) by by apply trimmed_ends. rewrite enclosed_ends by done.
  rewrite (proj2 (strip_trimmed _))
    by (apply trimmed_join; eapply Forall_impl; [exact Hi|by intros ? []]).
  rewrite join_is_nil, split_join by (done || (eapply Forall_impl; [exact Hi|intros ? [_ Hd]; by apply no_delimiter])).
  apply mapM_result_Ok. clear -Hm Hty. induction Hm as [|x item xs items Hx _ IH]; [constructor|].
  inversion Hty as [|? ? [? ?] ?]; subst. apply list_item_Ok in Hx as (Hs & Ht & _).
  constructor; [|by apply IH]. rewrite (proj2 (strip_trimmed _)) by done. by apply coerce_text.
Qed.

(** ** Intervals *)

Lemma coerce_bound_nil ty : coerce_bound [] ty = Ok None.
Proof. done. Qed.

Lemma coerce_bound_text ty x l :
  query_type ty ∈ [TINTEGER; TDECIMAL] → scalar_type x = query_type ty → exact_scalar x → _scalar x = Ok l →
  coerce_bound l ty = Ok (Some (wire_value ty x)).
Proof.
  intros Hty Hx Hex Hl. destruct (number_text ty x l Hty Hx Hex Hl) as [Hn Hne].
  unfold coerce_bound. rewrite (proj2 (strip_trimmed _)) by by apply trimmed_number.
  destruct l; [done|]. simpl is_nil. cbv iota. by rewrite (coerce_text ty x).
Qed.

Lemma number_no_comma l : Forall (λ c, number_char c = true) l → ","%char ∉ l.
Proof. intros Hl Hin. rewrite Forall_forall in Hl. by specialize (Hl _ Hin). Qed.

(** The bounds an ordering puts on a number. *)
Definition range_of (o : ComparisonOperator) (v : value) : _Range :=
  match o with
  | GREATER_THAN => {| rg_min := Some v; rg_max := None; rg_min_inclusive := false; rg_max_inclusive := false |}
  | GREATER_THAN_OR_EQUAL =>
      {| rg_min := Some v; rg_max := None; rg_min_inclusive := true; rg_max_inclusive := false |}
  | LESS_THAN => {| rg_min := None; rg_max := Some v; rg_min_inclusive := false; rg_max_inclusive := false |}
  | _ => {| rg_min := None; rg_max := Some v; rg_min_inclusive := false; rg_max_inclusive := true |}
  end.

Lemma parse_interval_text ty x l o w :
  query_type ty ∈ [TINTEGER; TDECIMAL] → scalar_type x = query_type ty → exact_scalar x → _scalar x = Ok l →
  interval o l = Ok w → _parse_interval (of_chars w) ty = Ok (range_of o (wire_value ty x)).
Proof.
  intros Hty Hx Hex Hl Hw. destruct (number_text ty x l Hty Hx Hex Hl) as [Hn _].
  pose proof (coerce_bound_text ty x l Hty Hx Hex Hl) as Hb. apply number_no_comma in Hn.
  unfold _parse_interval. rewrite to_of_chars. destruct o; try done; injection Hw as <-.
  1, 2: change (","%char :: l ++ ?r) with ((","%char :: l) ++ r).
  3, 4: change (l ++ [","%char; ")"%char]) with (l ++ [","%char] ++ [")"%char]); rewrite app_assoc.
  all: rewrite (proj2 (strip_trimmed _)) by by apply trimmed_ends.
  all: rewrite enclosed_ends by done.
  1, 2: change (split_once _ (","%char :: l)) with (@nil ascii, Some l).
  3, 4: rewrite split_once_app by done.
  all: cbv beta iota; rewrite coerce_bound_nil, Hb; done.
Qed.
