(* ===== verification/ResourceQueryMeaning.v ===== *)
(** The criterion a compiled comparison becomes at the registry, and what it
    asks of the values a listing shows. *)
From S2P Require Import Prelude PyNum PyValue PyNumFacts PyText QueryDsl QueryLexer.
From S2P Require Import PyTextFacts.
From S2P Require Import QueryTyping QueryRoundtrip PyWire FilterSpec FilterEval ResourceQuery.
From S2P Require Import ResourceQueryFacts.
From Stdlib Require Import Ascii SpecFloat.

Local Open Scope string_scope.
Local Open Scope list_scope.

(** ** Comparisons a filter can express *)

Definition literals (v : LiteralValue) : list ScalarValue :=
  match v with LScalar x => [x] | LTuple xs => xs end.

Definition is_tuple (v : LiteralValue) : bool := match v with LTuple _ => true | LScalar _ => false end.

(** Validation accepts the comparison for the filter's field. *)
Record accepted_for (d : FilterDecl) (c : ValidatedComparison) : Prop := {
  af_operator : vc_operator c ∈ _operators (fl_op d) (fl_alias_kind d);
  af_shape : is_tuple (vc_value c) = expects_list (vc_operator c);
  af_values : literals (vc_value c) ≠ [];
  af_types : Forall (λ x, scalar_type x = query_type (fl_value_type d)) (literals (vc_value c));
}.

(** Its decimals have exact texts, and it does not compare with the empty text
    alone, which is written like no value. *)
Definition representable (c : ValidatedComparison) : Prop :=
  Forall exact_scalar (literals (vc_value c)) ∧ literals (vc_value c) ≠ [SStr ""].

(** Ranges are of numbers and presence is a boolean. *)
Definition sensible (d : FilterDecl) : Prop :=
  match fl_op d with
  | op_range => query_type (fl_value_type d) ∈ [TINTEGER; TDECIMAL]
  | op_exists => fl_value_type d = vt_boolean
  | op_in | op_not_in => True
  end.

(** What the client keeps of the declaration. *)
Definition declared_as (d : FilterDecl) (f : _ResourceField) : Prop :=
  rf_parameter f = fl_name d ∧ rf_filter_op f = fl_op d ∧ rf_alias_kind f = fl_alias_kind d.

(** ** The criterion *)

Definition bound_of (o : ComparisonOperator) (k : option AliasKind) (v : value) : _Range :=
  if is_plain_bound o k then
    if bool_decide (o = GREATER_THAN_OR_EQUAL)
    then {| rg_min := Some v; rg_max := None; rg_min_inclusive := true; rg_max_inclusive := true |}
    else {| rg_min := None; rg_max := Some v; rg_min_inclusive := true; rg_max_inclusive := true |}
  else range_of o v.

Definition wire_values (d : FilterDecl) (c : ValidatedComparison) : list value :=
  wire_value (fl_value_type d) <$> literals (vc_value c).

Definition asks_presence (c : ValidatedComparison) : bool :=
  match vc_value c with LScalar (SBool b) => b | _ => false end.

Section criteria.
Context `{!JsonPath, !LifecycleTerms}.

Definition criterion_for (d : FilterDecl) (path : jsonpath) (m : OnMissing) (c : ValidatedComparison) : Criterion :=
  let build := criterion d path m in
  match fl_op d with
  | op_in | op_not_in => build (fl_value_type d) (Some (wire_values d c)) None None
  | op_range => build (fl_value_type d) None
                  (Some (bound_of (vc_operator c) (fl_alias_kind d) (List.hd VNone (wire_values d c)))) None
  | op_exists => build vt_string None None (Some (asks_presence c))
  end.

Lemma with_prefix_not_empty o l : with_prefix o l ≠ "".
Proof. by destruct o. Qed.

Lemma of_chars_not_empty l : l ≠ [] → of_chars l ≠ "".
Proof. by destruct l. Qed.

Lemma empty_scalar_text ty x :
  scalar_type x = query_type ty → exact_scalar x → _scalar x = Ok [] → x = SStr "".
Proof.
  intros Hty Hex Hs. destruct (decide (query_type ty ∈ [TINTEGER; TDECIMAL])) as [Hn|Hn].
  - by destruct (number_text ty x [] Hn Hty Hex Hs).
  - destruct x as [s|z|q|b]; simpl in Hty.
    + injection Hs as Hs. by destruct s.
    + rewrite <-Hty in Hn. by destruct Hn; left.
    + rewrite <-Hty in Hn. by destruct Hn; right; left.
    + by destruct b.
Qed.

(** *** Membership *)

Lemma list_form_criterion d o path m xs items :
  o = fl_op d → o = op_in ∨ o = op_not_in → jsonpath_parse (fl_path d) = Ok path →
  xs ≠ [] → Forall (λ x, scalar_type x = query_type (fl_value_type d)) xs → Forall exact_scalar xs →
  xs ≠ [SStr ""] → mapM_result list_item xs = Ok items →
  _build_criterion d (with_prefix o ("["%char :: join_chars [","%char] items ++ ["]"%char])) m
  = Ok (criterion d path m (fl_value_type d) (Some (wire_value (fl_value_type d) <$> xs)) None None).
Proof.
  intros Ho Hmem Hpath Hxs Hty Hex Hne Hm. unfold _build_criterion. rewrite Hpath. cbn [mbind result_bind].
  assert (¬ only_empty items) as Hempty.
  { unfold only_empty. intros ->. apply mapM_result_Ok in Hm.
    inversion Hm as [|x ? ? ? Hx Hrest]; subst. inversion Hrest; subst. apply list_item_Ok in Hx as (Hs & _).
    inversion Hty as [|? ? Hxt _]; subst. inversion Hex as [|? ? Hxe _]; subst.
    by rewrite (empty_scalar_text _ x Hxt Hxe Hs) in Hne. }
  rewrite try_set_form_with by (by destruct Hmem as [-> | ->]).
  rewrite bool_decide_eq_true_2 by done. simpl negb. cbv iota.
  rewrite (parse_value_list_items _ xs items) by (done || by apply Forall_and).
  destruct Hmem as [-> | ->]; done.
Qed.

(** *** One value *)

Lemma plain_text_criterion d c f m path x l :
  fl_op d = op_in → jsonpath_parse (fl_path d) = Ok path → vc_value c = LScalar x → vc_operator c = EQUAL →
  scalar_type x = query_type (fl_value_type d) → exact_scalar x → _scalar x = Ok l →
  rf_filter_op f = op_in → x ≠ SStr "" → ∀ p wire, _compile_comparison c f = Ok (p, wire) →
  p = rf_parameter f ∧ wire ≠ "" ∧ _build_criterion d wire m = Ok (criterion_for d path m c).
Proof.
  intros Hop Hpath Hv Ho Hty Hex Hl Hf Hx p wire. unfold _compile_comparison. rewrite Hf, Ho, Hv.
  rewrite bool_decide_eq_true_2 by done. cbn [scalar_of mbind result_bind]. rewrite Hl. cbn [mbind result_bind].
  intros Hcomp. assert (p = rf_parameter f ∧ wire = of_chars l ∧ _wire_reinterprets_scalar (of_chars l) = false)
    as (-> & -> & Hplain).
  { destruct x as [s|z|q|b].
    1: { injection Hl as <-. rewrite of_to_chars. destruct (_wire_reinterprets_scalar s); [done|].
         by injection Hcomp as <- <-. }
    all: injection Hcomp as <- <-; split_and!; [done..|].
    all: eapply (scalar_is_plain (fl_value_type d)); [by rewrite <-Hty|exact Hty|done..]. }
  split_and!; [done| |].
  - apply of_chars_not_empty. intros ->. by eapply Hx, empty_scalar_text.
  - unfold _build_criterion. rewrite Hpath. cbn [mbind result_bind].
    rewrite plain_text_is_plain by done. rewrite Hop, (coerce_text _ x) by done.
    unfold criterion_for, wire_values. by rewrite Hop, Hv.
Qed.

(** *** Orderings *)

Lemma ordering_criterion d c f m path x l :
  fl_op d = op_range → jsonpath_parse (fl_path d) = Ok path → vc_value c = LScalar x →
  query_type (fl_value_type d) ∈ [TINTEGER; TDECIMAL] → rf_alias_kind f = fl_alias_kind d →
  scalar_type x = query_type (fl_value_type d) → exact_scalar x → _scalar x = Ok l →
  rf_filter_op f = op_range → ∀ p wire, _compile_comparison c f = Ok (p, wire) →
  p = rf_parameter f ∧ wire ≠ "" ∧ _build_criterion d wire m = Ok (criterion_for d path m c).
Proof.
  intros Hop Hpath Hv Hnum Hk Hty Hex Hl Hf p wire. unfold _compile_comparison. rewrite Hf, Hv, Hk.
  cbn [scalar_of mbind result_bind]. rewrite Hl. cbn [mbind result_bind].
  unfold _build_criterion, criterion_for, bound_of, wire_values. rewrite Hpath, Hop, Hv. cbn [mbind result_bind].
  destruct (is_plain_bound _ _) eqn:Hb.
  - intros [= <- <-]. destruct (number_text _ x l Hnum Hty Hex Hl) as [Hn Hne].
    split_and!; [done|by apply of_chars_not_empty|].
    rewrite plain_text_is_plain by by apply number_is_plain. rewrite (coerce_text _ x) by done.
    unfold is_plain_bound in Hb. apply orb_true_iff in Hb as [[-> ->]%bool_decide_eq_true|[-> ->]%bool_decide_eq_true]; done.
  - destruct (interval _ l) as [w|] eqn:Hw; [|done]. intros [= <- <-].
    split_and!; [done|by destruct w|]. rewrite try_set_form_with.
    + rewrite bool_decide_eq_true_2 by done. simpl negb. cbv iota.
      by rewrite (parse_interval_text _ x l _ _ Hnum Hty Hex Hl Hw).
    + destruct (vc_operator c); try done; by injection Hw as <-.
Qed.
(** *** The comparison's criterion *)

Lemma compiled_list xs items o f p wire :
  mapM_result list_item xs = Ok items →
  (x ← with_prefix o <$> _list xs; Ok (rf_parameter f, x)) = Ok (p, wire) →
  p = rf_parameter f ∧ wire = with_prefix o ("["%char :: join_chars [","%char] items ++ ["]"%char]).
Proof. intros Hm. unfold _list. rewrite Hm. simpl. by intros [= <- <-]. Qed.

Lemma list_Ok xs o f p wire :
  (x ← with_prefix o <$> _list xs; Ok (rf_parameter f, x)) = Ok (p, wire) →
  ∃ items, mapM_result list_item xs = Ok items.
Proof. unfold _list. destruct (mapM_result list_item xs) as [items|]; [eauto|done]. Qed.

Lemma scalar_literal_text c v :
  accepted_for v c → is_tuple (vc_value c) = false → ∃ x, vc_value c = LScalar x ∧
    scalar_type x = query_type (fl_value_type v).
Proof.
  intros [_ _ _ Hty] Ht. destruct (vc_value c) as [x|]; [|done]. exists x. split; [done|]. by inversion Hty.
Qed.

Lemma accepted_operator o k x : x ∈ _operators o k →
  match o with
  | op_in => x = EQUAL ∨ x = IN
  | op_not_in => x = NOT_EQUAL ∨ x = NOT_IN
  | op_exists => x = EQUAL
  | op_range => expects_list x = false
  end.
Proof. destruct o, k as [[]|]; simpl; intros H1; repeat (apply elem_of_cons in H1 as [->|H1]; auto); by inversion H1. Qed.

Lemma built_criterion d f c m p wire path :
  declared_as d f → sensible d → accepted_for d c → representable c →
  _compile_comparison c f = Ok (p, wire) → jsonpath_parse (fl_path d) = Ok path →
  p = fl_name d ∧ wire ≠ "" ∧ _build_criterion d wire m = Ok (criterion_for d path m c).
Proof.
  intros (Hp & Hop & Hk) Hsense Hacc [Hex Hne] Hcomp Hpath. rewrite <-Hp. unfold sensible in Hsense.
  destruct Hacc as [Ho Hshape Hvals Hty] eqn:Hacc'. clear Hacc'. apply accepted_operator in Ho.
  destruct (fl_op d) eqn:Hd.
  - destruct Ho as [Ho|Ho]; rewrite Ho in Hshape.
    + destruct (scalar_literal_text c d Hacc Hshape) as (x & Hv & Hx). rewrite Hv in Hex, Hne.
      inversion Hex as [|? ? Hxe _]; subst. unfold _compile_comparison in Hcomp.
      destruct (_scalar x) as [l|e] eqn:Hl.
      * eapply plain_text_criterion; eauto. by intros ->.
      * rewrite Hop, Ho, Hv in Hcomp. simpl in Hcomp. by rewrite Hl in Hcomp.
    + unfold _compile_comparison in Hcomp. rewrite Hop, Ho in Hcomp. destruct (vc_value c) as [|xs] eqn:Hv; [done|].
      simpl in Hcomp. destruct (list_Ok _ _ _ _ _ Hcomp) as [items Hm].
      destruct (compiled_list _ _ _ _ _ _ Hm Hcomp) as [-> ->]. split_and!; [done|apply with_prefix_not_empty|].
      rewrite (list_form_criterion d _ path m xs items); auto. unfold criterion_for, wire_values. by rewrite Hd, Hv.
  - destruct (scalar_literal_text c d Hacc) as (x & Hv & Hx); [by rewrite Hshape|]. rewrite Hv in Hex.
    inversion Hex as [|? ? Hxe _]; subst. destruct (_scalar x) as [l|e] eqn:Hl.
    + eapply ordering_criterion; eauto.
    + unfold _compile_comparison in Hcomp. rewrite Hop, Hv in Hcomp. simpl in Hcomp. by rewrite Hl in Hcomp.
  - assert (∃ xs, xs = literals (vc_value c) ∧
      (x ← with_prefix op_not_in <$> _list xs; Ok (rf_parameter f, x)) = Ok (p, wire)) as (xs & Hxs & Hc).
    { eexists. split; [done|]. unfold _compile_comparison in Hcomp. rewrite Hop in Hcomp. by destruct (vc_value c). }
    rewrite <-Hxs in *. destruct (list_Ok _ _ _ _ _ Hc) as [items Hm].
    destruct (compiled_list _ _ _ _ _ _ Hm Hc) as [-> ->]. split_and!; [done|apply with_prefix_not_empty|].
    rewrite (list_form_criterion d _ path m xs items); auto. unfold criterion_for, wire_values. by rewrite Hd, Hxs.
  - unfold _compile_comparison in Hcomp. rewrite Hop in Hcomp. destruct (vc_value c) as [[| | |b]|] eqn:Hv; try done.
    simpl in Hcomp. injection Hcomp as <- <-. split_and!; [done|apply with_prefix_not_empty|].
    unfold _build_criterion, criterion_for, asks_presence. rewrite Hpath, Hd, Hv. cbn [mbind result_bind].
    rewrite try_set_form_with by by destruct b. by destruct b.
Qed.

(** ** What the criterion asks *)

Definition ordered (o : ComparisonOperator) (x y : num) : bool :=
  match o with
  | GREATER_THAN => num_lt y x
  | GREATER_THAN_OR_EQUAL => negb (num_lt x y)
  | LESS_THAN => num_lt x y
  | LESS_THAN_OR_EQUAL => negb (num_lt y x)
  | _ => false
  end.

(** The values the comparison's literals stand for. *)
Definition literal_values (d : FilterDecl) (c : ValidatedComparison) : list value :=
  literal_value (fl_value_type d) <$> literals (vc_value c).

(** Whether the values a listing shows meet the comparison with its literals. *)
Definition meets (d : FilterDecl) (c : ValidatedComparison) (vs : list value) : bool :=
  let equals v := existsb (py_eq v) (literal_values d c) in
  match fl_op d with
  | op_in => existsb equals vs
  | op_not_in => forallb (λ v, negb (equals v)) vs
  | op_range =>
      match as_num (List.hd VNone (literal_values d c)) with
      | Some bound => existsb (λ x, ordered (vc_operator c) x bound) (omap as_num vs)
      | None => false
      end
  | op_exists => asks_presence c
  end.

Lemma wire_values_same d c v :
  Forall exact_scalar (literals (vc_value c)) →
  existsb (py_eq v) (wire_values d c) = existsb (py_eq v) (literal_values d c).
Proof.
  unfold wire_values, literal_values.
  induction 1 as [|x xs Hx _ IH]; [done|]. cbn [fmap list_fmap existsb].
  rewrite wire_value_same by done. f_equal. exact IH.
Qed.

Lemma ordered_same o y z :
  (∀ n, num_lt n y = num_lt n z ∧ num_lt y n = num_lt z n) → ∀ n, ordered o n y = ordered o n z.
Proof. intros Hyz n. destruct (Hyz n) as [H1 H2]. destruct o; simpl; by rewrite ?H1, ?H2. Qed.

(** A value of a listing that a set can hold, and that is no NaN. *)
Definition plain_value (v : value) : bool :=
  match v with VList _ | VDict _ => false | VNum x => negb (is_nan x) | _ => true end.

Lemma in_set_plain values v : plain_value v = true → in_set values v = Ok (existsb (py_eq v) values).
Proof. by destruct v. Qed.

Lemma contains_bound o k v x y :
  as_num v = Some y → py_eq (VNum x) v = num_eqb x y → is_nan x = false → is_nan y = false →
  o ∈ _operators op_range k → contains (bound_of o k v) x = Ok (ordered o x y).
Proof.
  intros Hv Heq Hx Hy Ho. pose proof (num_lt_total x y Hx Hy) as Ht.
  pose proof (num_lt_total y x Hy Hx) as Ht'. rewrite num_eqb_sym in Ht'.
  assert (o ∈ [LESS_THAN; LESS_THAN_OR_EQUAL; GREATER_THAN; GREATER_THAN_OR_EQUAL]) as Hord.
  { destruct k as [[]|]; simpl in Ho; repeat (apply elem_of_cons in Ho as [->|Ho]; [by repeat constructor|]); inversion Ho. }
  assert (∀ r, r = bound_of o k v → contains r x = Ok (ordered o x y)) as H1; [|by apply H1].
  unfold bound_of. intros r Hr. destruct (is_plain_bound o k) eqn:Hb.
  - unfold is_plain_bound in Hb. apply orb_true_iff in Hb as [[-> ->]%bool_decide_eq_true|[-> ->]%bool_decide_eq_true];
      subst r; simpl; unfold contains, below, above; simpl; rewrite Hv; simpl; rewrite andb_false_r, orb_false_r.
    + by destruct (num_lt x y).
    + done.
  - subst r. repeat (apply elem_of_cons in Hord as [->|Hord]); [..|by inversion Hord];
      unfold contains, below, above; simpl; rewrite Hv; simpl; rewrite ?Heq, ?andb_false_r, ?andb_true_r, ?orb_false_r.
    + by rewrite Ht'.
    + done.
    + by rewrite Ht; destruct (num_lt x y || num_eqb x y).
    + by destruct (num_lt x y).
Qed.
End criteria.

(** * The registry answers what the buyer asked: a listing passes the criterion of
    a compiled comparison exactly when the values it shows meet the comparison. *)

Section meaning.
Context `{!JsonPath, !LifecycleTerms}.

(** The values a filter compares, of those its path shows: a filter of decimal
    text compares those that are finite decimal texts, as decimals. *)
Definition shown (d : FilterDecl) (vs : list value) : list value :=
  if bool_decide (fl_value_type d = vt_decimal_text) && negb (bool_decide (fl_op d = op_exists))
  then (VNum ∘ NDec) <$> omap _coerce_resolved_decimal vs
  else vs.

(** The criterion asks the comparison of the values [path] shows, and the rule
    [m] where there are none. *)
Definition criterion_answers (d : FilterDecl) (path : jsonpath) (m : OnMissing)
    (c : ValidatedComparison) (crit : Criterion) : Prop :=
  cr_name crit = fl_name d ∧ cr_path crit = path ∧
  ∀ listing vs, _resolve listing crit = Ok vs →
    Forall (λ v, plain_value v = true) (shown d vs) →
    evaluate listing crit =
      Ok (if is_nil (shown d vs) then bool_decide (m = om_pass) else meets d c (shown d vs)).

Lemma comparable_shown d path m c vs : comparable (criterion_for d path m c) vs = shown d vs.
Proof.
  unfold comparable, shown, criterion_for. destruct (fl_op d) eqn:Hd; cbn [criterion cr_value_type cr_op]; rewrite ?Hd;
    by destruct (fl_value_type d).
Qed.

Lemma wire_bound ty x :
  query_type ty ∈ [TINTEGER; TDECIMAL] → scalar_type x = query_type ty →
  ∃ y, wire_value ty x = VNum y ∧ is_nan y = false.
Proof.
  intros Hty Hx. destruct x as [s|z|q|b]; simpl in Hx; rewrite <-Hx in Hty.
  - by repeat (apply elem_of_cons in Hty as [?|Hty]; [done|]); inversion Hty.
  - by exists (NInt z).
  - simpl. case_bool_decide; [by eexists|]. eexists. split; [done|]. simpl.
    pose proof (float_of_dec_number (wire_dec q)). by destruct (float_of_dec _).
  - by repeat (apply elem_of_cons in Hty as [?|Hty]; [done|]); inversion Hty.
Qed.

Lemma evaluate_resolved listing c vs :
  _resolve listing c = Ok vs →
  evaluate listing c =
    if is_nil (comparable c vs) then Ok (passes_missing c) else
    let vs := comparable c vs in
    match cr_op c with
    | op_in => py_any (in_set (default [] (cr_values c))) vs
    | op_not_in => py_all (λ v, negb <$> in_set (default [] (cr_values c)) v) vs
    | op_range =>
        match cr_range c with
        | None => Err (RuntimeError "assert rng is not None")
        | Some rng => py_any (contains rng) (omap as_num vs)
        end
    | op_exists => Ok (bool_decide (cr_exists_target c = Some true))
    end.
Proof.
  intros Hvs. unfold evaluate. rewrite Hvs. cbn [mbind result_bind].
  destruct vs as [|v vs]; [|done]. unfold comparable; simpl; by destruct (_ && _).
Qed.

Lemma plain_number v x : plain_value v = true → as_num v = Some x → is_nan x = false.
Proof.
  destruct v as [|b|n| | |]; simpl; try done.
  - by intros _ [= <-].
  - intros Hn [= <-]. by destruct (is_nan n).
Qed.

Lemma evaluate_criterion d path m c :
  sensible d → accepted_for d c → representable c → criterion_answers d path m c (criterion_for d path m c).
Proof.
  intros Hsense Hacc [Hex _]. split_and!; [unfold criterion_for; by destruct (fl_op d)..|].
  intros listing vs Hvs. rewrite (evaluate_resolved _ _ vs Hvs), comparable_shown. intros Hplain. cbv zeta.
  destruct (is_nil _) eqn:Hnil; [unfold criterion_for; by destruct (fl_op d)|].
  set (ws := shown d vs) in *. clearbody ws. rewrite Forall_forall in Hplain.
  destruct (Hacc) as [Ho Hshape Hvals Hty]. unfold sensible in Hsense.
  unfold criterion_for, meets. destruct (fl_op d) eqn:Hd; cbn [cr_op criterion cr_values cr_range cr_exists_target default].
  - rewrite Hd. apply py_any_Ok. intros v Hv. etrans; [by apply in_set_plain, Hplain|]. f_equal.
    by apply wire_values_same.
  - rewrite Hd. destruct (scalar_literal_text c d Hacc) as (x & Hx & Hxt).
    { rewrite Hshape. by apply (accepted_operator _ _ _ Ho). }
    unfold wire_values, literal_values. rewrite Hx in Hex |- *. cbn [literals fmap list_fmap List.hd].
    inversion Hex as [|? ? Hxe _]; subst. pose proof (wire_bound_same (fl_value_type d) x Hxe) as Hsame.
    destruct (wire_bound _ x Hsense Hxt) as (y & Hy & Hyn). rewrite Hy in Hsame |- *. cbn [as_num] in *.
    destruct (as_num (literal_value _ x)) as [z|]; [|done].
    apply py_any_Ok. intros n Hn. apply list_elem_of_omap in Hn as (v & Hv & Hvn).
    rewrite <- (ordered_same _ y z) by done.
    apply contains_bound; [done..|by eapply plain_number; [by apply Hplain|]|done|done].
  - rewrite Hd. apply py_all_Ok. intros v Hv. rewrite in_set_plain by by apply Hplain.
    cbn. do 2 f_equal. by apply wire_values_same.
  - rewrite Hd. f_equal. by destruct (asks_presence c).
Qed.

(** C36: the registry answers what the buyer asked.  Where validation accepts a
    comparison for a filter (of numbers if it is a range, a boolean if it is a
    presence), the parameter compiled for it is the filter's own, is never
    dropped as empty, and is read back as one criterion.  On a listing whose path
    shows values that are no lists, objects or NaN, that criterion answers
    whether the values compare so with the literals the buyer wrote (text,
    integers, booleans, and decimals of a filter of decimal text, at their exact
    values; a number of a filter of numbers as the binary64 nearest to it, which
    is what such a filter compares with: above 2^53 the bound may be a
    neighbour of the number written), and the filter's rule for missing values
    answers where it shows none.  Decimals must have exact texts, so that their
    rendering loses nothing, and the empty text alone cannot be compared with. *)
Theorem compiled_comparison_means d f c m p wire path :
  declared_as d f → sensible d → accepted_for d c → representable c →
  _compile_comparison c f = Ok (p, wire) → jsonpath_parse (fl_path d) = Ok path →
  p = fl_name d ∧ wire ≠ "" ∧
  ∃ crit, _build_criterion d wire m = Ok crit ∧ criterion_answers d path m c crit.
Proof.
  intros Hdecl Hsense Hacc Hrep Hcomp Hpath.
  destruct (built_criterion d f c m p wire path Hdecl Hsense Hacc Hrep Hcomp Hpath) as (-> & Hw & Hb).
  split_and!; [done..|]. exists (criterion_for d path m c). split; [done|]. by apply evaluate_criterion.
Qed.
End meaning.
