(* ===== verification/ResourceQueryVocabulary.v ===== *)
(** The client reads the vocabulary a registry serves: from a sound filter
    specification it makes one field per filter, named as the filter is queried,
    with co-requirements in the names a buyer writes. *)
From S2P Require Import Prelude PyNum PyValue PyNumFacts PyText QueryDsl QueryLexer.
From S2P Require Import PyTextFacts QueryTyping PyWire FilterSpec FilterEval.
From S2P Require Import ResourceQuery ResourceQueryFacts.
From Stdlib Require Import Ascii.

Local Open Scope string_scope.
Local Open Scope list_scope.

Definition served (d : FilterDecl) : value := VDict (_dump_filter d).

(** The name a buyer writes for a filter. *)
Definition own_query_name (d : FilterDecl) : string := default (fl_name d) (str_truthy (fl_query_name d)).

Definition rule_of (m : OnMissing) : MissingValueRule :=
  match m with om_fail => MISSING_FAIL | om_pass => MISSING_PASS end.

Definition descriptor_of (d : FilterDecl) : FieldDescriptor :=
  {| fd_name := own_query_name d; fd_value_type := query_type (fl_value_type d);
     fd_operators := _operators (fl_op d) (fl_alias_kind d); fd_aliases := fl_query_aliases d;
     fd_on_missing := rule_of (fl_on_missing d); fd_repeated := false;
     fd_description := Some ("registry filter parameter " ++ fl_name d)%string; fd_requires := [] |}.

Definition unresolved_field (d : FilterDecl) : _ResourceField :=
  {| rf_descriptor := descriptor_of d; rf_parameter := fl_name d; rf_filter_op := fl_op d;
     rf_alias_kind := fl_alias_kind d; rf_requires := fl_requires d |}.

(** The query name of the filter named [t]. *)
Definition target_name (filters : list FilterDecl) (t : string) : string :=
  default t (own_query_name <$> alist_get t (by_name filters)).

Definition field_of (filters : list FilterDecl) (d : FilterDecl) : _ResourceField :=
  {| rf_descriptor := set_fd_requires (target_name filters <$> fl_requires d) (descriptor_of d);
     rf_parameter := fl_name d; rf_filter_op := fl_op d;
     rf_alias_kind := fl_alias_kind d; rf_requires := fl_requires d |}.

(** The client can send the filter as a parameter of its own. *)
Definition sendable (d : FilterDecl) : Prop :=
  fl_name d ≠ "" ∧ fl_name d ∉ _RESERVED_PARAMETERS.

(** ** One declaration *)

Lemma all_strings_fmap l : all_strings (VStr <$> l) = Some l.
Proof. induction l as [|s l IH]; [done|]. rewrite fmap_cons. simpl. by rewrite IH. Qed.

Lemma strings_of_list raw key l :
  dict_get key raw = VList (VStr <$> l) → strings_or_empty raw key = Ok l.
Proof.
  intros H. unfold strings_or_empty. rewrite H. destruct l as [|s l]; [done|].
  cbn [truthy]. rewrite bool_decide_eq_false_2 by done. cbn [negb]. by rewrite all_strings_fmap.
Qed.

Lemma dumped_requires d : strings_or_empty (_dump_filter d) "requires" = Ok (fl_requires d).
Proof.
  destruct (is_nil (fl_requires d)) eqn:Hn.
  - apply is_nil_true in Hn. unfold strings_or_empty, _dump_filter. rewrite Hn. reflexivity.
  - apply strings_of_list. unfold _dump_filter. rewrite Hn. reflexivity.
Qed.

Lemma dumped_query_name d :
  (let q := dict_get "query_name" (_dump_filter d) in
   if truthy q then match q with VStr s => Ok s | _ => vocabulary_error "query_name" end
   else Ok (fl_name d)) = Ok (own_query_name d).
Proof.
  change (dict_get "query_name" (_dump_filter d)) with (opt_value id (fl_query_name d)).
  unfold own_query_name. destruct (fl_query_name d) as [[|a s]|]; reflexivity.
Qed.

Lemma operators_not_nil o k : is_nil (_operators o k) = false.
Proof. by destruct o, k as [[]|]. Qed.

Lemma check_descriptor_Ok d :
  Forall (λ n, field_name (to_chars n) = true) (fd_name d :: fd_aliases d) →
  NoDup (fd_name d :: fd_aliases d) → is_nil (fd_operators d) = false → fd_name d ∉ fd_requires d →
  check_descriptor d = Ok d.
Proof.
  intros Hf Hnd Ho Hr. unfold check_descriptor. rewrite (forallb_Forall _ _ Hf), Ho.
  rewrite bool_decide_eq_true_2, bool_decide_eq_false_2 by done. done.
Qed.

Lemma read_declaration d :
  sendable d → Forall (λ n, field_name (to_chars n) = true) (query_names d) → NoDup (query_names d) →
  Forall (λ t, t ≠ "") (fl_requires d) →
  resource_field (_dump_filter d) = Ok (unresolved_field d).
Proof.
  intros [Hname Hres] Hf Hnd Hreq. unfold resource_field, _required_string.
  change (dict_get "name" (_dump_filter d)) with (VStr (fl_name d)). cbv iota.
  rewrite bool_decide_eq_false_2 by done. cbn [mbind result_bind]. rewrite bool_decide_eq_false_2 by done.
  pose proof (dumped_query_name d) as Hq. cbv zeta in Hq |- *. rewrite Hq. cbn [mbind result_bind].
  rewrite (strings_of_list _ "query_aliases" (fl_query_aliases d)) by done. cbn [mbind result_bind].
  change (dict_get "op" (_dump_filter d)) with (VStr (op_value (fl_op d))). cbv iota.
  rewrite bool_decide_eq_false_2 by by destruct (fl_op d). cbn [mbind result_bind].
  change (dict_get "alias_kind" (_dump_filter d)) with (opt_value alias_kind_value (fl_alias_kind d)).
  assert (alias_kind_of (opt_value alias_kind_value (fl_alias_kind d)) = Ok (fl_alias_kind d)) as ->
    by by destruct (fl_alias_kind d) as [[]|].
  cbn [mbind result_bind]. rewrite dumped_requires. cbn [mbind result_bind].
  rewrite (forallb_Forall (λ t, negb (bool_decide (t = "")))).
  2: { eapply Forall_impl; [exact Hreq|]. intros t Ht. by rewrite bool_decide_eq_false_2. }
  change (alist_get "on_missing" (_dump_filter d)) with (Some (VStr (on_missing_value (fl_on_missing d)))).
  change (dict_get "value_type" (_dump_filter d)) with (VStr (vt_value (fl_value_type d))).
  assert (missing_rule_of (default (VStr "fail") (Some (VStr (on_missing_value (fl_on_missing d))))) = Ok (rule_of (fl_on_missing d))) as Hm
    by by destruct (fl_on_missing d).
  assert (_value_type (VStr (vt_value (fl_value_type d))) = Ok (query_type (fl_value_type d))) as Ht
    by by destruct (fl_value_type d).
  assert (op_of_text (op_value (fl_op d)) = Some (fl_op d)) as Ho by by destruct (fl_op d).
  cbn [negb]. rewrite Hm. cbn [mbind result_bind]. rewrite Ht. cbn [mbind result_bind]. rewrite Ho.
  rewrite check_descriptor_Ok; [done|done|done|apply operators_not_nil|apply not_elem_of_nil].
Qed.

(** ** All declarations *)

Lemma NoDup_bind_same {A} (f : A → list string) l x y n :
  NoDup (l ≫= f) → x ∈ l → y ∈ l → n ∈ f x → n ∈ f y → x = y.
Proof.
  induction l as [|z l IH]; intros Hnd Hx Hy Hnx Hny; [by inversion Hx|].
  rewrite bind_cons in Hnd. apply NoDup_app in Hnd as (_ & Hd & Hnd).
  assert (∀ w, w ∈ l → n ∈ f w → n ∉ f z) as Hz.
  { intros w Hw Hn Hz. apply (Hd n Hz). apply list_elem_of_bind. by exists w. }
  apply elem_of_cons in Hx as [->|Hx], Hy as [->|Hy]; [done| | |by apply IH].
  - by destruct (Hz y Hy Hny).
  - by destruct (Hz x Hx Hnx).
Qed.

Section vocabulary.
Context (filters : list FilterDecl) (Hsound : sound_spec filters) (Hsend : Forall sendable filters).

Lemma named_filter d : d ∈ filters → alist_get (fl_name d) (by_name filters) = Some d.
Proof.
  intros Hd. apply alist_get_unique.
  - rewrite by_name_keys. apply Hsound.
  - by apply (list_elem_of_fmap_2 (λ d, (fl_name d, d))).
Qed.

Lemma named_filter_inv n d : alist_get n (by_name filters) = Some d → d ∈ filters ∧ fl_name d = n.
Proof.
  intros Hg. apply alist_get_elem in Hg. unfold by_name in Hg.
  by apply list_elem_of_fmap in Hg as (d' & [= -> ->] & Hd).
Qed.

Lemma target_filter d t :
  d ∈ filters → t ∈ fl_requires d → ∃ d', d' ∈ filters ∧ fl_name d' = t ∧ target_name filters t = own_query_name d'.
Proof.
  intros Hd Ht. pose proof (ss_targets _ Hsound d t Hd Ht) as Hin.
  apply list_elem_of_fmap in Hin as (d' & -> & Hd'). exists d'. split_and!; [done..|].
  unfold target_name. by rewrite named_filter.
Qed.

Lemma own_query_name_elem d : own_query_name d ∈ query_names d.
Proof. left. Qed.

Lemma own_query_name_inj d d' :
  d ∈ filters → d' ∈ filters → own_query_name d = own_query_name d' → d = d'.
Proof.
  intros Hd Hd' Heq. eapply (NoDup_bind_same query_names filters); [apply Hsound|done..| |].
  - apply own_query_name_elem.
  - rewrite Heq. apply own_query_name_elem.
Qed.

Lemma parameter_lookup t d' :
  d' ∈ filters → fl_name d' = t →
  query_name_by_parameter (unresolved_field <$> filters) t = Some (own_query_name d').
Proof.
  intros Hd' <-. unfold query_name_by_parameter. rewrite <-list_fmap_compose. apply alist_get_unique.
  - rewrite <-Permutation_rev, <-list_fmap_compose. apply Hsound.
  - apply list_elem_of_In, in_rev. rewrite rev_involutive. apply list_elem_of_In.
    by apply (list_elem_of_fmap_2 (λ d, (fl_name d, own_query_name d))).
Qed.

Lemma names_of_filter d : d ∈ filters →
  Forall (λ n, field_name (to_chars n) = true) (query_names d) ∧ NoDup (query_names d).
Proof.
  intros Hd. pose proof (ss_query_syntax _ Hsound) as Hf. pose proof (ss_query_names _ Hsound) as Hnd.
  apply list_elem_of_split in Hd as (before & after & ->). rewrite bind_app, bind_cons in Hf, Hnd.
  apply Forall_app in Hf as [_ Hf]. apply Forall_app in Hf as [Hf _].
  apply NoDup_app in Hnd as (_ & _ & Hnd). by apply NoDup_app in Hnd as (Hnd & _).
Qed.

Lemma resolve_one d : d ∈ filters →
  resolve_field (unresolved_field <$> filters) (unresolved_field d) = Ok (field_of filters d).
Proof.
  intros Hd. unfold resolve_field. cbn [rf_requires unresolved_field].
  destruct (is_nil (fl_requires d)) eqn:Hn.
  { apply is_nil_true in Hn. unfold field_of, unresolved_field. by rewrite Hn. }
  rewrite (proj2 (mapM_result_Ok _ _ (target_name filters <$> fl_requires d))).
  2: { apply Forall2_fmap_r, Forall_Forall2_diag, Forall_forall. intros t Ht.
       destruct (target_filter d t Hd Ht) as (d' & Hd' & Hname & Htn). unfold compose. rewrite Htn. by rewrite (parameter_lookup t d'). }
  cbn [mbind result_bind rf_descriptor unresolved_field].
  destruct (names_of_filter d Hd) as [Hf Hnd].
  rewrite check_descriptor_Ok; [done|done|done|apply operators_not_nil|].
  intros (t & Heq & Ht)%list_elem_of_fmap. simpl in Heq.
  destruct (target_filter d t Hd Ht) as (d' & Hd' & Hname & Htn). rewrite Htn in Heq.
  apply own_query_name_inj in Heq as <-; [|done..]. subst t.
  apply (ss_acyclic _ Hsound). eapply self_requirement; [apply Hsound|done..].
Qed.

Lemma field_names all l : (rf_descriptor <$> (field_of all <$> l)) ≫= names = l ≫= query_names.
Proof. induction l as [|d l IH]; [done|]. by rewrite !fmap_cons, !bind_cons, IH. Qed.

Lemma descriptors_usable : usable_vocabulary (rf_descriptor <$> (field_of filters <$> filters)).
Proof.
  constructor.
  - rewrite field_names. apply Hsound.
  - intros x t (f & -> & (d & -> & Hd)%list_elem_of_fmap)%list_elem_of_fmap Ht. simpl in Ht.
    apply list_elem_of_fmap in Ht as (t' & -> & Ht). destruct (target_filter d t' Hd Ht) as (d' & Hd' & _ & ->).
    rewrite <-!list_fmap_compose. by apply (list_elem_of_fmap_2 _ filters d').
Qed.

Lemma field_reference_usable ds : usable_vocabulary ds → is_ok (field_reference_json ds) = true.
Proof.
  intros [Hnd Hreq]. unfold field_reference_json.
  set (ordered := sort_by descriptor_leb ds).
  assert (ordered ≡ₚ ds) as Hperm by apply sort_by_perm.
  rewrite (proj2 (descriptor_maps_spec ordered (ordered ≫= entries, own_entry <$> ordered))); [done|].
  split; [|done]. constructor; [by rewrite Hperm|]. intros d t Hd Ht. rewrite Hperm in Hd |- *. by apply (Hreq d).
Qed.

(** The client reads the vocabulary a registry serves.  From a sound filter
    specification whose filters have names a request may carry, it makes exactly
    one field per filter, in order, with the filter's operators, type and rule
    for missing values, under the name it is queried by, and with its
    co-requirements in such names; nothing the loader accepts is refused. *)
Lemma client_reads_served_vocabulary :
  _resource_fields (served <$> filters) = Ok (field_of filters <$> filters).
Proof using All.
  unfold _resource_fields. rewrite (proj2 (mapM_result_Ok _ _ (unresolved_field <$> filters))).
  2: { apply Forall2_fmap, Forall_Forall2_diag, Forall_forall. intros d Hd. cbn [served].
       destruct (names_of_filter d Hd). apply read_declaration; [by eapply Forall_forall|done..|].
       apply Forall_forall. intros t Ht. destruct (target_filter d t Hd Ht) as (d' & Hd' & <- & _).
       by apply (proj1 (Forall_forall _ _) Hsend). }
  cbn [mbind result_bind]. unfold _resolve_requires.
  rewrite (proj2 (mapM_result_Ok _ _ (field_of filters <$> filters))).
  2: { apply Forall2_fmap, Forall_Forall2_diag, Forall_forall. apply resolve_one. }
  cbn [mbind result_bind]. pose proof (field_reference_usable _ descriptors_usable) as Hok.
  by destruct (field_reference_json _).
Qed.
End vocabulary.
