(* ===== verification/ResourceQueryProperties.v ===== *)
(** A buyer's query, compiled against the vocabulary a registry serves, is what
    the registry evaluates: the parameters are accepted together, and become the
    criteria of the query's comparisons. *)
From S2P Require Import Prelude PyNum PyValue PyText QueryDsl QueryLexer PyTextFacts.
From S2P Require Import QueryTyping PyWire.
From S2P Require Import FilterSpec FilterEval ResourceQuery ResourceQueryFacts.
From S2P Require Import ResourceQueryMeaning ResourceQueryVocabulary QueryProperties.
From Stdlib Require Import Ascii.

Local Open Scope string_scope.
Local Open Scope list_scope.

(** A parameter named like this is an override, not a filter. *)
Definition is_override (name : string) : Prop := is_Some (str_after _STRICT_PREFIX name).

Lemma extract_no_override names params :
  Forall (λ kv, ¬ is_override kv.1) params → _extract_strict_overrides names params = Ok (params, []).
Proof.
  induction 1 as [|[k v] params Hk _ IH]; [done|]. cbn [_extract_strict_overrides].
  destruct (str_after _STRICT_PREFIX k) eqn:Ha; [destruct Hk; by exists s|]. by rewrite IH.
Qed.

Lemma supplied_all params : Forall (λ kv, kv.2 ≠ "") params → supplied params = params.*1.
Proof.
  intros H. unfold supplied. f_equal. apply filter_all. by apply Forall_forall.
Qed.

Lemma at_most_once_NoDup l : (∀ n, n ∈ l → at_most_once n l) → NoDup l.
Proof.
  induction l as [|x l IH] using rev_ind; intros H; [constructor|].
  apply NoDup_app. split_and!.
  - apply IH. intros n Hn. by eapply at_most_once_app, H, elem_of_app; left.
  - intros y Hy ->%list_elem_of_singleton. apply (H x) with (before := l) (after := []); [|done|done].
    apply elem_of_app. by left.
  - apply NoDup_singleton.
Qed.

Section composition.
Context `{!JsonPath, !LifecycleTerms} (filters : list FilterDecl) (Hsound : sound_spec filters).

Let fields := field_of filters <$> filters.
Let descriptors := rf_descriptor <$> fields.

(** The parameter that stands for a comparison on filter [d]. *)
Definition sent_as (c : ValidatedComparison) (param : string * string) (d : FilterDecl) : Prop :=
  d ∈ filters ∧ vc_field c = own_query_name d ∧ accepted_for d c ∧
  _compile_comparison c (field_of filters d) = Ok param.

Lemma field_of_query_name d : d ∈ filters → field_named fields (own_query_name d) = Ok (field_of filters d).
Proof.
  intros Hd. unfold field_named.
  enough (alist_get (own_query_name d) (rev ((λ f, (fd_name (rf_descriptor f), f)) <$> fields))
    = Some (field_of filters d)) as -> by done.
  unfold fields. rewrite <-list_fmap_compose. apply alist_get_unique.
  - rewrite <-Permutation_rev, <-list_fmap_compose. apply (NoDup_fmap_2_strong own_query_name).
    + intros d1 d2. by apply own_query_name_inj.
    + apply (NoDup_fmap_1 fl_name), Hsound.
  - apply list_elem_of_In, in_rev. rewrite rev_involutive. apply list_elem_of_In.
    by apply (list_elem_of_fmap_2 ((λ f, (fd_name (rf_descriptor f), f)) ∘ field_of filters) filters d).
Qed.

Lemma typing_accepted c v :
  comparison_typing descriptors c v → ∃ d, d ∈ filters ∧ vc_field v = own_query_name d ∧ accepted_for d v.
Proof.
  assert (∀ ty x y, scalar_typing ty x y → scalar_type y = ty) as Hty by (by destruct 1).
  intros [x y [Hx _] Ho Hl]. unfold descriptors, fields in Hx.
  apply list_elem_of_fmap in Hx as (f & -> & (d & -> & Hd)%list_elem_of_fmap). exists d.
  split_and!; [done..|]. simpl in Ho. constructor; [done|..]; cbn [vc_value vc_operator];
    destruct Hl as [o a b He Hx|o xs ys He Hne Hxs]; simpl.
  - by rewrite He.
  - by rewrite He.
  - done.
  - intros ->. by inversion Hxs; subst.
  - repeat constructor. by apply Hty in Hx.
  - clear -Hxs Hty. induction Hxs as [|a b xs ys Hx _ IH]; constructor; [by apply Hty in Hx|done].
Qed.

Lemma parameters_sent cs q params :
  Forall2 (comparison_typing descriptors) cs q → compile_parameters fields q = Ok params →
  ∃ ds, Forall3 sent_as q params ds.
Proof.
  intros Hq Hp. apply mapM_result_Ok in Hp. revert params Hp.
  induction Hq as [|c v cs q Hv _ IH]; intros params Hp; inversion Hp as [|? param ? params' Hparam Hrest]; subst.
  { exists []. constructor. }
  destruct (IH params' Hrest) as (ds & Hds). destruct (typing_accepted c v Hv) as (d & Hd & Hf & Ha).
  exists (d :: ds). constructor; [|done]. split_and!; [done..|].
  rewrite Hf, field_of_query_name in Hparam by done. done.
Qed.

(** What a criterion of a request owes its comparison: it is the filter's the
    comparison's field belongs to, asks the comparison of what the filter's path
    shows, under the filter's rule for missing values, and is asked of one and the
    same settlement option if the filter looks into options. *)
Definition honours (c : ValidatedComparison) (crit : Criterion) : Prop :=
  ∃ d path, d ∈ filters ∧ vc_field c = own_query_name d ∧ jsonpath_parse (fl_path d) = Ok path ∧
    cr_option_scoped crit = is_option_path (fl_path d) ∧
    criterion_answers d path (fl_on_missing d) c crit.

Context (Hsensible : Forall sensible filters)
  (Hpaths : Forall (λ d, is_ok (jsonpath_parse (fl_path d)) = true) filters).

Lemma sent_built c param d :
  sent_as c param d → representable c →
  param.1 = fl_name d ∧ param.2 ≠ "" ∧
  ∃ path, jsonpath_parse (fl_path d) = Ok path ∧
    ∀ m, _build_criterion d param.2 m = Ok (criterion_for d path m c).
Proof using Hsensible Hpaths.
  intros (Hd & Hf & Ha & Hc) Hrep. destruct param as [p wire].
  destruct (jsonpath_parse (fl_path d)) as [path|e] eqn:Hpath.
  - assert (sensible d) as Hs by by eapply Forall_forall.
    assert (∀ m, p = fl_name d ∧ wire ≠ "" ∧ _build_criterion d wire m = Ok (criterion_for d path m c)) as Hb.
    { intros m. by apply (built_criterion d (field_of filters d)); [by split_and!|..]. }
    split_and!; [apply (Hb om_fail)..|]. exists path. split; [done|]. intros m. apply Hb.
  - eapply Forall_forall in Hpaths; [|exact Hd]. by rewrite Hpath in Hpaths.
Qed.

Lemma sent_parameters q params ds :
  Forall3 sent_as q params ds → Forall representable q →
  params.*1 = fl_name <$> ds ∧ Forall (λ kv, kv.2 ≠ "") params ∧
  (vc_field <$> q) = (own_query_name <$> ds) ∧ Forall (λ d, d ∈ filters) ds.
Proof using Hsensible Hpaths.
  induction 1 as [|c param d q params ds Hs _ IH]; intros Hrep; [by repeat constructor|].
  inversion Hrep as [|? ? Hc Hrest]; subst. destruct (IH Hrest) as (Hnames & ? & Hfields & ?).
  destruct (sent_built c param d Hs Hc) as (Hp & Hw & _). destruct Hs as (Hd & Hf & _).
  rewrite !fmap_cons, Hp, Hf, Hnames, Hfields. by repeat constructor.
Qed.

(** Scoping a criterion to an option changes nothing of what it asks alone. *)
Lemma scoped_answers b d path m c crit :
  criterion_answers d path m c crit → criterion_answers d path m c (set_option_scoped b crit).
Proof. done. Qed.

Lemma build_each_sent q params ds :
  Forall3 sent_as q params ds → Forall representable q →
  ∃ crits, build_each filters [] params = Ok crits ∧ Forall2 honours q crits.
Proof using Hsound Hsensible Hpaths.
  induction 1 as [|c param d q params ds Hs _ IH]; intros Hrep; [by exists []|].
  inversion Hrep as [|? ? Hc Hrest]; subst. destruct (IH Hrest) as (crits & Hbuild & Hh).
  destruct (sent_built c param d Hs Hc) as (Hp & Hw & path & Hpath & Hcrit).
  destruct param as [p wire]. simpl in Hp, Hw, Hcrit. subst p. cbn [build_each].
  destruct Hs as (Hd & Hf & Ha & _). rewrite bool_decide_eq_false_2, (named_filter filters Hsound) by done.
  cbn [alist_get]. rewrite Hcrit. cbn [mbind result_bind]. rewrite Hbuild. cbn [mbind result_bind].
  eexists. split; [done|]. constructor; [|done]. exists d, path. split_and!; [done..|].
  apply scoped_answers, evaluate_criterion; [|done..].
  by eapply Forall_forall in Hsensible.
Qed.

Lemma co_requirements_supplied ds :
  Forall (λ d, d ∈ filters) ds → co_requirements_met descriptors (own_query_name <$> ds) →
  co_required filters (fl_name <$> ds) = true.
Proof using Hsound.
  intros Hds Hco. apply forallb_Forall, Forall_forall. intros n Hn.
  apply list_elem_of_fmap in Hn as (d & -> & Hd). rewrite Forall_forall in Hds.
  rewrite (named_filter filters Hsound) by by apply Hds. apply forallb_Forall, Forall_forall. intros t Ht.
  apply bool_decide_eq_true. destruct (target_filter filters Hsound d t (Hds d Hd) Ht) as (d' & Hd' & <- & Htn).
  assert (own_query_name d' ∈ own_query_name <$> ds) as Hin.
  { apply (Hco (rf_descriptor (field_of filters d))).
    - unfold descriptors, fields. rewrite <-list_fmap_compose.
      by apply (list_elem_of_fmap_2 (rf_descriptor ∘ field_of filters)), Hds.
    - by apply (list_elem_of_fmap_2 own_query_name).
    - simpl. rewrite <-Htn. by apply list_elem_of_fmap_2. }
  apply list_elem_of_fmap in Hin as (d2 & Heq & Hd2).
  apply (own_query_name_inj filters Hsound) in Heq as ->; [|done|by apply Hds]. by apply list_elem_of_fmap_2.
Qed.

Lemma parameters_distinct ds :
  Forall (λ d, d ∈ filters) ds → fields_once descriptors (own_query_name <$> ds) → NoDup (fl_name <$> ds).
Proof using Hsound.
  intros Hds Ho. rewrite Forall_forall in Hds. apply (NoDup_fmap_2_strong fl_name).
  - intros d d' Hd Hd' Heq. pose proof (named_filter filters Hsound d (Hds d Hd)) as H1.
    rewrite Heq, (named_filter filters Hsound d') in H1 by by apply Hds. by injection H1.
  - apply (NoDup_fmap_1 own_query_name). apply at_most_once_NoDup.
    intros n (d & -> & Hd)%list_elem_of_fmap.
    apply (Ho (rf_descriptor (field_of filters d))); [|done].
    unfold descriptors, fields. rewrite <-list_fmap_compose.
    by apply (list_elem_of_fmap_2 (rf_descriptor ∘ field_of filters)), Hds.
Qed.
End composition.

(** C35: a registry honours what a client compiles against the vocabulary it
    serves.  From a sound specification whose filters have names a request may
    carry (and no override's), whose ranges are of numbers, whose presences are
    boolean, and whose paths parse, a query that compiles and whose comparisons
    are representable (exact decimal texts, and no comparison with the empty text
    alone) becomes parameters of distinct names that the registry accepts
    together, co-requirements included, and builds into one criterion per
    comparison, in order.  Each is the criterion of the filter the comparison
    names, at the filter's path, scoped to one settlement option if the path looks
    into options; on a listing whose path shows no list, object or NaN it answers
    whether the values shown compare, strictly or not, in the set or not, with the
    literals the buyer wrote, and the filter's rule for missing values answers
    where nothing comparable is shown. *)
Theorem registry_honours_compiled_query `{!JsonPath, !LifecycleTerms} filters source spec url q :
  sound_spec filters → Forall sendable filters → Forall (λ d, ¬ is_override (fl_name d)) filters →
  Forall sensible filters → Forall (λ d, is_ok (jsonpath_parse (fl_path d)) = true) filters →
  fr_filters spec = served <$> filters →
  compile_resource_query source spec url = Ok q →
  ∃ validated, compile_query source (rf_descriptor <$> (field_of filters <$> filters)) = Ok validated ∧
    (Forall representable validated →
      NoDup (rq_parameters q).*1 ∧
      ∃ criteria, build_criteria filters (rq_parameters q) = Ok criteria ∧
        Forall2 (honours filters) validated criteria).
Proof.
  intros Hsound Hsend Hover Hsens Hpaths Hspec. unfold compile_resource_query.
  case_bool_decide; [done|]. case_bool_decide; [done|].
  rewrite Hspec, client_reads_served_vocabulary by done. cbn [mbind result_bind].
  destruct (compile_query source _) as [validated|] eqn:Hc; [|done]. cbn [mbind result_bind].
  destruct (compile_parameters _ validated) as [params|] eqn:Hp; [|done]. cbn [mbind result_bind].
  destruct (render_canonical_query validated); [|done]. intros [= <-]. exists validated. split; [done|].
  intros Hrep. cbn [rq_parameters]. unfold compile_query in Hc. destruct (parse_query source) as [e|]; [|done].
  apply validate_query_typing in Hc as [_ Hq Honce Hco].
  destruct (parameters_sent filters Hsound _ _ _ Hq Hp) as [ds Hsent].
  destruct (sent_parameters filters Hsens Hpaths _ _ _ Hsent Hrep) as (Hnames & Hwires & Hfields & Hds).
  rewrite Hfields in Honce, Hco. rewrite Hnames.
  split; [by eapply parameters_distinct|]. unfold build_criteria.
  rewrite extract_no_override.
  2: { apply Forall_forall. intros kv Hkv. apply (list_elem_of_fmap_2 fst) in Hkv. rewrite Hnames in Hkv.
       apply list_elem_of_fmap in Hkv as (d & -> & Hd). rewrite Forall_forall in Hover, Hds. by apply Hover, Hds. }
  cbn [mbind result_bind]. rewrite supplied_all, Hnames, co_requirements_supplied by done. simpl negb. cbv iota.
  by eapply build_each_sent.
Qed.

(** * Filters, queries and listings to try the client and the registry on: what a
    query becomes on the wire, what listings pass, and instances of the theorems. *)

Local Close Scope string_scope.
Local Open Scope Z_scope.
Local Open Scope string_scope.
Local Open Scope list_scope.

(** ** Paths of one member, and options that state no terms *)

#[export] Instance member_path : JsonPath := {|
  jsonpath := string;
  jsonpath_parse p := match str_after "$." p with Some k => Ok k | None => Err (ValueError "not a path") end;
  find k listing := match dict_get k listing with
                    | VList l => l
                    | VNone => []
                    | v => [v]
                    end;
|}.

#[export] Instance no_terms : LifecycleTerms := {|
  LIFECYCLE_QUERY_FIELDS := ["early_termination.payer"; "early_termination.payee"];
  project_terms v :=
    if is_none v then Ok [("early_termination.payer", VBool false); ("early_termination.payee", VBool false)]
    else Err (ValueError "terms are not an object");
|}.

(** ** A specification *)

Definition decl (name path : string) (query_name : option string) (o : Op) (ty : ValueType)
    (k : option AliasKind) (m : OnMissing) (requires : list string) : FilterDecl :=
  {| fl_name := name; fl_path := path; fl_query_name := query_name; fl_query_aliases := []; fl_op := o;
     fl_value_type := ty; fl_alias_kind := k; fl_on_missing := m; fl_indexed := false; fl_requires := requires |}.

Definition gpu_model := decl "gpu_model" "$.gpu_model" None op_in vt_string None om_fail [].
Definition ram_gb_min := decl "ram_gb_min" "$.ram_gb" (Some "ram_gb") op_range vt_number (Some lower_bound) om_fail [].
Definition price_asset := decl "price_asset" "$.asset" None op_in vt_address None om_fail [].
Definition price := decl "price" "$.price" None op_range vt_decimal_text None om_fail ["price_asset"].
Definition region_exclude := decl "region_exclude" "$.region" None op_not_in vt_string None om_pass [].
Definition has_oracle := decl "has_oracle" "$.oracle_address" None op_exists vt_boolean None om_fail [].

Definition demo_filters : list FilterDecl :=
  [gpu_model; ram_gb_min; price_asset; price; region_exclude; has_oracle].

Definition demo_spec : FilterSpecResponse :=
  {| fr_etag := "e1"; fr_filters := served <$> demo_filters; fr_schema_id := None; fr_schema_version := None |}.

Lemma demo_filters_sound : sound_spec demo_filters.
Proof. apply check_filter_spec_sound. vm_compute. reflexivity. Qed.

Definition demo_listing : dict :=
  [("gpu_model", VList [VStr "H200"; VStr "A100"]); ("ram_gb", VInt 64); ("price", VStr "1.250");
   ("asset", VStr "0xusd"); ("oracle_address", VStr "0x01")].

(** ** Queries *)

Definition demo_text : string :=
  "gpu_model in [H100,H200] ram_gb>=16 price<2.50 price_asset=0xusd region_exclude notin [Texas] has_oracle=true".

Definition parameters_of (source : string) : option (list (string * string)) :=
  match compile_resource_query source demo_spec "https://registry/" with
  | Ok q => Some (rq_parameters q)
  | Err _ => None
  end.

Example demo_parameters : parameters_of demo_text =
  Some [("gpu_model", "in:[H100,H200]"); ("ram_gb_min", "16"); ("price", "range:(,2.5)");
        ("price_asset", "0xusd"); ("region_exclude", "not_in:[Texas]"); ("has_oracle", "exists:true")].
Proof. vm_compute. reflexivity. Qed.

Definition answer (listing : dict) (params : query_params) : result bool :=
  criteria ← build_criteria demo_filters params; evaluate_all listing criteria.

Definition asked (listing : dict) (source : string) : option (result bool) :=
  answer listing <$> parameters_of source.

Example demo_listing_passes : asked demo_listing demo_text = Some (Ok true).
Proof. vm_compute. reflexivity. Qed.

Example demo_listing_too_dear : asked demo_listing "price<=1.2499 price_asset=0xusd" = Some (Ok false).
Proof. vm_compute. reflexivity. Qed.

(** A co-requirement is refused on both sides. *)
Example price_needs_asset :
  parameters_of "price<2" = None ∧
  answer demo_listing [("price", "range:(,2)")] = Err (FilterParamError "requires another filter").
Proof. by vm_compute. Qed.

(** An override of a rule for missing values. *)
Example strict_overrides :
  answer [] [("region_exclude", "not_in:[Texas]")] = Ok true ∧
  answer [] [("region_exclude", "not_in:[Texas]"); ("strict.region_exclude", "Yes")] = Ok false.
Proof. by vm_compute. Qed.

(** ** What the wire cannot say *)

(** Equality with the empty text is sent as an empty parameter, which the registry
    drops: every listing passes. *)
Example empty_equality_passes_everything :
  parameters_of ("gpu_model=" +:+ quoted "") = Some [("gpu_model", "")] ∧
  asked demo_listing ("gpu_model=" +:+ quoted "") = Some (Ok true).
Proof. by vm_compute. Qed.

(** Membership in the list of the empty text alone is sent as the empty list: no
    listing passes, not even one that shows the empty text. *)
Example empty_membership_passes_nothing :
  parameters_of ("gpu_model in [" +:+ quoted "" +:+ "]") = Some [("gpu_model", "in:[]")] ∧
  asked [("gpu_model", VStr "")] ("gpu_model in [" +:+ quoted "" +:+ "]") = Some (Ok false).
Proof. by vm_compute. Qed.

(** A NaN is refused as a bound of decimal text but is a bound of numbers, and one
    that every number is within. *)
Example nan_bound_excludes_nothing :
  answer demo_listing [("ram_gb_min", "nan")] = Ok true ∧
  answer demo_listing [("price_asset", "0xusd"); ("price", "range:[NaN,)")]
    = Err (FilterParamError "expected finite decimal text").
Proof. by vm_compute. Qed.

(** A bound of numbers is the nearest binary64: a listing that shows the very number
    passes the strict bound when that rounds down. *)
Example neighbour_of_bound :
  asked [("ram_gb", VInt 9007199254740993)] "ram_gb>9007199254740993" = Some (Ok true).
Proof. vm_compute. reflexivity. Qed.

(** A path that shows a list of lists ends the request of a membership filter. *)
Example nested_list_raises :
  answer [("gpu_model", VList [VList []])] [("gpu_model", "H200")] = Err (TypeError "unhashable type").
Proof. by vm_compute. Qed.

(** Lifecycle predicates and the asset are asked of one and the same option. *)
Definition lifecycle_filters : list FilterDecl :=
  [decl "option_asset" "$.settlement_options[*].price.asset" None op_in vt_address None om_fail [];
   decl "early_termination.payer" "$.x" None op_in vt_boolean None om_fail []].

Definition option_of (asset : string) (terms : value) : value :=
  VDict [("price", VDict [("asset", VStr asset)]); ("lifecycle", terms)].

Example one_option_answers_both :
  let ask options := criteria ← build_criteria lifecycle_filters
      [("option_asset", "0xusd"); ("early_termination.payer", "false")];
    evaluate_all [("settlement_options", VList options)] criteria in
  ask [option_of "0xusd" (VDict []); option_of "0xeur" VNone] = Ok false ∧
  ask [option_of "0xeur" VNone; option_of "0xusd" VNone] = Ok true.
Proof. by vm_compute. Qed.

(** ** Instances of the theorems *)

Definition dear : ValidatedComparison :=
  {| vc_field := "price"; vc_operator := LESS_THAN; vc_value := LScalar (SDec (Dec 250 (-2)));
     vc_span := Span 0 0 |}.

Lemma dear_accepted : accepted_for price dear.
Proof. constructor; [by left|done|done|by repeat constructor]. Qed.

Lemma compiled_comparison_means_witness :
  "price" = fl_name price ∧ "range:(,2.5)" ≠ "" ∧
  ∃ crit, _build_criterion price "range:(,2.5)" om_fail = Ok crit ∧
    criterion_answers price "price" om_fail dear crit.
Proof.
  eapply (compiled_comparison_means price (field_of demo_filters price) dear om_fail "price" "range:(,2.5)").
  - by split_and!.
  - by right; left.
  - apply dear_accepted.
  - split; [apply Forall_cons_2; [right; vm_compute; done|constructor]|done].
  - vm_compute. reflexivity.
  - reflexivity.
Defined.

Definition demo_query : CompiledResourceQuery :=
  match compile_resource_query demo_text demo_spec "https://registry/" with
  | Ok q => q
  | Err _ => {| rq_registry_url := ""; rq_etag := ""; rq_schema_id := None; rq_schema_version := None;
                rq_canonical_query := ""; rq_parameters := [] |}
  end.

Lemma registry_honours_compiled_query_witness :
  ∃ validated, compile_query demo_text (rf_descriptor <$> (field_of demo_filters <$> demo_filters)) = Ok validated ∧
    (Forall representable validated →
      NoDup (rq_parameters demo_query).*1 ∧
      ∃ criteria, build_criteria demo_filters (rq_parameters demo_query) = Ok criteria ∧
        Forall2 (honours demo_filters) validated criteria).
Proof.
  apply (registry_honours_compiled_query demo_filters demo_text demo_spec "https://registry/" demo_query).
  - apply demo_filters_sound.
  - repeat (constructor; [split; [done|intros Hin%list_elem_of_In; vm_compute in Hin; intuition discriminate]|]).
    constructor.
  - repeat (constructor; [intros [? [=]]|]); constructor.
  - repeat (constructor; [vm_compute; (done || by repeat constructor)|]); constructor.
  - repeat constructor.
  - reflexivity.
  - vm_compute. reflexivity.
Defined.
