(* ===== verification/PyJson.v ===== *)
(** [json.loads], as a reader of one value: white space, literals (with the NaN
    and infinities Python accepts), numbers, strings, arrays and objects.  Of
    equal keys the last value counts, in the first key's place.  A text nested
    deeper than the interpreter's stack is not modelled. *)
From S2P Require Import Prelude PyNum PyValue PyText QueryDsl PyWire QueryLexer.
From Stdlib Require Import Ascii SpecFloat.
From Stdlib Require Import Ascii.

Local Open Scope string_scope.
Local Open Scope list_scope.
Local Open Scope Z_scope.

Fixpoint skip_json_space (l : chars) : chars :=
  match l with
  | c :: l' => if bool_decide (code c ∈ [32; 9; 10; 13]) then skip_json_space l' else l
  | [] => []
  end.

(** An optional part of a number: its text and what follows. *)
Definition fraction_part (l : chars) : chars * chars :=
  match l with
  | "."%char :: l' =>
      let '(digits, rest) := span is_ascii_digit l' in
      if is_nil digits then ([], l) else ("."%char :: digits, rest)
  | _ => ([], l)
  end.

Definition exponent_part (l : chars) : chars * chars :=
  match l with
  | e :: l' =>
      if bool_decide (e = "e"%char ∨ e = "E"%char) then
        let '(sign, l') := match l' with
                           | "-"%char :: l' => (["-"%char], l')
                           | "+"%char :: l' => (["+"%char], l')
                           | _ => ([], l')
                           end in
        let '(digits, rest) := span is_ascii_digit l' in
        if is_nil digits then ([], l) else (e :: sign ++ digits, rest)
      else ([], l)
  | [] => ([], l)
  end.

Definition json_number (l : chars) : option (value * chars) :=
  let '(sign, l) := match l with "-"%char :: l => (["-"%char], l) | _ => ([], l) end in
  let '(whole, l) := match l with
                     | "0"%char :: l => (["0"%char], l)
                     | _ => span is_ascii_digit l
                     end in
  if is_nil whole then None else
  let '(fraction, l) := fraction_part l in
  let '(exponent, l) := exponent_part l in
  let text := of_chars (sign ++ whole ++ fraction ++ exponent) in
  if is_nil fraction && is_nil exponent
  then (λ z, (VInt z, l)) <$> int_of_text text
  else (λ f, (VNum (NFloat f), l)) <$> float_of_text text.

Definition json_literals : list (string * value) :=
  [("null", VNone); ("true", VBool true); ("false", VBool false);
   ("NaN", VNum (NFloat S754_nan)); ("Infinity", VNum (NFloat (S754_infinity false)));
   ("-Infinity", VNum (NFloat (S754_infinity true)))]%string.

Fixpoint json_literal (literals : list (string * value)) (l : chars) : option (value * chars) :=
  match literals with
  | [] => None
  | (name, v) :: literals =>
      match strip_prefix (to_chars name) l with
      | Some rest => Some (v, rest)
      | None => json_literal literals l
      end
  end.

(** The rest of a string after its opening quote. *)
Definition json_text (l : chars) : option (string * chars) :=
  match closing false l with
  | Some (body, rest) => (λ s, (of_chars s, rest)) <$> json_string_of (quote :: body)
  | None => None
  end.

Fixpoint json_value (fuel : nat) (l : chars) : option (value * chars) :=
  match fuel with
  | O => None
  | S fuel =>
      match skip_json_space l with
      | [] => None
      | (c :: l') as l =>
          if bool_decide (c = quote) then '(s, rest) ← json_text l'; Some (VStr s, rest)
          else if bool_decide (c = "["%char) then
            match skip_json_space l' with
            | "]"%char :: rest => Some (VList [], rest)
            | _ => '(vs, rest) ← json_elements fuel l'; Some (VList vs, rest)
            end
          else if bool_decide (c = "{"%char) then
            match skip_json_space l' with
            | "}"%char :: rest => Some (VDict [], rest)
            | _ => '(d, rest) ← json_members fuel [] l'; Some (VDict d, rest)
            end
          else match json_literal json_literals l with
               | Some r => Some r
               | None => json_number l
               end
      end
  end
with json_elements (fuel : nat) (l : chars) : option (list value * chars) :=
  match fuel with
  | O => None
  | S fuel =>
      '(v, l) ← json_value fuel l;
      match skip_json_space l with
      | ","%char :: l => '(vs, l) ← json_elements fuel l; Some (v :: vs, l)
      | "]"%char :: l => Some ([v], l)
      | _ => None
      end
  end
with json_members (fuel : nat) (d : dict) (l : chars) : option (dict * chars) :=
  match fuel with
  | O => None
  | S fuel =>
      match skip_json_space l with
      | c :: l =>
          if bool_decide (c = quote) then
            '(k, l) ← json_text l;
            match skip_json_space l with
            | ":"%char :: l =>
                '(v, l) ← json_value fuel l;
                match skip_json_space l with
                | ","%char :: l => json_members fuel (dict_set k v d) l
                | "}"%char :: l => Some (dict_set k v d, l)
                | _ => None
                end
            | _ => None
            end
          else None
      | [] => None
      end
  end.

(** [json.loads(s)]; [None] is a [ValueError].  Every recursive call but the
    elements' own follows a character that was read. *)
Definition json_loads (s : string) : option value :=
  let l := to_chars s in
  match json_value (2 * List.length l + 2) l with
  | Some (v, rest) => if is_nil (skip_json_space rest) then Some v else None
  | None => None
  end.

(** Single quotes stand for double ones. *)
Example json_reads :
  let j s := json_loads (of_chars ((λ c, if bool_decide (c = "'"%char) then quote else c) <$> to_chars s)) in
  j " [1, -2.5e1 , 'a\u0041', {'k': null, 'k': true}, [], {}] " =
    Some (VList [VInt 1; VNum (NFloat (float_of_dec (Dec (-25) 0))); VStr "aA"; VDict [("k", VBool true)]; VList []; VDict []])
  ∧ j "01" = None ∧ j "[1,]" = None ∧ j "-Infinity" = Some (VNum (NFloat (S754_infinity true)))
  ∧ j "[1" = None ∧ j " " = None ∧ j "1.e" = None ∧ j "'a" = None.
Proof. vm_compute. by split_and!. Qed.

(** * [json.loads] reads on: every value leaves less text than it was given, so the
    fuel of PyJson.v, two per character, is enough, and more changes nothing. *)

Local Close Scope Z_scope.
Local Close Scope string_scope.
Local Open Scope Z_scope.

(** ** What is read is consumed *)

Lemma skip_json_space_le l : (length (skip_json_space l) ≤ length l)%nat.
Proof. induction l as [|c l IH]; simpl; [done|]. case_bool_decide; simpl; lia. Qed.

Lemma span_le p l : (length (span p l).2 ≤ length l)%nat.
Proof. induction l as [|c l IH]; simpl; [done|]. destruct (p c), (span p l); simpl in *; lia. Qed.

Lemma span_lt p l : is_nil (span p l).1 = false → (length (span p l).2 < length l)%nat.
Proof.
  destruct l as [|c l]; simpl; [done|]. pose proof (span_le p l).
  destruct (p c), (span p l); simpl in *; [lia|done].
Qed.

Lemma fraction_part_le l : (length (fraction_part l).2 ≤ length l)%nat.
Proof.
  unfold fraction_part. destruct l as [|[[] [] [] [] [] [] [] []] l]; simpl; try lia.
  pose proof (span_le is_ascii_digit l). destruct (span is_ascii_digit l) as [a b]. destruct (is_nil a); simpl in *; lia.
Qed.

(** An optional sign. *)
Lemma signed_rest_le (l : chars) (m : list ascii * chars) :
  m = match l with
      | "-"%char :: l' => (["-"%char], l') | "+"%char :: l' => (["+"%char], l') | _ => ([], l)
      end → (length m.2 ≤ length l)%nat.
Proof. intros ->. destruct l as [|[[] [] [] [] [] [] [] []] l]; simpl; lia. Qed.

Lemma exponent_part_le l : (length (exponent_part l).2 ≤ length l)%nat.
Proof.
  unfold exponent_part. destruct l as [|c l]; [done|]. case_bool_decide; [|done].
  match goal with |- context [match l with _ => _ end] =>
    pose proof (signed_rest_le l _ eq_refl) as Hs; destruct (match l with
      | "-"%char :: l' => (["-"%char], l') | "+"%char :: l' => (["+"%char], l') | _ => ([], l)
      end) as [sign r] end.
  simpl in Hs. pose proof (span_le is_ascii_digit r). destruct (span is_ascii_digit r) as [a b].
  destruct (is_nil a); simpl in *; lia.
Qed.

Lemma whole_part_lt (l : chars) (m : chars * chars) :
  m = match l with "0"%char :: l => (["0"%char], l) | _ => span is_ascii_digit l end →
  is_nil m.1 = false → (length m.2 < length l)%nat.
Proof.
  intros -> Hm. pose proof (span_lt is_ascii_digit l) as H.
  destruct l as [|[[] [] [] [] [] [] [] []] l]; simpl in *; auto; lia.
Qed.

Lemma unsigned_le (l : chars) (m : list ascii * chars) :
  m = match l with "-"%char :: l => (["-"%char], l) | _ => ([], l) end → (length m.2 ≤ length l)%nat.
Proof. intros ->. destruct l as [|[[] [] [] [] [] [] [] []] l]; simpl; lia. Qed.

Lemma json_number_lt l v rest : json_number l = Some (v, rest) → (length rest < length l)%nat.
Proof.
  unfold json_number.
  match goal with |- context [match l with _ => _ end] => pose proof (unsigned_le l _ eq_refl) as H1;
    destruct (match l with "-"%char :: l => (["-"%char], l) | _ => ([], l) end) as [sign l1] end.
  match goal with |- context [match l1 with _ => _ end] => pose proof (whole_part_lt l1 _ eq_refl) as H2;
    destruct (match l1 with "0"%char :: l => (["0"%char], l) | _ => span is_ascii_digit l1 end) as [whole l2] end.
  destruct (is_nil whole) eqn:Hw; [done|]. specialize (H2 Hw).
  pose proof (fraction_part_le l2) as H3. destruct (fraction_part l2) as [fr l3].
  pose proof (exponent_part_le l3) as H4. destruct (exponent_part l3) as [ex l4]. simpl in *.
  destruct (_ && _).
  - destruct (int_of_text _); simpl; [|done]. intros [= _ <-]. lia.
  - destruct (float_of_text _); simpl; [|done]. intros [= _ <-]. lia.
Qed.

Lemma json_literal_lt lits l v rest :
  Forall (λ x, x.1 ≠ ""%string) lits → json_literal lits l = Some (v, rest) → (length rest < length l)%nat.
Proof.
  induction 1 as [|[name w] lits Hne _ IH]; simpl; [done|].
  destruct (strip_prefix (to_chars name) l) as [r|] eqn:Hp; [|done]. intros [= _ <-].
  apply strip_prefix_Some in Hp as ->. rewrite length_app.
  destruct name; [done|]. simpl. lia.
Qed.

Lemma json_literals_named : Forall (λ x, x.1 ≠ ""%string) json_literals.
Proof. repeat constructor; done. Qed.

Lemma json_text_lt l s rest : json_text l = Some (s, rest) → (length rest < length l)%nat.
Proof.
  unfold json_text. destruct (closing false l) as [[body r]|] eqn:Hc; [|done].
  destruct (json_string_of _); simpl; [|done]. intros [= _ <-].
  pose proof (closing_Some _ _ _ _ Hc) as ->. rewrite length_app.
  destruct body; [|simpl; lia]. exfalso. revert Hc. destruct r; simpl; [done|].
  destruct (_ && _); [done|]. by destruct (closing _ r) as [[]|].
Qed.

(** A reader of a part of a text. *)
Definition consumes {A} (n : nat) (x : option (A * chars)) : Prop :=
  match x with Some (_, rest) => (length rest < n)%nat | None => True end.

Ltac on_char l := destruct l as [|[[] [] [] [] [] [] [] []] ?]; try exact I; try done.

#[local] Arguments json_literal : simpl never.
#[local] Arguments json_number : simpl never.
#[local] Arguments json_text : simpl never.

Lemma json_consumes fuel :
  (∀ l, consumes (length l) (json_value fuel l)) ∧
  (∀ l, consumes (length l) (json_elements fuel l)) ∧
  (∀ d l, consumes (length l) (json_members fuel d l)).
Proof.
  induction fuel as [|fuel (IHv & IHe & IHm)]; [done|]. split_and!.
  - intros l. simpl. pose proof (skip_json_space_le l) as Hl.
    destruct (skip_json_space l) as [|c r] eqn:Hr; [done|]. simpl in Hl.
    case_bool_decide; [|case_bool_decide; [|case_bool_decide]].
    + destruct (json_text r) as [[s rest]|] eqn:Ht; [|done]. apply json_text_lt in Ht. simpl. lia.
    + pose proof (skip_json_space_le r) as Hr'. pose proof (IHe r) as IHe.
      destruct (json_elements fuel r) as [[vs rest]|]; simpl in IHe;
        on_char (skip_json_space r); simpl in *; lia.
    + pose proof (skip_json_space_le r) as Hr'. pose proof (IHm [] r) as IHm.
      destruct (json_members fuel [] r) as [[vs rest]|]; simpl in IHm;
        on_char (skip_json_space r); simpl in *; lia.
    + destruct (json_literal json_literals (c :: r)) as [[v rest]|] eqn:Hj.
      * apply json_literal_lt in Hj; [|exact json_literals_named]. simpl in *. lia.
      * destruct (json_number (c :: r)) as [[v rest]|] eqn:Hn; [|done].
        apply json_number_lt in Hn. simpl in *. lia.
  - intros l. simpl. pose proof (IHv l) as Hv. destruct (json_value fuel l) as [[v r]|]; [simpl in *|done].
    pose proof (skip_json_space_le r) as Hr. destruct (skip_json_space r) as [|c r'] eqn:Hs; [done|].
    pose proof (IHe r') as He. destruct (json_elements fuel r') as [[vs rest]|]; simpl in He;
      destruct c as [[] [] [] [] [] [] [] []]; try exact I; simpl in *; lia.
  - intros d l. simpl. pose proof (skip_json_space_le l) as Hl.
    destruct (skip_json_space l) as [|c l1] eqn:Hs; [done|]. case_bool_decide; [|done].
    destruct (json_text l1) as [[k l2]|] eqn:Ht; [|done]. apply json_text_lt in Ht. simpl in *.
    pose proof (skip_json_space_le l2) as Hl2. on_char (skip_json_space l2).
    match goal with |- context [json_value fuel ?x] => rename x into l3 end.
    pose proof (IHv l3) as Hv. destruct (json_value fuel l3) as [[v l4]|]; [simpl in *|done].
    pose proof (skip_json_space_le l4) as Hl4. destruct (skip_json_space l4) as [|c' l5]; [done|].
    pose proof (IHm (dict_set k v d) l5) as Hm.
    destruct (json_members fuel (dict_set k v d) l5) as [[d' rest]|]; simpl in Hm;
      destruct c' as [[] [] [] [] [] [] [] []]; try exact I; simpl in *; lia.
Qed.

(** ** Fuel *)

(** With two per character and one more, a value reads the same whatever the fuel. *)
Lemma json_fuel_irrelevant n :
  (∀ m l, (2 * length l + 1 ≤ n)%nat → (2 * length l + 1 ≤ m)%nat → json_value n l = json_value m l) ∧
  (∀ m l, (2 * length l + 2 ≤ n)%nat → (2 * length l + 2 ≤ m)%nat → json_elements n l = json_elements m l) ∧
  (∀ m d l, (2 * length l + 2 ≤ n)%nat → (2 * length l + 2 ≤ m)%nat → json_members n d l = json_members m d l).
Proof.
  induction n as [|n (IHv & IHe & IHm)]; [split_and!; intros; lia|].
  split_and!; intros [|m]; try (intros; lia).
  - intros l Hn Hm. simpl. pose proof (skip_json_space_le l) as Hl.
    destruct (skip_json_space l) as [|c r]; [done|]. simpl in Hl.
    rewrite (IHe m r), (IHm m [] r) by lia. done.
  - intros l Hn Hm. simpl. rewrite (IHv m l) by lia.
    pose proof (proj1 (json_consumes m) l) as Hv. destruct (json_value m l) as [[v r]|]; [simpl in *|done].
    pose proof (skip_json_space_le r) as Hr. destruct (skip_json_space r) as [|c r']; [done|].
    simpl in Hr. rewrite (IHe m r') by lia. done.
  - intros d l Hn Hm. simpl. pose proof (skip_json_space_le l) as Hl.
    destruct (skip_json_space l) as [|c l1]; [done|]. case_bool_decide; [|done].
    destruct (json_text l1) as [[k l2]|] eqn:Ht; [|done]. apply json_text_lt in Ht. simpl in *.
    pose proof (skip_json_space_le l2) as Hl2. on_char (skip_json_space l2).
    match goal with |- context [json_value n ?x] => rename x into l3 end. simpl in *.
    rewrite (IHv m l3) by lia. pose proof (proj1 (json_consumes m) l3) as Hv.
    destruct (json_value m l3) as [[v l4]|]; [simpl in *|done].
    pose proof (skip_json_space_le l4) as Hl4. destruct (skip_json_space l4) as [|c' l5]; [done|].
    simpl in Hl4. rewrite (IHm m (dict_set k v d) l5) by lia. done.
Qed.

(** [json.loads] is what any larger fuel gives. *)
Lemma json_loads_fuel fuel s :
  (2 * length (to_chars s) + 2 ≤ fuel)%nat →
  json_loads s = match json_value fuel (to_chars s) with
                 | Some (v, rest) => if is_nil (skip_json_space rest) then Some v else None
                 | None => None
                 end.
Proof.
  intros Hf. unfold json_loads.
  by rewrite (proj1 (json_fuel_irrelevant _) fuel (to_chars s)) by lia.
Qed.
