(* ===== verification/Negotiation.v ===== *)
(** Negotiation policies as chains of middlewares ([market_policy]:
    negotiation_middleware.py and listing_source.py): the transcript, decisions,
    the context a chain threads, the chain runner, and the guards that know no
    domain.  A proposal is a JSON object; where a middleware explains a refusal,
    the reason's tag is kept and the values it prints are not. *)
From S2P Require Import Prelude PyNum PyValue.

Local Open Scope Z_scope.
Local Open Scope string_scope.
Local Open Scope list_scope.

(** ** Transcript and decisions *)

Inductive Sender : Type := us | them.
#[export] Instance Sender_eq_dec : EqDecision Sender.
Proof. solve_decision. Defined.

Inductive RoundAction : Type := r_initial | r_counter | r_accept | r_exit | r_reject.
#[export] Instance RoundAction_eq_dec : EqDecision RoundAction.
Proof. solve_decision. Defined.

Record NegotiationRound : Type := {
  nr_round_number : Z;
  nr_sender : Sender;
  nr_action : RoundAction;
  nr_proposal : option dict;
}.

Inductive DecisionAction : Type := d_accept | d_counter | d_exit | d_reject.
#[export] Instance DecisionAction_eq_dec : EqDecision DecisionAction.
Proof. solve_decision. Defined.

Record NegotiationDecision : Type := {
  nd_action : DecisionAction;
  nd_proposal : option dict;
  nd_reason : option string;
}.

Definition decision (a : DecisionAction) (p : option dict) (reason : option string) : NegotiationDecision :=
  {| nd_action := a; nd_proposal := p; nd_reason := reason |}.

(** ** What a listing's source says *)

Inductive ListingSourceOutcome : Type := matches | declared_mismatch | unavailable | unverifiable.
#[export] Instance ListingSourceOutcome_eq_dec : EqDecision ListingSourceOutcome.
Proof. solve_decision. Defined.

Record ListingSourceRefusal : Type := { lr_reason : string; lr_retryable : bool }.

Definition NO_MATCHING_DECLARATION : string := "no_matching_declaration".
Definition NO_MATCHING_INVENTORY : string := "no_matching_inventory".
Definition LISTING_SOURCE_UNVERIFIABLE : string := "listing_source_unverifiable".

(** A missing verdict is refused as a declared mismatch. *)
Definition classify_listing_source (verdict : option ListingSourceOutcome) : option ListingSourceRefusal :=
  match verdict with
  | None | Some declared_mismatch => Some {| lr_reason := NO_MATCHING_DECLARATION; lr_retryable := false |}
  | Some matches => None
  | Some unavailable => Some {| lr_reason := NO_MATCHING_INVENTORY; lr_retryable := false |}
  | Some unverifiable => Some {| lr_reason := LISTING_SOURCE_UNVERIFIABLE; lr_retryable := true |}
  end.

(** ** Context and chains *)

Record NegotiationContext : Type := {
  cx_direction : string;
  cx_our_reference_amount : value;
  cx_our_opening_amount : value;
  cx_listing : dict;
  cx_our_escrow_proposal : option dict;
  cx_max_rounds : Z;
  cx_listing_source : option ListingSourceOutcome;
  cx_intermediate : dict;
}.

(** [context.intermediate[k] = v]. *)
Definition set_intermediate (k : string) (v : value) (c : NegotiationContext) : NegotiationContext :=
  {| cx_direction := cx_direction c; cx_our_reference_amount := cx_our_reference_amount c;
     cx_our_opening_amount := cx_our_opening_amount c; cx_listing := cx_listing c;
     cx_our_escrow_proposal := cx_our_escrow_proposal c; cx_max_rounds := cx_max_rounds c;
     cx_listing_source := cx_listing_source c; cx_intermediate := dict_set k v (cx_intermediate c) |}.

Definition NegotiationStep : Type := option NegotiationDecision * NegotiationContext.
Definition NegotiationMiddleware : Type :=
  list NegotiationRound → NegotiationContext → result NegotiationStep.

Definition pass (c : NegotiationContext) : result NegotiationStep := Ok (None, c).
Definition decide_on (d : NegotiationDecision) (c : NegotiationContext) : result NegotiationStep := Ok (Some d, c).
Definition reject (reason : string) : NegotiationContext → result NegotiationStep :=
  decide_on (decision d_reject None (Some reason)).

Definition their_last_proposal (history : list NegotiationRound) : option dict :=
  head (omap (λ r, if bool_decide (nr_sender r = them) then nr_proposal r else None) (reverse history)).

Definition our_first_proposal (history : list NegotiationRound) : option dict :=
  head (omap (λ r, if bool_decide (nr_sender r = us) then nr_proposal r else None) history).

Fixpoint run_negotiation_chain_with_context (chain : list NegotiationMiddleware)
    (history : list NegotiationRound) (context : NegotiationContext)
    : result (NegotiationDecision * NegotiationContext) :=
  match chain with
  | [] => Err NegotiationChainExhausted
  | middleware :: chain =>
      '(d, context) ← middleware history context;
      match d with
      | Some d => Ok (d, context)
      | None => run_negotiation_chain_with_context chain history context
      end
  end.

Definition run_negotiation_chain (chain : list NegotiationMiddleware)
    (history : list NegotiationRound) (context : NegotiationContext) : result NegotiationDecision :=
  fst <$> run_negotiation_chain_with_context chain history context.

Section loading.
(** The middleware an installed distribution's entry point of a name loads. *)
Context (entry_point : string → option NegotiationMiddleware).

Definition registry : Type := list (string * NegotiationMiddleware).

Definition register_negotiation_middleware (name : string) (fn : NegotiationMiddleware) (r : registry) : registry :=
  (name, fn) :: r.

Fixpoint load_each (names : list string) (r : registry) : result (list NegotiationMiddleware * registry) :=
  match names with
  | [] => Ok ([], r)
  | name :: names =>
      match alist_get name r with
      | Some fn => '(chain, r) ← load_each names r; Ok (fn :: chain, r)
      | None =>
          match entry_point name with
          | Some fn =>
              '(chain, r) ← load_each names (register_negotiation_middleware name fn r); Ok (fn :: chain, r)
          | None => Err (LookupError name)
          end
      end
  end.

Definition load_negotiation_chain (names : list string) (r : registry)
    : result (list NegotiationMiddleware * registry) :=
  match names with
  | [] => Err (ValueError "requires a non-empty list of middleware names")
  | _ => load_each names r
  end.
End loading.

(** ** Guards of no domain *)

Definition max_rounds_guard : NegotiationMiddleware := λ history context,
  let counters := filter (λ r, nr_sender r = us ∧ nr_action r = r_counter) history in
  if (cx_max_rounds context <=? Z.of_nat (List.length counters))%Z
  then decide_on (decision d_exit None (Some "max_rounds")) context
  else pass context.

Definition has_matching_inventory_guard : NegotiationMiddleware := λ _ context,
  match classify_listing_source (cx_listing_source context) with
  | None => pass context
  | Some refusal => if lr_retryable refusal then pass context else reject (lr_reason refusal) context
  end.
