(* ===== verification/ScalarPolicies.v ===== *)
(** The scalar-amount negotiation policies ([market_policy/scalar_policies.py]):
    amounts on the wire, what a proposal selects from a listing, the bisection and
    listed-price policies, and the guards on escrow shapes.

    The dispatch by escrow kind resolves addresses through the alkahest kit, and
    is not modelled.  A JSON object has string keys: where [dict()] is given a
    sequence of pairs, a pair whose key is no string is refused here. *)
From S2P Require Import Prelude PyNum PyValue PyText QueryDsl PyWire PyJson FilterEval.
From S2P Require Import Negotiation.
From Stdlib Require Import Ascii.

Local Open Scope string_scope.
Local Open Scope list_scope.
Local Open Scope Z_scope.

Definition amount_error {A} (what : string) : result A := Err (NegotiationAmountError what).

(** ** Amounts *)

(** The code points [str.isdigit] takes beside the decimal digits: superscripts,
    subscripts, circled digits and the like, which [int] refuses. *)
Definition other_digits : list (Z * Z) :=
  [(178, 179); (185, 185); (4969, 4977); (6618, 6618); (8304, 8304); (8308, 8313); (8320, 8329); (9312, 9320);
   (9332, 9340); (9352, 9360); (9450, 9450); (9461, 9469); (9471, 9471); (10102, 10110); (10112, 10120);
   (10122, 10130); (68160, 68163); (69216, 69224); (69714, 69722); (127232, 127242)].

Definition digit_point (cp : Z) : bool :=
  bool_decide (is_Some (decimal_value cp)) || existsb (λ '(lo, hi), (lo <=? cp) && (cp <=? hi)) other_digits.

(** Every code point of [l], whose first [skip] bytes were read, is a digit. *)
Fixpoint digit_points (skip : nat) (l : chars) : bool :=
  match l, skip with
  | [], _ => true
  | _ :: l', S skip => digit_points skip l'
  | _ :: l', O => let '(cp, n) := code_point l in digit_point cp && digit_points (Nat.pred n) l'
  end.

(** [text.isdigit()]. *)
Definition isdigit (l : chars) : bool := negb (is_nil l) && digit_points 0 l.

(** [int(s)] of a string, refusing what is no literal or too long. *)
Definition int_str (s : string) : result Z :=
  match int_of_text s with Some z => Ok z | None => Err (ValueError "invalid literal for int()") end.

Definition parse_wire_amount (raw : value) : result (option Z) :=
  match raw with
  | VNone => Ok None
  | VBool _ => amount_error "amount must not be a boolean"
  | VNum (NInt z) => if z <? 0 then amount_error "amount must be non-negative" else Ok (Some z)
  | VNum (NFloat _) => amount_error "amount must not be a floating-point value"
  | VStr s =>
      let text := strip_chars (to_chars s) in
      if is_nil text then Ok None
      else if isdigit text then Some <$> int_str (of_chars text)
      else amount_error "amount must be a non-negative decimal-digit string"
  | _ => amount_error "amount has no uint256 reading"
  end.

(** Of an [int], as every caller gives. *)
Definition format_wire_amount (amount : Z) : result string :=
  if amount <? 0 then amount_error "amount must be non-negative" else of_chars <$> int_chars amount.

(** [int(f)] of a float without a fraction. *)
Definition whole_float (f : float) : option Z :=
  match float_frac f with
  | Some (n, d) => if n mod d =? 0 then Some (n / d) else None
  | None => None
  end.

Definition _exact_amount (v : value) : result Z :=
  match v with
  | VBool _ => amount_error "must not be a boolean"
  | VNum (NInt z) => Ok z
  | VNum (NFloat f) =>
      match whole_float f with Some z => Ok z | None => amount_error "must be a whole number of base units" end
  | _ =>
      parsed ← parse_wire_amount v;
      match parsed with Some z => Ok z | None => amount_error "is required" end
  end.

(** ** Proposals *)

(** [x or {}]. *)
Definition or_empty (v : value) : value := if truthy v then v else VDict [].

(** The pair an element of [dict()]'s argument is. *)
Definition pair_of (v : value) : result (string * value) :=
  elements ← iterate v;
  match elements with
  | [VStr k; x] => Ok (k, x)
  | [_; _] => Err (TypeError "key is not a string")
  | _ => Err (ValueError "dictionary update sequence element has the wrong length")
  end.

(** [dict(v)]. *)
Definition dict_of (v : value) : result dict :=
  match v with
  | VDict d => Ok d
  | _ =>
      elements ← iterate v;
      pairs ← mapM_result pair_of elements;
      Ok (fold_left (λ d kv, dict_set kv.1 kv.2 d) pairs [])
  end.

Definition _amount_from_proposal (proposal : option dict) : result (option Z) :=
  match proposal with
  | None => Ok None
  | Some p =>
      match or_empty (dict_get "fields" p) with
      | VDict fields => parse_wire_amount (dict_get "amount" fields)
      | _ => Ok None
      end
  end.

(** The amounts of the rounds of a sender, and of an action where one is given. *)
Fixpoint first_amount (rounds : list NegotiationRound) : result (option Z) :=
  match rounds with
  | [] => Ok None
  | r :: rounds =>
      if bool_decide (nr_sender r = them) then
        amount ← _amount_from_proposal (nr_proposal r);
        match amount with Some a => Ok (Some a) | None => first_amount rounds end
      else first_amount rounds
  end.

Definition their_proposed_amount (history : list NegotiationRound) : result (option Z) :=
  first_amount (reverse history).

Fixpoint our_previous_counters (history : list NegotiationRound) : result (list Z) :=
  match history with
  | [] => Ok []
  | h :: history =>
      if bool_decide (nr_sender h = us) && bool_decide (nr_action h = r_counter) then
        amount ← _amount_from_proposal (nr_proposal h);
        rest ← our_previous_counters history;
        Ok (match amount with Some a => a :: rest | None => rest end)
      else our_previous_counters history
  end.

Definition _set_proposal_amount (proposal : dict) (amount : Z) : result dict :=
  fields ← dict_of (or_empty (dict_get "fields" proposal));
  text ← format_wire_amount amount;
  Ok (dict_set "fields" (VDict (dict_set "amount" (VStr text) fields)) proposal).

(** Whether [p] occurs in [l]. *)
Fixpoint occurs (p l : chars) : bool :=
  match strip_prefix p l, l with
  | Some _, _ => true
  | None, [] => false
  | None, _ :: l => occurs p l
  end.

(** [k in v]. *)
Definition key_in (k : string) (v : value) : result bool :=
  match v with
  | VDict d => Ok (dict_has k d)
  | VList l => Ok (existsb (py_eq (VStr k)) l)
  | VStr s => Ok (occurs (to_chars k) (to_chars s))
  | _ => Err (TypeError "argument is not iterable")
  end.

(** [any((r.get("field") ...) == "amount" for r in rates)]. *)
Definition rates_of_amount (rates : list value) : bool :=
  existsb (λ r, py_eq (member "field" r) (VStr "amount")) rates.

(** [x or []], iterated. *)
Definition rates_list (v : value) : result (list value) := if truthy v then iterate v else Ok [].

Definition escrow_shape_uses_scalar_amount (p : dict) : result bool :=
  let fields := or_empty (dict_get "fields" p) in
  amount ← key_in "amount" fields;
  if (amount : bool) then Ok true else
  token ← key_in "token" fields;
  fungible ← (if (token : bool) then
                id ← key_in "tokenId" fields;
                if (id : bool) then Ok false else negb <$> key_in "token_id" fields
              else Ok false);
  if (fungible : bool) then Ok true else rates_of_amount <$> rates_list (dict_get "rates" p).

(** ** What a proposal selects *)

Definition _loads_json_list (v : value) : list value :=
  match v with
  | VList l => l
  | VStr s => match json_loads s with Some (VList l) => l | _ => [] end
  | _ => []
  end.

(** [option.get("settlement")]'s schema, absent when it is no object. *)
Definition settlement_option_schema (option : value) : value := member "schema" (member "settlement" option).

Definition settlement_option_rates (option : value) : result (list value) :=
  rates_list (member "rates" (member "price" option)).

(** [selection.get("settlement", {}).get("schema")]. *)
Definition selected_mechanism (selection : dict) : result value :=
  match default (VDict []) (alist_get "settlement" selection) with
  | VDict d => Ok (dict_get "schema" d)
  | _ => Err (AttributeError "get")
  end.

Definition is_selected (option_id mechanism : value) (option : value) : bool :=
  match option with
  | VDict d => py_eq (dict_get "option_id" d) option_id && py_eq (settlement_option_schema option) mechanism
  | _ => false
  end.

Definition _settlement_option_for_selection (listing proposal : dict) : result (option value) :=
  match dict_get "settlement_selection" proposal with
  | VDict selection =>
      mechanism ← selected_mechanism selection;
      Ok (List.find (is_selected (dict_get "option_id" selection) mechanism)
                    (_loads_json_list (dict_get "settlement_options" listing)))
  | _ => Ok None
  end.

Definition is_escrow_entry (chain : value) (address : string) (entry : value) : bool :=
  match entry with
  | VDict d =>
      py_eq (dict_get "chain_name" d) chain &&
      match dict_get "escrow_address" d with
      | VStr a => bool_decide (py_lower a = address)
      | _ => false
      end
  | _ => false
  end.

Definition _accepted_escrow_for_proposal (listing proposal : dict) : option dict :=
  let accepted := _loads_json_list (dict_get "accepted_escrows" listing) in
  match dict_get "escrow_address" proposal with
  | VStr a =>
      if bool_decide (a = "") then None
      else List.find (is_escrow_entry (dict_get "chain_name" proposal) (py_lower a)) accepted ≫= as_dict
  | _ => None
  end.

Definition option_uses_scalar_amount (option : value) : result bool :=
  match option with
  | VDict _ => rates_of_amount <$> settlement_option_rates option
  | _ => Ok true
  end.

Definition is_escrow_proposal (proposal : option dict) : bool :=
  match proposal with Some p => dict_has "chain_name" p || dict_has "escrow_address" p | None => false end.

(** No address, or the zero address. *)
Definition escrow_contract_unpinned (proposal : dict) : bool :=
  match dict_get "escrow_address" proposal with
  | VStr a =>
      let lowered := to_chars (py_lower a) in
      let digits := default lowered (strip_prefix (to_chars "0x") lowered) in
      forallb (λ c, bool_decide (c = "0"%char)) digits
  | _ => true
  end.

Definition pinned_proposal (history : list NegotiationRound) : option dict :=
  match List.find (λ r, bool_decide (nr_sender r = them)) history with
  | Some r => nr_proposal r
  | None => None
  end.

Definition selected_settlement_artifact (listing : dict) (proposal : option dict) : result (option value) :=
  match proposal with
  | None => Ok None
  | Some p =>
      match dict_get "settlement_selection" p with
      | VDict _ => _settlement_option_for_selection listing p
      | _ => Ok (VDict <$> _accepted_escrow_for_proposal listing p)
      end
  end.

(** [literal = entry.get("literal_fields") or {}], holding an amount, or a rate of one. *)
Definition entry_bargains_amount (entry : dict) : result bool :=
  match or_empty (dict_get "literal_fields" entry) with
  | VDict d => if dict_has "amount" d then Ok true else rates_of_amount <$> rates_list (dict_get "rates" entry)
  | _ => rates_of_amount <$> rates_list (dict_get "rates" entry)
  end.

Definition _proposal_requires_exact_amount : dict → result bool := entry_bargains_amount.

Definition _accepted_entry_uses_scalar_amount (entry : option dict) : result bool :=
  match entry with None => Ok true | Some e => entry_bargains_amount e end.

Definition proposal_uses_scalar_amount (listing : dict) (proposal : option dict) : result bool :=
  match proposal with
  | None => Ok true
  | Some p =>
      let amount := match or_empty (dict_get "fields" p) with VDict d => dict_has "amount" d | _ => false end in
      if amount then Ok true else
      match dict_get "settlement_selection" p with
      | VDict _ =>
          matched ← _settlement_option_for_selection listing p;
          match matched with None => Ok true | Some o => option_uses_scalar_amount o end
      | _ => _accepted_entry_uses_scalar_amount (_accepted_escrow_for_proposal listing p)
      end
  end.

Definition _selects_scalar_option (listing proposal : dict) : result bool :=
  match dict_get "settlement_selection" proposal with
  | VDict _ =>
      matched ← _settlement_option_for_selection listing proposal;
      match matched with None => Ok false | Some o => option_uses_scalar_amount o end
  | _ => Ok false
  end.

(** ** The opening *)

Definition _opening_amount (context : NegotiationContext) : result Z :=
  _exact_amount (if is_none (cx_our_opening_amount context) then cx_our_reference_amount context
                 else cx_our_opening_amount context).

Definition _opening_proposal (context : NegotiationContext) : result dict :=
  let base := default [] (cx_our_escrow_proposal context) in
  scalar ← escrow_shape_uses_scalar_amount base;
  scalar ← (if (scalar : bool) then Ok true else _selects_scalar_option (cx_listing context) base);
  if (scalar : bool) then
    amount ← _opening_amount context; _set_proposal_amount base amount
  else Ok base.

(** ** Bisection *)

Definition _CONVERGENCE_NUM := 101.
Definition _CONVERGENCE_DEN := 100.
Definition _SHORTFALL_NUM := 99.
Definition _SHORTFALL_DEN := 100.
Definition _REASONABLE_NUM := 3.
Definition _REASONABLE_DEN := 2.

(** [counters[-1] == counters[-2]]. *)
Definition stale (counters : list Z) : bool :=
  match reverse counters with a :: b :: _ => a =? b | _ => false end.

(** What a direction makes of the other side's amount against ours: the action,
    the amount it carries, and the reason. *)
Definition bisect (direction : string) (ours theirs : Z) : DecisionAction * option Z * option string :=
  if bool_decide (direction = "minimize") then
    if theirs * _CONVERGENCE_DEN <=? ours * _CONVERGENCE_NUM then (d_accept, Some theirs, Some "convergence")
    else if theirs * _REASONABLE_DEN <=? ours * _REASONABLE_NUM
    then (d_counter, Some (Z.min ((ours + theirs) / 2) ours), None)
    else (d_exit, None, Some "price_unreasonable")
  else if bool_decide (direction = "maximize") then
    if ours * _SHORTFALL_NUM <=? theirs * _SHORTFALL_DEN then (d_accept, Some theirs, Some "convergence")
    else if ours * _REASONABLE_DEN <=? theirs * _REASONABLE_NUM
    then (d_counter, Some ((ours + theirs) / 2), None)
    else (d_exit, None, Some "price_unreasonable")
  else (d_reject, None, Some "unknown_direction").

Definition bisection_middleware : NegotiationMiddleware := λ history context,
  counters ← our_previous_counters history;
  if cx_max_rounds context <=? Z.of_nat (List.length counters)
  then decide_on (decision d_exit None (Some "max_rounds")) context
  else if (2 <=? Z.of_nat (List.length counters)) && stale counters
  then decide_on (decision d_exit None (Some "stale_negotiation")) context
  else
    our_amount ← _exact_amount (cx_our_reference_amount context);
    their_amount ← their_proposed_amount history;
    match their_amount with
    | None => opening ← _opening_proposal context; decide_on (decision d_counter (Some opening) None) context
    | Some their_amount =>
        let skeleton :=
          match their_last_proposal history with
          | Some ((_ :: _) as p) => p
          | _ => default [] (cx_our_escrow_proposal context)
          end in
        let '(action, amount, reason) := bisect (cx_direction context) our_amount their_amount in
        match amount with
        | Some a => p ← _set_proposal_amount skeleton a; decide_on (decision action (Some p) reason) context
        | None => decide_on (decision action None reason) context
        end
    end.

Definition amount_bisection_middleware : NegotiationMiddleware := bisection_middleware.

(** ** The listed price *)

Definition listed_price_middleware : NegotiationMiddleware := λ history context,
  match their_last_proposal history with
  | None => opening ← _opening_proposal context; decide_on (decision d_counter (Some opening) None) context
  | Some their_proposal =>
      their_amount ← their_proposed_amount history;
      match their_amount with
      | None =>
          decide_on (decision d_accept (Some their_proposal) (Some "listed_price_amountless")) context
      | Some their_amount =>
          bound ← _exact_amount (cx_our_reference_amount context);
          let within := if bool_decide (cx_direction context = "minimize")
                        then their_amount <=? bound else bound <=? their_amount in
          if within then
            p ← _set_proposal_amount their_proposal their_amount;
            decide_on (decision d_accept (Some p) (Some "listed_price")) context
          else decide_on (decision d_exit None (Some "price_above_bound")) context
      end
  end.
