(* ===== verification/EscrowGuards.v ===== *)
(** The guards and deciders on what a proposal names
    ([market_policy/scalar_policies.py]): the buyer's counter, the escrow's shape
    against the listing, the unpriced selection, the exact listing, and the
    buyer's own pinned proposal. *)
From S2P Require Import Prelude PyNum PyValue PyText QueryDsl PyWire PyJson FilterEval.
From S2P Require Import Negotiation ScalarPolicies.
From Stdlib Require Import Ascii.

Local Open Scope string_scope.
Local Open Scope list_scope.
Local Open Scope Z_scope.

(** ** Normal forms *)

Definition starts_0x (l : chars) : bool := bool_decide (is_Some (strip_prefix (to_chars "0x") l)).

Definition _normalize_escrow_field (v : value) : value :=
  match v with
  | VStr s => if starts_0x (to_chars s) && (Z.of_nat (List.length (to_chars s)) =? 42) then VStr (py_lower s) else v
  | _ => v
  end.

Definition key_leb {A} (a b : string * A) : bool := string_leb a.1 b.1.

Fixpoint _normalize_exact_value (v : value) : result value :=
  match v with
  | VDict d =>
      pairs ← (fix go d :=
        match d with
        | [] => Ok []
        | (k, x) :: d => y ← _normalize_exact_value x; rest ← go d; Ok ((k, y) :: rest)
        end) d;
      Ok (VDict (sort_by key_leb pairs))
  | VList l =>
      VList <$> (fix go l :=
        match l with
        | [] => Ok []
        | x :: l => y ← _normalize_exact_value x; rest ← go l; Ok (y :: rest)
        end) l
  | VStr s =>
      let stripped := strip_chars (to_chars s) in
      if starts_0x stripped then Ok (VStr (py_lower (of_chars stripped)))
      else if isdigit stripped then (λ z, VInt z) <$> int_str (of_chars stripped)
      else Ok v
  | _ => Ok v
  end.

(** [int(v)], strings of too many digits refused. *)
Definition py_int_of (v : value) : result Z :=
  match v with VStr s => int_str s | _ => py_int v end.

Definition _normalize_rate (v : value) : result value :=
  if is_none (member "field" v) || is_none (member "value" v) then Err (ValueError "rate requires field and value")
  else
    z ← py_int_of (member "value" v);
    Ok (VDict [("field", member "field" v);
               ("per", match as_dict v with
                       | Some d => default (VStr "hour") (alist_get "per" d)
                       | None => VNone
                       end);
               ("value", VInt z)]).

Fixpoint normalize_demands (chain : value) (demands : list value) : result (list value) :=
  match demands with
  | [] => Ok []
  | VDict d :: demands =>
      let demand_chain := dict_get "chain_name" d in
      if truthy demand_chain && negb (py_eq demand_chain chain) then normalize_demands chain demands
      else
        x ← _normalize_exact_value (VDict d);
        rest ← normalize_demands chain demands;
        Ok (x :: rest)
  | _ :: demands => normalize_demands chain demands
  end.

Definition _normalize_demands_for_chain (v chain : value) : result (list value) :=
  normalize_demands chain (_loads_json_list v).

Definition _normalize_selected_demand (p : dict) : result (option value) :=
  match dict_get "demand" p with
  | VDict d => Some <$> _normalize_exact_value (VDict d)
  | _ =>
      let legacy := dict_get "demands" p in
      if is_none legacy then Ok None else
      match _loads_json_list legacy with
      | VDict d :: [] => Some <$> _normalize_exact_value (VDict d)
      | _ :: _ :: _ => Err (ValueError "deprecated proposal demands[] may contain at most one selected demand")
      | _ => Ok None
      end
  end.

(** [except ValueError]: every error that is one. *)
Definition is_value_error (e : py_error) : bool :=
  match e with ValueError _ | NegotiationAmountError _ => true | _ => false end.

(** [selected in demands], a missing selection being in no list of objects. *)
Definition demand_in (selected : option value) (demands : list value) : bool :=
  existsb (py_eq (default VNone selected)) demands.

(** ** The buyer's counter *)

Definition buyer_counter_guard : NegotiationMiddleware := λ history context,
  match last history with
  | None => pass context
  | Some latest =>
      if negb (bool_decide (nr_sender latest = them) && bool_decide (nr_action latest = r_counter))
      then pass context
      else
        let pinned := cx_our_escrow_proposal context in
        let proposal := nr_proposal latest in
        let proposal_for_scalar := match proposal with Some (_ :: _) => proposal | _ => pinned end in
        let opening := pinned_proposal history in
        uses_scalar_amount ← proposal_uses_scalar_amount (cx_listing context)
          (match opening with Some o => Some o | None => proposal_for_scalar end);
        let context := set_intermediate "uses_scalar_amount" (VBool uses_scalar_amount) context in
        raw_amount ← _amount_from_proposal proposal_for_scalar;
        match raw_amount, uses_scalar_amount : bool with
        | None, true => reject "counter_missing_amount" context
        | _, _ =>
            let buyer_amount := default 0 raw_amount in
            let context := set_intermediate "buyer_amount" (VInt buyer_amount) context in
            if uses_scalar_amount : bool then
              p ← _set_proposal_amount (match pinned with Some p => p | None => default [] proposal end) buyer_amount;
              pass (set_intermediate "buyer_counter_proposal" (VDict p) context)
            else
              match proposal, pinned with
              | Some p, _ | None, Some p => pass (set_intermediate "buyer_counter_proposal" (VDict p) context)
              | None, None => pass context
              end
        end
  end.

(** ** The escrow's shape *)

(** The literal fields the listing's entry requires of the buyer's. *)
Definition literal_fields_agree (seller : dict) (buyer : value) : bool :=
  forallb (λ kv, py_eq (_normalize_escrow_field (member kv.1 buyer)) (_normalize_escrow_field kv.2)) seller.

(** The release condition selected from those the listing advertises. *)
Definition check_demand (listing p : dict) (not_advertised not_allowed invalid : string)
    (advertised_first : bool) : NegotiationContext → result NegotiationStep := λ context,
  demands ← _normalize_demands_for_chain (dict_get "demands" listing) (dict_get "chain_name" p);
  if advertised_first && is_nil demands then reject not_advertised context else
  match _normalize_selected_demand p with
  | Err e => if is_value_error e then reject invalid context else Err e
  | Ok selected =>
      if is_nil demands then reject not_advertised context
      else if demand_in selected demands then pass context
      else reject not_allowed context
  end.

Definition escrow_shape_guard : NegotiationMiddleware := λ history context,
  match their_last_proposal history with
  | None => pass context
  | Some p =>
      if negb (is_escrow_proposal (Some p)) then pass context
      else if escrow_contract_unpinned p then reject "escrow_contract_unpinned" context
      else
        match _accepted_escrow_for_proposal (cx_listing context) p with
        | None => reject "escrow_not_in_accepted_set" context
        | Some matched =>
            match or_empty (dict_get "literal_fields" matched) with
            | VDict seller_literal =>
                if literal_fields_agree seller_literal (or_empty (dict_get "literal_fields" p))
                then check_demand (cx_listing context) p "release_condition_not_advertised"
                       "selected_demand_not_allowed" "invalid_selected_demand" true context
                else reject "escrow_field_mismatch" context
            | _ => pass context
            end
        end
  end.

(** ** Unpriced and exact listings *)

Definition accept_unpriced_selection_middleware : NegotiationMiddleware := λ history context,
  match pinned_proposal history with
  | None => pass context
  | Some opening =>
      match dict_get "settlement_selection" opening with
      | VDict _ =>
          matched ← _settlement_option_for_selection (cx_listing context) opening;
          match matched with
          | None => pass context
          | Some o =>
              scalar ← option_uses_scalar_amount o;
              if (scalar : bool) then pass context
              else decide_on (decision d_accept (Some opening) (Some "unpriced_selection")) context
          end
      | _ => pass context
      end
  end.

Definition accept (p : dict) : NegotiationContext → result NegotiationStep :=
  decide_on (decision d_accept (Some p) (Some "exact_listing")).

(** An amount that must be the listing's. *)
Definition amount_is (expected : Z) (p : dict) : result bool :=
  proposed ← _amount_from_proposal (Some p); Ok (bool_decide (proposed = Some expected)).

Definition accept_selection (listing basis proposal : dict) : NegotiationContext → result NegotiationStep :=
  λ context,
  matched ← _settlement_option_for_selection listing basis;
  match matched with
  | None => reject "exact_listing:selection_not_in_options" context
  | Some o =>
      scalar ← option_uses_scalar_amount o;
      if (scalar : bool) then
        expected ← _exact_amount (cx_our_reference_amount context);
        ok ← amount_is expected proposal;
        if (ok : bool) then p ← _set_proposal_amount basis expected; accept p context
        else reject "exact_listing:amount_mismatch" context
      else accept basis context
  end.

(** The fields a proposal names beside a required amount are the listing's literals. *)
Fixpoint fields_are (requires_amount : bool) (expected : value) (fields : dict) : result bool :=
  match fields with
  | [] => Ok true
  | (k, v) :: fields =>
      if bool_decide (k = "amount") && requires_amount then fields_are requires_amount expected fields
      else
        expected_v ← match expected with
                     | VDict d => Ok (dict_get k d)
                     | _ => Err (AttributeError "get")
                     end;
        actual ← _normalize_exact_value v;
        if py_eq actual expected_v then fields_are requires_amount expected fields else Ok false
  end.

Definition normalized_rates (d : dict) : result (list value) :=
  rates ← rates_list (dict_get "rates" d); mapM_result _normalize_rate rates.

Definition accept_escrow (listing proposal matched : dict) : NegotiationContext → result NegotiationStep :=
  λ context,
  expected_literal ← _normalize_exact_value (or_empty (dict_get "literal_fields" matched));
  proposal_literal ← _normalize_exact_value (or_empty (dict_get "literal_fields" proposal));
  if negb (py_eq proposal_literal expected_literal) then reject "exact_listing:literal_fields_mismatch" context else
  match or_empty (dict_get "fields" proposal) with
  | VDict proposal_fields =>
      expected_amount ← _exact_amount (cx_our_reference_amount context);
      requires_amount ← _proposal_requires_exact_amount matched;
      ok ← (if (requires_amount : bool) then amount_is expected_amount proposal else Ok true);
      if negb ok then reject "exact_listing:amount_mismatch" context else
      same ← fields_are requires_amount expected_literal proposal_fields;
      if negb same then reject "exact_listing:field_mismatch" context else
      match (expected ← normalized_rates matched; proposed ← normalized_rates proposal; Ok (expected, proposed)) with
      | Err (TypeError _) => reject "exact_listing:invalid_rates" context
      | Err e => if is_value_error e then reject "exact_listing:invalid_rates" context else Err e
      | Ok (expected_rates, proposal_rates) =>
          if negb (py_eq (VList proposal_rates) (VList expected_rates))
          then reject "exact_listing:rates_mismatch" context
          else
            '(d, context) ← check_demand listing proposal "exact_listing:release_condition_not_advertised"
              "exact_listing:demands_mismatch" "exact_listing:invalid_selected_demand" false context;
            match d with
            | Some d => decide_on d context
            | None =>
                p ← (if (requires_amount : bool) then _set_proposal_amount proposal expected_amount else Ok proposal);
                accept p context
            end
      end
  | _ => reject "exact_listing:fields_not_object" context
  end.

Definition accept_exact_listing_middleware : NegotiationMiddleware := λ history context,
  match their_last_proposal history with
  | None =>
      match cx_our_escrow_proposal context with
      | Some ours => decide_on (decision d_counter (Some ours) None) context
      | None => reject "exact_listing:no_proposal" context
      end
  | Some proposal =>
      let listing := cx_listing context in
      let basis := default proposal (pinned_proposal history) in
      match dict_get "settlement_selection" basis with
      | VDict _ => accept_selection listing basis proposal context
      | _ =>
          match _accepted_escrow_for_proposal listing proposal with
          | None => reject "exact_listing:escrow_not_in_accepted_set" context
          | Some matched => accept_escrow listing proposal matched context
          end
      end
  end.

(** ** The buyer's pinned proposal *)

(** [(p.get("escrow_address") or "").lower()]. *)
Definition lowered_address (p : dict) : result string :=
  let a := dict_get "escrow_address" p in
  if negb (truthy a) then Ok "" else
  match a with VStr s => Ok (py_lower s) | _ => Err (AttributeError "lower") end.

Definition selection_kept (pinned theirs : dict) : result bool :=
  let ours := dict_get "settlement_selection" pinned in
  let their_selection := dict_get "settlement_selection" theirs in
  if is_none ours && is_none their_selection then Ok true
  else
    a ← _normalize_exact_value ours;
    b ← _normalize_exact_value their_selection;
    Ok (py_eq a b).

Definition address_kept (pinned theirs : dict) : result bool :=
  a ← lowered_address pinned;
  b ← lowered_address theirs;
  Ok (bool_decide (a = "") || bool_decide (b = "") || bool_decide (a = b)).

Definition expiration_kept (pinned theirs : dict) : result bool :=
  let a := dict_get "expiration_unix" pinned in
  let b := dict_get "expiration_unix" theirs in
  if is_none a || is_none b then Ok true
  else x ← py_int_of a; y ← py_int_of b; Ok (x =? y).

Definition fields_kept (pinned theirs : dict) : result bool :=
  match or_empty (dict_get "fields" pinned) with
  | VDict pinned_fields =>
      let their_fields := or_empty (dict_get "fields" theirs) in
      Ok (forallb (λ kv, bool_decide (kv.1 = "amount")
                         || py_eq (_normalize_escrow_field kv.2) (_normalize_escrow_field (member kv.1 their_fields)))
                  pinned_fields)
  | _ => Err (AttributeError "items")
  end.

Definition demand_kept (pinned theirs : dict) : result bool :=
  a ← _normalize_selected_demand pinned;
  b ← _normalize_selected_demand theirs;
  Ok (py_eq (default VNone a) (default VNone b)).

(** A check that passes on or rejects. *)
Definition unless (kept : result bool) (reason : string) (rest : result NegotiationStep)
    (context : NegotiationContext) : result NegotiationStep :=
  ok ← kept; if (ok : bool) then rest else reject reason context.

Definition buyer_escrow_shape_guard : NegotiationMiddleware := λ history context,
  match their_last_proposal history, cx_our_escrow_proposal context with
  | Some theirs, Some pinned =>
      unless (selection_kept pinned theirs) "settlement_selection_changed" (
      unless (Ok (py_eq (dict_get "chain_name" pinned) (dict_get "chain_name" theirs))) "chain_name_changed" (
      unless (address_kept pinned theirs) "escrow_address_changed" (
      unless (expiration_kept pinned theirs) "expiration_unix_changed" (
      unless (fields_kept pinned theirs) "escrow_field_changed" (
      match demand_kept pinned theirs with
      | Ok true => pass context
      | Ok false => reject "demand_changed" context
      | Err e => if is_value_error e then reject "invalid_selected_demand" context else Err e
      end) context) context) context) context) context
  | _, _ => pass context
  end.
