(* ===== verification/NegotiationFacts.v ===== *)
(** Lemmas on negotiation policies: amounts survive the wire, a proposal carries
    the amount it was given, and what each policy does once the amounts on the
    table are known. *)
From S2P Require Import Prelude PyNum PyValue PyNumFacts PyTimeFacts PyText QueryDsl.
From S2P Require Import QueryLexer.
From S2P Require Import PyTextFacts PyWire PyJson FilterEval Negotiation ScalarPolicies.
From S2P Require Import EscrowGuards.
From Stdlib Require Import Ascii.

Local Open Scope string_scope.
Local Open Scope list_scope.
Local Open Scope Z_scope.

(** ** Amounts on the wire *)

Lemma isdigit_nat n : 0 <= n → isdigit (nat_chars n) = true.
Proof.
  intros Hn. unfold isdigit. rewrite nat_chars_not_nil by done. cbn [negb andb].
  induction (nat_chars_digits n) as [|c l Hc _ IH]; [done|]. cbn [digit_points].
  assert (code c < 128 ∧ digit_point (code c) = true) as [Hlt Hp].
  { destruct c as [[] [] [] [] [] [] [] []]; vm_compute in Hc |- *; done. }
  by rewrite code_point_ascii, Hp.
Qed.

Lemma strip_nat n : strip_chars (nat_chars n) = nat_chars n.
Proof. apply strip_trimmed, trimmed_number, digits_number, nat_chars_digits. Qed.

Lemma int_chars_nonneg a l : 0 <= a → int_chars a = Ok l → l = nat_chars a.
Proof.
  intros Ha. unfold int_chars. destruct (_ <? _); [done|]. intros [= <-].
  rewrite (proj2 (Z.ltb_ge _ _)) by lia. by rewrite Z.abs_eq.
Qed.

(** What [format_wire_amount] writes, [parse_wire_amount] reads. *)
Lemma format_then_parse a text :
  format_wire_amount a = Ok text → 0 <= a ∧ parse_wire_amount (VStr text) = Ok (Some a).
Proof.
  unfold format_wire_amount. destruct (Z.ltb_spec a 0) as [|Ha]; [done|].
  destruct (int_chars a) as [l|] eqn:Hl; [|done]. intros [= <-]. split; [done|]. simpl.
  pose proof (int_of_text_chars a l Hl) as Hr. apply int_chars_nonneg in Hl; [|done]. subst l.
  rewrite to_of_chars, strip_nat, nat_chars_not_nil, isdigit_nat by done.
  unfold int_str. by rewrite Hr.
Qed.

(** Every amount of fewer digits than Python prints is written. *)
Lemma format_below a k : 0 <= a < 10 ^ k → 1 <= k <= int_max_str_digits → is_ok (format_wire_amount a) = true.
Proof.
  intros [Ha Hk] Hlim. unfold format_wire_amount. rewrite (proj2 (Z.ltb_ge _ _)) by lia.
  unfold int_chars. rewrite Z.abs_eq by done. pose proof (ndigits_le a k Ha ltac:(lia) Hk).
  by rewrite (proj2 (Z.ltb_ge _ _)) by lia.
Qed.

Lemma int_digits_nonneg b acc l n : 0 <= acc → int_digits b acc l = Some n → 0 <= n.
Proof.
  revert b acc. induction l as [|c l IH]; intros b acc Ha; simpl.
  { destruct b; [|done]. by intros [= <-]. }
  destruct (digit_of c) as [x|] eqn:Hc.
  - apply IH. pose proof (digit_of_bound c x Hc). lia.
  - destruct (_ && _); [|done]. by apply IH.
Qed.

Lemma digit_not_space cp : digit_point cp = true → is_space cp = false.
Proof.
  intros Hd. destruct (is_space cp) eqn:Hs; [|done]. exfalso.
  assert (cp ∈ [9; 10; 11; 12; 13; 28; 29; 30; 31; 32; 133; 160; 5760; 8192; 8193; 8194; 8195; 8196; 8197; 8198;
    8199; 8200; 8201; 8202; 8232; 8233; 8239; 8287; 12288]) as Hin.
  { unfold is_space in Hs. rewrite !elem_of_cons. lia. }
  repeat (apply elem_of_cons in Hin as [->|Hin]; [by vm_compute in Hd|]). by inversion Hin.
Qed.

Lemma decimal_value_bound cp x : decimal_value cp = Some x → 0 <= x <= 9.
Proof.
  unfold decimal_value. induction decimal_zeros as [|z zeros IH]; cbn [decimal_value_in]; [done|].
  destruct (_ && _) eqn:Hz; [|done]. intros [= <-]. lia.
Qed.

(** Reading digits makes no sign. *)
Lemma ascii_digits_unsigned c l : c ≠ "-"%char → (take_sign (ascii_digits (c :: l))).1 = false.
Proof.
  intros Hc. assert (∀ l, (take_sign (c :: l)).1 = false) as Hplain.
  { intros l'. destruct c as [[] [] [] [] [] [] [] []]; done. }
  unfold ascii_digits. cbn [ascii_digits_from]. destruct (code_point (c :: l)) as [cp n].
  destruct (decimal_value cp) as [x|] eqn:Hx; [|done]. apply decimal_value_bound in Hx.
  assert (x ∈ [0; 1; 2; 3; 4; 5; 6; 7; 8; 9]) as Hin by (rewrite !elem_of_cons; lia).
  by repeat (apply elem_of_cons in Hin as [->|Hin]; [done|]); inversion Hin.
Qed.

Lemma digits_unsigned l : isdigit l = true → (take_sign (ascii_digits (strip_chars l))).1 = false.
Proof.
  unfold isdigit. destruct l as [|c l]; [done|]. cbn [is_nil negb andb digit_points].
  destruct (code_point (c :: l)) as [cp n] eqn:Hcp. intros [Hd _]%andb_true_iff.
  unfold strip_chars. rewrite drop_space_none.
  - cbn [drop_trailing]. case_match; [done|]. apply ascii_digits_unsigned. intros ->.
    rewrite code_point_ascii in Hcp by done. injection Hcp as <- _. by vm_compute in Hd.
  - unfold space_width. by rewrite Hcp, digit_not_space.
Qed.

Lemma parsed_nonneg v a : parse_wire_amount v = Ok (Some a) → 0 <= a.
Proof.
  destruct v as [| |[z|f|f]|s| |]; simpl; try done.
  - destruct (Z.ltb_spec z 0); [done|]. by intros [= <-].
  - destruct (is_nil _) eqn:Hn; [done|]. destruct (isdigit _) eqn:Hd; [|done].
    unfold int_str, int_of_text, parse_int. rewrite to_of_chars. apply digits_unsigned in Hd.
    destruct (take_sign _) as [neg l]. cbn [fst] in Hd. subst neg. destruct (_ <? _); [done|].
    destruct (int_digits false 0 l) as [n|] eqn:Hi; [|done]. intros [= <-]. by apply int_digits_nonneg in Hi.
Qed.

(** ** The amount of a proposal *)

(** A decision carries an amount when its proposal's fields do. *)
Definition carries (d : NegotiationDecision) (a : Z) : Prop :=
  is_Some (nd_proposal d) ∧ _amount_from_proposal (nd_proposal d) = Ok (Some a).

Lemma set_amount_reads p a p' :
  _set_proposal_amount p a = Ok p' → 0 <= a ∧ _amount_from_proposal (Some p') = Ok (Some a).
Proof.
  unfold _set_proposal_amount. intros (fields & Hf & (text & Ht & [= <-])%result_bind_Ok)%result_bind_Ok.
  apply format_then_parse in Ht as [Ha Hr]. split; [done|]. unfold _amount_from_proposal.
  rewrite dict_get_set_eq. unfold or_empty.
  replace (truthy _) with true by (by destruct (dict_set "amount" _ fields) eqn:E; [apply dict_set_not_nil in E|]).
  by rewrite dict_get_set_eq.
Qed.

(** Nothing but the fields is touched. *)
Lemma set_amount_keeps p a p' k :
  _set_proposal_amount p a = Ok p' → k ≠ "fields" → dict_get k p' = dict_get k p.
Proof.
  unfold _set_proposal_amount. intros (fields & _ & (text & _ & [= <-])%result_bind_Ok)%result_bind_Ok Hk.
  by apply dict_get_set_ne.
Qed.

(** Of the fields, only the amount. *)
Lemma set_amount_fields p a p' k fields :
  _set_proposal_amount p a = Ok p' → dict_get "fields" p = VDict fields → k ≠ "amount" →
  member k (dict_get "fields" p') = dict_get k fields.
Proof.
  unfold _set_proposal_amount. intros (f & Hf & (text & _ & [= <-])%result_bind_Ok)%result_bind_Ok Hp Hk.
  rewrite dict_get_set_eq. unfold member, as_dict. rewrite dict_get_set_ne by done. rewrite Hp in Hf.
  destruct fields; injection Hf as <-; done.
Qed.

Lemma first_amount_reads rounds a :
  first_amount rounds = Ok (Some a) → ∃ p, _amount_from_proposal p = Ok (Some a).
Proof.
  induction rounds as [|r rounds IH]; simpl; [done|]. case_bool_decide; [|done].
  intros (x & Hx & H1)%result_bind_Ok. destruct x as [b|]; [|auto]. injection H1 as ->. by exists (nr_proposal r).
Qed.

Lemma their_amount_nonneg history a : their_proposed_amount history = Ok (Some a) → 0 <= a.
Proof.
  intros [[p|] Hp]%first_amount_reads; [|done]. unfold _amount_from_proposal in Hp.
  destruct (or_empty _) as [| | | | |fields]; try done. by apply parsed_nonneg in Hp.
Qed.

(** ** Bisection *)

(** What a side does about [theirs] when it holds [ours] for its reference. *)
Definition bisection_allows (direction : string) (ours theirs : Z) (d : NegotiationDecision) : Prop :=
  match nd_action d with
  | d_accept =>
      carries d theirs ∧
      ((direction = "minimize" ∧ 100 * theirs <= 101 * ours) ∨
       (direction = "maximize" ∧ 99 * ours <= 100 * theirs))
  | d_counter =>
      (direction = "minimize" ∧ carries d ours ∧ 101 * ours < 100 * theirs ∧ 2 * theirs <= 3 * ours) ∨
      (direction = "maximize" ∧ carries d ((ours + theirs) / 2) ∧ 100 * theirs < 99 * ours ∧
       2 * ours <= 3 * theirs)
  | d_exit =>
      nd_reason d = Some "price_unreasonable" ∧
      ((direction = "minimize" ∧ 3 * ours < 2 * theirs) ∨ (direction = "maximize" ∧ 3 * theirs < 2 * ours))
  | d_reject => direction ≠ "minimize" ∧ direction ≠ "maximize"
  end.

(** The last two amounts we countered are the same. *)
Definition repeats (counters : list Z) : Prop := ∃ l a, counters = l ++ [a; a].

Lemma stale_repeats counters : stale counters = true ↔ repeats counters.
Proof.
  unfold stale, repeats. split.
  - destruct (reverse counters) as [|a [|b r]] eqn:Hr; [done..|]. intros ->%Z.eqb_eq.
    exists (reverse r), b. rewrite <- (reverse_involutive counters), Hr, !reverse_cons.
    by rewrite <- app_assoc.
  - intros (l & a & ->). rewrite reverse_app. simpl. apply Z.eqb_refl.
Qed.

(** Giving up before the price is looked at, and looking at it. *)
Definition gives_up (cx : NegotiationContext) (counters : list Z) (d : NegotiationDecision) : Prop :=
  nd_action d = d_exit ∧
  (cx_max_rounds cx <= Z.of_nat (length counters) ∧ nd_reason d = Some "max_rounds" ∨
   Z.of_nat (length counters) < cx_max_rounds cx ∧ repeats counters ∧
   nd_reason d = Some "stale_negotiation").

Definition goes_on (cx : NegotiationContext) (counters : list Z) : Prop :=
  Z.of_nat (length counters) < cx_max_rounds cx ∧ ¬ repeats counters.

Lemma bisect_allowed direction ours theirs action amount reason p :
  bisect direction ours theirs = (action, amount, reason) → 0 <= theirs →
  match amount with
  | Some a => _amount_from_proposal (Some p) = Ok (Some a) →
              bisection_allows direction ours theirs (decision action (Some p) reason)
  | None => bisection_allows direction ours theirs (decision action None reason)
  end.
Proof.
  unfold bisect, _CONVERGENCE_NUM, _CONVERGENCE_DEN, _SHORTFALL_NUM, _SHORTFALL_DEN, _REASONABLE_NUM, _REASONABLE_DEN.
  intros Hb Ht. assert ((ours + theirs) / 2 * 2 <= ours + theirs < (ours + theirs) / 2 * 2 + 2) as Hm.
  { pose proof (Z.div_mod (ours + theirs) 2). pose proof (Z.mod_pos_bound (ours + theirs) 2). lia. }
  revert Hb. case_bool_decide as Hmin; [subst|case_bool_decide as Hmax; [subst|by intros [= <- <- <-]]].
  - destruct (Z.leb_spec (theirs * 100) (ours * 101)).
    { intros [= <- <- <-] Hp. split; [by split; [eexists|]|]. left. split; [done|lia]. }
    destruct (Z.leb_spec (theirs * 2) (ours * 3)); intros [= <- <- <-].
    + rewrite Z.min_r by lia. intros Hp. left. split_and!; [done|by split; [eexists|]|lia..].
    + split; [done|]. left. split; [done|lia].
  - destruct (Z.leb_spec (ours * 99) (theirs * 100)).
    { intros [= <- <- <-] Hp. split; [by split; [eexists|]|]. right. split; [done|lia]. }
    destruct (Z.leb_spec (ours * 2) (theirs * 3)); intros [= <- <- <-].
    + intros Hp. right. split_and!; [done|by split; [eexists|exact Hp]|lia..].
    + split; [done|]. right. split; [done|lia].
Qed.

(** Once both amounts are known, every decision is one of those. *)
Lemma bisection_decides history cx ours theirs d cx' :
  bisection_middleware history cx = Ok (Some d, cx') →
  _exact_amount (cx_our_reference_amount cx) = Ok ours → their_proposed_amount history = Ok (Some theirs) →
  cx' = cx ∧ ∃ counters, our_previous_counters history = Ok counters ∧
    (gives_up cx counters d ∨
     goes_on cx counters ∧ bisection_allows (cx_direction cx) ours theirs d).
Proof.
  intros Hb Hours Htheirs. revert Hb. unfold bisection_middleware.
  intros (counters & Hcs & Hb)%result_bind_Ok. revert Hb. pose proof (stale_repeats counters) as Hst.
  destruct (Z.leb_spec (cx_max_rounds cx) (Z.of_nat (List.length counters))) as [Hmax|Hmax];
    [intros [= <- <-]; split; [done|]; exists counters; split; [done|]; left; split; [done|by left]|].
  destruct ((2 <=? Z.of_nat (List.length counters)) && stale counters) eqn:Hs.
  { apply andb_true_iff in Hs as [_ Hs]. intros [= <- <-]. split; [done|]. exists counters.
    split; [done|]. left. split; [done|right]. by split_and!; [|apply Hst|]. }
  assert (goes_on cx counters) as Hgo.
  { split; [done|]. intros Hr. apply Hst in Hr as Hr'. rewrite Hr', andb_true_r in Hs.
    destruct Hr as (l & a & ->). apply Z.leb_gt in Hs. rewrite List.length_app in Hs. simpl in Hs. lia. }
  rewrite Hours, Htheirs. simpl. pose proof (their_amount_nonneg _ _ Htheirs) as Hn.
  match goal with |- context [_set_proposal_amount ?s _] => generalize s; intros skeleton end.
  destruct (bisect (cx_direction cx) ours theirs) as [[action amount] reason] eqn:Hd.
  destruct amount as [a|].
  - intros (p & Hp & [= <- <-])%result_bind_Ok. split; [done|]. exists counters. split; [done|right].
    apply set_amount_reads in Hp as [_ Hp]. split; [done|]. by apply (bisect_allowed _ _ _ _ _ _ p Hd Hn).
  - intros [= <- <-]. split; [done|]. exists counters. split; [done|right]. split; [done|].
    apply (bisect_allowed _ _ _ _ _ _ [] Hd Hn).
Qed.

(** * What the guards and the deciders on what a proposal names let through. *)

(** ** Selecting from a listing *)

(** [p] names the listing's entry: its chain, and its address but for case. *)
Definition names_entry (listing p entry : dict) : Prop :=
  VDict entry ∈ _loads_json_list (dict_get "accepted_escrows" listing) ∧
  py_eq (dict_get "chain_name" entry) (dict_get "chain_name" p) = true ∧
  ∃ a b, dict_get "escrow_address" entry = VStr a ∧ dict_get "escrow_address" p = VStr b ∧
         py_lower a = py_lower b ∧ b ≠ "".

Lemma accepted_escrow_named listing p entry :
  _accepted_escrow_for_proposal listing p = Some entry → names_entry listing p entry.
Proof.
  unfold _accepted_escrow_for_proposal. destruct (dict_get "escrow_address" p) as [| | |b| |] eqn:Hb; try done.
  case_bool_decide as Hne; [done|]. intros (v & Hf & Hv)%bind_Some.
  apply List.find_some in Hf as [Hin Hm]. destruct v as [| | | | |d]; try done. injection Hv as ->.
  simpl in Hm. apply andb_true_iff in Hm as [Hc Ha].
  destruct (dict_get "escrow_address" entry) as [| | |a| |] eqn:He; try done. apply bool_decide_eq_true in Ha.
  split_and!; [by apply list_elem_of_In|done|by exists a, b].
Qed.

(** [p] selects the listing's option: its identity and its mechanism. *)
Definition selects_option (listing p : dict) (option : value) : Prop :=
  ∃ selection mechanism,
    dict_get "settlement_selection" p = VDict selection ∧ selected_mechanism selection = Ok mechanism ∧
    option ∈ _loads_json_list (dict_get "settlement_options" listing) ∧
    py_eq (member "option_id" option) (dict_get "option_id" selection) = true ∧
    py_eq (settlement_option_schema option) mechanism = true.

Lemma settlement_option_selected listing p o :
  _settlement_option_for_selection listing p = Ok (Some o) → selects_option listing p o.
Proof.
  unfold _settlement_option_for_selection. destruct (dict_get "settlement_selection" p) as [| | | | |sel] eqn:Hs; try done.
  intros (mechanism & Hm & [= Hf])%result_bind_Ok. apply List.find_some in Hf as [Hin Hb].
  destruct o as [| | | | |d]; try done. apply andb_true_iff in Hb as [Hi Hm'].
  exists sel, mechanism. split_and!; [done..|by apply list_elem_of_In|exact Hi|exact Hm'].
Qed.

(** ** The release condition *)

(** The condition [p] selects is one the listing advertises on its chain. *)
Definition condition_advertised (listing p : dict) : Prop :=
  ∃ demands selected,
    _normalize_demands_for_chain (dict_get "demands" listing) (dict_get "chain_name" p) = Ok demands ∧
    _normalize_selected_demand p = Ok (Some selected) ∧ existsb (py_eq selected) demands = true.

Lemma normalized_demands_objects chain l demands :
  normalize_demands chain l = Ok demands → Forall (λ v, is_Some (as_dict v)) demands.
Proof.
  revert demands. induction l as [|v l IH]; intros demands; simpl; [by intros [= <-]|].
  destruct v as [| | | | |d]; auto. destruct (_ && _); [auto|].
  intros (x & Hx & (rest & Hr & [= <-])%result_bind_Ok)%result_bind_Ok. constructor; [|auto].
  simpl in Hx. apply result_bind_Ok in Hx as (pairs & _ & [= <-]). by eexists.
Qed.

Lemma none_in_no_demands demands : Forall (λ v, is_Some (as_dict v)) demands → demand_in None demands = false.
Proof. induction 1 as [|v l [d Hv] _ IH]; [done|]. destruct v; try done. Qed.

Lemma check_demand_passes listing p r1 r2 r3 b cx cx' :
  check_demand listing p r1 r2 r3 b cx = Ok (None, cx') → cx' = cx ∧ condition_advertised listing p.
Proof.
  unfold check_demand. intros (demands & Hd & H1)%result_bind_Ok. revert H1.
  destruct (b && _); [done|].
  destruct (_normalize_selected_demand p) as [sel|e] eqn:Hs; [|by destruct (is_value_error e)].
  destruct (is_nil demands); [done|]. destruct (demand_in sel demands) eqn:Hin; [|done].
  intros [= <-]. split; [done|]. exists demands. destruct sel as [s|]; [by exists s|].
  rewrite none_in_no_demands in Hin; [done|]. by eapply normalized_demands_objects.
Qed.

(** It never accepts by itself. *)
Lemma check_demand_rejects listing p r1 r2 r3 b cx d cx' :
  check_demand listing p r1 r2 r3 b cx = Ok (Some d, cx') → nd_action d = d_reject.
Proof.
  unfold check_demand. intros (demands & _ & H1)%result_bind_Ok. revert H1.
  destruct (b && _); [by intros [= <- <-]|].
  destruct (_normalize_selected_demand p) as [sel|e].
  - destruct (is_nil demands); [by intros [= <- <-]|]. destruct (demand_in sel demands); [done|by intros [= <- <-]].
  - destruct (is_value_error e); [by intros [= <- <-]|done].
Qed.

(** ** The escrow's shape *)

(** What the listing says of the entry [p] names. *)
Definition shape_admitted (listing p : dict) : Prop :=
  escrow_contract_unpinned p = false ∧
  ∃ entry, names_entry listing p entry ∧
    match or_empty (dict_get "literal_fields" entry) with
    | VDict literal =>
        Forall (λ kv, py_eq (_normalize_escrow_field (member kv.1 (or_empty (dict_get "literal_fields" p))))
                            (_normalize_escrow_field kv.2) = true) literal ∧
        condition_advertised listing p
    | _ => True
    end.

Lemma shape_guard_passes history cx cx' p :
  escrow_shape_guard history cx = Ok (None, cx') →
  their_last_proposal history = Some p → is_escrow_proposal (Some p) = true →
  cx' = cx ∧ shape_admitted (cx_listing cx) p.
Proof.
  unfold escrow_shape_guard. intros Hg Hp He. rewrite Hp, He in Hg. simpl in Hg.
  destruct (escrow_contract_unpinned p) eqn:Hu; [done|].
  destruct (_accepted_escrow_for_proposal _ p) as [entry|] eqn:Ha; [|done].
  apply accepted_escrow_named in Ha. unfold shape_admitted. setoid_rewrite Hu.
  destruct (or_empty (dict_get "literal_fields" entry)) as [| | | | |literal] eqn:Hl;
    try (injection Hg as <-; split; [done|]; split; [done|]; exists entry; by rewrite Hl).
  destruct (literal_fields_agree literal _) eqn:Hagree; [|done].
  apply check_demand_passes in Hg as [-> Hc]. split; [done|]. split; [done|]. exists entry.
  rewrite Hl. split_and!; [done| |done]. apply List.Forall_forall. intros kv Hkv.
  unfold literal_fields_agree in Hagree. by apply (proj1 (forallb_forall _ _) Hagree).
Qed.

(** A guard that refuses never accepts. *)
Lemma shape_guard_rejects history cx d cx' :
  escrow_shape_guard history cx = Ok (Some d, cx') → nd_action d = d_reject.
Proof.
  unfold escrow_shape_guard. destruct (their_last_proposal history) as [p|]; [|done].
  destruct (negb _); [done|]. destruct (escrow_contract_unpinned p); [by intros [= <- <-]|].
  destruct (_accepted_escrow_for_proposal _ p) as [entry|]; [|by intros [= <- <-]].
  destruct (or_empty _); try done. destruct (literal_fields_agree _ _); [|by intros [= <- <-]].
  apply check_demand_rejects.
Qed.

(** ** Unpriced and exact listings *)

Lemma unpriced_accepts history cx d cx' :
  accept_unpriced_selection_middleware history cx = Ok (Some d, cx') →
  cx' = cx ∧ nd_action d = d_accept ∧
  ∃ opening option, pinned_proposal history = Some opening ∧ nd_proposal d = Some opening ∧
    selects_option (cx_listing cx) opening option ∧ option_uses_scalar_amount option = Ok false.
Proof.
  unfold accept_unpriced_selection_middleware. destruct (pinned_proposal history) as [opening|]; [|done].
  destruct (dict_get "settlement_selection" opening); try done.
  intros (matched & Hm & H1)%result_bind_Ok. destruct matched as [o|]; [|done].
  apply result_bind_Ok in H1 as ([] & Ho & H1); [done|]. injection H1 as <- <-.
  split_and!; [done..|]. exists opening, o. split_and!; [done..| |done]. by apply settlement_option_selected.
Qed.

(** The opening of a history is its first round from the other side's. *)
Lemma pinned_proposal_app history more r :
  List.find (λ r, bool_decide (nr_sender r = them)) history = Some r →
  pinned_proposal (history ++ more) = pinned_proposal history.
Proof.
  intros Hf. unfold pinned_proposal. rewrite Hf.
  replace (List.find _ (history ++ more)) with (Some r); [done|]. symmetry.
  induction history as [|x history IH]; simpl in *; [done|]. by destruct (bool_decide _); [|apply IH].
Qed.

Lemma unpriced_continues history more cx r :
  List.find (λ r, bool_decide (nr_sender r = them)) history = Some r →
  accept_unpriced_selection_middleware (history ++ more) cx = accept_unpriced_selection_middleware history cx.
Proof. intros Hf. unfold accept_unpriced_selection_middleware. by rewrite (pinned_proposal_app _ _ r). Qed.

(** What the amount of an accepted exact listing must be. *)
Definition exact_amount_met (cx : NegotiationContext) (proposal : dict) (d : NegotiationDecision) : Prop :=
  ∃ expected, _exact_amount (cx_our_reference_amount cx) = Ok expected ∧
    _amount_from_proposal (Some proposal) = Ok (Some expected) ∧ carries d expected.

Lemma amount_is_true expected p :
  amount_is expected p = Ok true → _amount_from_proposal (Some p) = Ok (Some expected).
Proof.
  unfold amount_is. intros (a & Ha & H1)%result_bind_Ok. injection H1 as H1%bool_decide_eq_true. by subst.
Qed.

Lemma accepted_with_amount p a reason :
  _amount_from_proposal (Some p) = Ok (Some a) → carries (decision d_accept (Some p) reason) a.
Proof. intros H. split; [by eexists|done]. Qed.

Lemma accept_selection_accepts listing basis proposal cx d cx' :
  accept_selection listing basis proposal cx = Ok (Some d, cx') → nd_action d = d_accept →
  ∃ option, selects_option listing basis option ∧
    (option_uses_scalar_amount option = Ok true ∧ exact_amount_met cx proposal d ∨
     option_uses_scalar_amount option = Ok false ∧ nd_proposal d = Some basis).
Proof.
  unfold accept_selection. intros (matched & Hm & H1)%result_bind_Ok Ha. revert H1 Ha.
  destruct matched as [o|]; [|by intros [= <- <-]]. apply settlement_option_selected in Hm.
  intros ([] & Hs & H1)%result_bind_Ok Ha.
  - apply result_bind_Ok in H1 as (expected & He & (ok & Hok & H1)%result_bind_Ok).
    destruct ok; [|injection H1 as <- <-; done]. apply result_bind_Ok in H1 as (p & Hp & [= <- <-]).
    apply set_amount_reads in Hp as [_ Hp]. apply amount_is_true in Hok.
    exists o. split; [done|]. left. split; [done|]. exists expected. split_and!; [done..|].
    by apply accepted_with_amount.
  - injection H1 as <- <-. exists o. split; [done|]. by right.
Qed.

(** What an accepted escrow shares with the listing's entry. *)
Definition exactly_listed (cx : NegotiationContext) (listing proposal entry : dict) (d : NegotiationDecision) : Prop :=
  ∃ literals literals' rates rates',
    _normalize_exact_value (or_empty (dict_get "literal_fields" entry)) = Ok literals ∧
    _normalize_exact_value (or_empty (dict_get "literal_fields" proposal)) = Ok literals' ∧
    py_eq literals' literals = true ∧
    normalized_rates entry = Ok rates ∧ normalized_rates proposal = Ok rates' ∧
    py_eq (VList rates') (VList rates) = true ∧
    condition_advertised listing proposal ∧
    (_proposal_requires_exact_amount entry = Ok true ∧ exact_amount_met cx proposal d ∨
     _proposal_requires_exact_amount entry = Ok false ∧ nd_proposal d = Some proposal).

Lemma accept_escrow_accepts listing proposal entry cx d cx' :
  accept_escrow listing proposal entry cx = Ok (Some d, cx') → nd_action d = d_accept →
  exactly_listed cx listing proposal entry d.
Proof.
  unfold accept_escrow. intros (lits & Hl & (lits' & Hl' & H1)%result_bind_Ok)%result_bind_Ok Ha. revert H1.
  destruct (py_eq lits' lits) eqn:Heq; [|by intros [= <- <-]]. cbn [negb].
  destruct (or_empty (dict_get "fields" proposal)) as [| | | | |fields]; try (by intros [= <- <-]).
  intros (expected & He & (req & Hreq & (ok & Hok & H1)%result_bind_Ok)%result_bind_Ok)%result_bind_Ok. revert H1.
  destruct ok; [|by intros [= <- <-]]. cbn [negb].
  intros (same & _ & H1)%result_bind_Ok. revert H1. destruct same; [|by intros [= <- <-]]. cbn [negb].
  match goal with |- match ?x with _ => _ end = _ → _ => destruct x as [[rates rates']|e] eqn:Hr end.
  2: { destruct e; simpl; try (by intros [= <- <-]); done. }
  apply result_bind_Ok in Hr as (rs & Hrs & (rs' & Hrs' & [= -> ->])%result_bind_Ok).
  destruct (py_eq (VList rates') (VList rates)) eqn:Hrates; [|by intros [= <- <-]]. cbn [negb].
  intros ([[d'|] cx1] & Hc & H1)%result_bind_Ok.
  { injection H1 as <- <-. apply check_demand_rejects in Hc. congruence. }
  apply check_demand_passes in Hc as [-> Hc]. apply result_bind_Ok in H1 as (p & Hp & [= <- <-]).
  exists lits, lits', rates, rates'. split_and!; [done..|]. destruct req; [left|right].
  - split; [done|]. exists expected. split_and!; [done|by apply amount_is_true|].
    apply set_amount_reads in Hp as [_ Hp]. by apply accepted_with_amount.
  - injection Hp as ->. by split.
Qed.

Lemma exact_listing_accepts history cx d cx' proposal :
  accept_exact_listing_middleware history cx = Ok (Some d, cx') →
  their_last_proposal history = Some proposal → nd_action d = d_accept →
  let listing := cx_listing cx in
  let basis := default proposal (pinned_proposal history) in
  (∃ option, selects_option listing basis option ∧
     (option_uses_scalar_amount option = Ok true ∧ exact_amount_met cx proposal d ∨
      option_uses_scalar_amount option = Ok false ∧ nd_proposal d = Some basis)) ∨
  (∃ entry, names_entry listing proposal entry ∧ exactly_listed cx listing proposal entry d).
Proof.
  unfold accept_exact_listing_middleware. intros Hd Hp Ha. rewrite Hp in Hd. simpl.
  assert (∀ entry, _accepted_escrow_for_proposal (cx_listing cx) proposal = Some entry →
    accept_escrow (cx_listing cx) proposal entry cx = Ok (Some d, cx') →
    ∃ entry, names_entry (cx_listing cx) proposal entry ∧ exactly_listed cx (cx_listing cx) proposal entry d) as Hesc.
  { intros entry He Hacc. exists entry. split; [by apply accepted_escrow_named|by eapply accept_escrow_accepts]. }
  destruct (dict_get "settlement_selection" _);
    try (destruct (_accepted_escrow_for_proposal _ proposal) eqn:He;
         [right; by eapply Hesc|injection Hd as <- <-; done]).
  left. by eapply accept_selection_accepts.
Qed.

(** ** The buyer's pinned proposal *)

Lemma unless_passes kept reason rest cx cx' :
  unless kept reason rest cx = Ok (None, cx') ↔ kept = Ok true ∧ rest = Ok (None, cx').
Proof. unfold unless. destruct kept as [[]|]; simpl; naive_solver. Qed.

(** Nothing the buyer committed to was changed. *)
Definition commitment_kept (pinned theirs : dict) : Prop :=
  selection_kept pinned theirs = Ok true ∧
  py_eq (dict_get "chain_name" pinned) (dict_get "chain_name" theirs) = true ∧
  address_kept pinned theirs = Ok true ∧ expiration_kept pinned theirs = Ok true ∧
  fields_kept pinned theirs = Ok true ∧ demand_kept pinned theirs = Ok true.

Lemma buyer_guard_passes history cx cx' theirs pinned :
  their_last_proposal history = Some theirs → cx_our_escrow_proposal cx = Some pinned →
  buyer_escrow_shape_guard history cx = Ok (None, cx') ↔ cx' = cx ∧ commitment_kept pinned theirs.
Proof.
  intros Ht Hp. unfold buyer_escrow_shape_guard, commitment_kept. rewrite Ht, Hp, !unless_passes.
  assert ((match demand_kept pinned theirs with
           | Ok true => pass cx
           | Ok false => reject "demand_changed" cx
           | Err e => if is_value_error e then reject "invalid_selected_demand" cx else Err e
           end = Ok (None, cx')) ↔ cx' = cx ∧ demand_kept pinned theirs = Ok true) as ->.
  { destruct (demand_kept pinned theirs) as [[]|e]; [|by split; [|intros [_ ?]]|].
    - split; [by intros [= <-]|by intros [-> _]].
    - destruct (is_value_error e); (split; [done|by intros [_ ?]]). }
  split; [intros (? & [= ?] & ?)|]; intuition congruence.
Qed.

(** It stops a chain only by rejecting. *)
Lemma unless_rejects kept reason rest cx d cx' :
  (∀ d cx', rest = Ok (Some d, cx') → nd_action d = d_reject) →
  unless kept reason rest cx = Ok (Some d, cx') → nd_action d = d_reject.
Proof.
  intros Hrest. unfold unless. destruct kept as [[]|]; simpl; [by apply Hrest|by intros [= <- <-]|done].
Qed.

Lemma buyer_guard_rejects history cx d cx' :
  buyer_escrow_shape_guard history cx = Ok (Some d, cx') → nd_action d = d_reject.
Proof.
  unfold buyer_escrow_shape_guard. destruct (their_last_proposal history) as [theirs|]; [|done].
  destruct (cx_our_escrow_proposal cx) as [pinned|]; [|done].
  repeat (apply unless_rejects; intros ? ?).
  destruct (demand_kept pinned theirs) as [[]|e]; [done|by intros [= <- <-]|].
  destruct (is_value_error e); [by intros [= <- <-]|done].
Qed.

(** ** The listed price *)

Lemma listed_price_decides history cx d cx' :
  listed_price_middleware history cx = Ok (d, cx') → cx' = cx ∧ is_Some d.
Proof.
  unfold listed_price_middleware. destruct (their_last_proposal history) as [p|].
  - intros (a & _ & H1)%result_bind_Ok. destruct a as [a|]; [|injection H1 as <- <-; by eauto].
    apply result_bind_Ok in H1 as (bound & _ & H1). destruct (if bool_decide _ then _ else _).
    + apply result_bind_Ok in H1 as (p' & _ & [= <- <-]). by eauto.
    + injection H1 as <- <-. by eauto.
  - intros (p & _ & [= <- <-])%result_bind_Ok. by eauto.
Qed.

(** It accepts an amount within the bound, or a proposal that names none. *)
Lemma listed_price_accepts history cx d cx' :
  listed_price_middleware history cx = Ok (Some d, cx') → nd_action d = d_accept →
  ∃ theirs, their_last_proposal history = Some theirs ∧
    ((their_proposed_amount history = Ok None ∧ nd_proposal d = Some theirs) ∨
     ∃ a bound, their_proposed_amount history = Ok (Some a) ∧
       _exact_amount (cx_our_reference_amount cx) = Ok bound ∧ carries d a ∧
       (if bool_decide (cx_direction cx = "minimize") then a <= bound else bound <= a)).
Proof.
  unfold listed_price_middleware. destruct (their_last_proposal history) as [p|].
  - intros (a & Ha & H1)%result_bind_Ok Hact. exists p. split; [done|].
    destruct a as [a|]; [|injection H1 as <- <-; by left].
    right. apply result_bind_Ok in H1 as (bound & Hb & H1). exists a, bound. split_and!; [done..| |].
    + revert H1. destruct (if bool_decide _ then _ else _); [|intros [= <- <-]; done].
      intros (p' & Hp & [= <- <-])%result_bind_Ok. apply set_amount_reads in Hp as [_ Hp].
      by apply accepted_with_amount.
    + revert H1. destruct (bool_decide _).
      * destruct (Z.leb_spec a bound); [done|]. intros [= <- <-]. done.
      * destruct (Z.leb_spec bound a); [done|]. intros [= <- <-]. done.
  - intros (p & _ & [= <- <-])%result_bind_Ok. done.
Qed.
