(* ===== verification/NegotiationChains.v ===== *)
(** Chains of middlewares: what a guard promises a chain, what a chain of guards
    before a decider decides, and the dialogues a chain can hold. *)
From S2P Require Import Prelude PyNum PyValue PyNumFacts PyText QueryDsl PyWire PyJson.
From S2P Require Import FilterEval.
From S2P Require Import Negotiation ScalarPolicies EscrowGuards NegotiationFacts.
From stdpp Require Import relations.

Local Open Scope string_scope.
Local Open Scope list_scope.
Local Open Scope Z_scope.

(** ** Contexts of the same terms *)

(** Only notes were added. *)
Definition same_terms (c c' : NegotiationContext) : Prop :=
  cx_direction c' = cx_direction c ∧ cx_our_reference_amount c' = cx_our_reference_amount c ∧
  cx_our_opening_amount c' = cx_our_opening_amount c ∧ cx_listing c' = cx_listing c ∧
  cx_our_escrow_proposal c' = cx_our_escrow_proposal c ∧ cx_max_rounds c' = cx_max_rounds c ∧
  cx_listing_source c' = cx_listing_source c.

#[export] Instance same_terms_preorder : PreOrder same_terms.
Proof. split; [done|]. unfold same_terms. intros a b c. intuition congruence. Qed.

Lemma same_terms_set k v c : same_terms c (set_intermediate k v c).
Proof. done. Qed.

(** ** What a guard promises *)

Class Guard (g : NegotiationMiddleware) : Prop := {
  guard_never_counters h c d c' : g h c = Ok (Some d, c') → nd_action d ≠ d_counter;
  guard_keeps_terms h c d c' : g h c = Ok (d, c') → same_terms c c';
}.

(** A guard that only vetoes. *)
Class Veto (g : NegotiationMiddleware) : Prop := {
  veto_refuses h c d c' : g h c = Ok (Some d, c') → nd_action d = d_reject ∨ nd_action d = d_exit;
  veto_keeps_terms h c d c' : g h c = Ok (d, c') → same_terms c c';
}.

#[export] Instance veto_guard g `{!Veto g} : Guard g.
Proof.
  split; [|apply veto_keeps_terms]. intros h c d c' H Hc. apply veto_refuses in H as [H|H]; congruence.
Qed.

#[export] Instance max_rounds_veto : Veto max_rounds_guard.
Proof.
  split; intros h c d c'; unfold max_rounds_guard; destruct (_ <=? _); try done.
  - intros [= <- <-]. by right.
  - by intros [= <- <-].
  - by intros [= <- <-].
Qed.

#[export] Instance inventory_veto : Veto has_matching_inventory_guard.
Proof.
  split; intros h c d c'; unfold has_matching_inventory_guard;
    destruct (classify_listing_source _) as [[r []]|]; try done; intros [= <- <-]; try done. by left.
Qed.

Lemma check_demand_terms listing p r1 r2 r3 b c d c' :
  check_demand listing p r1 r2 r3 b c = Ok (d, c') → c' = c.
Proof.
  destruct d as [d|]; [|by intros [-> _]%check_demand_passes].
  unfold check_demand. intros (demands & _ & H1)%result_bind_Ok. revert H1. destruct (b && _); [by intros [= _ <-]|].
  destruct (_normalize_selected_demand p) as [s|e].
  - destruct (is_nil demands); [by intros [= _ <-]|]. destruct (demand_in s demands); [done|by intros [= _ <-]].
  - destruct (is_value_error e); [by intros [= _ <-]|done].
Qed.

#[export] Instance shape_veto : Veto escrow_shape_guard.
Proof.
  split; [left; by eapply shape_guard_rejects|]. intros h c d c'. unfold escrow_shape_guard.
  destruct (their_last_proposal h) as [p|]; [|by intros [= _ <-]].
  destruct (negb _); [by intros [= _ <-]|]. destruct (escrow_contract_unpinned p); [by intros [= _ <-]|].
  destruct (_accepted_escrow_for_proposal _ p); [|by intros [= _ <-]].
  destruct (or_empty _); try by intros [= _ <-]. destruct (literal_fields_agree _ _); [|by intros [= _ <-]].
  by intros ->%check_demand_terms.
Qed.

Lemma unless_terms kept reason rest c d c' :
  (∀ d c', rest = Ok (d, c') → same_terms c c') →
  unless kept reason rest c = Ok (d, c') → same_terms c c'.
Proof. intros Hrest. unfold unless. destruct kept as [[]|]; simpl; [by apply Hrest|by intros [= _ <-]|done]. Qed.

#[export] Instance buyer_shape_veto : Veto buyer_escrow_shape_guard.
Proof.
  split; [left; by eapply buyer_guard_rejects|]. intros h c d c'. unfold buyer_escrow_shape_guard.
  destruct (their_last_proposal h) as [theirs|]; [|by intros [= _ <-]].
  destruct (cx_our_escrow_proposal c) as [pinned|]; [|by intros [= _ <-]].
  repeat (apply unless_terms; intros ? ?).
  destruct (demand_kept pinned theirs) as [[]|e]; [by intros [= _ <-]..|].
  destruct (is_value_error e); [by intros [= _ <-]|done].
Qed.

#[export] Instance counter_veto : Veto buyer_counter_guard.
Proof.
  assert (∀ h c d c', buyer_counter_guard h c = Ok (d, c') →
    same_terms c c' ∧ (∀ d', d = Some d' → nd_action d' = d_reject)) as H.
  { intros h c d c'. unfold buyer_counter_guard. destruct (last h) as [latest|]; [|by intros [= <- <-]].
    destruct (negb _); [by intros [= <- <-]|].
    intros (uses & _ & (raw & _ & H1)%result_bind_Ok)%result_bind_Ok. revert H1.
    destruct raw as [a|], uses; simpl;
      try (intros (p & _ & [= <- <-])%result_bind_Ok; done);
      try (intros [= <- <-]; split; [done|by intros ? [= <-]]);
      destruct (nr_proposal latest), (cx_our_escrow_proposal c); by intros [= <- <-]. }
  split; intros h c d c' Hg; apply H in Hg as [Ht Hr]; [left|done]. by apply Hr.
Qed.

#[export] Instance unpriced_guard : Guard accept_unpriced_selection_middleware.
Proof.
  split; intros h c d c'.
  - intros (_ & -> & _)%unpriced_accepts. done.
  - destruct d as [d|]; [by intros (-> & _)%unpriced_accepts|].
    unfold accept_unpriced_selection_middleware. destruct (pinned_proposal h) as [o|]; [|by intros [= <-]].
    destruct (dict_get _ o); try by intros [= <-].
    intros ([m|] & _ & H1)%result_bind_Ok; [|by injection H1 as <-].
    apply result_bind_Ok in H1 as ([] & _ & H1); [by injection H1 as <-|done].
Qed.

(** ** Guards before a decider *)

(** [g] let the round pass, under the terms of [c]. *)
Definition passed (g : NegotiationMiddleware) h c : Prop :=
  ∃ c1 c2, same_terms c c1 ∧ g h c1 = Ok (None, c2).

(** A guard runs under the round's terms, and stops the chain or leaves them. *)
Lemma run_guard g gs h c0 c d c' :
  Guard g → same_terms c0 c →
  run_negotiation_chain_with_context (g :: gs) h c = Ok (d, c') →
  (g h c = Ok (Some d, c')) ∨
  (∃ c1, passed g h c0 ∧ same_terms c0 c1 ∧ run_negotiation_chain_with_context gs h c1 = Ok (d, c')).
Proof.
  intros Hg Ht. simpl. intros ([[d1|] c1] & H1 & H2)%result_bind_Ok.
  - injection H2 as -> ->. by left.
  - right. exists c1. split_and!; [by exists c, c1| |done]. transitivity c; [done|].
    by eapply guard_keeps_terms.
Qed.

(** A chain of guards and a decider decides as one of the guards, which does not
    counter, or as the decider, every guard having let the round pass. *)
Lemma chain_decides gs decider h c d c' :
  Forall Guard gs →
  run_negotiation_chain_with_context (gs ++ [decider]) h c = Ok (d, c') →
  (∃ g c1, g ∈ gs ∧ same_terms c c1 ∧ g h c1 = Ok (Some d, c') ∧ nd_action d ≠ d_counter) ∨
  (∃ c1, same_terms c c1 ∧ decider h c1 = Ok (Some d, c') ∧ Forall (λ g, passed g h c) gs).
Proof.
  intros Hgs. revert c. induction Hgs as [|g gs Hg Hgs IH]; intros c; simpl.
  - intros ([[d1|] c1] & Hd & H1)%result_bind_Ok; [|done]. injection H1 as -> ->. right. by exists c.
  - intros ([[d1|] c1] & Hd & H1)%result_bind_Ok.
    + injection H1 as -> ->. left. exists g, c. split_and!; [left|done|done|by eapply guard_never_counters].
    + pose proof (guard_keeps_terms _ _ _ _ Hd) as Ht. apply IH in H1 as [(g' & c2 & Hin & Hs & H)|(c2 & Hs & H & Hp)].
      * left. exists g', c2. split_and!; [by right|by etransitivity|apply H..].
      * right. exists c2. split_and!; [by etransitivity|done|]. constructor; [by exists c, c1|].
        eapply Forall_impl; [exact Hp|]. intros g' (c3 & c4 & Hs' & H'). exists c3, c4.
        split; [by etransitivity|done].
Qed.

(** * Dialogues: the transcripts that grow by whatever the other side says and by
    the counters our chain decides.  With the round limit among its guards, or
    with a bisection that counters amounts, our side says a bounded number of
    things. *)

Definition our_counter (n : Z) (p : option dict) : NegotiationRound :=
  {| nr_round_number := n; nr_sender := us; nr_action := r_counter; nr_proposal := p |}.

Section dialogue.
Context (chain : list NegotiationMiddleware) (terms : NegotiationContext) (start : list NegotiationRound).

Inductive dialogue : list NegotiationRound → Prop :=
  | dialogue_start : dialogue start
  | dialogue_them h r : dialogue h → nr_sender r = them → dialogue (h ++ [r])
  | dialogue_us h c d c' n :
      dialogue h → same_terms terms c →
      run_negotiation_chain_with_context chain h c = Ok (d, c') → nd_action d = d_counter →
      dialogue (h ++ [our_counter n (nd_proposal d)]).
End dialogue.

(** ** Transcripts that grow *)

Definition our_counters (history : list NegotiationRound) : list NegotiationRound :=
  filter (λ r, nr_sender r = us ∧ nr_action r = r_counter) history.

Lemma our_counters_them h r : nr_sender r = them → our_counters (h ++ [r]) = our_counters h.
Proof.
  intros Hr. unfold our_counters. rewrite filter_app, (filter_cons_False _ r); [by rewrite app_nil_r|].
  rewrite Hr. by intros [[=] _].
Qed.

Lemma our_counters_us h n p : our_counters (h ++ [our_counter n p]) = our_counters h ++ [our_counter n p].
Proof. unfold our_counters. rewrite filter_app. f_equal. Qed.

Lemma amounts_them h r :
  nr_sender r = them → our_previous_counters (h ++ [r]) = our_previous_counters h.
Proof.
  intros Hr. induction h as [|x h IH]; simpl.
  - rewrite Hr. done.
  - rewrite IH. done.
Qed.

Lemma amounts_us h n p a l :
  our_previous_counters h = Ok l → _amount_from_proposal p = Ok (Some a) →
  our_previous_counters (h ++ [our_counter n p]) = Ok (l ++ [a]).
Proof.
  intros Hl Ha. revert l Hl. induction h as [|x h IH]; intros l; simpl.
  - intros [= <-]. rewrite Ha. done.
  - destruct (_ && _); [|apply IH]. intros (b & -> & (l' & Hl & [= <-])%result_bind_Ok)%result_bind_Ok.
    simpl. rewrite (IH _ Hl). simpl. by destruct b.
Qed.

Lemma their_amount_us h n p : their_proposed_amount (h ++ [our_counter n p]) = their_proposed_amount h.
Proof. unfold their_proposed_amount. rewrite reverse_app. done. Qed.

(** Once the other side has named an amount, some amount of its stays known. *)
Lemma their_amount_them h r :
  their_proposed_amount h ≠ Ok None → their_proposed_amount (h ++ [r]) ≠ Ok None.
Proof.
  unfold their_proposed_amount. rewrite reverse_app. simpl. intros Hh. case_bool_decide; [|done].
  destruct (_amount_from_proposal (nr_proposal r)) as [[a|]|]; done.
Qed.

(** ** The round limit *)

Lemma max_rounds_passed h c : passed max_rounds_guard h c → Z.of_nat (length (our_counters h)) < cx_max_rounds c.
Proof.
  intros (c1 & c2 & Ht & Hg). unfold max_rounds_guard in Hg. revert Hg.
  fold (our_counters h). destruct (Z.leb_spec (cx_max_rounds c1) (Z.of_nat (List.length (our_counters h)))); [done|].
  intros _. destruct Ht as (_ & _ & _ & _ & _ & <- & _). done.
Qed.

(** A chain of guards that knows the round limit, and any decider. *)
Lemma limited_dialogue gs decider terms start h :
  Forall Guard gs → max_rounds_guard ∈ gs →
  dialogue (gs ++ [decider]) terms start h →
  Z.of_nat (length (our_counters h)) <= Z.max (cx_max_rounds terms) (Z.of_nat (length (our_counters start))).
Proof.
  intros Hgs Hin. induction 1 as [|h r Hd IH Hr|h c d c' n Hd IH Ht Hrun Hc]; [lia|by rewrite our_counters_them|].
  rewrite our_counters_us, length_app. simpl.
  apply chain_decides in Hrun as [(g & c1 & _ & _ & _ & Hnc)|(c1 & _ & _ & Hp)]; [done| |done].
  apply (List.Forall_forall _ gs) with (x := max_rounds_guard) in Hp; [|by apply list_elem_of_In].
  apply max_rounds_passed in Hp. destruct Ht as (_ & _ & _ & _ & _ & Hm & _). lia.
Qed.

(** ** Bisecting for the lower amount *)

Lemma stale_pair a l : stale (l ++ [a; a]) = true.
Proof. unfold stale. rewrite reverse_app. simpl. apply Z.eqb_refl. Qed.

(** A countering bisection has said less than twice the same. *)
Lemma bisection_not_stale h c d c' l a :
  bisection_middleware h c = Ok (Some d, c') → nd_action d = d_counter →
  our_previous_counters h = Ok l → Forall (eq a) l → (length l < 2)%nat.
Proof.
  unfold bisection_middleware. intros Hb Hd Hl Ha. rewrite Hl in Hb. simpl in Hb. revert Hb.
  destruct (_ <=? _); [intros [= <- <-]; done|].
  destruct l as [|x [|y l]]; simpl; [lia..|]. intros Hb.
  assert (stale (x :: y :: l) = true) as Hs.
  { unfold stale. assert (Forall (eq a) (reverse (x :: y :: l))) as Hr.
    { by apply Forall_reverse. }
    assert (length (reverse (x :: y :: l)) = S (S (length l))) as Hlen by by rewrite length_reverse.
    destruct (reverse (x :: y :: l)) as [|u [|v m]]; [done..|].
    inversion Hr as [|? ? <- Hr']; subst. inversion Hr' as [|? ? <- _]; subst. apply Z.eqb_refl. }
  revert Hb. rewrite Hs. rewrite (proj2 (Z.leb_le _ _)) by lia. simpl. intros [= <- <-]. done.
Qed.

Lemma bisection_concedes_nothing gs terms start h ours :
  Forall Guard gs → cx_direction terms = "minimize" → _exact_amount (cx_our_reference_amount terms) = Ok ours →
  our_previous_counters start = Ok [] → their_proposed_amount start ≠ Ok None →
  dialogue (gs ++ [bisection_middleware]) terms start h →
  their_proposed_amount h ≠ Ok None ∧
  ∃ l, our_previous_counters h = Ok l ∧ Forall (eq ours) l ∧ (length l ≤ 2)%nat.
Proof.
  intros Hgs Hdir Hours Hstart Htheirs.
  induction 1 as [|h r Hd [IHt (l & Hl & Hall & Hlen)] Hr|h c d c' n Hd [IHt (l & Hl & Hall & Hlen)] Ht Hrun Hc].
  - split; [done|]. exists []. split_and!; [done|constructor|simpl; lia].
  - split; [by apply their_amount_them|]. exists l. by rewrite amounts_them.
  - split; [by rewrite their_amount_us|].
    apply chain_decides in Hrun as [(g & c1 & _ & _ & _ & Hnc)|(c1 & Ht1 & Hb & _)]; [done| |done].
    assert (same_terms terms c1) as (Hd1 & Hr1 & _) by by etransitivity.
    pose proof (bisection_not_stale _ _ _ _ _ _ Hb Hc Hl Hall) as Hlt.
    destruct (their_proposed_amount h) as [[theirs|]|e] eqn:Hth; [|done|].
    + apply (bisection_decides _ _ ours theirs) in Hb as [_ (l' & _ & [[He _]|[_ Ha]])];
        [congruence| |by rewrite Hr1|done].
      unfold bisection_allows in Ha. rewrite Hc, Hd1, Hdir in Ha.
      destruct Ha as [(_ & [_ Hcar] & _)|([=] & _)]. exists (l ++ [ours]).
      split_and!; [by apply amounts_us|by apply Forall_app; split; [|constructor; [|constructor]]|].
      rewrite length_app. simpl. lia.
    + exfalso. unfold bisection_middleware in Hb. rewrite Hl, Hr1, Hours, Hth in Hb. simpl in Hb.
      revert Hb. destruct (_ <=? _); [intros [= <- <-]; done|]. destruct (_ && _); [intros [= <- <-]; done|done].
Qed.
