(* ===== verification/EscrowSchemas.v ===== *)
(** The Alkahest kit's messages ([market_alkahest/schemas.py]): rates, demands,
    escrow proposals as their models validate and dump them, the accepted escrow
    a proposal matches, and the normalisation of a proposal against it.

    Pydantic's lax reading of an integer field, and [str()] of a value that is no
    string, are parameters; unknown fields are ignored, as the models do. *)
From S2P Require Import Prelude PyNum PyValue PyText QueryDsl PyWire PyJson FilterEval.
From S2P Require Import Negotiation ScalarPolicies.

Local Open Scope string_scope.
Local Open Scope list_scope.
Local Open Scope Z_scope.

(** ** Rates *)

Definition _parse_uint256_str (v : value) (field_name : string) : result (option Z) :=
  match v with
  | VNone => Ok None
  | VBool _ => Err (ValueError "expected non-negative decimal, got bool")
  | VNum (NInt z) => if z <? 0 then Err (ValueError "must be non-negative") else Ok (Some z)
  | VStr s =>
      let s := strip_chars (to_chars s) in
      if is_nil s then Ok None
      else if isdigit s then Some <$> int_str (of_chars s)
      else Err (ValueError "must be a non-negative decimal-digit string")
  | _ => Err (ValueError "must be int, decimal string, or None")
  end.

Record RateValue : Type := { rv_field : string; rv_per : string; rv_value : Z }.

(** A field of type [str], and one that defaults. *)
Definition str_field (v : value) : result string :=
  match v with VStr s => Ok s | _ => Err (ValueError "Input should be a valid string") end.
Definition field_or {A} (k : string) (d : dict) (dflt : A) (read : value → result A) : result A :=
  match alist_get k d with Some v => read v | None => Ok dflt end.
Definition required {A} (k : string) (d : dict) (read : value → result A) : result A :=
  match alist_get k d with Some v => read v | None => Err (ValueError "Field required") end.

(** A field of an optional type. *)
Definition nullable {A} (read : value → result A) (v : value) : result (option A) :=
  match v with VNone => Ok None | _ => Some <$> read v end.

Definition dict_field (v : value) : result dict :=
  match v with VDict d => Ok d | _ => Err (ValueError "Input should be a valid dictionary") end.
Definition list_field {A} (read : value → result A) (v : value) : result (list A) :=
  match v with VList l => mapM_result read l | _ => Err (ValueError "Input should be a valid list") end.

Definition _parse_value (v : value) : result Z :=
  parsed ← _parse_uint256_str v "value";
  match parsed with Some z => Ok z | None => Err (ValueError "RateValue.value must not be null") end.

Definition RateValue_validate (v : value) : result RateValue :=
  d ← dict_field v;
  field ← required "field" d str_field;
  per ← field_or "per" d "hour" str_field;
  x ← required "value" d _parse_value;
  Ok {| rv_field := field; rv_per := per; rv_value := x |}.

Definition dump_rate (r : RateValue) : result value :=
  text ← int_chars (rv_value r);
  Ok (VDict [("field", VStr (rv_field r)); ("per", VStr (rv_per r)); ("value", VStr (of_chars text))]).

(** ** Demands and proposals *)

Record EscrowDemand : Type := {
  ed_chain_name : option string;
  ed_arbiter : string;
  ed_demand_data : dict;
}.

Definition EscrowDemand_validate (v : value) : result EscrowDemand :=
  d ← dict_field v;
  chain ← field_or "chain_name" d None (nullable str_field);
  arbiter ← required "arbiter" d str_field;
  data ← field_or "demand_data" d [] dict_field;
  Ok {| ed_chain_name := chain; ed_arbiter := arbiter; ed_demand_data := data |}.

Definition opt_value {A} (f : A → value) (x : option A) : value := match x with Some a => f a | None => VNone end.

Definition dump_demand (e : EscrowDemand) : value :=
  VDict [("chain_name", opt_value VStr (ed_chain_name e)); ("arbiter", VStr (ed_arbiter e));
         ("demand_data", VDict (ed_demand_data e))].

Record EscrowProposal : Type := {
  ep_chain_name : string;
  ep_escrow_address : string;
  ep_fields : dict;
  ep_literal_fields : option dict;
  ep_rates : option (list RateValue);
  ep_demand : option EscrowDemand;
  ep_demands : option (list EscrowDemand);
  ep_expiration_unix : Z;
}.

Section schemas.
(** Pydantic's reading of an [int] field, and [str()] of what is no string. *)
Context (lax_int : value → result Z) (py_str : value → string).

Definition _coerce_legacy_demands (d : dict) : result dict :=
  if negb (is_none (dict_get "demand" d)) then Ok d else
  match dict_get "demands" d with
  | VNone => Ok d
  | VList [] => Ok d
  | VList [x] => Ok (dict_set "demand" x d)
  | VList _ => Err (ValueError "proposal demands[] may contain at most one selected demand")
  | _ => Err (ValueError "deprecated proposal demands must be a list")
  end.

Definition positive_int (v : value) : result Z :=
  z ← lax_int v; if 0 <? z then Ok z else Err (ValueError "Input should be greater than 0").

Definition EscrowProposal_validate (raw : dict) : result EscrowProposal :=
  d ← _coerce_legacy_demands raw;
  chain ← required "chain_name" d str_field;
  address ← required "escrow_address" d str_field;
  fields ← field_or "fields" d [] dict_field;
  literals ← field_or "literal_fields" d None (nullable dict_field);
  rates ← field_or "rates" d None (nullable (list_field RateValue_validate));
  demand ← field_or "demand" d None (nullable EscrowDemand_validate);
  demands ← field_or "demands" d None (nullable (list_field EscrowDemand_validate));
  expiration ← required "expiration_unix" d positive_int;
  Ok {| ep_chain_name := chain; ep_escrow_address := address; ep_fields := fields;
        ep_literal_fields := literals; ep_rates := rates; ep_demand := demand; ep_demands := demands;
        ep_expiration_unix := expiration |}.

Definition dump_proposal (p : EscrowProposal) : result dict :=
  rates ← match ep_rates p with
          | Some rates => VList <$> mapM_result dump_rate rates
          | None => Ok VNone
          end;
  Ok [("chain_name", VStr (ep_chain_name p)); ("escrow_address", VStr (ep_escrow_address p));
      ("fields", VDict (ep_fields p)); ("literal_fields", opt_value VDict (ep_literal_fields p));
      ("rates", rates); ("demand", opt_value dump_demand (ep_demand p));
      ("demands", opt_value (λ l, VList (dump_demand <$> l)) (ep_demands p));
      ("expiration_unix", VInt (ep_expiration_unix p))].

(** ** What a proposal matches *)

(** [str(v or "")]. *)
Definition str_or_empty (v : value) : string :=
  if truthy v then match v with VStr s => s | _ => py_str v end else "".

Definition matches_entry (p : EscrowProposal) (entry : value) : bool :=
  py_eq (member "chain_name" entry) (VStr (ep_chain_name p)) &&
  bool_decide (py_lower (str_or_empty (member "escrow_address" entry)) = py_lower (ep_escrow_address p)).

Definition match_accepted_escrow (accepted : list value) (p : EscrowProposal) : option value :=
  List.find (matches_entry p) accepted.

Definition _rates_of (entry : value) : result (list value) :=
  match entry with
  | VDict d =>
      if dict_has "option_id" d then settlement_option_rates entry
      else Ok (match dict_get "rates" d with VList l => l | _ => [] end)
  | _ => Ok []
  end.

Definition primary_rate_value (entry : value) : result (option Z) :=
  rates ← _rates_of entry;
  match rates with
  | [] => Ok None
  | first :: _ =>
      match member "value" first with
      | VStr s =>
          let stripped := strip_chars (to_chars s) in
          if isdigit stripped then Some <$> int_str (of_chars stripped) else Ok None
      | VNum (NInt z) => Ok (Some z)
      | _ => Ok None
      end
  end.

Definition _literal_fields_of (entry : value) : dict :=
  match member "literal_fields" entry with VDict d => d | _ => [] end.

(** ** Normalisation *)

(** [literal_fields.update(...)] where the dictionary is the entry's own. *)
Definition update_entry (extra : dict) (entry : value) : value :=
  match entry with
  | VDict d =>
      match dict_get "literal_fields" d with
      | VDict literals => VDict (dict_set "literal_fields" (VDict (dict_update literals extra)) d)
      | _ => entry
      end
  | _ => entry
  end.

(** The first entry [p] matches, updated in place. *)
Fixpoint update_matched (p : EscrowProposal) (extra : dict) (accepted : list value) : list value :=
  match accepted with
  | [] => []
  | entry :: accepted =>
      if matches_entry p entry then update_entry extra entry :: accepted
      else entry :: update_matched p extra accepted
  end.

(** Beside the normalised proposal, the accepted entries as the call leaves them. *)
Definition normalize_proposal_against_accepted_escrows (p : EscrowProposal) (accepted : list value)
    : result EscrowProposal * list value :=
  match match_accepted_escrow accepted p with
  | None => (Ok p, accepted)
  | Some matched =>
      let extra := default [] (ep_literal_fields p) in
      (rates ← match ep_rates p with
               | Some rates => Ok rates
               | None => raw ← _rates_of matched; mapM_result RateValue_validate raw
               end;
       Ok {| ep_chain_name := ep_chain_name p; ep_escrow_address := ep_escrow_address p;
             ep_fields := ep_fields p;
             ep_literal_fields := Some (dict_update (_literal_fields_of matched) extra);
             ep_rates := Some rates; ep_demand := ep_demand p; ep_demands := None;
             ep_expiration_unix := ep_expiration_unix p |},
       update_matched p extra accepted)
  end.
End schemas.
