(* ===== verification/SellerRound.v ===== *)
(** The VM storefront's negotiation round ([arkhai_vms_negotiation/policies.py]
    and storefront_round.py, [arkhai_vms_listings/pricing.py]): the opening
    guard, the seller's reference amount, the default chain and the round itself.

    The guard normalises the opening against the listing's entries in place, so
    the listing the later middlewares read is the one it leaves.  The policy
    files a storefront discovers and the escrow-kind dispatch are not modelled:
    the chain is the one an empty policy configuration selects. *)
From S2P Require Import Prelude PyNum PyValue PyText QueryDsl PyWire PyJson FilterEval.
From S2P Require Import Negotiation ScalarPolicies.
From S2P Require Import EscrowGuards EscrowSchemas.
From Stdlib Require Import Ascii.

Local Open Scope string_scope.
Local Open Scope list_scope.
Local Open Scope Z_scope.

Definition set_listing (listing : dict) (c : NegotiationContext) : NegotiationContext :=
  {| cx_direction := cx_direction c; cx_our_reference_amount := cx_our_reference_amount c;
     cx_our_opening_amount := cx_our_opening_amount c; cx_listing := listing;
     cx_our_escrow_proposal := cx_our_escrow_proposal c; cx_max_rounds := cx_max_rounds c;
     cx_listing_source := cx_listing_source c; cx_intermediate := cx_intermediate c |}.

Definition _is_round_zero (history : list NegotiationRound) : bool :=
  match history with
  | [r] => (nr_round_number r =? 0) && bool_decide (nr_sender r = them) && bool_decide (nr_action r = r_initial)
  | _ => false
  end.

(** ** The opening guard *)

Inductive duration_check : Type := duration_ok | duration_invalid | duration_exceeds.

(** [int(x)] where [x] is not [None]. *)
Definition optional_int (v : value) : result (option Z) :=
  if is_none v then Ok None else Some <$> py_int_of v.

Definition check_duration (listing : dict) (requested : value) : result duration_check :=
  asked ← optional_int requested;
  if match asked with Some s => s <=? 0 | None => false end then Ok duration_invalid else
  limit ← optional_int (dict_get "max_duration_seconds" listing);
  match asked, limit with
  | Some s, Some m => Ok (if (0 <? m) && (m <? s) then duration_exceeds else duration_ok)
  | _, _ => Ok duration_ok
  end.

Definition hex_lower (c : ascii) : bool := in_codes 48 57 c || in_codes 97 102 c.

(** [re.fullmatch(r"[0-9a-f]{64}", s)]. *)
Definition is_option_id (s : string) : bool :=
  (Z.of_nat (List.length (to_chars s)) =? 64) && forallb hex_lower (to_chars s).

Definition selection_keys : list string := ["settlement"; "option_id"; "expiration_unix"].

(** The selection and the option it names, or why there is none. *)
Definition check_selection (listing proposal : dict) : result (dict * value) :=
  match dict_get "settlement_selection" proposal with
  | VDict selection =>
      match dict_get "settlement" selection with
      | VDict settlement =>
          if negb (forallb (λ k, dict_has k selection) selection_keys
                   && forallb (λ k, bool_decide (k ∈ selection_keys)) (fst <$> selection))
          then Err (ValueError "selection has invalid fields") else
          match dict_get "schema" settlement with
          | VStr mechanism =>
              if bool_decide (mechanism = "") then Err (ValueError "selection mechanism is required") else
              match dict_get "option_id" selection with
              | VStr option_id =>
                  if negb (is_option_id option_id) then Err (ValueError "selection option_id is invalid") else
                  match dict_get "expiration_unix" selection with
                  | VNum (NInt z) =>
                      if z <=? 0 then Err (ValueError "selection expiration is invalid") else
                      matched ← _settlement_option_for_selection listing proposal;
                      match matched with
                      | Some o => Ok (selection, o)
                      | None => Err (ValueError "selection does not exact-match a listing option")
                      end
                  | _ => Err (ValueError "selection expiration is invalid")
                  end
              | _ => Err (ValueError "selection option_id is invalid")
              end
          | _ => Err (ValueError "selection mechanism is required")
          end
      | _ => Err (ValueError "selection has invalid fields")
      end
  | _ => Err (ValueError "selection has invalid fields")
  end.

Section round.
Context (lax_int : value → result Z) (py_str : value → string).

(** The opening's escrow as the listing's entries complete it, and the listing
    afterwards: entries kept in the listing itself are updated, those it keeps
    as JSON text are not. *)
Definition accept_opening_escrow (listing proposal : dict) : result dict * dict :=
  match EscrowProposal_validate lax_int proposal with
  | Err e => (Err e, listing)
  | Ok p =>
      let accepted := _loads_json_list (dict_get "accepted_escrows" listing) in
      let '(normalized, accepted) := normalize_proposal_against_accepted_escrows py_str p accepted in
      (p ← normalized; dump_proposal p,
       match dict_get "accepted_escrows" listing with
       | VList _ => dict_set "accepted_escrows" (VList accepted) listing
       | _ => listing
       end)
  end.

(** What the opening bargains, once it is known what it proposes. *)
Definition check_opening_amount (proposal : option dict) (context : NegotiationContext) : result NegotiationStep :=
  uses_scalar_amount ← proposal_uses_scalar_amount (cx_listing context) proposal;
  let context := set_intermediate "uses_scalar_amount" (VBool uses_scalar_amount) context in
  if uses_scalar_amount : bool then
    amount ← _amount_from_proposal proposal;
    match amount with Some _ => pass context | None => reject "missing_amount" context end
  else pass context.

Definition round_zero_opening_guard : NegotiationMiddleware := λ history context,
  if negb (_is_round_zero history) then pass context else
  let listing := cx_listing context in
  duration ← check_duration listing (dict_get "requested_duration_seconds" (cx_intermediate context));
  match duration with
  | duration_invalid => reject "compute_duration_invalid" context
  | duration_exceeds => reject "compute_duration_exceeds_listing_max" context
  | duration_ok =>
      match their_last_proposal history with
      | None => check_opening_amount None context
      | Some proposal =>
          if negb (is_none (dict_get "settlement_selection" proposal)) then
            match check_selection listing proposal with
            | Err _ => reject "invalid_settlement_selection" context
            | Ok (selection, option) =>
                check_opening_amount (Some proposal)
                  (set_intermediate "accepted_settlement_option" option
                    (set_intermediate "accepted_settlement_selection" (VDict selection) context))
            end
          else
            let '(accepted, listing) := accept_opening_escrow listing proposal in
            let context := set_listing listing context in
            match accepted with
            | Err _ => reject "invalid_escrow_proposal" context
            | Ok accepted =>
                check_opening_amount (Some accepted)
                  (set_intermediate "accepted_escrow_proposal" (VDict accepted) context)
            end
      end
  end.

(** ** The reference amount *)

(** [_DECIMAL_TEXT]: digits without a leading zero, and a fraction. *)
Definition decimal_text_form (l : chars) : bool :=
  match l with
  | [] => false
  | c :: rest =>
      let '(whole, rest) := if bool_decide (c = "0"%char) then ([c], rest) else span is_ascii_digit l in
      negb (is_nil whole) &&
      match rest with
      | [] => true
      | "."%char :: frac => negb (is_nil frac) && forallb is_ascii_digit frac
      | _ => false
      end
  end.

(** A rational as a numerator over a power of ten. *)
Definition _exact_floor (v : value) : result (option decimal) :=
  match v with
  | VNone => Ok None
  | VBool _ | VNum (NFloat _) => Err (ValueError "default_min_price is not a valid number for an exact floor")
  | _ =>
      let text := strip_chars (to_chars (match v with VStr s => s | _ => py_str v end)) in
      if is_nil text then Ok None
      else if decimal_text_form text then
        match parse_decimal (of_chars text) with
        | Some d => Ok (Some d)
        | None => Err (ValueError "default_min_price is not a valid number")
        end
      else Err (ValueError "default_min_price is not a valid number")
  end.

(** The advertised rate, or the storefront's floor, per hour. *)
Definition extract_initial_price_from_order (default_min_price selected : value) : result decimal :=
  advertised ← primary_rate_value selected;
  match advertised with
  | Some rate => Ok (dec_of_Z rate)
  | None =>
      floor ← _exact_floor default_min_price;
      match floor with
      | Some f => if 0 <? coef f then Ok f else Err (ValueError "hidden reserve without default_min_price")
      | None => Err (ValueError "hidden reserve without default_min_price")
      end
  end.

(** [math.floor(Fraction(per_hour) * seconds / 3600)]. *)
Definition scale_floor (per_hour : decimal) (seconds : Z) : Z :=
  if 0 <=? expo per_hour then coef per_hour * 10 ^ expo per_hour * seconds / 3600
  else coef per_hour * seconds / (3600 * 10 ^ (- expo per_hour)).

Definition _seller_reference_amount (listing : dict) (duration_seconds : option Z) (default_min_price : value)
    (proposal : option dict) : result Z :=
  selected ← selected_settlement_artifact listing proposal;
  match selected with
  | None => Ok 0
  | Some selected =>
      per_hour ← extract_initial_price_from_order default_min_price selected;
      Ok (scale_floor per_hour (default 3600 duration_seconds))
  end.

(** ** The default chain and the round *)

Definition _DEFAULT_GUARDS : list NegotiationMiddleware :=
  [round_zero_opening_guard; buyer_counter_guard; has_matching_inventory_guard; escrow_shape_guard;
   accept_unpriced_selection_middleware].

Definition default_chain : list NegotiationMiddleware := _DEFAULT_GUARDS ++ [bisection_middleware].

Definition _direction_from_strategy_label (strategy : string) : result string :=
  if bool_decide (strategy = "minimize" ∨ strategy = "maximize") then Ok strategy
  else Err (ValueError "Unknown order strategy").

Record SellerRoundResult : Type := {
  sr_our_amount : Z;
  sr_direction : string;
  sr_decision : NegotiationDecision;
  sr_intermediate : dict;
}.

Definition default_max_rounds : Z := 10.

(** The context of a round. *)
Definition seller_context (listing : dict) (history : list NegotiationRound) (direction : string)
    (reference : Z) (uses_scalar_amount : bool) (duration : option Z)
    (source : option ListingSourceOutcome) : NegotiationContext :=
  {| cx_direction := direction; cx_our_reference_amount := VInt reference; cx_our_opening_amount := VNone;
     cx_listing := listing;
     cx_our_escrow_proposal := match List.find (λ r, bool_decide (nr_sender r = them)) (reverse history) with
                               | Some r => nr_proposal r
                               | None => None
                               end;
     cx_max_rounds := default_max_rounds; cx_listing_source := source;
     cx_intermediate := [("requested_duration_seconds", opt_value (λ z, VInt z) duration);
                         ("seller_reference_amount", VInt reference);
                         ("uses_scalar_amount", VBool uses_scalar_amount)] |}.

(** A continuation whose opening selects nothing the listing still offers. *)
Definition option_withdrawn (listing : dict) (history : list NegotiationRound) : result bool :=
  match pinned_proposal history with
  | Some pinned =>
      if existsb (λ r, bool_decide (nr_sender r = us)) history then
        selected ← selected_settlement_artifact listing (Some pinned);
        Ok (match selected with None => true | Some _ => false end)
      else Ok false
  | None => Ok false
  end.

Definition _run_default_seller_round_policy (listing : dict) (history : list NegotiationRound)
    (duration : option Z) (strategy : string) (source : option ListingSourceOutcome)
    (default_min_price : value) : result SellerRoundResult :=
  direction ← _direction_from_strategy_label strategy;
  withdrawn ← option_withdrawn listing history;
  if (withdrawn : bool) then
    Ok {| sr_our_amount := 0; sr_direction := direction;
          sr_decision := decision d_reject None (Some "pinned_option_withdrawn");
          sr_intermediate := [("uses_scalar_amount", VBool true)] |}
  else
    let pinned := pinned_proposal history in
    uses_scalar_amount ← proposal_uses_scalar_amount listing pinned;
    reference ← (if uses_scalar_amount : bool
                 then _seller_reference_amount listing duration default_min_price pinned else Ok 0);
    '(d, context) ← run_negotiation_chain_with_context default_chain history
      (seller_context listing history direction reference uses_scalar_amount duration source);
    let uses := default (VBool true) (alist_get "uses_scalar_amount" (cx_intermediate context)) in
    Ok {| sr_our_amount := if truthy uses then reference else 0; sr_direction := direction;
          sr_decision := d; sr_intermediate := cx_intermediate context |}.
End round.
