(* ===== verification/SellerRoundFacts.v ===== *)
(** What the VM storefront's round decides: the opening guard's effect on the
    listing, and every acceptance and refusal of the default chain. *)
From S2P Require Import Prelude PyNum PyValue PyNumFacts PyText QueryDsl PyWire PyJson.
From S2P Require Import FilterEval Negotiation.
From S2P Require Import ScalarPolicies EscrowGuards NegotiationFacts NegotiationChains.
From S2P Require Import EscrowSchemas SellerRound.

Local Open Scope string_scope.
Local Open Scope list_scope.
Local Open Scope Z_scope.

(** ** Entries keep their identity *)

Lemma is_escrow_entry_update chain address extra entry :
  is_escrow_entry chain address (update_entry extra entry) = is_escrow_entry chain address entry.
Proof.
  destruct entry as [| | | | |d]; try done. unfold update_entry.
  destruct (dict_get "literal_fields" d); try done. unfold is_escrow_entry.
  by rewrite !dict_get_set_ne by done.
Qed.

Section round.
Context (lax_int : value → result Z) (py_str : value → string).

Lemma find_update_matched p extra chain address accepted :
  List.find (is_escrow_entry chain address) (update_matched py_str p extra accepted) = None ↔
  List.find (is_escrow_entry chain address) accepted = None.
Proof.
  induction accepted as [|entry accepted IH]; simpl; [done|].
  destruct (matches_entry py_str p entry); simpl.
  - rewrite is_escrow_entry_update. by destruct (is_escrow_entry _ _ entry).
  - by destruct (is_escrow_entry _ _ entry).
Qed.

(** The listing as the opening guard leaves it. *)
Definition opening_listing (listing : dict) (history : list NegotiationRound) : dict :=
  if _is_round_zero history then
    match their_last_proposal history with
    | Some p => if is_none (dict_get "settlement_selection" p)
                then (accept_opening_escrow lax_int py_str listing p).2 else listing
    | None => listing
    end
  else listing.

Lemma accept_opening_accepted listing p q :
  _accepted_escrow_for_proposal (accept_opening_escrow lax_int py_str listing p).2 q = None ↔
  _accepted_escrow_for_proposal listing q = None.
Proof.
  unfold accept_opening_escrow. destruct (EscrowProposal_validate lax_int p) as [ep|]; [|done].
  destruct (dict_get "accepted_escrows" listing) as [| | | |l|] eqn:Hl;
    try (by destruct (normalize_proposal_against_accepted_escrows _ _ _)).
  simpl. unfold normalize_proposal_against_accepted_escrows.
  destruct (match_accepted_escrow py_str l ep); simpl.
  - unfold _accepted_escrow_for_proposal. rewrite dict_get_set_eq, Hl. simpl.
    destruct (dict_get "escrow_address" q) as [| | |a| |]; try done. case_bool_decide; [done|].
    pose proof (find_update_matched ep (default [] (ep_literal_fields ep)) (dict_get "chain_name" q) (py_lower a) l) as Hf.
    destruct (List.find _ (update_matched _ _ _ _)) as [e1|] eqn:E1, (List.find _ l) as [e2|] eqn:E2; simpl;
      [|by exfalso; naive_solver..|done].
    apply List.find_some in E1 as [_ E1], E2 as [_ E2]. by destruct e1, e2.
  - unfold _accepted_escrow_for_proposal. by rewrite dict_get_set_eq, Hl.
Qed.

(** ** The opening guard *)

Lemma check_opening_amount_step p c d c' :
  check_opening_amount p c = Ok (d, c') →
  (d = None ∨ ∃ d', d = Some d' ∧ nd_action d' = d_reject) ∧ same_terms c c'.
Proof.
  unfold check_opening_amount. intros (uses & _ & H1)%result_bind_Ok. destruct uses.
  - apply result_bind_Ok in H1 as ([a|] & _ & H1); injection H1 as <- <-; split; try done; [by left|right; by eauto].
  - injection H1 as <- <-. split; [by left|done].
Qed.

(** It passes on, its listing updated, or rejects. *)
Lemma opening_guard_step h c d c' :
  round_zero_opening_guard lax_int py_str h c = Ok (d, c') →
  (d = None ∧ same_terms (set_listing (opening_listing (cx_listing c) h) c) c') ∨
  (∃ d', d = Some d' ∧ nd_action d' = d_reject).
Proof.
  unfold round_zero_opening_guard, opening_listing. destruct (_is_round_zero h); simpl; [|by intros [= <- <-]; left].
  intros (duration & _ & H1)%result_bind_Ok. revert H1.
  destruct duration; [|by intros [= <- <-]; right; eauto..].
  destruct (their_last_proposal h) as [p|].
  - destruct (is_none (dict_get "settlement_selection" p)); simpl.
    + destruct (accept_opening_escrow lax_int py_str (cx_listing c) p) as [[acc|] l]; simpl;
        [|by intros [= <- <-]; right; eauto].
      intros [[->|H] Ht]%check_opening_amount_step; [left|by right]. done.
    + destruct (check_selection (cx_listing c) p) as [[sel o]|]; [|by intros [= <- <-]; right; eauto].
      intros [[->|H] Ht]%check_opening_amount_step; [left|by right]. done.
  - intros [[->|H] Ht]%check_opening_amount_step; [left|by right]. done.
Qed.

(** What a passing opening selects. *)
Definition opening_selects (listing : dict) (proposal : option dict) : Prop :=
  match proposal with
  | None => False
  | Some p =>
      (∃ o, _settlement_option_for_selection listing p = Ok (Some o)) ∨
      (is_none (dict_get "settlement_selection" p) = true ∧ is_escrow_proposal (Some p) = true)
  end.

Lemma check_selection_selects listing p sel o :
  check_selection listing p = Ok (sel, o) → _settlement_option_for_selection listing p = Ok (Some o).
Proof.
  unfold check_selection. destruct (dict_get "settlement_selection" p) as [| | | | |d]; try done.
  destruct (dict_get "settlement" d) as [| | | | |st]; try done. destruct (negb _); [done|].
  destruct (dict_get "schema" st) as [| | |m| |]; try done. case_bool_decide; [done|].
  destruct (dict_get "option_id" d) as [| | |i| |]; try done. destruct (negb _); [done|].
  destruct (dict_get "expiration_unix" d) as [| |[z| |]| | |]; try done. destruct (_ <=? _); [done|].
  intros (m' & Hm & H1)%result_bind_Ok. destruct m' as [o'|]; [|done]. by injection H1 as _ <-.
Qed.

Lemma validated_names_chain p ep : EscrowProposal_validate lax_int p = Ok ep → dict_has "chain_name" p = true.
Proof.
  unfold EscrowProposal_validate. intros (d & Hd & (chain & Hc & _)%result_bind_Ok)%result_bind_Ok.
  assert (dict_has "chain_name" d = dict_has "chain_name" p) as <-.
  { revert Hd. unfold _coerce_legacy_demands. destruct (negb _); [by intros [= <-]|].
    destruct (dict_get "demands" p) as [| | | |[|x [|]]|]; try done; intros [= <-]; [done..|].
    by rewrite dict_has_set. }
  unfold required, dict_has in *. by destruct (alist_get "chain_name" d).
Qed.

Lemma opening_guard_selects h c c' :
  _is_round_zero h = true → round_zero_opening_guard lax_int py_str h c = Ok (None, c') →
  opening_selects (cx_listing c) (their_last_proposal h).
Proof.
  intros Hz. unfold round_zero_opening_guard, opening_selects. rewrite Hz. simpl negb. cbv iota.
  intros (duration & _ & H1)%result_bind_Ok. revert H1. destruct duration; [|done..].
  destruct (their_last_proposal h) as [p|].
  - destruct (is_none (dict_get "settlement_selection" p)) eqn:Hn; simpl negb; cbv iota.
    + unfold accept_opening_escrow.
      destruct (EscrowProposal_validate lax_int p) as [ep|] eqn:Hv; [|done]. intros _. right.
      split; [done|]. simpl. by rewrite (validated_names_chain _ _ Hv).
    + destruct (check_selection (cx_listing c) p) as [[sel o]|] eqn:Hs; [|done]. intros _. left.
      exists o. by eapply check_selection_selects.
  - unfold check_opening_amount. simpl. done.
Qed.

(** ** The default chain *)

Definition later_guards : list NegotiationMiddleware :=
  [buyer_counter_guard; has_matching_inventory_guard; escrow_shape_guard; accept_unpriced_selection_middleware].

Lemma later_guards_guard : Forall Guard later_guards.
Proof. unfold later_guards. repeat (apply List.Forall_cons; [apply _|]). apply List.Forall_nil. Qed.

(** The round's terms, but for the listing, which is the opening guard's. *)
Definition round_terms (c : NegotiationContext) (h : list NegotiationRound) : NegotiationContext :=
  set_listing (opening_listing (cx_listing c) h) c.

Lemma counter_guard_rejects h c d c' : buyer_counter_guard h c = Ok (Some d, c') → nd_action d = d_reject.
Proof.
  unfold buyer_counter_guard. destruct (last h); [|done]. destruct (negb _); [done|].
  intros (uses & _ & (raw & _ & H2)%result_bind_Ok)%result_bind_Ok. revert H2.
  destruct raw, uses; simpl; try (intros (? & _ & ?)%result_bind_Ok; done); try by intros [= <- _].
  all: destruct (nr_proposal _), (cx_our_escrow_proposal c); done.
Qed.

Lemma inventory_rejects h c d c' : has_matching_inventory_guard h c = Ok (Some d, c') → nd_action d = d_reject.
Proof.
  unfold has_matching_inventory_guard. destruct (classify_listing_source _) as [[? []]|]; [done| |done].
  by intros [= <- _].
Qed.

Definition is_passing (r : result NegotiationStep) : Prop := ∃ c', r = Ok (None, c').

Lemma default_chain_decides h c d c' :
  run_negotiation_chain_with_context (default_chain lax_int py_str) h c = Ok (d, c') →
  nd_action d = d_reject ∨
  (is_passing (round_zero_opening_guard lax_int py_str h c) ∧
   passed has_matching_inventory_guard h (round_terms c h) ∧ passed escrow_shape_guard h (round_terms c h) ∧
   ∃ c1, same_terms (round_terms c h) c1 ∧
     (accept_unpriced_selection_middleware h c1 = Ok (Some d, c') ∨ bisection_middleware h c1 = Ok (Some d, c'))).
Proof.
  change (default_chain lax_int py_str) with
    (round_zero_opening_guard lax_int py_str :: later_guards ++ [bisection_middleware]).
  intros ([d1 c1] & H0 & H1)%result_bind_Ok. pose proof H0 as [[-> Ht]|(d' & -> & Hr)]%opening_guard_step.
  2: { injection H1 as -> _. by left. }
  fold (round_terms c h) in Ht.
  apply (run_guard _ _ _ _ _ _ _ _ Ht) in H1 as [H1|(c2 & _ & T2 & H1)]; [left; by eapply counter_guard_rejects|].
  apply (run_guard _ _ _ _ _ _ _ _ T2) in H1 as [H1|(c3 & P3 & T3 & H1)]; [left; by eapply inventory_rejects|].
  apply (run_guard _ _ _ _ _ _ _ _ T3) in H1 as [H1|(c4 & P4 & T4 & H1)]; [left; by eapply shape_guard_rejects|].
  right. split_and!; [by exists c1|done..|].
  apply (run_guard _ _ _ _ _ _ _ _ T4) in H1 as [H1|(c5 & _ & T5 & H1)]; [exists c4; by auto|].
  exists c5. split; [done|]. right. simpl in H1. apply result_bind_Ok in H1 as ([[d6|] c6] & H6 & H1); [|done].
  by injection H1 as -> ->.
Qed.

(** ** The round *)

(** What a round decides, it decides by its chain, unless the option is gone. *)
Lemma round_decides listing history duration strategy source price r :
  _run_default_seller_round_policy lax_int py_str listing history duration strategy source price = Ok r →
  nd_action (sr_decision r) = d_reject ∨
  ∃ uses reference c',
    proposal_uses_scalar_amount listing (pinned_proposal history) = Ok uses ∧
    (if uses : bool then _seller_reference_amount py_str listing duration price (pinned_proposal history) else Ok 0)
      = Ok reference ∧
    (strategy = "minimize" ∨ strategy = "maximize") ∧
    run_negotiation_chain_with_context (default_chain lax_int py_str) history
      (seller_context listing history strategy reference uses duration source) = Ok (sr_decision r, c').
Proof.
  unfold _run_default_seller_round_policy, _direction_from_strategy_label.
  case_bool_decide as Hs; [|done]. intros (w & _ & H1)%(result_bind_Ok (A := bool)). destruct w.
  { injection H1 as <-. by left. }
  apply result_bind_Ok in H1 as (uses & Hu & (reference & Hr & ([d c] & Hd & [= <-])%result_bind_Ok)%result_bind_Ok).
  right. by exists uses, reference, c.
Qed.
End round.
