(* ===== verification/NegotiationProperties.v ===== *)
(** What negotiation policies promise: amounts survive the wire, bisection stays
    in bounds and ends, a seller's default round accepts only what its listing
    offers, and a buyer's default chain only what it committed to. *)
From S2P Require Import Prelude PyNum PyValue PyNumFacts PyText QueryDsl PyWire PyJson.
From S2P Require Import FilterEval.
From S2P Require Import Negotiation ScalarPolicies EscrowGuards NegotiationFacts.
From S2P Require Import NegotiationChains EscrowSchemas SellerRound SellerRoundFacts.

Local Open Scope string_scope.
Local Open Scope list_scope.
Local Open Scope Z_scope.

(** Every uint256 amount is written as a decimal string that parses back to
    the same integer; no other amount is read from what was written. *)
Theorem wire_amount_roundtrip a :
  0 <= a < 2 ^ 256 →
  ∃ text, format_wire_amount a = Ok text ∧ parse_wire_amount (VStr text) = Ok (Some a).
Proof.
  intros Ha. pose proof (format_below a 78 ltac:(lia) ltac:(unfold int_max_str_digits; lia)) as Hok.
  destruct (format_wire_amount a) as [text|] eqn:Ht; [|done].
  exists text. split; [done|]. by apply format_then_parse.
Qed.

(** C29: bisection, with both amounts known.  It gives up, whatever the price,
    when the amounts it has countered are as many as the round limit, or when
    the last two of them are the same.  Otherwise, for the lower price it
    accepts an amount of at most 101% of its reference, counters its own
    reference, and nothing else, to one above that but at most half as much
    again, and exits beyond; for the higher price it accepts an amount of at
    least 99% of its reference, counters the midpoint of the two amounts,
    rounded down, to one below that but at least two thirds of its reference,
    and exits below; an acceptance carries the amount accepted; and it rejects
    only a direction it does not know. *)
Theorem bisection_bounds history cx ours theirs d cx' :
  _exact_amount (cx_our_reference_amount cx) = Ok ours → their_proposed_amount history = Ok (Some theirs) →
  bisection_middleware history cx = Ok (Some d, cx') →
  ∃ counters, our_previous_counters history = Ok counters ∧
    (gives_up cx counters d ∨
     goes_on cx counters ∧ bisection_allows (cx_direction cx) ours theirs d).
Proof. intros Ho Ht Hb. by apply (bisection_decides _ _ _ _ _ _ Hb Ho Ht). Qed.

(** C30: A side that bisects for the lower price, after whatever guards, concedes
    nothing: once the other side has named an amount, every amount it counters
    is its own reference, and after two it gives up. *)
Theorem bisecting_buyer_concedes_nothing gs terms start h ours :
  Forall Guard gs → cx_direction terms = "minimize" → _exact_amount (cx_our_reference_amount terms) = Ok ours →
  our_previous_counters start = Ok [] → their_proposed_amount start ≠ Ok None →
  dialogue (gs ++ [bisection_middleware]) terms start h →
  ∃ l, our_previous_counters h = Ok l ∧ l = replicate (length l) ours ∧ (length l ≤ 2)%nat.
Proof.
  intros Hgs Hd Ho Hs Ht Hdia.
  destruct (bisection_concedes_nothing gs terms start h ours) as (_ & l & Hl & Hall & Hlen); [done..|].
  exists l. split_and!; [done| |done]. clear Hl Hlen.
  induction Hall as [|x l <- _ IH]; simpl; congruence.
Qed.

(** A dialogue ends: a chain of guards with the round limit among them, and
    any decider, counters at most [max_rounds] times, whatever the other side says. *)
Theorem round_limit_ends_dialogue gs decider terms h :
  Forall Guard gs → max_rounds_guard ∈ gs → 0 <= cx_max_rounds terms →
  dialogue (gs ++ [decider]) terms [] h →
  Z.of_nat (length (our_counters h)) <= cx_max_rounds terms.
Proof.
  intros Hgs Hin Hm Hd. apply (limited_dialogue gs decider) in Hd; [|done..].
  change (our_counters []) with (@nil NegotiationRound) in Hd. simpl in Hd. lia.
Qed.

(** The exact-listing decider accepts a selection only of an option of the
    listing, at the reference amount where the option bargains one; and an escrow
    only of an entry of the listing, with its literals, its rates, an advertised
    release condition, and the reference amount where the entry asks for one. *)
Theorem exact_listing_acceptance history cx d cx' proposal :
  their_last_proposal history = Some proposal →
  accept_exact_listing_middleware history cx = Ok (Some d, cx') → nd_action d = d_accept →
  let listing := cx_listing cx in
  let basis := default proposal (pinned_proposal history) in
  (∃ option, selects_option listing basis option ∧
     (option_uses_scalar_amount option = Ok true ∧ exact_amount_met cx proposal d ∨
      option_uses_scalar_amount option = Ok false ∧ nd_proposal d = Some basis)) ∨
  (∃ entry, names_entry listing proposal entry ∧ exactly_listed cx listing proposal entry d).
Proof. intros Hp Hd Ha. by apply (exact_listing_accepts history cx d cx' proposal). Qed.

Section round.
Context (lax_int : value → result Z) (py_str : value → string).

Local Abbreviation seller_round := (_run_default_seller_round_policy lax_int py_str).
Local Abbreviation listed := (opening_listing lax_int py_str).

(** What the seller's chain takes for agreed. *)
Definition seller_agrees (listing : dict) (history : list NegotiationRound) (duration : option Z)
    (strategy : string) (price : value) (d : NegotiationDecision) : Prop :=
  (∃ opening option, pinned_proposal history = Some opening ∧ nd_proposal d = Some opening ∧
     selects_option (listed listing history) opening option ∧ option_uses_scalar_amount option = Ok false) ∨
  (∃ reference theirs,
     (_seller_reference_amount py_str listing duration price (pinned_proposal history) = Ok reference ∨
      proposal_uses_scalar_amount listing (pinned_proposal history) = Ok false ∧ reference = 0) ∧
     their_proposed_amount history = Ok (Some theirs) ∧ carries d theirs ∧
     (strategy = "minimize" ∧ 100 * theirs <= 101 * reference ∨
      strategy = "maximize" ∧ 99 * reference <= 100 * theirs)).

Lemma bisection_accepts_bargain h c reference d c' :
  bisection_middleware h c = Ok (Some d, c') → nd_action d = d_accept →
  cx_our_reference_amount c = VInt reference →
  ∃ theirs, their_proposed_amount h = Ok (Some theirs) ∧ carries d theirs ∧
    (cx_direction c = "minimize" ∧ 100 * theirs <= 101 * reference ∨
     cx_direction c = "maximize" ∧ 99 * reference <= 100 * theirs).
Proof.
  intros Hb Ha Hr. destruct (their_proposed_amount h) as [[theirs|]|e] eqn:Ht.
  - pose proof (bisection_decides h c reference theirs d c' Hb) as [_ (l & _ & [[He _]|[_ Hall]])];
      [by rewrite Hr|done|congruence|].
    unfold bisection_allows in Hall. rewrite Ha in Hall. exists theirs. by split_and!; [|apply Hall|apply Hall].
  - exfalso. revert Hb. unfold bisection_middleware. rewrite Ht, Hr.
    intros (l & _ & H1)%result_bind_Ok. revert H1. destruct (_ <=? _); [by intros [= <- _]|].
    destruct (_ && _); [by intros [= <- _]|]. simpl. intros (p & _ & [= <- _])%result_bind_Ok. done.
  - exfalso. revert Hb. unfold bisection_middleware. rewrite Ht, Hr.
    intros (l & _ & H1)%result_bind_Ok. revert H1. destruct (_ <=? _); [by intros [= <- _]|].
    destruct (_ && _); [by intros [= <- _]|done].
Qed.

(** C20: what the seller's default round accepts.  It accepts only when the
    listing's source supports it or could not be asked.  An escrow it accepts
    pins its contract and names, by chain and address, an entry of the listing
    as the opening guard leaves it; where that entry's [literal_fields] is an
    object (an absent or empty one counts as such) the proposal repeats its
    literals and selects a release condition the listing advertises, and where
    it is anything else neither is looked at.  What the round agrees to is the
    opening as published, for an option that bargains no amount, or an amount
    measured against a reference: for the higher price one of at least 99% of
    it, however high, and for the lower price one of at most 101% of it.  The
    reference is the rate, or the storefront's floor, of what the opening
    selects for the duration, rounded down, and zero where the opening bargains
    no amount or selects nothing. *)
Theorem seller_round_acceptance listing history duration strategy source price r :
  seller_round listing history duration strategy source price = Ok r → nd_action (sr_decision r) = d_accept →
  match classify_listing_source source with Some refusal => lr_retryable refusal = true | None => True end ∧
  (∀ p, their_last_proposal history = Some p → is_escrow_proposal (Some p) = true →
        shape_admitted (listed listing history) p) ∧
  seller_agrees listing history duration strategy price (sr_decision r).
Proof.
  intros Hrun Ha. apply round_decides in Hrun as [Hr|(uses & reference & c' & Hu & Href & Hs & Hrun)]; [congruence|].
  apply default_chain_decides in Hrun as [Hr|(_ & (ci & ci' & Ti & Hi) & (cs & cs' & Ts & Hsh) & c1 & T1 & Hd)];
    [congruence|].
  destruct Ti as (_ & _ & _ & _ & _ & _ & Hsrc), Ts as (_ & _ & _ & Hls & _), T1 as (Hdir & Hrf & _ & Hl1 & _).
  split_and!.
  - revert Hi. unfold has_matching_inventory_guard. rewrite Hsrc. simpl.
    destruct (classify_listing_source source) as [[re []]|]; done.
  - intros p Hp He. pose proof (shape_guard_passes _ _ _ _ Hsh Hp He) as [_ Hadm]. by rewrite Hls in Hadm.
  - destruct Hd as [(_ & _ & o & opt & Ho & Hnd & Hsel & Hun)%unpriced_accepts|Hd].
    + left. exists o, opt. split_and!; [done..| |done]. by rewrite Hl1 in Hsel.
    + right. destruct (bisection_accepts_bargain _ _ reference _ _ Hd Ha) as (theirs & Ht & Hc & Hb); [done|].
      exists reference, theirs. rewrite Hdir in Hb. split_and!; [|done..].
      destruct uses; [by left|right]. split; [done|]. by injection Href.
Qed.

(** An opening that selects nothing the listing offers, or proposes nothing,
    is refused: the seller's default round rejects it whatever it names and
    whatever the listing's source says. *)
Theorem opening_selecting_nothing_refused listing r0 duration strategy source price r :
  _is_round_zero [r0] = true → selected_settlement_artifact listing (nr_proposal r0) = Ok None →
  seller_round listing [r0] duration strategy source price = Ok r →
  nd_action (sr_decision r) = d_reject.
Proof.
  intros Hz Hsel Hrun. apply round_decides in Hrun as [Hr|(uses & reference & c' & _ & _ & _ & Hrun)]; [done|].
  apply default_chain_decides in Hrun as [Hr|((c0 & Hop) & _ & (cs & cs' & Ts & Hsh) & _)]; [done|].
  pose proof (opening_guard_selects _ _ _ _ _ Hz Hop) as Hselects. exfalso.
  assert (their_last_proposal [r0] = nr_proposal r0) as Hp.
  { unfold _is_round_zero in Hz. apply andb_true_iff in Hz as [[_ Hthem%bool_decide_eq_true]%andb_true_iff _].
    unfold their_last_proposal. change (reverse [r0]) with [r0]. simpl.
    rewrite bool_decide_eq_true_2 by done. by destruct (nr_proposal r0). }
  rewrite Hp in Hselects. destruct (nr_proposal r0) as [p|] eqn:Hpr; [|done]. simpl in Hsel, Hselects.
  destruct Hselects as [[o Ho]|[Hn He]].
  - unfold _settlement_option_for_selection in Ho.
    destruct (dict_get "settlement_selection" p) as [| | | | |sel] eqn:Hd; try done.
    unfold _settlement_option_for_selection in Hsel. rewrite Hd in Hsel. congruence.
  - destruct (dict_get "settlement_selection" p); try done. injection Hsel as Hsel.
    destruct (_accepted_escrow_for_proposal listing p) as [e|] eqn:Hacc; [done|].
    revert Hsh. unfold escrow_shape_guard. rewrite Hp. simpl in He. simpl negb. rewrite He. simpl.
    destruct (escrow_contract_unpinned p); [done|]. destruct Ts as (_ & _ & _ & -> & _). simpl.
    unfold opening_listing. rewrite Hz, Hp. destruct (dict_get "settlement_selection" p) eqn:Hd; simpl;
      rewrite ?(proj2 (accept_opening_accepted _ _ _ _ _) Hacc), ?Hacc; done.
Qed.
End round.

(** A buyer of the default chain accepts only a proposal that keeps every term
    it committed to, and within its ceiling, unless it names no amount. *)
Theorem buyer_chain_acceptance history cx d cx' pinned :
  cx_our_escrow_proposal cx = Some pinned → cx_direction cx = "minimize" →
  run_negotiation_chain_with_context [buyer_escrow_shape_guard; listed_price_middleware] history cx = Ok (d, cx') →
  nd_action d = d_accept →
  ∃ theirs, their_last_proposal history = Some theirs ∧ commitment_kept pinned theirs ∧
    (their_proposed_amount history = Ok None ∧ nd_proposal d = Some theirs ∨
     ∃ a ceiling, their_proposed_amount history = Ok (Some a) ∧
       _exact_amount (cx_our_reference_amount cx) = Ok ceiling ∧ carries d a ∧ a <= ceiling).
Proof.
  intros Hpin Hdir Hrun Ha.
  apply (run_guard buyer_escrow_shape_guard _ _ cx cx _ _ _ ltac:(done)) in Hrun as [Hg|(c1 & (c2 & c3 & T2 & Hp) & T1 & Hrun)].
  { apply buyer_guard_rejects in Hg. congruence. }
  simpl in Hrun. apply result_bind_Ok in Hrun as ([[d1|] c4] & Hl & H1); [|done]. injection H1 as -> ->.
  apply listed_price_accepts in Hl as (theirs & Ht & Hamt); [|done].
  destruct T2 as (_ & _ & _ & _ & Hpin2 & _), T1 as (Hd1 & Hr1 & _). rewrite Hpin in Hpin2.
  apply (buyer_guard_passes _ _ _ theirs pinned) in Hp as [_ Hk]; [|done..].
  exists theirs. split_and!; [done..|]. destruct Hamt as [H|(a & bound & Hta & Hb & Hc & Hle)]; [by left|right].
  exists a, bound. rewrite Hd1, Hdir in Hle. rewrite Hr1 in Hb. by split_and!.
Qed.

(** * A listing, its openings and the rounds they lead to: the properties of
    negotiation policies at concrete inputs, and what the opening guard's
    normalisation in place lets through. *)

(** ** A listing and proposals *)

Definition escrow_address : string := "0x1111111111111111111111111111111111111111".
Definition listed_token : string := "0xaaaaaaaaaaaaaaaaaaaaaaaaaaaaaaaaaaaaaaaa".
Definition other_token : string := "0xbbbbbbbbbbbbbbbbbbbbbbbbbbbbbbbbbbbbbbbb".

Definition release_condition : value := VDict [("arbiter", VStr "0xcc"); ("demand_data", VDict [])].
Definition amount_rate : value := VDict [("field", VStr "amount"); ("per", VStr "hour"); ("value", VStr "1000")].

Definition escrow_entry : dict :=
  [("chain_name", VStr "anvil"); ("escrow_address", VStr escrow_address);
   ("literal_fields", VDict [("token", VStr listed_token)]); ("rates", VList [amount_rate])].
Definition demo_listing : dict :=
  [("listing_id", VStr "L1"); ("accepted_escrows", VList [VDict escrow_entry]); ("demands", VList [release_condition])].

Definition escrow_proposal (chain token amount : string) : dict :=
  [("chain_name", VStr chain); ("escrow_address", VStr escrow_address);
   ("fields", VDict [("amount", VStr amount)]); ("literal_fields", VDict [("token", VStr token)]);
   ("rates", VList [amount_rate]); ("demand", release_condition); ("expiration_unix", VInt 2000000000)].

Definition opening_of (p : dict) : NegotiationRound :=
  {| nr_round_number := 0; nr_sender := them; nr_action := r_initial; nr_proposal := Some p |}.

Definition demo_int (v : value) : result Z := match v with VNum (NInt z) => Ok z | _ => Err (ValueError "int") end.
Definition demo_str (v : value) : string := "".
Definition demo_round (listing p : dict) : result SellerRoundResult :=
  _run_default_seller_round_policy demo_int demo_str listing [opening_of p] (Some 3600) "maximize" (Some matches) VNone.

(** What a round decided. *)
Definition decided (r : result SellerRoundResult) : option (DecisionAction * option string) :=
  match r with Ok r => Some (nd_action (sr_decision r), nd_reason (sr_decision r)) | Err _ => None end.

Example seller_rounds :
  decided (demo_round demo_listing (escrow_proposal "anvil" listed_token "995")) = Some (d_accept, Some "convergence")
  ∧ decided (demo_round demo_listing (escrow_proposal "anvil" listed_token "700")) = Some (d_counter, None)
  ∧ decided (demo_round demo_listing (escrow_proposal "anvil" listed_token "600")) = Some (d_exit, Some "price_unreasonable")
  ∧ decided (demo_round demo_listing (escrow_proposal "base" listed_token "995")) = Some (d_reject, Some "escrow_not_in_accepted_set").
Proof. vm_compute. by split_and!. Qed.

(** ** The witnesses *)

Lemma wire_amount_roundtrip_witness :
  ∃ text, format_wire_amount (7000 * 10 ^ 18) = Ok text ∧ parse_wire_amount (VStr text) = Ok (Some (7000 * 10 ^ 18)).
Proof. apply (wire_amount_roundtrip (7000 * 10 ^ 18)). lia. Defined.

Definition demo_terms (direction : string) (reference : Z) (listing : dict) (ours : option dict) : NegotiationContext :=
  {| cx_direction := direction; cx_our_reference_amount := VInt reference; cx_our_opening_amount := VNone;
     cx_listing := listing; cx_our_escrow_proposal := ours; cx_max_rounds := 10; cx_listing_source := Some matches;
     cx_intermediate := [] |}.

(** What a chain decides under terms, at a transcript. *)
Definition decides (chain : list NegotiationMiddleware) (h : list NegotiationRound) (c : NegotiationContext)
    : NegotiationDecision * NegotiationContext :=
  match run_negotiation_chain_with_context chain h c with
  | Ok r => r
  | Err _ => (decision d_reject None None, c)
  end.

Definition dear : dict := escrow_proposal "anvil" listed_token "1200".
Definition buyer_terms : NegotiationContext := demo_terms "minimize" 1000 [] (Some dear).
Definition offered : list NegotiationRound := [opening_of dear].
Definition bisected : NegotiationDecision * NegotiationContext := decides [bisection_middleware] offered buyer_terms.

Lemma bisection_bounds_witness : bisection_allows "minimize" 1000 1200 bisected.1.
Proof.
  destruct (bisection_bounds offered buyer_terms 1000 1200 bisected.1 bisected.2)
    as (counters & _ & [[H _]|[_ H]]);
    [reflexivity|vm_compute; reflexivity..|vm_compute in H; discriminate H|exact H].
Defined.

Definition countered : list NegotiationRound := offered ++ [our_counter 1 (nd_proposal bisected.1)].

Lemma offered_countered gs c' d :
  run_negotiation_chain_with_context gs offered buyer_terms = Ok (d, c') → nd_action d = d_counter →
  dialogue gs buyer_terms offered (offered ++ [our_counter 1 (nd_proposal d)]).
Proof. intros Hrun Hd. eapply dialogue_us; [apply dialogue_start|done|exact Hrun|done]. Defined.

Lemma bisecting_buyer_concedes_nothing_witness :
  ∃ l, our_previous_counters countered = Ok l ∧ l = replicate (length l) 1000 ∧ (length l ≤ 2)%nat.
Proof.
  apply (bisecting_buyer_concedes_nothing [] buyer_terms offered countered 1000);
    [constructor|reflexivity..|vm_compute; discriminate|].
  apply (offered_countered [bisection_middleware] bisected.2 bisected.1); vm_compute; reflexivity.
Defined.

Definition limited_chain : list NegotiationMiddleware := [max_rounds_guard] ++ [listed_price_middleware].
Definition opened : NegotiationDecision * NegotiationContext := decides limited_chain [] buyer_terms.

Lemma round_limit_ends_dialogue_witness :
  Z.of_nat (length (our_counters ([] ++ [our_counter 0 (nd_proposal opened.1)]))) <= 10.
Proof.
  apply (round_limit_ends_dialogue [max_rounds_guard] listed_price_middleware buyer_terms).
  - apply List.Forall_cons; [apply _|apply List.Forall_nil].
  - apply list_elem_of_here.
  - vm_compute; discriminate.
  - apply (dialogue_us _ _ _ [] buyer_terms opened.1 opened.2 0); [apply dialogue_start|reflexivity|vm_compute; reflexivity..].
Defined.

Definition exact : dict := escrow_proposal "anvil" listed_token "1000".
Definition exact_terms : NegotiationContext := demo_terms "maximize" 1000 demo_listing None.
Definition taken : NegotiationDecision * NegotiationContext :=
  decides [accept_exact_listing_middleware] [opening_of exact] exact_terms.

Lemma exact_listing_acceptance_witness :
  ∃ entry, names_entry demo_listing exact entry ∧ exactly_listed exact_terms demo_listing exact entry taken.1.
Proof.
  destruct (exact_listing_acceptance [opening_of exact] exact_terms taken.1 taken.2 exact)
    as [(o & (sel & m & Hs & _) & _)|H]; [vm_compute; reflexivity..|vm_compute in Hs; discriminate Hs|exact H].
Defined.

Definition fair : dict := escrow_proposal "anvil" listed_token "995".
Definition demo_result : SellerRoundResult :=
  match demo_round demo_listing fair with
  | Ok r => r
  | Err _ => {| sr_our_amount := 0; sr_direction := ""; sr_decision := decision d_exit None None; sr_intermediate := [] |}
  end.

Lemma seller_round_acceptance_witness :
  nd_action (sr_decision demo_result) = d_accept ∧
  seller_agrees demo_int demo_str demo_listing [opening_of fair] (Some 3600) "maximize" VNone (sr_decision demo_result).
Proof.
  split; [vm_compute; reflexivity|].
  apply (seller_round_acceptance demo_int demo_str demo_listing [opening_of fair] (Some 3600) "maximize"
           (Some matches) VNone); vm_compute; reflexivity.
Defined.

Definition elsewhere : dict := escrow_proposal "base" listed_token "995".
Definition elsewhere_result : SellerRoundResult :=
  match demo_round demo_listing elsewhere with Ok r => r | Err _ => demo_result end.

Lemma opening_selecting_nothing_refused_witness : nd_action (sr_decision elsewhere_result) = d_reject.
Proof.
  apply (opening_selecting_nothing_refused demo_int demo_str demo_listing (opening_of elsewhere) (Some 3600) "maximize"
           (Some matches) VNone); vm_compute; reflexivity.
Defined.

Definition buyer_chain : list NegotiationMiddleware := [buyer_escrow_shape_guard; listed_price_middleware].
Definition their_counter (p : dict) : NegotiationRound :=
  {| nr_round_number := 1; nr_sender := them; nr_action := r_counter; nr_proposal := Some p |}.
Definition agreeing : NegotiationDecision * NegotiationContext :=
  decides buyer_chain [their_counter fair] buyer_terms.

Lemma buyer_chain_acceptance_witness :
  ∃ theirs, their_last_proposal [their_counter fair] = Some theirs ∧ commitment_kept dear theirs ∧
    (their_proposed_amount [their_counter fair] = Ok None ∧ nd_proposal agreeing.1 = Some theirs ∨
     ∃ a ceiling, their_proposed_amount [their_counter fair] = Ok (Some a) ∧
       _exact_amount (VInt 1000) = Ok ceiling ∧ carries agreeing.1 a ∧ a <= ceiling).
Proof.
  apply (buyer_chain_acceptance [their_counter fair] buyer_terms agreeing.1 agreeing.2 dear);
    [reflexivity..|vm_compute; reflexivity|vm_compute; reflexivity].
Defined.

(** ** What normalising in place lets through *)

Definition substituted : dict := escrow_proposal "anvil" other_token "995".

(** On the demo listing the opening guard defeats the escrow-shape guard after it: an
    opening whose literals differ from the listing's entry, which the shape guard alone refuses,
    is accepted by the default round, because the normalisation overwrites the
    entry's own literals with the buyer's before the guard reads them. *)
Theorem substituted_literal_accepted :
  (∃ c, escrow_shape_guard [opening_of substituted] exact_terms
        = Ok (Some (decision d_reject None (Some "escrow_field_mismatch")), c)) ∧
  (∃ r p, demo_round demo_listing substituted = Ok r ∧ nd_action (sr_decision r) = d_accept ∧
          nd_proposal (sr_decision r) = Some p ∧
          member "token" (dict_get "literal_fields" p) = VStr other_token).
Proof. split; [by eexists; vm_compute|]. by do 2 eexists; split_and!; vm_compute. Qed.
