(* ===== verification/BuyerTerms.v ===== *)
(** What a buyer reads from a seller's reply, and how it checks an acceptance
    ([core_buyer/negotiation_client.py] and the wire models of
    [market_core/schemas.py]): exact amounts, accepted terms, the Agreement, the
    settlement plan.

    The wire models' validation (pydantic), base64 and the identity kit's reading
    of a principal are parameters.  Provision and escrow payloads are the
    dictionaries they dump to. *)
From S2P Require Import Prelude PyNum PyValue PyText QueryDsl PyWire PyJson FilterEval.
From S2P Require Import Negotiation ScalarPolicies.
From S2P Require Import EscrowSchemas.

Local Open Scope string_scope.
Local Open Scope list_scope.
Local Open Scope Z_scope.

(** ** Exact amounts *)

(** The product, and the shift, in the default context: 28 digits. *)
Definition dec_mul (a b : decimal) : decimal := dec_fix (Dec (coef a * coef b) (expo a + expo b)).
Definition dec_scaleb (a : decimal) (n : Z) : decimal := dec_fix (Dec (coef a) (expo a + n)).

(** The whole number a decimal is, and none below zero. *)
Definition whole_base_units (d : decimal) (finer negative : py_error) : result Z :=
  let integral := dec_trunc d in
  if negb (dec_eqb d (dec_of_Z integral)) then Err finer
  else if integral <? 0 then Err negative else Ok integral.

Definition display_to_base_units (price : value) (decimals : Z) : result Z :=
  match dec_of_value price with
  | Some d => whole_base_units (dec_scaleb d decimals)
                (ValueError "finer than the asset's smallest unit") (ValueError "must be non-negative")
  | None => Err (ValueError "not a numeric price")
  end.

Definition scaled_base_units (per_unit unit_count : value) : result Z :=
  match dec_of_value per_unit, dec_of_value unit_count with
  | Some p, Some n => whole_base_units (dec_mul p n)
                        (RuntimeError "not a whole number of base units") (RuntimeError "must be non-negative")
  | _, _ => Err (RuntimeError "not a numeric amount")
  end.

(** ** Wire models *)

Record SettlementSelection : Type := {
  ss_settlement : dict;
  ss_option_id : string;
  ss_expiration_unix : option Z;
}.

Record SettlementPrice : Type := { spr_asset : string; spr_rates : list RateValue }.

Record SettlementOption : Type := {
  so_option_id : string;
  so_price : option SettlementPrice;
  so_settlement : dict;
  so_lifecycle : option dict;
}.

Record SettlementObligation : Type := {
  ob_payer : string;
  ob_claimant : string;
  ob_payer_principal : option dict;
  ob_claimant_principal : option dict;
  ob_mechanism : string;
  ob_amount : option Z;
  ob_asset : option string;
  ob_expiration_unix : Z;
  ob_params : dict;
  ob_conditions : list dict;
}.

Record SettlementPlan : Type := {
  pl_obligations : list SettlementObligation;
  pl_buyer_principal : option dict;
  pl_seller_principal : option dict;
  pl_service_terms : dict;
}.

Record Agreement : Type := {
  ag_negotiation_id : string;
  ag_listing_id : string;
  ag_listing_hash : string;
  ag_buyer : dict;
  ag_seller : dict;
  ag_settlement : option SettlementOption;
  ag_settlement_params : option dict;
  ag_amount : Z;
  ag_asset : option string;
  ag_duration_seconds : Z;
  ag_start_utc : string;
  ag_provision_terms : option dict;
  ag_accepted_at : string;
}.

Definition ss_schema (s : SettlementSelection) : value := dict_get "schema" (ss_settlement s).
Definition so_schema (o : SettlementOption) : value := dict_get "schema" (so_settlement o).
Definition price_asset (o : SettlementOption) : option string := spr_asset <$> so_price o.
Definition price_rates (o : SettlementOption) : list RateValue :=
  match so_price o with Some p => spr_rates p | None => [] end.

(** [settlement_option_params]: the envelope but for its tag. *)
Definition so_params (o : SettlementOption) : dict := List.filter (λ kv, negb (bool_decide (kv.1 = "schema"))) (so_settlement o).

(** *** Equality of models *)

Definition dict_eqb (a b : dict) : bool := py_eq (VDict a) (VDict b).
Definition opt_eqb {A} (f : A → A → bool) (a b : option A) : bool :=
  match a, b with Some x, Some y => f x y | None, None => true | _, _ => false end.
Fixpoint list_eqb {A} (f : A → A → bool) (a b : list A) : bool :=
  match a, b with
  | x :: a, y :: b => f x y && list_eqb f a b
  | [], [] => true
  | _, _ => false
  end.
Definition eqb_of {A} `{!EqDecision A} (a b : A) : bool := bool_decide (a = b).

Definition selection_eqb (a b : SettlementSelection) : bool :=
  dict_eqb (ss_settlement a) (ss_settlement b) && eqb_of (ss_option_id a) (ss_option_id b)
  && eqb_of (ss_expiration_unix a) (ss_expiration_unix b).

Definition rate_eqb (a b : RateValue) : bool :=
  eqb_of (rv_field a) (rv_field b) && eqb_of (rv_per a) (rv_per b) && (rv_value a =? rv_value b).
Definition price_eqb (a b : SettlementPrice) : bool :=
  eqb_of (spr_asset a) (spr_asset b) && list_eqb rate_eqb (spr_rates a) (spr_rates b).

Definition option_eqb (a b : SettlementOption) : bool :=
  eqb_of (so_option_id a) (so_option_id b) && opt_eqb price_eqb (so_price a) (so_price b)
  && dict_eqb (so_settlement a) (so_settlement b) && opt_eqb dict_eqb (so_lifecycle a) (so_lifecycle b).

Definition obligation_eqb (a b : SettlementObligation) : bool :=
  eqb_of (ob_payer a) (ob_payer b) && eqb_of (ob_claimant a) (ob_claimant b)
  && opt_eqb dict_eqb (ob_payer_principal a) (ob_payer_principal b)
  && opt_eqb dict_eqb (ob_claimant_principal a) (ob_claimant_principal b)
  && eqb_of (ob_mechanism a) (ob_mechanism b) && eqb_of (ob_amount a) (ob_amount b)
  && eqb_of (ob_asset a) (ob_asset b) && (ob_expiration_unix a =? ob_expiration_unix b)
  && dict_eqb (ob_params a) (ob_params b) && list_eqb dict_eqb (ob_conditions a) (ob_conditions b).

Definition plan_eqb (a b : SettlementPlan) : bool :=
  list_eqb obligation_eqb (pl_obligations a) (pl_obligations b)
  && opt_eqb dict_eqb (pl_buyer_principal a) (pl_buyer_principal b)
  && opt_eqb dict_eqb (pl_seller_principal a) (pl_seller_principal b)
  && dict_eqb (pl_service_terms a) (pl_service_terms b).

Definition agreement_eqb (a b : Agreement) : bool :=
  eqb_of (ag_negotiation_id a) (ag_negotiation_id b) && eqb_of (ag_listing_id a) (ag_listing_id b)
  && eqb_of (ag_listing_hash a) (ag_listing_hash b) && dict_eqb (ag_buyer a) (ag_buyer b)
  && dict_eqb (ag_seller a) (ag_seller b) && opt_eqb option_eqb (ag_settlement a) (ag_settlement b)
  && opt_eqb dict_eqb (ag_settlement_params a) (ag_settlement_params b) && (ag_amount a =? ag_amount b)
  && eqb_of (ag_asset a) (ag_asset b) && (ag_duration_seconds a =? ag_duration_seconds b)
  && eqb_of (ag_start_utc a) (ag_start_utc b) && opt_eqb dict_eqb (ag_provision_terms a) (ag_provision_terms b)
  && eqb_of (ag_accepted_at a) (ag_accepted_at b).

(** ** Reading a reply *)

(** What the environment brings: the wire models' validation, base64 and the
    domain's decoders, each refusing with an error. *)
Record Readers (Identity : Type) : Type := {
  read_identity : value → result Identity;
  dump_identity : Identity → dict;
  read_selection : dict → result SettlementSelection;
  read_plan : dict → result SettlementPlan;
  read_option : value → result SettlementOption;
  read_agreement : dict → result Agreement;
  b64decode : string → result string;
  read_agreement_json : string → result Agreement;
  decode_provision_terms : dict → result dict;
  decode_escrow_proposal : dict → result dict;
}.
Arguments read_identity {Identity}. Arguments dump_identity {Identity}. Arguments read_selection {Identity}.
Arguments read_plan {Identity}. Arguments read_option {Identity}. Arguments read_agreement {Identity}.
Arguments b64decode {Identity}. Arguments read_agreement_json {Identity}.
Arguments decode_provision_terms {Identity}. Arguments decode_escrow_proposal {Identity}.

Definition runtime {A} (what : string) : result A := Err (RuntimeError what).

(** [if bad: raise RuntimeError(what)]. *)
Definition ensure (ok : bool) (what : string) : result () := if ok then Ok () else runtime what.

Definition _parse_settlement_data (reply : dict) : result (option dict) :=
  match dict_get "settlement_data" reply with
  | VNone => Ok None
  | VDict d => Ok (Some d)
  | _ => Err (ValueError "settlement_data must be an object")
  end.

(** [f(dict(raw)) if isinstance(raw, dict) else None]. *)
Definition read_object {A} (f : dict → result A) (v : value) : result (option A) :=
  match v with VDict d => Some <$> f d | _ => Ok None end.

Record AcceptedTerms : Type := {
  at_provision_terms : option dict;
  at_escrow_proposal : option dict;
  at_selection : option SettlementSelection;
  at_plan : option SettlementPlan;
}.

Section terms.
Context {Identity : Type} `{!EqDecision Identity} (rd : Readers Identity).

Definition parse_accepted_terms_from_reply (reply : dict) : result AcceptedTerms :=
  prov ← read_object (decode_provision_terms rd) (dict_get "accepted_provision_terms" reply);
  esc ← read_object (decode_escrow_proposal rd) (dict_get "accepted_escrow_proposal" reply);
  selection ← read_object (read_selection rd) (dict_get "settlement_selection" reply);
  plan ← read_object (read_plan rd) (dict_get "settlement_plan" reply);
  Ok {| at_provision_terms := prov; at_escrow_proposal := esc; at_selection := selection; at_plan := plan |}.

(** [except (TypeError, ValueError)], of whatever kind. *)
Definition refuse_as {A} (what : string) (r : result A) : result A :=
  match r with
  | Err (TypeError _) | Err (ValueError _) | Err (NegotiationAmountError _) => runtime what
  | r => r
  end.

Definition _parse_accepted_agreement (reply : dict) (expected_negotiation_id : option string)
    : result (Agreement * string) :=
  match dict_get "agreement" reply, dict_get "agreement_bytes" reply with
  | VDict raw, VStr encoded =>
      '(agreement, retained) ← refuse_as "seller accept state has invalid Agreement bytes" (
        bytes ← b64decode rd encoded;
        agreement ← read_agreement rd raw;
        retained ← read_agreement_json rd bytes;
        Ok (agreement, retained));
      _ ← ensure (agreement_eqb agreement retained) "seller Agreement object differs from its retained bytes";
      _ ← ensure (eqb_of (Some (ag_negotiation_id agreement)) expected_negotiation_id)
            "seller Agreement names a different negotiation";
      Ok (agreement, encoded)
  | _, _ => runtime "seller accept state omitted the exact Agreement bytes"
  end.

Definition _validated_party (v : value) (field : string) : result Identity :=
  refuse_as ("seller accept state has invalid " +:+ field) (read_identity rd v).

(** What an acceptance is held against. *)
Record Expectation : Type := {
  ex_listing_id : string;
  ex_selection : option SettlementSelection;
  ex_advertised : option SettlementOption;
  ex_buyer : Identity;
  ex_trusted : Identity → bool;
  ex_validate_plan : option (SettlementPlan → result ());
}.

Definition _validate_agreement_acceptance (ex : Expectation) (agreement : Agreement) (reply : dict)
    (agreed_amount : option Z) : result () :=
  reply_buyer ← _validated_party (dict_get "buyer_principal" reply) "buyer_principal";
  reply_seller ← _validated_party (dict_get "seller_principal" reply) "seller_principal";
  agreement_buyer ← _validated_party (VDict (ag_buyer agreement)) "agreement.buyer";
  agreement_seller ← _validated_party (VDict (ag_seller agreement)) "agreement.seller";
  _ ← ensure (eqb_of (ag_listing_id agreement) (ex_listing_id ex)) "seller Agreement names a different listing";
  _ ← ensure (eqb_of reply_buyer (ex_buyer ex) && eqb_of agreement_buyer (ex_buyer ex))
        "seller Agreement substituted the buyer principal";
  _ ← ensure (ex_trusted ex reply_seller && eqb_of agreement_seller reply_seller)
        "seller Agreement substituted the seller principal";
  _ ← ensure (match agreed_amount with Some a => ag_amount agreement =? a | None => true end)
        "seller Agreement amount differs from accepted terms";
  match ex_selection ex with
  | None => Ok ()
  | Some expected =>
      match ag_settlement agreement with
      | None => runtime "seller Agreement differs from selected settlement option"
      | Some selected =>
          _ ← ensure (eqb_of (so_option_id selected) (ss_option_id expected)
                      && py_eq (so_schema selected) (ss_schema expected))
                "seller Agreement differs from selected settlement option";
          _ ← ensure (match ex_advertised ex with Some o => option_eqb selected o | None => true end)
                "seller Agreement changed the advertised settlement option";
          ensure (eqb_of (ag_asset agreement) (price_asset selected))
            "seller Agreement asset differs from its selected option"
      end
  end.

Definition _validate_selection_echo (actual : option SettlementSelection) (expected : SettlementSelection) : result () :=
  match actual with
  | None => runtime "seller accept state omitted the buyer-selected settlement option"
  | Some actual => ensure (selection_eqb actual expected)
                     "seller settlement_selection differs from the buyer-selected advertised option"
  end.

Definition _validate_accepted_provision_terms (actual expected : option dict) : result () :=
  match actual, expected with
  | Some a, Some e => ensure (dict_eqb a e)
      "seller accepted_provision_terms differ from the buyer-requested terms"
  | _, _ => Ok ()
  end.

Definition _option_bargains_amount (o : SettlementOption) : bool :=
  existsb (λ r, eqb_of (rv_field r) "amount") (price_rates o).

Definition principal_value (p : option dict) : value := opt_value VDict p.

Definition set_amount (a : option Z) (o : SettlementObligation) : SettlementObligation :=
  {| ob_payer := ob_payer o; ob_claimant := ob_claimant o; ob_payer_principal := ob_payer_principal o;
     ob_claimant_principal := ob_claimant_principal o; ob_mechanism := ob_mechanism o; ob_amount := a;
     ob_asset := ob_asset o; ob_expiration_unix := ob_expiration_unix o; ob_params := ob_params o;
     ob_conditions := ob_conditions o |}.

Definition set_obligations (l : list SettlementObligation) (p : SettlementPlan) : SettlementPlan :=
  {| pl_obligations := l; pl_buyer_principal := pl_buyer_principal p; pl_seller_principal := pl_seller_principal p;
     pl_service_terms := pl_service_terms p |}.

(** The plan against the one retained, or the option advertised. *)
Definition check_plan_semantics (ex : Expectation) (expected : SettlementSelection) (expected_plan : option SettlementPlan)
    (plan : SettlementPlan) (obligation : SettlementObligation) (seller : Identity) (agreed_amount : option Z) : result () :=
  match expected_plan, ex_advertised ex with
  | None, None => runtime "buyer acceptance state omitted the advertised settlement semantics"
  | Some retained, _ =>
      match pl_obligations retained with
      | [o] => ensure (plan_eqb plan (set_obligations [set_amount agreed_amount o] retained))
                 "seller settlement_plan semantics differ from persisted accepted terms"
      | _ => runtime "persisted accepted settlement plan is not a single obligation"
      end
  | None, Some advertised =>
      _ ← ensure (eqb_of (so_option_id advertised) (ss_option_id expected)
                  && py_eq (so_schema advertised) (ss_schema expected))
            "buyer settlement selection does not identify the advertised option";
      _ ← ensure (match so_price advertised with Some _ => eqb_of (ob_asset obligation) (price_asset advertised) | None => true end)
            "seller settlement_plan asset differs from the advertised option";
      match ex_validate_plan ex with
      | Some validate => validate plan
      | None =>
          let params := so_params advertised in
          _ ← ensure (dict_eqb (ob_params obligation)
                        (dict_set "claimant_principal" (VDict (dump_identity rd seller))
                          (dict_set "payer_principal" (VDict (dump_identity rd (ex_buyer ex))) params)))
                "seller settlement_plan params differ from the advertised option";
          ensure (list_eqb dict_eqb (ob_conditions obligation)
                    (match dict_get "condition" params with VDict c => [c] | _ => [] end))
            "seller settlement_plan semantics differ from the advertised option"
      end
  end.

Definition _validate_settlement_acceptance (ex : Expectation) (expected : SettlementSelection) (reply : dict)
    (terms : AcceptedTerms) (agreement : Agreement) (agreed_amount : option Z) (expected_plan : option SettlementPlan)
    : result () :=
  _ ← _validate_selection_echo (at_selection terms) expected;
  match at_plan terms with
  | None => _validate_agreement_acceptance ex agreement reply agreed_amount
  | Some plan =>
      match ss_expiration_unix expected with
      | None => runtime "settlement option requires expiration_unix"
      | Some expiration =>
          _ ← _validate_agreement_acceptance ex agreement reply agreed_amount;
          reply_buyer ← _validated_party (dict_get "buyer_principal" reply) "buyer_principal";
          reply_seller ← _validated_party (dict_get "seller_principal" reply) "seller_principal";
          _ ← ensure (eqb_of reply_buyer (ex_buyer ex)) "seller accept state substituted the buyer principal";
          _ ← ensure (ex_trusted ex reply_seller) "seller accept state names an untrusted seller principal";
          plan_buyer ← _validated_party (principal_value (pl_buyer_principal plan)) "settlement_plan.buyer_principal";
          plan_seller ← _validated_party (principal_value (pl_seller_principal plan)) "settlement_plan.seller_principal";
          _ ← ensure (eqb_of plan_buyer (ex_buyer ex) && eqb_of plan_seller reply_seller)
                "seller settlement_plan substituted an accepted party";
          match pl_obligations plan with
          | [obligation] =>
              _ ← ensure (eqb_of (ob_payer obligation) "buyer" && eqb_of (ob_claimant obligation) "seller")
                    "seller settlement_plan changed payer/claimant semantics";
              payer ← _validated_party (principal_value (ob_payer_principal obligation)) "payer_principal";
              claimant ← _validated_party (principal_value (ob_claimant_principal obligation)) "claimant_principal";
              _ ← ensure (eqb_of payer (ex_buyer ex) && eqb_of claimant reply_seller)
                    "seller settlement_plan obligation substituted an accepted party";
              _ ← ensure (py_eq (VStr (ob_mechanism obligation)) (ss_schema expected))
                    "seller settlement_plan mechanism differs from the selected option";
              _ ← ensure (eqb_of (ob_amount obligation) agreed_amount)
                    "seller settlement_plan amount differs from the negotiated amount";
              _ ← ensure (negb (bool_decide (agreed_amount = None)
                                && match ex_advertised ex with Some o => _option_bargains_amount o | None => false end))
                    "seller accept state omitted the negotiated amount";
              _ ← ensure (ob_expiration_unix obligation =? expiration)
                    "seller settlement_plan expiry differs from the buyer selection";
              check_plan_semantics ex expected expected_plan plan obligation reply_seller agreed_amount
          | _ => runtime "seller settlement_plan does not describe exactly one selected obligation"
          end
      end
  end.
End terms.
