(* ===== verification/BuyerNegotiation.v ===== *)
(** The buyer's negotiation with one seller ([negotiate_with_seller] of
    core_buyer/negotiation_client.py): the opening, the rounds, and what it makes
    of the seller's acceptance.

    The seller is an oracle: what it replies is a function of every message sent
    to it, or the error the transport raised.  The principals trusted at a message
    are one too.  The observer callback is not modelled. *)
From S2P Require Import Prelude PyNum PyValue PyText QueryDsl PyWire PyJson FilterEval.
From S2P Require Import Negotiation ScalarPolicies.
From S2P Require Import EscrowSchemas BuyerTerms.

Local Open Scope string_scope.
Local Open Scope list_scope.
Local Open Scope Z_scope.

(** ** Messages *)

Inductive BuyerMessage : Type :=
  | negotiate_new (proposal : dict)
  | negotiate_continue (neg_id : option string) (action : DecisionAction) (proposal : option dict) (reason : option string).

(** What is run threads the messages sent, errors included. *)
Definition exchange (A : Type) : Type := list BuyerMessage → result A * list BuyerMessage.

#[export] Instance exchange_ret : MRet exchange := λ A a sent, (Ok a, sent).
#[export] Instance exchange_bind : MBind exchange := λ A B f m sent,
  match m sent with
  | (Ok a, sent) => f a sent
  | (Err e, sent) => (Err e, sent)
  end.

#[export] Instance exchange_fmap : FMap exchange := λ A B f m, a ← m; mret (f a).

Definition lift {A} (r : result A) : exchange A := λ sent, (r, sent).

(** ** Outcomes and resumption *)

Inductive NegotiationStatus : Type := agreed | exited.
#[export] Instance NegotiationStatus_eq_dec : EqDecision NegotiationStatus.
Proof. solve_decision. Defined.

Record NegotiationOutcome : Type := {
  no_status : NegotiationStatus;
  no_negotiation_id : option string;
  no_agreed_amount : option Z;
  no_unit_count : option value;
  no_reason : value;
  no_rounds : Z;
  no_terms : AcceptedTerms;
  no_agreement : option Agreement;
  no_agreement_bytes : option string;
  no_settlement_data : option dict;
}.

Definition no_accepted_terms : AcceptedTerms :=
  {| at_provision_terms := None; at_escrow_proposal := None; at_selection := None; at_plan := None |}.

Definition exit_outcome (neg_id : option string) (reason : value) (unit_count : option value) (rounds : Z)
    : NegotiationOutcome :=
  {| no_status := exited; no_negotiation_id := neg_id; no_agreed_amount := None; no_unit_count := unit_count;
     no_reason := reason; no_rounds := rounds; no_terms := no_accepted_terms; no_agreement := None;
     no_agreement_bytes := None; no_settlement_data := None |}.

Record ResumeState : Type := {
  rs_negotiation_id : string;
  rs_transcript : list NegotiationRound;
  rs_last_seller_proposal : option dict;
  rs_rounds_completed : Z;
  rs_accepted_provision_terms : value;
  rs_settlement_plan : value;
  rs_accepted_escrow_proposal : value;
  rs_settlement_selection : value;
  rs_agreement : option dict;
  rs_agreement_bytes : option string;
}.

(** ** Amounts of proposals *)

(** [_amount]. *)
Definition reply_amount (p : value) : result (option Z) :=
  match p with
  | VDict d =>
      match or_empty (dict_get "fields" d) with
      | VDict fields => parse_wire_amount (dict_get "amount" fields)
      | _ => Err (AttributeError "get")
      end
  | _ => Ok None
  end.

(** [_wire_proposal]. *)
Definition _wire_proposal (p : dict) : result dict :=
  match dict_get "fields" p with
  | VDict fields =>
      if is_none (dict_get "amount" fields) then Ok p else
      amount ← parse_wire_amount (dict_get "amount" fields);
      match amount with
      | None => Ok p
      | Some a =>
          text ← format_wire_amount a;
          Ok (dict_set "fields" (VDict (dict_set "amount" (VStr text) fields)) p)
      end
  | _ => Ok p
  end.

(** [v in {a, b}]: what cannot be hashed cannot be looked for. *)
Definition hashed_in (v : value) (names : list string) : result bool :=
  match v with
  | VList _ | VDict _ => Err (TypeError "unhashable type")
  | _ => Ok (existsb (λ n, py_eq v (VStr n)) names)
  end.

Definition is_action (v : value) (name : string) : bool := py_eq v (VStr name).

(** ** Running *)

Record Negotiation (Identity : Type) : Type := {
  ng_signer : Identity;
  ng_principal : Identity;
  ng_listing_id : string;
  ng_initial_price : value;
  ng_max_price : value;
  ng_unit_count : option value;
  ng_provision_terms : option dict;
  ng_escrow_proposal : option dict;
  ng_settlement_selection : option SettlementSelection;
  ng_max_rounds : Z;
  ng_chain : list NegotiationMiddleware;
  ng_policy_params : dict;
  ng_validate_advertised_plan : option (SettlementPlan → result ());
  ng_validate_acceptance : option (NegotiationOutcome → result ());
}.
Arguments ng_signer {Identity}. Arguments ng_principal {Identity}. Arguments ng_listing_id {Identity}.
Arguments ng_initial_price {Identity}. Arguments ng_max_price {Identity}. Arguments ng_unit_count {Identity}.
Arguments ng_provision_terms {Identity}. Arguments ng_escrow_proposal {Identity}.
Arguments ng_settlement_selection {Identity}. Arguments ng_max_rounds {Identity}. Arguments ng_chain {Identity}.
Arguments ng_policy_params {Identity}. Arguments ng_validate_advertised_plan {Identity}.
Arguments ng_validate_acceptance {Identity}.

Section buyer.
Context {Identity : Type} `{!EqDecision Identity} (rd : Readers Identity).
Context (seller : list BuyerMessage → result dict) (trusted : list BuyerMessage → Identity → bool).
Context (ng : Negotiation Identity).
(** A selection's and an option's [model_dump]. *)
Context (dump_selection : SettlementSelection → dict) (dump_option : SettlementOption → value).

(** [_authenticated_json]: the reply, of a principal trusted when it was asked. *)
Definition send (m : BuyerMessage) : exchange dict := λ sent, (seller (sent ++ [m]), sent ++ [m]).

(** What is fixed before the first message. *)
Record Frame : Type := {
  fr_advertised : option SettlementOption;
  fr_expected : option SettlementSelection;
  fr_unit_count : option value;
  fr_resumed : bool;
  fr_pinned : option dict;
}.

(** What the rounds change. *)
Record BuyerState : Type := {
  bs_neg_id : option string;
  bs_transcript : list NegotiationRound;
  bs_reply : dict;
  bs_round : Z;
  bs_terms : AcceptedTerms;
  bs_settlement_data : option dict;
  bs_notes : dict;
}.

Definition expectation (fr : Frame) (sent : list BuyerMessage) : Expectation :=
  {| ex_listing_id := ng_listing_id ng; ex_selection := fr_expected fr; ex_advertised := fr_advertised fr;
     ex_buyer := ng_principal ng; ex_trusted := trusted sent; ex_validate_plan := ng_validate_advertised_plan ng |}.

(** [_accept]. *)
Definition _accept (ex : Expectation) (agreement : Agreement) (outcome : NegotiationOutcome) (reply : dict)
    : result NegotiationOutcome :=
  _ ← _validate_agreement_acceptance rd ex agreement reply (no_agreed_amount outcome);
  _ ← match ng_validate_acceptance ng with Some validate => validate outcome | None => Ok () end;
  Ok outcome.

Definition agreed_outcome (fr : Frame) (neg_id : option string) (amount : option Z) (rounds : Z)
    (terms : AcceptedTerms) (agreement : Agreement) (bytes : string) (data : option dict) : NegotiationOutcome :=
  {| no_status := agreed; no_negotiation_id := neg_id; no_agreed_amount := amount; no_unit_count := fr_unit_count fr;
     no_reason := VNone; no_rounds := rounds; no_terms := terms; no_agreement := Some agreement;
     no_agreement_bytes := Some bytes; no_settlement_data := data |}.

(** [x or y] of decoded payloads: an empty one is falsy. *)
Definition nonempty_or (x y : option dict) : option dict := match x with Some (_ :: _) => x | _ => y end.

(** ** An acceptance after the first round *)

(** The seller accepts, in reply to our acceptance or to our counter [ours]. *)
Definition seller_accepts (fr : Frame) (st : BuyerState) (ours : option dict) (reply : dict)
    (data : option dict) : exchange NegotiationOutcome := λ sent,
  lift (
    let ex := expectation fr sent in
    terms ← parse_accepted_terms_from_reply rd reply;
    _ ← _validate_accepted_provision_terms (at_provision_terms terms) (at_provision_terms (bs_terms st));
    '(agreement, bytes) ← _parse_accepted_agreement rd reply (bs_neg_id st);
    named ← reply_amount (dict_get "proposal" reply);
    amount ← match named with
             | Some a => Ok (Some a)
             | None => reply_amount (opt_value VDict ours)
             end;
    _ ← match fr_expected fr with
        | Some expected =>
            _validate_settlement_acceptance rd ex expected reply terms agreement amount
              (if fr_resumed fr then at_plan (bs_terms st) else None)
        | None => Ok ()
        end;
    let either {A} (x y : option A) := match x with Some _ => x | None => y end in
    let kept :=
      {| at_provision_terms := nonempty_or (at_provision_terms terms) (at_provision_terms (bs_terms st));
         at_escrow_proposal := nonempty_or (at_escrow_proposal terms) (at_escrow_proposal (bs_terms st));
         at_selection := match fr_expected fr with
                         | Some _ => at_selection terms
                         | None => either (at_selection terms) (at_selection (bs_terms st))
                         end;
         at_plan := match fr_expected fr with
                    | Some _ => at_plan terms
                    | None => either (at_plan terms) (at_plan (bs_terms st))
                    end |} in
    _accept ex agreement (agreed_outcome fr (bs_neg_id st) amount (bs_round st) kept agreement bytes data) reply) sent.

(** ** A round *)

Inductive round_end : Type :=
  | finished (o : NegotiationOutcome)
  | goes_on (st : BuyerState).

(** The transcript the chain reads: the seller's last word is its counter. *)
Definition round_history (st : BuyerState) (counter : dict) : list NegotiationRound :=
  let transcript := bs_transcript st in
  if match last transcript with Some r => bool_decide (nr_sender r = them) | None => false end then transcript
  else transcript ++ [{| nr_round_number := Z.of_nat (List.length transcript); nr_sender := them;
                         nr_action := r_counter; nr_proposal := Some counter |}].

Definition round_context (fr : Frame) (notes : dict) : result NegotiationContext :=
  let units := default (VInt 1) (fr_unit_count fr) in
  ceiling ← scaled_base_units (ng_max_price ng) units;
  opening ← scaled_base_units (ng_initial_price ng) units;
  Ok {| cx_direction := "minimize"; cx_our_reference_amount := VInt ceiling; cx_our_opening_amount := VInt opening;
        cx_listing := []; cx_our_escrow_proposal := fr_pinned fr; cx_max_rounds := ng_max_rounds ng;
        cx_listing_source := None; cx_intermediate := notes |}.

(** The chain's move; a chain that decides nothing releases the seller first. *)
Definition next_move (st : BuyerState) (history : list NegotiationRound) (ctx : NegotiationContext)
    : exchange (NegotiationDecision * NegotiationContext) := λ sent,
  match run_negotiation_chain_with_context (ng_chain ng) history ctx with
  | Err NegotiationChainExhausted =>
      (Err NegotiationChainExhausted,
       sent ++ [negotiate_continue (bs_neg_id st) d_exit None (Some "buyer_chain_no_decision")])
  | r => (r, sent)
  end.

(** [reason or dflt]. *)
Definition reason_or (r : option string) (dflt : string) : string := default dflt (str_truthy r).

(** The message of a move. *)
Definition message_of (st : BuyerState) (d : NegotiationDecision) : result BuyerMessage :=
  match nd_action d with
  | d_counter | d_accept =>
      match nd_proposal d with
      | None => runtime "chain returned a move without a proposal"
      | Some p => p ← _wire_proposal p; Ok (negotiate_continue (bs_neg_id st) (nd_action d) (Some p) None)
      end
  | d_exit | d_reject =>
      Ok (negotiate_continue (bs_neg_id st) (nd_action d) None (Some (reason_or (nd_reason d) "buyer_exit")))
  end.

(** The seller's side of a round in the transcript. *)
Definition their_action (v : value) : RoundAction :=
  if is_action v "accept" then r_accept else if is_action v "exit" then r_exit
  else if is_action v "reject" then r_reject else r_counter.

Definition record_round (st : BuyerState) (d : NegotiationDecision) (reply : dict) : list NegotiationRound :=
  bs_transcript st ++
  [{| nr_round_number := bs_round st; nr_sender := us; nr_action := r_counter; nr_proposal := nd_proposal d |};
   {| nr_round_number := bs_round st; nr_sender := them; nr_action := their_action (dict_get "action" reply);
      nr_proposal := as_dict (dict_get "proposal" reply) |}].

Definition exits (fr : Frame) (st : BuyerState) (reason : value) : round_end :=
  finished (exit_outcome (bs_neg_id st) reason (fr_unit_count fr) (bs_round st)).

(** What follows the seller's reply to our move. *)
Definition after_reply (fr : Frame) (st : BuyerState) (d : NegotiationDecision) (reply : dict) : exchange round_end :=
  if bool_decide (nd_action d = d_reject)
  then mret (exits fr st (VStr (reason_or (nd_reason d) "buyer_reject"))) else
  named ← lift (hashed_in (dict_get "action" reply) ["counter"; "accept"]);
  data ← lift (if (named : bool) then _parse_settlement_data reply else Ok None);
  let data := match data with Some _ => data | None => bs_settlement_data st end in
  let theirs := dict_get "action" reply in
  match nd_action d with
  | d_accept =>
      if is_action theirs "accept" then finished <$> seller_accepts fr st (nd_proposal d) reply data
      else mret (exits fr st (VStr "seller_non_accept_after_buyer_accept"))
  | d_exit => mret (exits fr st (VStr (reason_or (nd_reason d) "buyer_exit")))
  | _ =>
      let transcript := record_round st d reply in
      if is_action theirs "accept" then finished <$> seller_accepts fr st (nd_proposal d) reply data
      else if is_action theirs "exit" || is_action theirs "reject"
      then mret (exits fr st (dict_get "reason" reply))
      else if negb (is_action theirs "counter") then lift (runtime "Unexpected seller action mid-negotiation")
      else mret (goes_on {| bs_neg_id := bs_neg_id st; bs_transcript := transcript; bs_reply := reply;
                            bs_round := bs_round st + 1; bs_terms := bs_terms st; bs_settlement_data := data;
                            bs_notes := bs_notes st |})
  end.

Definition with_notes (notes : dict) (st : BuyerState) : BuyerState :=
  {| bs_neg_id := bs_neg_id st; bs_transcript := bs_transcript st; bs_reply := bs_reply st; bs_round := bs_round st;
     bs_terms := bs_terms st; bs_settlement_data := bs_settlement_data st; bs_notes := notes |}.

Definition negotiate_round (fr : Frame) (st : BuyerState) : exchange round_end :=
  match dict_get "proposal" (bs_reply st) with
  | VDict counter =>
      ctx ← lift (round_context fr (bs_notes st));
      '(d, ctx) ← next_move st (round_history st counter) ctx;
      let st := with_notes (cx_intermediate ctx) st in
      message ← lift (message_of st d);
      reply ← send message;
      after_reply fr st d reply
  | _ => lift (runtime "Seller counter without proposal")
  end.

(** [while round_idx <= max_rounds]. *)
Fixpoint negotiate_rounds (fuel : nat) (fr : Frame) (st : BuyerState) : exchange NegotiationOutcome :=
  if bs_round st <=? ng_max_rounds ng then
    match fuel with
    | O => lift (Err OutOfFuel)
    | S fuel =>
        r ← negotiate_round fr st;
        match r with
        | finished o => mret o
        | goes_on st => negotiate_rounds fuel fr st
        end
    end
  else mret (exit_outcome (bs_neg_id st) (VStr "max_rounds") (fr_unit_count fr) (ng_max_rounds ng)).

(** One turn per round that is left. *)
Definition run_rounds (fr : Frame) (st : BuyerState) : exchange NegotiationOutcome :=
  negotiate_rounds (Z.to_nat (ng_max_rounds ng - bs_round st + 1)) fr st.

(** ** The opening *)

(** The option the chosen listing advertised, and the parameters without it. *)
Definition selected_option_key : string := "_selected_settlement_option".

Definition advertised_option : result (option SettlementOption) :=
  let raw := dict_get selected_option_key (ng_policy_params ng) in
  if is_none raw then Ok None else Some <$> read_option rd raw.

Definition initial_notes : dict :=
  List.filter (λ kv, negb (bool_decide (kv.1 = selected_option_key))) (ng_policy_params ng).

Definition check_advertised (advertised : option SettlementOption) (expected : option SettlementSelection) : result () :=
  match advertised, expected with
  | Some o, Some s =>
      ensure (eqb_of (so_option_id o) (ss_option_id s) && py_eq (so_schema o) (ss_schema s))
        "buyer settlement selection does not identify the advertised option"
  | _, _ => Ok ()
  end.

(** [unit_count <= 0], of a number. *)
Definition positive_units (v : value) : bool :=
  match as_num v with Some n => num_lt (NInt 0) n | None => false end.

Definition base_proposal : result dict :=
  match ng_settlement_selection ng, ng_escrow_proposal ng with
  | Some s, None => Ok [("settlement_selection", VDict (dump_selection s)); ("fields", VDict [])]
  | None, Some e => Ok e
  | _, _ => runtime "exactly one of escrow_proposal or settlement_selection is required"
  end.

Definition opening_context (advertised : option SettlementOption) (base : dict) (ceiling initial : Z)
    : NegotiationContext :=
  {| cx_direction := "minimize"; cx_our_reference_amount := VInt ceiling; cx_our_opening_amount := VInt initial;
     cx_listing := match advertised with
                   | Some o => [("settlement_options", VList [dump_option o])]
                   | None => []
                   end;
     cx_our_escrow_proposal := Some base; cx_max_rounds := ng_max_rounds ng; cx_listing_source := None;
     cx_intermediate := initial_notes |}.

(** A round-0 acceptance is checked before it is handed on, as well. *)
Definition accepted_at_once (fr : Frame) (neg_id : option string) (terms : AcceptedTerms) (amount : option Z)
    (data : option dict) (reply : dict) : exchange NegotiationOutcome := λ sent,
  lift (
    let ex := expectation fr sent in
    '(agreement, bytes) ← _parse_accepted_agreement rd reply neg_id;
    _ ← _validate_agreement_acceptance rd ex agreement reply amount;
    _ ← match fr_expected fr with
        | Some expected => _validate_settlement_acceptance rd ex expected reply terms agreement amount None
        | None => Ok ()
        end;
    _accept ex agreement (agreed_outcome fr neg_id amount 0 terms agreement bytes data) reply) sent.

Definition after_opening (fr : Frame) (pinned : dict) (initial : Z) (notes reply : dict) : exchange round_end :=
  let neg_id := match dict_get "negotiation_id" reply with
                | VStr s => if bool_decide (s = "") then None else Some s
                | _ => None
                end in
  let theirs := dict_get "action" reply in
  terms ← lift (parse_accepted_terms_from_reply rd reply);
  named ← lift (hashed_in theirs ["counter"; "accept"]);
  data ← lift (if (named : bool) then _parse_settlement_data reply else Ok None);
  _ ← lift (ensure (negb (named && bool_decide (at_provision_terms terms = None)))
              "seller negotiation reply omitted accepted_provision_terms");
  _ ← lift (_validate_accepted_provision_terms (at_provision_terms terms) (ng_provision_terms ng));
  _ ← lift (match fr_expected fr with
            | Some expected => if (named : bool) then _validate_selection_echo (at_selection terms) expected else Ok ()
            | None => Ok ()
            end);
  named_amount ← lift (reply_amount (dict_get "proposal" reply));
  let amount := match named_amount, fr_expected fr with
                | None, None => Some initial
                | a, _ => a
                end in
  if is_action theirs "accept" then finished <$> accepted_at_once fr neg_id terms amount data reply
  else if is_action theirs "exit" || is_action theirs "reject"
  then mret (finished (exit_outcome neg_id (dict_get "reason" reply) (fr_unit_count fr) 0))
  else if negb (is_action theirs "counter") then lift (runtime "Unexpected seller action on /api/v1/negotiate/new")
  else match neg_id with
       | None => lift (runtime "/api/v1/negotiate/new returned counter but no negotiation_id")
       | Some _ =>
           mret (goes_on
             {| bs_neg_id := neg_id;
                bs_transcript :=
                  [{| nr_round_number := 0; nr_sender := us; nr_action := r_initial; nr_proposal := Some pinned |};
                   {| nr_round_number := 0; nr_sender := them; nr_action := r_counter;
                      nr_proposal := as_dict (dict_get "proposal" reply) |}];
                bs_reply := reply; bs_round := 1; bs_terms := terms; bs_settlement_data := data; bs_notes := notes |})
       end.

Definition negotiate_fresh (advertised : option SettlementOption) : exchange NegotiationOutcome :=
  _ ← lift (check_advertised advertised (ng_settlement_selection ng));
  _ ← lift (ensure (negb (bool_decide (ng_provision_terms ng = None))) "provision_terms is required for fresh negotiations");
  base ← lift base_proposal;
  units ← lift (match ng_unit_count ng with
                | Some u => if positive_units u then Ok u else runtime "unit_count must be > 0"
                | None => runtime "unit_count must be > 0"
                end);
  initial ← lift (scaled_base_units (ng_initial_price ng) units);
  ceiling ← lift (scaled_base_units (ng_max_price ng) units);
  '(opening, ctx) ← lift (run_negotiation_chain_with_context (ng_chain ng) [] (opening_context advertised base ceiling initial));
  match nd_action opening with
  | d_exit => mret (exit_outcome None (VStr (reason_or (nd_reason opening) "buyer_exit_at_opening")) (Some units) 0)
  | d_reject => mret (exit_outcome None (VStr (reason_or (nd_reason opening) "buyer_reject_at_opening")) (Some units) 0)
  | d_accept => lift (runtime "Policy chain produced an acceptance as the round-0 opening")
  | d_counter =>
      match nd_proposal opening with
      | None => lift (runtime "Policy chain produced a round-0 opening without a proposal")
      | Some p =>
          pinned ← lift (_wire_proposal p);
          let fr := {| fr_advertised := advertised; fr_expected := ng_settlement_selection ng;
                       fr_unit_count := Some units; fr_resumed := false; fr_pinned := Some pinned |} in
          reply ← send (negotiate_new pinned);
          r ← after_opening fr pinned initial (cx_intermediate ctx) reply;
          match r with
          | finished o => mret o
          | goes_on st => run_rounds fr st
          end
      end
  end.

(** ** Resuming *)

Definition resumed_reply (rs : ResumeState) : dict :=
  [("settlement_plan", rs_settlement_plan rs); ("accepted_provision_terms", rs_accepted_provision_terms rs);
   ("accepted_escrow_proposal", rs_accepted_escrow_proposal rs); ("settlement_selection", rs_settlement_selection rs)].

Definition first_of_ours (transcript : list NegotiationRound) : option dict := our_first_proposal transcript.

Definition negotiate_resumed (rs : ResumeState) (advertised : option SettlementOption) : exchange NegotiationOutcome :=
  terms ← lift (parse_accepted_terms_from_reply rd (resumed_reply rs));
  _ ← lift (match rs_agreement rs, rs_agreement_bytes rs with
            | Some a, Some _ => _ ← read_agreement rd a; Ok ()
            | _, _ => Ok ()
            end);
  _ ← lift (check_advertised advertised (at_selection terms));
  match rs_last_seller_proposal rs with
  | None => lift (runtime "Cannot resume: no seller counter proposal recorded in run-log")
  | Some last =>
      pinned ← lift (match first_of_ours (rs_transcript rs) with
                     | Some p => Some <$> _wire_proposal p
                     | None => Ok None
                     end);
      run_rounds
        {| fr_advertised := advertised; fr_expected := at_selection terms; fr_unit_count := None; fr_resumed := true;
           fr_pinned := pinned |}
        {| bs_neg_id := Some (rs_negotiation_id rs); bs_transcript := rs_transcript rs;
           bs_reply := [("negotiation_id", VStr (rs_negotiation_id rs)); ("action", VStr "counter");
                        ("proposal", VDict last)];
           bs_round := Z.max 1 (rs_rounds_completed rs); bs_terms := terms; bs_settlement_data := None;
           bs_notes := initial_notes |}
  end.

Definition negotiate_with_seller (resume : option ResumeState) : exchange NegotiationOutcome :=
  _ ← lift (if eqb_of (ng_signer ng) (ng_principal ng) then Ok ()
            else Err (ValueError "buyer signer identity does not match negotiation principal"));
  advertised ← lift advertised_option;
  match resume with
  | Some rs => negotiate_resumed rs advertised
  | None => negotiate_fresh advertised
  end.
End buyer.
