(* ===== verification/BuyerProperties.v ===== *)
(** Lemmas on the buyer's loop: what it sends and how much, why its fuel is
    enough, and what an agreed outcome was checked against. *)
From S2P Require Import Prelude PyNum PyValue PyNumFacts PyText QueryDsl PyWire PyJson.
From S2P Require Import FilterEval.
From S2P Require Import Negotiation ScalarPolicies EscrowGuards NegotiationFacts.
From S2P Require Import NegotiationChains EscrowSchemas BuyerTerms BuyerNegotiation PyNumFacts.

Local Open Scope string_scope.
Local Open Scope list_scope.
Local Open Scope Z_scope.

(** ** What is sent *)

(** At most [n] messages, each of which is [P]. *)
Definition sends {A} (n : nat) (P : BuyerMessage → Prop) (x : exchange A) : Prop :=
  ∀ sent, ∃ more, (x sent).2 = sent ++ more ∧ (length more ≤ n)%nat ∧ Forall P more.

Section sends.
Context (P : BuyerMessage → Prop).

Lemma sends_lift {A} (r : result A) : sends 0 P (lift r).
Proof. intros sent. exists []. by rewrite app_nil_r. Qed.

Lemma sends_ret {A} (a : A) : sends 0 P (mret a).
Proof. intros sent. exists []. by rewrite app_nil_r. Qed.

Lemma sends_mono {A} n m (x : exchange A) : sends n P x → (n ≤ m)%nat → sends m P x.
Proof. intros Hx Hnm sent. destruct (Hx sent) as (more & ? & ? & ?). exists more. split_and!; [done|lia|done]. Qed.

Lemma sends_bind {A B} n m (x : exchange A) (f : A → exchange B) :
  sends n P x → (∀ sent a sent', x sent = (Ok a, sent') → sends m P (f a)) → sends (n + m) P (x ≫= f).
Proof.
  intros Hx Hf sent. unfold mbind, exchange_bind. specialize (Hf sent).
  destruct (Hx sent) as (more & Hs & Hl & Hp). destruct (x sent) as [[a|e] sent'] eqn:Hxs; simpl in Hs.
  - destruct (Hf _ _ eq_refl sent') as (more' & Hs' & Hl' & Hp'). exists (more ++ more'). subst sent'.
    rewrite <-app_assoc in Hs'. split_and!; [done| |by apply Forall_app]. rewrite length_app. lia.
  - exists more. split_and!; [done|lia|done].
Qed.

Lemma sends_lift_bind {A B} m (r : result A) (f : A → exchange B) :
  (∀ a, r = Ok a → sends m P (f a)) → sends m P (lift r ≫= f).
Proof. intros Hf. apply (sends_bind 0); [apply sends_lift|]. intros sent a sent' [= -> _]. by apply Hf. Qed.

Lemma sends_fmap {A B} n (f : A → B) (x : exchange A) : sends n P x → sends n P (f <$> x).
Proof.
  intros Hx. replace n with (n + 0)%nat by lia. apply sends_bind; [done|]. intros. apply sends_ret.
Qed.

Lemma sends_send seller m : P m → sends 1 P (send seller m).
Proof. intros Hm sent. exists [m]. split_and!; [done|done|by constructor]. Qed.
End sends.

Section buyer.
Context {Identity : Type} `{!EqDecision Identity} (rd : Readers Identity).
Context (seller : list BuyerMessage → result dict) (trusted : list BuyerMessage → Identity → bool).
Context (ng : Negotiation Identity).
Context (dump_selection : SettlementSelection → dict) (dump_option : SettlementOption → value).

(** *** Replies are only read *)

Lemma seller_accepts_sends P fr st ours reply data :
  sends 0 P (seller_accepts rd trusted ng fr st ours reply data).
Proof. intros sent. exists []. by rewrite app_nil_r. Qed.

Lemma after_reply_sends P fr st d reply : sends 0 P (after_reply rd trusted ng fr st d reply).
Proof.
  unfold after_reply. case_bool_decide; [apply sends_ret|].
  apply sends_lift_bind. intros named _. apply sends_lift_bind. intros data _.
  destruct (nd_action d); repeat case_match;
    first [apply sends_ret|apply sends_lift|apply sends_fmap, seller_accepts_sends].
Qed.

Lemma after_opening_sends P fr pinned initial notes reply :
  sends 0 P (after_opening rd trusted ng fr pinned initial notes reply).
Proof.
  unfold after_opening. do 7 (apply sends_lift_bind; intros ? _).
  repeat case_match; first [apply sends_ret|apply sends_lift|apply sends_fmap; intros sent].
  all: exists []; by rewrite app_nil_r.
Qed.

(** *** A round sends one message *)

(** What a move of the chain, or its failure, says. *)
Definition says (P : BuyerMessage → Prop) (fr : Frame) (st : BuyerState) : Prop :=
  ∀ counter ctx,
    dict_get "proposal" (bs_reply st) = VDict counter → round_context ng fr (bs_notes st) = Ok ctx →
    (∀ neg_id, P (negotiate_continue neg_id d_exit None (Some "buyer_chain_no_decision"))) ∧
    (∀ d ctx' m, run_negotiation_chain_with_context (ng_chain ng) (round_history st counter) ctx = Ok (d, ctx') →
       message_of (with_notes (cx_intermediate ctx') st) d = Ok m → P m).

Lemma negotiate_round_sends P fr st :
  says P fr st → sends 1 P (negotiate_round rd seller trusted ng fr st).
Proof.
  intros Hsay. unfold negotiate_round.
  destruct (dict_get "proposal" (bs_reply st)) as [| | | | |counter] eqn:Hc;
    try (eapply sends_mono; [apply sends_lift|lia]).
  apply sends_lift_bind. intros ctx Hctx. destruct (Hsay counter ctx) as [Hexit Hmove]; [done..|].
  destruct (run_negotiation_chain_with_context (ng_chain ng) (round_history st counter) ctx) as [[d ctx']|e] eqn:Hrun.
  - assert (next_move ng st (round_history st counter) ctx = lift (Ok (d, ctx'))) as ->
      by (unfold next_move; by rewrite Hrun).
    apply sends_lift_bind. intros ? [= <-]. apply sends_lift_bind. intros m Hm.
    apply (sends_bind P 1 0); [apply sends_send; by eapply Hmove|]. intros. apply after_reply_sends.
  - intros sent. unfold mbind, exchange_bind, next_move. rewrite Hrun.
    destruct e; try (exists []; rewrite app_nil_r; split_and!; [done|simpl; lia|constructor]).
    eexists [_]. split_and!; [done|done|]. by constructor.
Qed.

Lemma negotiate_round_next fr st sent st' sent' :
  negotiate_round rd seller trusted ng fr st sent = (Ok (goes_on st'), sent') → bs_round st' = bs_round st + 1.
Proof.
  unfold negotiate_round. destruct (dict_get "proposal" (bs_reply st)) as [| | | | |counter]; try done.
  unfold mbind, exchange_bind, lift. destruct (round_context ng fr (bs_notes st)) as [ctx|]; [|done].
  destruct (next_move ng st _ ctx sent) as [[[d ctx']|] s1]; [|done].
  destruct (message_of _ d); [|done]. unfold send. destruct (seller _); [|done].
  unfold after_reply. case_bool_decide; [done|].
  unfold fmap, exchange_fmap, mbind, exchange_bind, mret, exchange_ret, lift.
  repeat (case_match; try discriminate); intros; simplify_eq; done.
Qed.

Lemma after_opening_round fr pinned initial notes reply sent st sent' :
  after_opening rd trusted ng fr pinned initial notes reply sent = (Ok (goes_on st), sent') → bs_round st = 1.
Proof.
  unfold after_opening, fmap, exchange_fmap, mbind, exchange_bind, mret, exchange_ret, lift.
  repeat (case_match; try discriminate); intros; simplify_eq; done.
Qed.

Lemma negotiate_rounds_sends P fuel fr st :
  (∀ st, says P fr st) → (Z.to_nat (ng_max_rounds ng - bs_round st + 1) ≤ fuel)%nat →
  sends (Z.to_nat (ng_max_rounds ng - bs_round st + 1)) P (negotiate_rounds rd seller trusted ng fuel fr st).
Proof.
  intros Hsay. revert st. induction fuel as [|fuel IH]; intros st Hfuel; simpl.
  - destruct (Z.leb_spec (bs_round st) (ng_max_rounds ng)); [lia|].
    eapply sends_mono; [apply sends_ret|lia].
  - destruct (Z.leb_spec (bs_round st) (ng_max_rounds ng)); [|eapply sends_mono; [apply sends_ret|lia]].
    assert (Z.to_nat (ng_max_rounds ng - bs_round st + 1) = 1 + Z.to_nat (ng_max_rounds ng - bs_round st))%nat as -> by lia.
    apply sends_bind; [by apply negotiate_round_sends|]. intros sent [o|st'] sent' Hr.
    { eapply sends_mono; [apply sends_ret|lia]. }
    apply negotiate_round_next in Hr. eapply sends_mono; [apply IH; lia|lia].
Qed.

(** *** Fuel *)

(** Beyond one turn per round left, fuel changes nothing. *)
Lemma negotiate_rounds_fuel fuel fr st sent :
  (Z.to_nat (ng_max_rounds ng - bs_round st + 1) ≤ fuel)%nat →
  negotiate_rounds rd seller trusted ng fuel fr st sent = run_rounds rd seller trusted ng fr st sent.
Proof.
  unfold run_rounds. remember (Z.to_nat (ng_max_rounds ng - bs_round st + 1)) as n eqn:Hn.
  revert fuel st sent Hn. induction n as [|n IH]; intros fuel st sent Hn Hf.
  - destruct fuel; simpl; (destruct (Z.leb_spec (bs_round st) (ng_max_rounds ng)); [lia|done]).
  - destruct fuel as [|fuel]; [lia|]. simpl.
    destruct (Z.leb_spec (bs_round st) (ng_max_rounds ng)); [|done].
    unfold mbind, exchange_bind.
    destruct (negotiate_round rd seller trusted ng fr st sent) as [[[o|st']|e] sent'] eqn:Hr; [done| |done].
    apply negotiate_round_next in Hr. apply IH; lia.
Qed.
End buyer.

(** * What the buyer's negotiation promises: it ends, it never says it accepts more
    than its ceiling, and what it takes for agreed was checked against the
    seller's Agreement. *)

(** ** Checks *)

Lemma ensure_Ok b what u : ensure b what = Ok u → b = true.
Proof. by destruct b. Qed.

Lemma eqb_of_true {A} `{!EqDecision A} (a b : A) : eqb_of a b = true → a = b.
Proof. apply bool_decide_eq_true_1. Qed.

Lemma refuse_as_Ok {A} what (r : result A) a : refuse_as what r = Ok a → r = Ok a.
Proof. by destruct r as [|[]]. Qed.

(** Splits a chain of successful checks. *)
Ltac checks H :=
  repeat match type of H with
  | (ensure _ _ ≫= _) = Ok _ =>
      let E := fresh "E" in apply result_bind_Ok in H as (? & E & H); apply ensure_Ok in E
  | (_ ≫= _) = Ok _ => let E := fresh "E" in apply result_bind_Ok in H as (? & E & H)
  end.

Section buyer.
Context {Identity : Type} `{!EqDecision Identity} (rd : Readers Identity).
Context (seller : list BuyerMessage → result dict) (trusted : list BuyerMessage → Identity → bool).
Context (ng : Negotiation Identity).
Context (dump_selection : SettlementSelection → dict) (dump_option : SettlementOption → value).

Local Abbreviation negotiate := (negotiate_with_seller rd seller trusted ng dump_selection dump_option).

(** ** What an agreed outcome was checked against *)

(** The settlement option the buyer negotiates for: the one it was asked to, or,
    when it resumes, the one in the terms it kept. *)
Definition committed_selection (resume : option ResumeState) : result (option SettlementSelection) :=
  match resume with
  | Some rs => at_selection <$> parse_accepted_terms_from_reply rd (resumed_reply rs)
  | None => Ok (ng_settlement_selection ng)
  end.

(** The Agreement is for this listing, between the buyer and a trusted seller, at
    the agreed amount; and, when the buyer selected an option, over that option,
    as advertised if the buyer kept the advertisement. *)
Definition agreement_sound (sent : list BuyerMessage) (expected : option SettlementSelection)
    (advertised : option SettlementOption) (amount : option Z) (agreement : Agreement) : Prop :=
  ag_listing_id agreement = ng_listing_id ng ∧
  read_identity rd (VDict (ag_buyer agreement)) = Ok (ng_principal ng) ∧
  (∃ s, read_identity rd (VDict (ag_seller agreement)) = Ok s ∧ trusted sent s = true) ∧
  (∀ a, amount = Some a → ag_amount agreement = a) ∧
  (∀ e, expected = Some e → ∃ o, ag_settlement agreement = Some o ∧ so_option_id o = ss_option_id e ∧
        py_eq (so_schema o) (ss_schema e) = true ∧ ag_asset agreement = price_asset o ∧
        ∀ adv, advertised = Some adv → option_eqb o adv = true).

Lemma agreement_acceptance_sound fr sent agreement reply amount u :
  _validate_agreement_acceptance rd (expectation trusted ng fr sent) agreement reply amount = Ok u →
  agreement_sound sent (fr_expected fr) (fr_advertised fr) amount agreement.
Proof.
  unfold _validate_agreement_acceptance, _validated_party. intros H. checks H.
  repeat match goal with E : refuse_as _ _ = Ok _ |- _ => apply refuse_as_Ok in E end.
  apply eqb_of_true in E3. apply andb_true_iff in E4 as [_ E4%eqb_of_true]. apply andb_true_iff in E5 as [E5 E5'%eqb_of_true].
  simpl in *. subst. split_and!; [done..|by eexists| |].
  - intros a ->. by apply Z.eqb_eq.
  - intros e He. rewrite He in H. destruct (ag_settlement agreement) as [o|]; [|done]. checks H.
    apply ensure_Ok, eqb_of_true in H. exists o.
    match goal with E : (_ && _) = true |- _ => apply andb_true_iff in E as [E%eqb_of_true ?] end.
    split_and!; [done..|]. intros adv Hadv.
    match goal with E : match fr_advertised fr with Some _ => _ | None => _ end = true |- _ =>
      by rewrite Hadv in E end.
Qed.

Lemma accepted_agreement_named reply neg_id agreement bytes :
  _parse_accepted_agreement rd reply neg_id = Ok (agreement, bytes) → neg_id = Some (ag_negotiation_id agreement).
Proof.
  unfold _parse_accepted_agreement. destruct (dict_get "agreement" reply) as [| | | | |raw]; try done.
  destruct (dict_get "agreement_bytes" reply) as [| | |enc| |]; try done.
  intros ([a r] & _ & H)%result_bind_Ok. checks H. injection H as -> _.
  match goal with E : eqb_of _ _ = true |- _ => by apply eqb_of_true in E end.
Qed.

(** An agreed outcome, and the seller's reply that made it one. *)
Definition sound_outcome (expected : option SettlementSelection) (advertised : option SettlementOption)
    (sent : list BuyerMessage) (o : NegotiationOutcome) : Prop :=
  no_status o = agreed →
  ∃ reply agreement,
    seller sent = Ok reply ∧ is_action (dict_get "action" reply) "accept" = true ∧
    no_agreement o = Some agreement ∧ no_negotiation_id o = Some (ag_negotiation_id agreement) ∧
    agreement_sound sent expected advertised (no_agreed_amount o) agreement ∧
    (∀ a, reply_amount (dict_get "proposal" reply) = Ok (Some a) → no_agreed_amount o = Some a) ∧
    (∀ validate, ng_validate_acceptance ng = Some validate → validate o = Ok ()).

Lemma accept_sound fr sent agreement outcome reply o :
  _accept rd ng (expectation trusted ng fr sent) agreement outcome reply = Ok o →
  o = outcome ∧
  agreement_sound sent (fr_expected fr) (fr_advertised fr) (no_agreed_amount outcome) agreement ∧
  (∀ validate, ng_validate_acceptance ng = Some validate → validate o = Ok ()).
Proof.
  unfold _accept. intros (u & Hv & (u' & Hc & [= <-])%result_bind_Ok)%result_bind_Ok.
  apply agreement_acceptance_sound in Hv. split_and!; [done..|]. intros validate He. rewrite He in Hc. by destruct u'.
Qed.

Lemma seller_accepts_sound fr st ours reply data sent o sent' :
  seller sent = Ok reply → is_action (dict_get "action" reply) "accept" = true →
  seller_accepts rd trusted ng fr st ours reply data sent = (Ok o, sent') → sent' = sent ∧ sound_outcome (fr_expected fr) (fr_advertised fr) sent o.
Proof.
  intros Hreply Hact. unfold seller_accepts, lift. intros [= H <-]. split; [done|].
  apply result_bind_Ok in H as (terms & _ & H). apply result_bind_Ok in H as (u & _ & H).
  apply result_bind_Ok in H as ([agreement bytes] & Hag & H). apply result_bind_Ok in H as (named & Hnamed & H).
  apply result_bind_Ok in H as (amount & Hamount & H). apply result_bind_Ok in H as (u' & _ & H).
  apply accept_sound in H as (-> & Hs & Hv). intros _. exists reply, agreement.
  simpl in *. apply accepted_agreement_named in Hag. split_and!; [done..| |done].
  intros a Ha. rewrite Ha in Hnamed. injection Hnamed as <-. by injection Hamount as <-.
Qed.

Lemma accepted_at_once_sound fr neg_id terms amount data reply sent o sent' :
  seller sent = Ok reply → is_action (dict_get "action" reply) "accept" = true →
  (∀ a, reply_amount (dict_get "proposal" reply) = Ok (Some a) → amount = Some a) →
  accepted_at_once rd trusted ng fr neg_id terms amount data reply sent = (Ok o, sent') →
  sent' = sent ∧ sound_outcome (fr_expected fr) (fr_advertised fr) sent o.
Proof.
  intros Hreply Hact Ham. unfold accepted_at_once, lift. intros [= H <-]. split; [done|].
  apply result_bind_Ok in H as ([agreement bytes] & Hag & H). apply result_bind_Ok in H as (u & _ & H).
  apply result_bind_Ok in H as (u' & _ & H). apply accept_sound in H as (-> & Hs & Hv). intros _.
  exists reply, agreement. apply accepted_agreement_named in Hag. by split_and!.
Qed.
(** ** Runs *)

(** What a run that returns has established. *)
Definition yields {A} (Q : A → list BuyerMessage → Prop) (x : exchange A) : Prop :=
  ∀ sent a sent', x sent = (Ok a, sent') → Q a sent'.

Lemma yields_bind {A B} (Q : B → list BuyerMessage → Prop) (x : exchange A) (f : A → exchange B) :
  (∀ sent a sent', x sent = (Ok a, sent') → yields Q (f a)) → yields Q (x ≫= f).
Proof.
  intros Hf sent b sent'. unfold mbind, exchange_bind.
  destruct (x sent) as [[a|e] s1] eqn:Hx; [|done]. by apply (Hf _ _ _ Hx).
Qed.

Lemma yields_lift_bind {A B} (Q : B → list BuyerMessage → Prop) (r : result A) (f : A → exchange B) :
  (∀ a, r = Ok a → yields Q (f a)) → yields Q (lift r ≫= f).
Proof. intros Hf. apply yields_bind. intros sent a sent' [= -> _]. by apply Hf. Qed.

Lemma yields_fail {A} (Q : A → list BuyerMessage → Prop) e : yields Q (lift (Err e)).
Proof. by intros ? ? ? [=]. Qed.

Lemma yields_mono {A} (Q Q' : A → list BuyerMessage → Prop) (x : exchange A) :
  (∀ a sent, Q a sent → Q' a sent) → yields Q x → yields Q' x.
Proof. intros HQ Hx sent a sent' Hrun. by eapply HQ, Hx. Qed.

Definition sound_end (fr : Frame) (r : round_end) (sent : list BuyerMessage) : Prop :=
  match r with
  | finished o => sound_outcome (fr_expected fr) (fr_advertised fr) sent o
  | goes_on _ => True
  end.

Lemma exit_sound e a neg_id reason units rounds sent :
  sound_outcome e a sent (exit_outcome neg_id reason units rounds).
Proof. by intros [=]. Qed.

(** Reading a reply that was just received. *)
Lemma after_reply_sound fr st d reply sent r sent' :
  seller sent = Ok reply → after_reply rd trusted ng fr st d reply sent = (Ok r, sent') → sound_end fr r sent'.
Proof.
  intros Hreply. unfold after_reply. case_bool_decide; [by intros [= <- <-]|].
  unfold fmap, exchange_fmap, mbind, exchange_bind, mret, exchange_ret, lift.
  destruct (hashed_in _ _) as [named|]; [|done].
  destruct (if named : bool then _ else _) as [data|]; [|done].
  assert (∀ data', is_action (dict_get "action" reply) "accept" = true →
    match seller_accepts rd trusted ng fr st (nd_proposal d) reply data' sent with
    | (Ok o, s) => (Ok (finished o), s)
    | (Err e, s) => (Err e, s)
    end = (Ok r, sent') → sound_end fr r sent') as Hacc.
  { intros data' Ha. destruct (seller_accepts _ _ _ _ _ _ _ _ _) as [[o|] s] eqn:Hs; [|done].
    intros [= <- <-]. by apply seller_accepts_sound in Hs as [-> ?]. }
  destruct (is_action (dict_get "action" reply) "accept"); destruct (nd_action d);
    try (by apply Hacc); repeat (case_match; try discriminate); by intros [= <- <-].
Qed.

Lemma negotiate_round_sound fr st : yields (sound_end fr) (negotiate_round rd seller trusted ng fr st).
Proof.
  unfold negotiate_round. destruct (dict_get "proposal" (bs_reply st)); try apply yields_fail.
  apply yields_lift_bind. intros ctx _. apply yields_bind. intros _ [move ctx'] _ _.
  apply yields_lift_bind. intros m _ sent r sent'. unfold mbind, exchange_bind, send.
  destruct (seller (sent ++ [m])) as [reply|] eqn:Hr; [|done]. by apply after_reply_sound.
Qed.

Lemma negotiate_rounds_sound fuel fr st :
  yields (λ o sent, sound_outcome (fr_expected fr) (fr_advertised fr) sent o) (negotiate_rounds rd seller trusted ng fuel fr st).
Proof.
  revert st. induction fuel as [|fuel IH]; intros st; simpl;
    (destruct (_ <=? _); [|by intros ? ? ? [= <- _]; apply exit_sound]); [apply yields_fail|].
  intros sent o sent'. unfold mbind, exchange_bind.
  destruct (negotiate_round rd seller trusted ng fr st sent) as [[[o'|st']|] s1] eqn:Hr; [| |done].
  - intros [= <- <-]. apply (negotiate_round_sound _ _ _ _ _ Hr).
  - apply IH.
Qed.

Lemma after_opening_sound fr pinned initial notes reply sent r sent' :
  seller sent = Ok reply →
  after_opening rd trusted ng fr pinned initial notes reply sent = (Ok r, sent') → sound_end fr r sent'.
Proof.
  intros Hreply. unfold after_opening.
  unfold fmap, exchange_fmap, mbind, exchange_bind, mret, exchange_ret, lift.
  destruct (parse_accepted_terms_from_reply rd reply) as [terms|]; [|done].
  destruct (hashed_in _ _) as [named|]; [|done].
  destruct (if named : bool then _ else _) as [data|]; [|done].
  destruct (ensure _ _); [|done]. destruct (_validate_accepted_provision_terms _ _); [|done].
  match goal with |- context [match ?x with Ok a => _ | Err e => _ end] => destruct x; [|done] end.
  destruct (reply_amount _) as [amount|] eqn:Ham; [|done].
  destruct (is_action _ "accept") eqn:Hact.
  - destruct (accepted_at_once _ _ _ _ _ _ _ _ _ _) as [[o|] s] eqn:Hs; [|done]. intros [= <- <-].
    apply accepted_at_once_sound in Hs as [-> ?]; [done..|]. intros amt Ha. rewrite Ham in Ha. by injection Ha as ->.
  - repeat (case_match; try discriminate); by intros [= <- <-].
Qed.

Lemma negotiate_fresh_sound advertised :
  yields (λ o sent, sound_outcome (ng_settlement_selection ng) advertised sent o)
    (negotiate_fresh rd seller trusted ng dump_selection dump_option advertised).
Proof.
  unfold negotiate_fresh. do 2 (apply yields_lift_bind; intros _ _). apply yields_lift_bind. intros base _.
  apply yields_lift_bind. intros units _. apply yields_lift_bind. intros initial _.
  apply yields_lift_bind. intros ceiling _. apply yields_lift_bind. intros [opening ctx] _.
  destruct (nd_action opening); [apply yields_fail| |by intros ? ? ? [= <- _]; apply exit_sound..].
  destruct (nd_proposal opening) as [p|]; [|apply yields_fail]. apply yields_lift_bind. intros pinned _.
  intros sent o sent'. unfold mbind at 1, exchange_bind at 1, send.
  destruct (seller (sent ++ [negotiate_new pinned])) as [reply|] eqn:Hr; [|done].
  unfold mbind, exchange_bind.
  destruct (after_opening _ _ _ _ _ _ _ _ _) as [[[o'|st]|] s1] eqn:Ho; [| |done].
  + intros [= <- <-]. apply (after_opening_sound _ _ _ _ _ _ _ _ Hr Ho).
  + apply negotiate_rounds_sound.
Qed.

Lemma negotiate_sound resume :
  yields (λ o sent, ∃ expected advertised,
    committed_selection resume = Ok expected ∧ advertised_option rd ng = Ok advertised ∧
    sound_outcome expected advertised sent o) (negotiate resume).
Proof.
  unfold negotiate_with_seller. apply yields_lift_bind. intros _ _. apply yields_lift_bind. intros adv Hadv.
  destruct resume as [rs|].
  - unfold negotiate_resumed. apply yields_lift_bind. intros terms Hterms.
    do 2 (apply yields_lift_bind; intros _ _).
    destruct (rs_last_seller_proposal rs); [|apply yields_fail]. apply yields_lift_bind. intros pinned _.
    eapply yields_mono; [|apply negotiate_rounds_sound]. intros o sent Hs.
    exists (at_selection terms), adv. split_and!; [|done..]. simpl. by rewrite Hterms.
  - eapply yields_mono; [|apply negotiate_fresh_sound]. intros o sent Hs.
    by exists (ng_settlement_selection ng), adv.
Qed.

(** ** What the buyer says *)

Lemma written_amount_reads p fields a text :
  format_wire_amount a = Ok text →
  _amount_from_proposal (Some (dict_set "fields" (VDict (dict_set "amount" (VStr text) fields)) p)) = Ok (Some a).
Proof.
  intros Ht. apply format_then_parse in Ht as [_ Hr]. unfold _amount_from_proposal. rewrite dict_get_set_eq.
  unfold or_empty.
  replace (truthy _) with true by (by destruct (dict_set "amount" _ fields) eqn:E; [apply dict_set_not_nil in E|]).
  by rewrite dict_get_set_eq.
Qed.

(** Spelling a proposal for the wire keeps its amount. *)
Lemma wire_proposal_amount p p' amount :
  _wire_proposal p = Ok p' → _amount_from_proposal (Some p) = Ok amount → _amount_from_proposal (Some p') = Ok amount.
Proof.
  unfold _wire_proposal. destruct (dict_get "fields" p) as [| | | | |fields] eqn:Hf; try by intros [= <-].
  destruct (is_none (dict_get "amount" fields)) eqn:Hn; [by intros [= <-]|].
  intros ([a|] & Ha & H1)%result_bind_Ok; [|by injection H1 as <-].
  apply result_bind_Ok in H1 as (text & Ht & [= <-]). rewrite (written_amount_reads _ _ _ _ Ht).
  unfold _amount_from_proposal. rewrite Hf. destruct fields as [|kv fields]; [done|].
  unfold or_empty. simpl truthy. cbv iota. by rewrite Ha.
Qed.

(** An acceptance the buyer sends names no amount, or one within its ceiling. *)
Definition within_ceiling (ceiling : Z) (m : BuyerMessage) : Prop :=
  match m with
  | negotiate_continue _ d_accept (Some p) _ =>
      _amount_from_proposal (Some p) = Ok None ∨ ∃ a, _amount_from_proposal (Some p) = Ok (Some a) ∧ a <= ceiling
  | _ => True
  end.

Definition units_of (resume : option ResumeState) : value :=
  match resume with Some _ => VInt 1 | None => default (VInt 1) (ng_unit_count ng) end.

Lemma first_amount_none rounds p :
  first_amount rounds = Ok None →
  head (omap (λ r, if bool_decide (nr_sender r = them) then nr_proposal r else None) rounds) = Some p →
  _amount_from_proposal (Some p) = Ok None.
Proof.
  induction rounds as [|r rounds IH]; simpl; [done|]. case_bool_decide; [|apply IH].
  intros (a & Ha & H1)%result_bind_Ok. destruct a as [a|]; [done|].
  destruct (nr_proposal r) as [q|]; [|by apply IH]. intros [= <-]. done.
Qed.

Lemma default_chain_says fr st ceiling :
  ng_chain ng = [buyer_escrow_shape_guard; listed_price_middleware] →
  scaled_base_units (ng_max_price ng) (default (VInt 1) (fr_unit_count fr)) = Ok ceiling →
  says ng (within_ceiling ceiling) fr st.
Proof.
  intros Hchain Hceil counter ctx _ Hctx. split; [done|]. intros d ctx' m Hrun Hm.
  unfold round_context in Hctx. rewrite Hceil in Hctx. simpl in Hctx.
  apply result_bind_Ok in Hctx as (opening & _ & [= Hctx]).
  revert Hm. unfold message_of. destruct (nd_action d) eqn:Hd; [|destruct (nd_proposal d); [|done]..|by intros [= <-]|by intros [= <-]].
  2: { by intros (p' & _ & [= <-])%result_bind_Ok. }
  destruct (nd_proposal d) as [p|] eqn:Hp; [|done]. intros (p' & Hw & [= <-])%result_bind_Ok. simpl.
  rewrite Hchain in Hrun.
  apply (run_guard buyer_escrow_shape_guard _ _ ctx ctx _ _ _ ltac:(done)) in Hrun as [Hg|(c1 & _ & T1 & Hrun)].
  { apply buyer_guard_rejects in Hg. congruence. }
  simpl in Hrun. apply result_bind_Ok in Hrun as ([[d1|] c2] & Hl & H1); [|done]. injection H1 as -> ->.
  apply listed_price_accepts in Hl as (theirs & Ht & [[Hnone Hq]|(a & bound & _ & Hb & [_ Hc] & Hle)]); [| |done].
  - left. rewrite Hp in Hq. injection Hq as ->. apply (wire_proposal_amount _ _ _ Hw).
    by apply (first_amount_none (reverse (round_history st counter))).
  - right. exists a. rewrite Hp in Hc. split; [by apply (wire_proposal_amount _ _ _ Hw)|].
    destruct T1 as (Hdir & Href & _). rewrite Hdir, <-Hctx in Hle. rewrite Href, <-Hctx in Hb. simpl in Hle, Hb.
    by injection Hb as <-.
Qed.

Lemma negotiate_sends P resume :
  (∀ p, P (negotiate_new p)) →
  (∀ fr st, default (VInt 1) (fr_unit_count fr) = units_of resume → says ng P fr st) →
  sends (1 + Z.to_nat (ng_max_rounds ng)) P (negotiate resume).
Proof.
  intros Hnew Hsay. unfold negotiate_with_seller. do 2 (apply sends_lift_bind; intros ? _).
  destruct resume as [rs|].
  - unfold negotiate_resumed. do 3 (apply sends_lift_bind; intros ? _).
    destruct (rs_last_seller_proposal rs); [|eapply sends_mono; [apply sends_lift|lia]].
    apply sends_lift_bind. intros pinned _. unfold run_rounds.
    eapply sends_mono; [apply negotiate_rounds_sends; [intros; by apply Hsay|done]|simpl; lia].
  - unfold negotiate_fresh. do 3 (apply sends_lift_bind; intros ? _).
    apply sends_lift_bind. intros units Hu. do 3 (apply sends_lift_bind; intros ? _).
    match goal with |- context [let '(_, _) := ?x in _] => destruct x as [opening ctx] end.
    destruct (nd_action opening); [eapply sends_mono; [apply sends_lift|lia]| |eapply sends_mono; [apply sends_ret|lia]..].
    destruct (nd_proposal opening) as [p|]; [|eapply sends_mono; [apply sends_lift|lia]].
    apply sends_lift_bind. intros pinned _. apply sends_bind; [by apply sends_send|]. intros _ reply _ _.
    apply (sends_bind _ 0 (Z.to_nat (ng_max_rounds ng))); [apply after_opening_sends|]. intros sent [o|st] sent' Ho.
    { eapply sends_mono; [apply sends_ret|lia]. }
    assert (bs_round st = 1) as Hround by (by eapply after_opening_round).
    unfold run_rounds. eapply sends_mono; [apply negotiate_rounds_sends; [|done]|rewrite Hround; lia].
    intros st'. apply Hsay. simpl. destruct (ng_unit_count ng) as [u|]; [|done].
    destruct (positive_units u); [|done]. by injection Hu as ->.
Qed.

(** C23: The buyer's negotiation ends: whatever the seller answers and the chain
    decides, it sends at most one message for the opening and one for each round
    it has left, and more fuel than that changes nothing. *)
Theorem negotiation_is_bounded resume :
  (∀ sent, ∃ more, (negotiate resume sent).2 = sent ++ more ∧
     (length more ≤ 1 + Z.to_nat (ng_max_rounds ng))%nat) ∧
  (∀ fuel fr st sent, (Z.to_nat (ng_max_rounds ng - bs_round st + 1) ≤ fuel)%nat →
     negotiate_rounds rd seller trusted ng fuel fr st sent = run_rounds rd seller trusted ng fr st sent).
Proof.
  split; [|intros; by apply negotiate_rounds_fuel]. intros sent.
  destruct (negotiate_sends (λ _, True) resume) with (sent := sent) as (more & ? & ? & _); [done| |by exists more].
  by intros fr st _ counter ctx _ _.
Qed.

(** C22: A buyer of the default chain never says it accepts more than its ceiling:
    every acceptance it sends names no amount, or one within [max_price] times the
    units it asked for. *)
Theorem buyer_accepts_within_ceiling resume ceiling :
  ng_chain ng = [buyer_escrow_shape_guard; listed_price_middleware] →
  scaled_base_units (ng_max_price ng) (units_of resume) = Ok ceiling →
  ∀ sent, ∃ more, (negotiate resume sent).2 = sent ++ more ∧ Forall (within_ceiling ceiling) more.
Proof.
  intros Hchain Hceil sent.
  destruct (negotiate_sends (within_ceiling ceiling) resume) with (sent := sent) as (more & ? & _ & ?);
    [done| |by exists more].
  intros fr st Hfr. apply default_chain_says; [done|]. by rewrite Hfr.
Qed.

(** C21: an agreed outcome follows a reply of the seller's that accepts, and
    carries an Agreement of this negotiation and listing, between the buyer and
    a trusted seller, at the agreed amount, which is the one the reply names, if
    it names one.  When the buyer selected a settlement option (the one it was
    asked to negotiate for, or, resuming, the one in the terms it kept) the
    Agreement is over that option: its identity, its mechanism, the asset of its
    price, and everything the chosen listing advertised of it, if the buyer has
    the advertisement.  The domain's own check passed. *)
Theorem agreed_outcome_is_checked resume sent o sent' :
  negotiate resume sent = (Ok o, sent') → no_status o = agreed →
  ∃ expected advertised reply agreement,
    committed_selection resume = Ok expected ∧ advertised_option rd ng = Ok advertised ∧
    seller sent' = Ok reply ∧ is_action (dict_get "action" reply) "accept" = true ∧
    no_agreement o = Some agreement ∧ no_negotiation_id o = Some (ag_negotiation_id agreement) ∧
    agreement_sound sent' expected advertised (no_agreed_amount o) agreement ∧
    (∀ a, reply_amount (dict_get "proposal" reply) = Ok (Some a) → no_agreed_amount o = Some a) ∧
    (∀ validate, ng_validate_acceptance ng = Some validate → validate o = Ok ()).
Proof.
  intros Hrun Ho. destruct (negotiate_sound resume sent o sent' Hrun) as (e & adv & He & Ha & Hs).
  destruct (Hs Ho) as (reply & agreement & H). by exists e, adv, reply, agreement.
Qed.
End buyer.

(** ** Scaling a rate *)

(** The product of a rate and a unit count is exact while it has at most 28
    digits, the precision of the decimal context it is computed in. *)
Theorem scaled_base_units_exact rate units :
  0 <= rate → 0 <= units → rate * units < 10 ^ 28 →
  scaled_base_units (VInt rate) (VInt units) = Ok (rate * units).
Proof.
  intros Hr Hu Hlim. unfold scaled_base_units. simpl dec_of_value. cbv iota beta.
  unfold dec_mul, dec_of_Z. simpl coef. simpl expo. rewrite dec_fix_exact by (unfold cap_limit, context_prec; lia).
  unfold whole_base_units. change (Dec (rate * units) (0 + 0)) with (dec_of_Z (rate * units)).
  rewrite dec_trunc_whole, dec_eqb_refl. simpl. by rewrite (proj2 (Z.ltb_ge _ _)) by lia.
Qed.

(** Beyond them it is rounded, and not refused. *)
Example scaled_base_units_rounds :
  scaled_base_units (VInt (10 ^ 28 + 1)) (VInt 3) = Ok (3 * 10 ^ 28)
  ∧ display_to_base_units (VStr "12345678901.123456789123456789") 18 = Ok 12345678901123456789123456790.
Proof. vm_compute. by split. Qed.
