(* ===== verification/BuyerDemo.v ===== *)
(** A buyer and sellers: the properties of the buyer's negotiation at concrete
    inputs, and the acceptance above the buyer's ceiling it takes for agreed. *)
From S2P Require Import Prelude PyNum PyValue PyText QueryDsl PyWire PyJson FilterEval.
From S2P Require Import Negotiation ScalarPolicies.
From S2P Require Import EscrowGuards EscrowSchemas BuyerTerms BuyerNegotiation BuyerProperties.

Local Open Scope string_scope.
Local Open Scope list_scope.
Local Open Scope Z_scope.

(** ** Wire models of one field *)

Definition no_wire {A} : result A := Err (ValueError "not modelled").

(** An Agreement is written as its amount; a principal as its name. *)
Definition demo_agreement (amount : Z) : Agreement :=
  {| ag_negotiation_id := "n1"; ag_listing_id := "L1"; ag_listing_hash := ""; ag_buyer := [("id", VStr "buyer")];
     ag_seller := [("id", VStr "seller")]; ag_settlement := None; ag_settlement_params := None; ag_amount := amount;
     ag_asset := None; ag_duration_seconds := 3600; ag_start_utc := ""; ag_provision_terms := None; ag_accepted_at := "" |}.

Definition demo_readers : Readers string :=
  {| read_identity := λ v, match member "id" v with VStr s => Ok s | _ => no_wire end;
     dump_identity := λ s, [("id", VStr s)];
     read_selection := λ _, no_wire; read_plan := λ _, no_wire; read_option := λ _, no_wire;
     read_agreement := λ d, match dict_get "amount" d with VNum (NInt z) => Ok (demo_agreement z) | _ => no_wire end;
     b64decode := Ok;
     read_agreement_json := λ s, demo_agreement <$> int_str s;
     decode_provision_terms := Ok; decode_escrow_proposal := Ok |}.

Definition demo_terms_payload : dict := [("kind", VStr "vm")].

Definition bid (amount : string) : dict :=
  [("chain_name", VStr "anvil"); ("fields", VDict [("token", VStr "0xaa"); ("amount", VStr amount)])].

Definition demo_buyer : Negotiation string :=
  {| ng_signer := "buyer"; ng_principal := "buyer"; ng_listing_id := "L1"; ng_initial_price := VInt 900;
     ng_max_price := VInt 1000; ng_unit_count := Some (VInt 1); ng_provision_terms := Some demo_terms_payload;
     ng_escrow_proposal := Some (bid "900"); ng_settlement_selection := None; ng_max_rounds := 10;
     ng_chain := [buyer_escrow_shape_guard; listed_price_middleware]; ng_policy_params := [];
     ng_validate_advertised_plan := None; ng_validate_acceptance := None |}.

(** ** Sellers *)

Definition accepting (amount : Z) (text : string) : dict :=
  [("negotiation_id", VStr "n1"); ("action", VStr "accept"); ("proposal", VDict (bid text));
   ("accepted_provision_terms", VDict demo_terms_payload);
   ("agreement", VDict [("amount", VInt amount)]); ("agreement_bytes", VStr text);
   ("buyer_principal", VDict [("id", VStr "buyer")]); ("seller_principal", VDict [("id", VStr "seller")])].

Definition countering (text : string) : dict :=
  [("negotiation_id", VStr "n1"); ("action", VStr "counter"); ("proposal", VDict (bid text));
   ("accepted_provision_terms", VDict demo_terms_payload)].

(** Counters 950, then accepts what it countered. *)
Definition honest (sent : list BuyerMessage) : result dict :=
  match sent with [_] => Ok (countering "950") | _ => Ok (accepting 950 "950") end.
(** Counters 950, then accepts at 5000. *)
Definition grasping (sent : list BuyerMessage) : result dict :=
  match sent with [_] => Ok (countering "950") | _ => Ok (accepting 5000 "5000") end.

Definition negotiate_demo (seller : list BuyerMessage → result dict) : result NegotiationOutcome * list BuyerMessage :=
  negotiate_with_seller demo_readers seller (λ _ s, bool_decide (s = "seller")) demo_buyer
    (λ _, []) (λ _, VNone) None [].

Definition demo_outcome : NegotiationOutcome :=
  match (negotiate_demo honest).1 with Ok o => o | Err _ => exit_outcome None VNone None 0 end.

Example honest_agrees :
  (negotiate_demo honest).1 = Ok demo_outcome ∧ no_status demo_outcome = agreed ∧ no_agreed_amount demo_outcome = Some 950
  ∧ no_rounds demo_outcome = 1 ∧ List.length (negotiate_demo honest).2 = 2%nat.
Proof. vm_compute. by split_and!. Qed.

(** ** The witnesses *)

Lemma negotiation_is_bounded_witness :
  ∃ more, (negotiate_demo honest).2 = [] ++ more ∧ (length more ≤ 11)%nat.
Proof.
  exact (proj1 (negotiation_is_bounded demo_readers honest (λ _ s, bool_decide (s = "seller")) demo_buyer
                  (λ _, []) (λ _, VNone) None) []).
Defined.

Lemma buyer_accepts_within_ceiling_witness :
  ∃ more, (negotiate_demo honest).2 = [] ++ more ∧ Forall (within_ceiling 1000) more.
Proof.
  apply (buyer_accepts_within_ceiling demo_readers honest (λ _ s, bool_decide (s = "seller")) demo_buyer
           (λ _, []) (λ _, VNone) None 1000); [reflexivity|vm_compute; reflexivity].
Defined.

(** A buyer that selected the option its listing advertised. *)
Definition demo_option : SettlementOption :=
  {| so_option_id := "o1";
     so_price := Some {| spr_asset := "usdc"; spr_rates := [{| rv_field := "amount"; rv_per := "hour"; rv_value := 950 |}] |};
     so_settlement := [("schema", VStr "fiat.v1")]; so_lifecycle := None |}.

Definition demo_selection : SettlementSelection :=
  {| ss_settlement := [("schema", VStr "fiat.v1")]; ss_option_id := "o1"; ss_expiration_unix := Some 2000000000 |}.

Definition option_agreement (o : SettlementOption) : Agreement :=
  {| ag_negotiation_id := "n1"; ag_listing_id := "L1"; ag_listing_hash := ""; ag_buyer := [("id", VStr "buyer")];
     ag_seller := [("id", VStr "seller")]; ag_settlement := Some o; ag_settlement_params := None; ag_amount := 950;
     ag_asset := Some "usdc"; ag_duration_seconds := 3600; ag_start_utc := ""; ag_provision_terms := None;
     ag_accepted_at := "" |}.

(** The seller's Agreement is over the option [sold]. *)
Definition option_readers (sold : SettlementOption) : Readers string :=
  {| read_identity := read_identity demo_readers; dump_identity := dump_identity demo_readers;
     read_selection := λ _, Ok demo_selection; read_plan := λ _, no_wire; read_option := λ _, Ok demo_option;
     read_agreement := λ _, Ok (option_agreement sold); b64decode := Ok;
     read_agreement_json := λ _, Ok (option_agreement sold);
     decode_provision_terms := Ok; decode_escrow_proposal := Ok |}.

Definition selecting_buyer : Negotiation string :=
  {| ng_signer := "buyer"; ng_principal := "buyer"; ng_listing_id := "L1"; ng_initial_price := VInt 900;
     ng_max_price := VInt 1000; ng_unit_count := Some (VInt 1); ng_provision_terms := Some demo_terms_payload;
     ng_escrow_proposal := None; ng_settlement_selection := Some demo_selection; ng_max_rounds := 10;
     ng_chain := [buyer_escrow_shape_guard; listed_price_middleware];
     ng_policy_params := [("_selected_settlement_option", VDict [])];
     ng_validate_advertised_plan := None; ng_validate_acceptance := None |}.

Definition accepting_option (sent : list BuyerMessage) : result dict :=
  Ok (dict_set "settlement_selection" (VDict []) (accepting 950 "950")).

Definition negotiate_option (sold : SettlementOption) : result NegotiationOutcome * list BuyerMessage :=
  negotiate_with_seller (option_readers sold) accepting_option (λ _ s, bool_decide (s = "seller")) selecting_buyer
    (λ _, []) (λ o, VDict [("option_id", VStr (so_option_id o)); ("settlement", VDict (so_settlement o))]) None [].

Definition option_outcome : NegotiationOutcome :=
  match (negotiate_option demo_option).1 with Ok o => o | Err _ => exit_outcome None VNone None 0 end.

(** The same option at another rate is refused. *)
Definition dearer_option : SettlementOption :=
  {| so_option_id := "o1";
     so_price := Some {| spr_asset := "usdc"; spr_rates := [{| rv_field := "amount"; rv_per := "hour"; rv_value := 990 |}] |};
     so_settlement := [("schema", VStr "fiat.v1")]; so_lifecycle := None |}.

Example changed_option_refused :
  (negotiate_option dearer_option).1 =
    Err (RuntimeError "seller Agreement changed the advertised settlement option").
Proof. vm_compute. reflexivity. Qed.

Lemma agreed_outcome_is_checked_witness :
  no_status option_outcome = agreed ∧
  ∃ agreement o, no_agreement option_outcome = Some agreement ∧ ag_settlement agreement = Some o ∧
    so_option_id o = "o1" ∧ option_eqb o demo_option = true.
Proof.
  split; [vm_compute; reflexivity|].
  destruct (agreed_outcome_is_checked (option_readers demo_option) accepting_option
              (λ _ s, bool_decide (s = "seller")) selecting_buyer (λ _, [])
              (λ o, VDict [("option_id", VStr (so_option_id o)); ("settlement", VDict (so_settlement o))])
              None [] option_outcome (negotiate_option demo_option).2)
    as (expected & advertised & reply & agreement & He & Hadv & _ & _ & Ha & _ & (_ & _ & _ & _ & Hs) & _);
    [vm_compute; reflexivity..|].
  exists agreement. injection He as <-. injection Hadv as <-.
  destruct (Hs demo_selection eq_refl) as (o & Ho & Hid & _ & _ & Hopt). exists o.
  exact (conj Ha (conj Ho (conj Hid (Hopt demo_option eq_refl)))).
Defined.

Lemma scaled_base_units_exact_witness : scaled_base_units (VInt (7000 * 10 ^ 18)) (VInt 24) = Ok (7000 * 10 ^ 18 * 24).
Proof. apply scaled_base_units_exact; lia. Defined.

(** ** The ceiling is not enforced *)

(** The demo buyer's ceiling bounds what it says and not what it takes for agreed: it
    accepts a counter of 950 under a ceiling of 1000, the seller answers with an
    acceptance and an Agreement at 5000, and the outcome is agreed at 5000. *)
Theorem acceptance_above_ceiling :
  scaled_base_units (ng_max_price demo_buyer) (VInt 1) = Ok 1000 ∧
  ∃ o p, negotiate_demo grasping = (Ok o, [negotiate_new p; negotiate_continue (Some "n1") d_accept (Some (bid "950")) None]) ∧
    no_status o = agreed ∧ no_agreed_amount o = Some 5000.
Proof. split; [vm_compute; reflexivity|]. do 2 eexists. split_and!; vm_compute; reflexivity. Qed.
