(* ===== verification/PoolDeclarations.v ===== *)
(** Resource-pool declarations: the policy-tag readers and validators of
    [market_resource_pools_contracts.hints], the backing delegates of
    [.backing] with the vocabulary of [.vocabulary], and the host requirement
    of [market_resource_pools.host_requirement]. *)
From S2P Require Import Prelude PyNum PyValue.
From Stdlib Require Import Ascii.

Local Open Scope string_scope.

(** ** Vocabulary *)

Definition DELIVERABLE_MODES_POLICY_TAG : string := "deliverable_modes".
Definition ADVERTISABLE_MODES_POLICY_TAG : string := "advertisable_modes".
Definition CAPACITY_BACKING_POLICY_TAG : string := "capacity_backing".
Definition MISSING_DECLARATION : string := "missing_declaration".
Definition INVALID_DELIVERABLE_MODES : string := "invalid_deliverable_modes".
Definition INVALID_ADVERTISABLE_MODES : string := "invalid_advertisable_modes".
Definition INVALID_CAPACITY_BACKING : string := "invalid_capacity_backing".
Definition ADVERTISABLE_EXCEEDS_DELIVERABLE : string := "advertisable_exceeds_deliverable".
Definition UNBACKED_POOL_DELIVERS : string := "unbacked_pool_delivers".
Definition LISTING_CARDINALITY_MODE_POLICY_TAG : string := "listing_cardinality_mode".
Definition DEPRECATED_LISTING_MODE_POLICY_TAG : string := "listing_mode".
Definition MAX_RESERVATION_HOLD_SECONDS_POLICY_TAG : string := "max_reservation_hold_seconds".
Definition SLA_POLICY_TAG : string := "sla".
Definition PRICING_POLICY_TAG : string := "pricing".

Record PoolDeclarationProblem : Type := {
  pdp_tag : string;
  pdp_code : string;
  pdp_message : string;
}.

#[export] Instance PoolDeclarationProblem_eq_dec : EqDecision PoolDeclarationProblem.
Proof. solve_decision. Defined.

Definition join (sep : string) (l : list string) : string :=
  match l with
  | [] => ""
  | x :: l => fold_left (λ acc y, acc +:+ sep +:+ y) l x
  end.

Definition sorted_names (s : gset string) : list string := sort_by string_leb (elements s).

(** ** Backing delegates *)

Record CapacityBacking : Type := {
  label : string;
  _admitted : bool;
}.

#[export] Instance CapacityBacking_eq_dec : EqDecision CapacityBacking.
Proof. solve_decision. Defined.

Definition BACKED : CapacityBacking := {| label := "backed"; _admitted := true |}.
Definition UNBACKED : CapacityBacking := {| label := "unbacked"; _admitted := false |}.

(** [capacity_backing]: only a registered label selects a delegate. *)
Definition capacity_backing (l : value) : option CapacityBacking :=
  match l with
  | VStr s => list_find (λ b, label b = s) [BACKED; UNBACKED] ≫= λ p, Some p.2
  | _ => None
  end.

Definition capacity_backing_labels : list string := [label BACKED; label UNBACKED].

Definition labels_reconciled_by_availability : list string :=
  label <$> filter (λ b, _admitted b = true) [BACKED; UNBACKED].

Definition backing_declaration_problems (b : CapacityBacking)
    (advertisable deliverable : gset string) : list PoolDeclarationProblem :=
  if _admitted b then
    let excess := advertisable ∖ deliverable in
    if decide (excess = ∅) then []
    else [{| pdp_tag := ADVERTISABLE_MODES_POLICY_TAG;
             pdp_code := ADVERTISABLE_EXCEEDS_DELIVERABLE;
             pdp_message := "a backed pool may advertise only modes it delivers; "
               +:+ ADVERTISABLE_MODES_POLICY_TAG +:+ " names undelivered "
               +:+ join ", " (sorted_names excess) |}]
  else if decide (deliverable = ∅) then []
  else [{| pdp_tag := DELIVERABLE_MODES_POLICY_TAG;
           pdp_code := UNBACKED_POOL_DELIVERS;
           pdp_message := "an unbacked pool must deliver nothing; "
             +:+ DELIVERABLE_MODES_POLICY_TAG +:+ " names "
             +:+ join ", " (sorted_names deliverable) |}].

(** [require_admission]: [None] stands for [CapacityNotAdmittedError]. *)
Definition require_admission (b : CapacityBacking) : option unit :=
  if _admitted b then Some tt else None.

Definition place_hold {T} (b : CapacityBacking) (place : unit → option T) : option T :=
  if _admitted b then place tt else None.

(** [judge]: the caller's refusal, [None] meaning that the supply stands. *)
Definition judge {T} (b : CapacityBacking) (declared available : unit → option T) : option T :=
  match declared tt with
  | Some verdict => Some verdict
  | None => if _admitted b then available tt else None
  end.

(** [admissible_settlement]: the kept clauses and the dropped mechanisms. *)
Fixpoint admissible_settlement {C} (b : CapacityBacking) (mechanism : C → string)
    (fulfils_through_capacity : string → bool) (kept : list C) (dropped : list string)
    (clauses : list C) : list C * list string :=
  match clauses with
  | [] => (kept, dropped)
  | c :: clauses =>
      let name := mechanism c in
      if _admitted b || negb (fulfils_through_capacity name) then
        admissible_settlement b mechanism fulfils_through_capacity (kept ++ [c]) dropped clauses
      else if decide (name ∈ dropped) then
        admissible_settlement b mechanism fulfils_through_capacity kept dropped clauses
      else
        admissible_settlement b mechanism fulfils_through_capacity kept (dropped ++ [name])
          clauses
  end.

Definition carry_delivery_terms (b : CapacityBacking) (terms : dict) : dict :=
  if _admitted b then terms else [].

Definition _delivery_term_present (v : value) : bool :=
  match v with
  | VNone => false
  | VStr s => negb (bool_decide (s = ""))
  | VList l => negb (Nat.eqb (List.length l) 0)
  | VDict d => negb (Nat.eqb (List.length d) 0)
  | _ => true
  end.

(** [delivery_term_constraints]: the offending terms, empty when none raises. *)
Definition delivery_term_constraints (b : CapacityBacking) (terms : dict) : list string :=
  fst <$> filter (λ kv, _delivery_term_present kv.2 ≠ _admitted b) terms.

(** ** Mode declarations *)

Definition mode_set_message (tag : string) : string :=
  tag +:+ " must be a list of unique non-empty strings".

(** A string the sources call canonical: non-empty and without outer space. *)
Definition canonical_string (v : value) : option string :=
  match v with
  | VStr s =>
      if negb (bool_decide (py_strip s = "")) && bool_decide (s = py_strip s)
      then Some s else None
  | _ => None
  end.

Definition _declared_mode_set (policy_tags : dict) (tag : string) : result (gset string) :=
  match alist_get tag policy_tags with
  | None => Ok ∅
  | Some (VList raw) =>
      match mapM canonical_string raw with
      | Some modes =>
          if decide (NoDup modes) then Ok (list_to_set modes)
          else Err (ValueError (mode_set_message tag))
      | None => Err (ValueError (mode_set_message tag))
      end
  | Some _ => Err (ValueError (mode_set_message tag))
  end.

Definition declared_deliverable_modes (policy_tags : dict) : result (gset string) :=
  _declared_mode_set policy_tags DELIVERABLE_MODES_POLICY_TAG.

Definition _declared_advertisable_modes (policy_tags : dict) : result (gset string) :=
  _declared_mode_set policy_tags ADVERTISABLE_MODES_POLICY_TAG.

Definition pool_delivers_offering_mode (policy_tags : dict) (requested_mode : string)
    : result bool :=
  if bool_decide (py_strip requested_mode = "") then Ok false
  else modes ← declared_deliverable_modes policy_tags;
       Ok (bool_decide (requested_mode ∈ modes)).

Definition error_text (e : py_error) : string :=
  match e with ValueError s | TypeError s => s | _ => "" end.

Definition validate_deliverable_modes (policy_tags : dict) : list string :=
  match declared_deliverable_modes policy_tags with
  | Ok _ => []
  | Err e => [error_text e]
  end.

Record PoolDeclarations : Type := {
  advertisable_modes : gset string;
  backing : CapacityBacking;
}.

Definition advertises (d : PoolDeclarations) (requested_mode : string) : bool :=
  negb (bool_decide (py_strip requested_mode = "")) &&
  bool_decide (requested_mode ∈ advertisable_modes d).

Definition to_option {A} (r : result A) : option A :=
  match r with Ok a => Some a | Err _ => None end.

Definition deliverable_problems (policy_tags : dict) : list PoolDeclarationProblem :=
  match declared_deliverable_modes policy_tags with
  | Ok _ => []
  | Err e => [{| pdp_tag := DELIVERABLE_MODES_POLICY_TAG;
                 pdp_code := INVALID_DELIVERABLE_MODES; pdp_message := error_text e |}]
  end.

Definition advertisable_problems (policy_tags : dict) : list PoolDeclarationProblem :=
  if dict_has ADVERTISABLE_MODES_POLICY_TAG policy_tags then
    match _declared_advertisable_modes policy_tags with
    | Ok _ => []
    | Err e => [{| pdp_tag := ADVERTISABLE_MODES_POLICY_TAG;
                   pdp_code := INVALID_ADVERTISABLE_MODES; pdp_message := error_text e |}]
    end
  else [{| pdp_tag := ADVERTISABLE_MODES_POLICY_TAG; pdp_code := MISSING_DECLARATION;
           pdp_message := ADVERTISABLE_MODES_POLICY_TAG +:+ " is required" |}].

Definition quoted_labels : string :=
  join " or " ((λ l, "'" +:+ l +:+ "'") <$> sort_by string_leb capacity_backing_labels).

Definition backing_problems (policy_tags : dict) : list PoolDeclarationProblem :=
  match alist_get CAPACITY_BACKING_POLICY_TAG policy_tags with
  | None => [{| pdp_tag := CAPACITY_BACKING_POLICY_TAG; pdp_code := MISSING_DECLARATION;
                pdp_message := CAPACITY_BACKING_POLICY_TAG +:+ " is required" |}]
  | Some l =>
      match capacity_backing l with
      | Some _ => []
      | None => [{| pdp_tag := CAPACITY_BACKING_POLICY_TAG;
                    pdp_code := INVALID_CAPACITY_BACKING;
                    pdp_message := CAPACITY_BACKING_POLICY_TAG +:+ " must be " +:+ quoted_labels |}]
      end
  end.

Definition declared_backing (policy_tags : dict) : option CapacityBacking :=
  alist_get CAPACITY_BACKING_POLICY_TAG policy_tags ≫= capacity_backing.

(** The advertisable set when the tag is present and well formed. *)
Definition declared_advertisable (policy_tags : dict) : option (gset string) :=
  if dict_has ADVERTISABLE_MODES_POLICY_TAG policy_tags
  then to_option (_declared_advertisable_modes policy_tags) else None.

Definition relation_problems (policy_tags : dict) : list PoolDeclarationProblem :=
  match declared_backing policy_tags, declared_advertisable policy_tags,
        to_option (declared_deliverable_modes policy_tags) with
  | Some b, Some a, Some d => backing_declaration_problems b a d
  | _, _, _ => []
  end.

Definition pool_declaration_problems (policy_tags : dict) : list PoolDeclarationProblem :=
  deliverable_problems policy_tags ++ advertisable_problems policy_tags ++
  backing_problems policy_tags ++ relation_problems policy_tags.

Definition validate_pool_declarations (policy_tags : dict) : list string :=
  pdp_message <$> pool_declaration_problems policy_tags.

(** [resolve_pool_declarations]; the error carries every problem, and the flag
    says whether it is a [MissingPoolDeclarationError]. *)
Definition resolve_pool_declarations (policy_tags : dict)
    : PoolDeclarations + (bool * list PoolDeclarationProblem) :=
  match pool_declaration_problems policy_tags with
  | [] =>
      match declared_advertisable policy_tags, declared_backing policy_tags with
      | Some a, Some b => inl {| advertisable_modes := a; backing := b |}
      | _, _ => inr (false, [])
      end
  | problems =>
      inr (forallb (λ p, bool_decide (pdp_code p = MISSING_DECLARATION)) problems, problems)
  end.

(** ** Advisory hints *)

Definition raw_listing_cardinality_mode (policy_tags : dict) : value :=
  match alist_get LISTING_CARDINALITY_MODE_POLICY_TAG policy_tags with
  | Some v => v
  | None => dict_get DEPRECATED_LISTING_MODE_POLICY_TAG policy_tags
  end.

Definition listing_cardinality_mode_source (policy_tags : dict) : option string :=
  if dict_has LISTING_CARDINALITY_MODE_POLICY_TAG policy_tags
  then Some LISTING_CARDINALITY_MODE_POLICY_TAG
  else if dict_has DEPRECATED_LISTING_MODE_POLICY_TAG policy_tags
  then Some DEPRECATED_LISTING_MODE_POLICY_TAG else None.

Definition max_reservation_hold_seconds (policy_tags : dict) : option Z :=
  match dict_get MAX_RESERVATION_HOLD_SECONDS_POLICY_TAG policy_tags with
  | VInt z => if (z <? 0)%Z then None else Some z
  | _ => None
  end.

(** [sla_value]: [float(raw)] raises for an integer beyond every float. *)
Definition sla_value (policy_tags : dict) : result (option float) :=
  match dict_get SLA_POLICY_TAG policy_tags with
  | VInt z => if (z <? 0)%Z then Ok None else f ← float_of_Z z; Ok (Some f)
  | VNum (NFloat f) => Ok (if num_lt (NFloat f) (NInt 0) then None else Some f)
  | _ => Ok None
  end.

Definition capped_hold_seconds (requested_seconds : num) (policy_tags : dict) : result num :=
  match max_reservation_hold_seconds policy_tags with
  | None => Ok requested_seconds
  | Some cap =>
      c ← float_of_Z cap;
      Ok (if num_lt (NFloat c) requested_seconds then NFloat c else requested_seconds)
  end.

Definition validate_hold_preference (policy_tags : dict) : list string :=
  match alist_get MAX_RESERVATION_HOLD_SECONDS_POLICY_TAG policy_tags with
  | None => []
  | Some (VInt z) =>
      if (z <? 0)%Z
      then [MAX_RESERVATION_HOLD_SECONDS_POLICY_TAG +:+ " must be a nonnegative integer"]
      else []
  | Some _ => [MAX_RESERVATION_HOLD_SECONDS_POLICY_TAG +:+ " must be a nonnegative integer"]
  end.

Definition validate_sla_preference (policy_tags : dict) : list string :=
  match alist_get SLA_POLICY_TAG policy_tags with
  | None => []
  | Some (VNum (NDec _)) => [SLA_POLICY_TAG +:+ " must be a nonnegative number"]
  | Some (VNum n) =>
      if num_lt n (NInt 0) then [SLA_POLICY_TAG +:+ " must be a nonnegative number"] else []
  | Some _ => [SLA_POLICY_TAG +:+ " must be a nonnegative number"]
  end.

(** ** Host requirement *)

Definition pool_needs_host (provider : option string) (host_requirement : option dict)
    : result bool :=
  match host_requirement with
  | None => Ok false
  | Some req =>
      match provider with
      | None => Ok true
      | Some p =>
          match alist_get p req with
          | None => Ok true
          | Some (VBool needs_host) => Ok needs_host
          | Some _ => Err (TypeError "host requirement is not a bool")
          end
      end
  end.

Definition declaration_has_usable_host (host_id provider : option string) (backed : bool)
    (host_requirement : option dict) (deliverable : option (gset string)) : result bool :=
  match host_requirement with
  | None => Ok true
  | Some _ =>
      if negb backed then Ok true
      else
        needs ← pool_needs_host provider host_requirement;
        if negb needs then Ok true
        else
          match str_truthy host_id with
          | None => Ok false
          | Some h =>
              match deliverable with
              | None => Ok true
              | Some hosts => Ok (bool_decide (h ∈ hosts))
              end
          end
  end.
