(* ===== verification/PoolDeclarationFacts.v ===== *)
(** What the pool-declaration readers and validators guarantee: which tags
    resolve, what a resolved pool delivers, and that the write-time validators
    accept what the readers use. *)
From S2P Require Import Prelude PyNum PyValue PoolDeclarations.

Local Open Scope string_scope.
Local Open Scope list_scope.

(** ** Problems and what is declared *)

Lemma deliverable_problems_nil tags :
  deliverable_problems tags = [] ↔ ∃ d, declared_deliverable_modes tags = Ok d.
Proof.
  unfold deliverable_problems. destruct (declared_deliverable_modes tags) as [d|e]; [|naive_solver].
  split; [by exists d|done].
Qed.

Lemma advertisable_problems_nil tags :
  advertisable_problems tags = [] ↔ ∃ a, declared_advertisable tags = Some a.
Proof.
  unfold advertisable_problems, declared_advertisable.
  destruct (dict_has _ tags); [|naive_solver].
  destruct (_declared_advertisable_modes tags) as [a|e]; simpl; [|naive_solver].
  split; [by exists a|done].
Qed.

Lemma backing_problems_nil tags :
  backing_problems tags = [] ↔ ∃ b, declared_backing tags = Some b.
Proof.
  unfold backing_problems, declared_backing. destruct (alist_get _ tags) as [l|]; simpl; [|naive_solver].
  destruct (capacity_backing l) as [b|]; [|naive_solver]. split; [by exists b|done].
Qed.

Lemma capacity_backing_cases l b :
  capacity_backing l = Some b → (l = VStr "backed" ∧ b = BACKED) ∨ (l = VStr "unbacked" ∧ b = UNBACKED).
Proof.
  destruct l as [| | |s| |]; try done. unfold capacity_backing.
  intros ([i b'] & (Hin & <- & _)%list_find_Some & [= <-])%bind_Some.
  destruct i as [|[|i]]; [left|right|done]; by injection Hin as <-.
Qed.

Lemma declared_backing_cases tags b :
  declared_backing tags = Some b → b = BACKED ∨ b = UNBACKED.
Proof.
  unfold declared_backing. rewrite bind_Some. intros (l & _ & H%capacity_backing_cases). naive_solver.
Qed.

Lemma backing_declaration_problems_nil b a d :
  b = BACKED ∨ b = UNBACKED →
  backing_declaration_problems b a d = [] ↔ (b = BACKED ∧ a ⊆ d) ∨ (b = UNBACKED ∧ d = ∅).
Proof.
  unfold backing_declaration_problems.
  intros [-> | ->]; simpl; case_decide as H.
  - split; [intros _; left|done]. split; [done|]. intros x Hx.
    destruct (decide (x ∈ d)); [done|set_solver].
  - split; [done|]. intros [[_ ?]|[? _]]; [set_solver|done].
  - split; [intros _; by right|done].
  - split; [done|]. intros [[? _]|[_ ?]]; done.
Qed.

Lemma app_nil_iff {A} (l l' : list A) : (l ++ l')%list = [] ↔ l = [] ∧ l' = [].
Proof. split; [apply app_eq_nil|by intros [-> ->]]. Qed.

Section facts.
Implicit Types (tags : dict).

(** The declarations of a valid pool. *)
Record well_declared tags (a d : gset string) (b : CapacityBacking) : Prop := {
  wd_deliverable : declared_deliverable_modes tags = Ok d;
  wd_advertisable : declared_advertisable tags = Some a;
  wd_backing : declared_backing tags = Some b;
  wd_relation : (b = BACKED ∧ a ⊆ d) ∨ (b = UNBACKED ∧ d = ∅);
}.

Lemma problems_nil tags :
  pool_declaration_problems tags = [] ↔ ∃ a d b, well_declared tags a d b.
Proof.
  unfold pool_declaration_problems. rewrite !app_nil_iff, deliverable_problems_nil,
    advertisable_problems_nil, backing_problems_nil.
  unfold relation_problems. split.
  - intros ([d Hd] & [a Ha] & [b Hb] & H). rewrite Hd, Ha, Hb in H. simpl in H.
    exists a, d, b. split; [done..|]. apply backing_declaration_problems_nil; [|done].
    by eapply declared_backing_cases.
  - intros (a & d & b & [Hd Ha Hb Hrel]). rewrite Hd, Ha, Hb. simpl.
    split_and!; [by eexists..|]. apply backing_declaration_problems_nil; [|done].
    by eapply declared_backing_cases.
Qed.

(** A pool's declarations resolve exactly when its deliverable set is well
    formed, its advertisable set and backing label are present and well
    formed, a backed pool advertises only what it delivers and an unbacked one
    delivers nothing; and then they resolve to what is declared. *)
Theorem resolve_pool_declarations_spec tags p :
  resolve_pool_declarations tags = inl p ↔
  ∃ d, well_declared tags (advertisable_modes p) d (backing p).
Proof.
  unfold resolve_pool_declarations.
  destruct (pool_declaration_problems tags) as [|x l] eqn:Hp.
  - apply problems_nil in Hp as (a & d & b & Hwd). pose proof Hwd as [Hd Ha Hb Hrel].
    rewrite Ha, Hb. split.
    + intros [= <-]. by exists d.
    + intros (d' & [_ Ha' Hb' _]). rewrite Ha in Ha'. rewrite Hb in Hb'.
      injection Ha' as ->. injection Hb' as ->. by destruct p.
  - split; [done|]. intros [d Hwd]. assert (pool_declaration_problems tags = []) as Hnil.
    { apply problems_nil. by exists (advertisable_modes p), d, (backing p). }
    by rewrite Hp in Hnil.
Qed.

Lemma pool_delivers_member tags d mode :
  declared_deliverable_modes tags = Ok d →
  pool_delivers_offering_mode tags mode =
  Ok (negb (bool_decide (py_strip mode = "")) && bool_decide (mode ∈ d)).
Proof.
  intros Hd. unfold pool_delivers_offering_mode. rewrite Hd.
  by destruct (bool_decide (py_strip mode = "")).
Qed.

(** What a resolved pool promises.  A backed pool delivers every mode it
    advertises; an unbacked pool delivers no mode and its backing admits no
    capacity. *)
Theorem resolved_pool_delivery tags p mode :
  resolve_pool_declarations tags = inl p →
  (backing p = BACKED ∧
     (advertises p mode = true → pool_delivers_offering_mode tags mode = Ok true)) ∨
  (backing p = UNBACKED ∧ pool_delivers_offering_mode tags mode = Ok false ∧
     require_admission (backing p) = None).
Proof.
  unfold resolve_pool_declarations.
  destruct (pool_declaration_problems tags) as [|x l] eqn:Hp; [|done].
  apply problems_nil in Hp as (a & d & b & [Hd Ha Hb Hrel]). rewrite Ha, Hb. intros [= <-].
  simpl. rewrite (pool_delivers_member tags d) by done.
  destruct Hrel as [[-> Hsub]|[-> ->]]; [left|right].
  - split; [done|]. unfold advertises. simpl. rewrite !andb_true_iff. intros [-> Hin].
    apply bool_decide_eq_true in Hin. by rewrite bool_decide_eq_true_2 by set_solver.
  - split_and!; [done| |done]. by rewrite andb_comm.
Qed.

(** The write-time validator of the hold preference accepts exactly the
    values the reader uses: a present tag draws no complaint when and only
    when the reader returns it as the cap. *)
Theorem hold_preference_validated tags v :
  alist_get MAX_RESERVATION_HOLD_SECONDS_POLICY_TAG tags = Some v →
  (validate_hold_preference tags = [] ↔
   ∃ cap, max_reservation_hold_seconds tags = Some cap ∧ v = VInt cap ∧ (0 <= cap)%Z).
Proof.
  intros Hv. unfold validate_hold_preference, max_reservation_hold_seconds, dict_get.
  rewrite Hv. simpl. destruct v as [| |[z| |]| | |]; try (split; naive_solver).
  destruct (z <? 0)%Z eqn:E; [split; naive_solver|]. apply Z.ltb_ge in E.
  split; [intros _; by exists z|done].
Qed.

(** An accepted hold preference can still raise.  There are policy tags
    the write-time validator accepts and under which capping a hold raises
    [OverflowError], because the cap is converted to a float. *)
Theorem hold_cap_can_overflow :
  ∃ tags, validate_hold_preference tags = [] ∧
    capped_hold_seconds (NInt 60) tags = Err OverflowError.
Proof.
  exists [(MAX_RESERVATION_HOLD_SECONDS_POLICY_TAG, VInt (10 ^ 400))].
  split; vm_compute; reflexivity.
Qed.

(** Capping a hold never lengthens it, and leaves it alone when no valid
    preference is declared. *)
Theorem capped_hold_bounded requested tags n :
  capped_hold_seconds requested tags = Ok n →
  (n = requested ∨ num_lt n requested = true) ∧
  (max_reservation_hold_seconds tags = None → n = requested).
Proof.
  unfold capped_hold_seconds. destruct (max_reservation_hold_seconds tags) as [cap|].
  - intros (c & _ & H)%result_bind_Ok. destruct (num_lt (NFloat c) requested) eqn:E;
      injection H as <-; split; auto; done.
  - intros [= <-]. auto.
Qed.

(** A mechanism some clause names and the backing bars. *)
Definition barred {C} b (mechanism : C → string) through (clauses : list C) (m : string) : Prop :=
  ∃ c, c ∈ clauses ∧ mechanism c = m ∧ _admitted b || negb (through m) = false.

Lemma barred_nil {C} b (mechanism : C → string) through m : barred b mechanism through [] m ↔ False.
Proof. split; [intros (c & Hc & _); by apply not_elem_of_nil in Hc|done]. Qed.

Lemma barred_cons {C} b (mechanism : C → string) through c l m :
  barred b mechanism through (c :: l) m ↔
  (mechanism c = m ∧ _admitted b || negb (through m) = false) ∨ barred b mechanism through l m.
Proof.
  split.
  - intros (c' & [->|?]%elem_of_cons & ? & ?); [by left|right; by exists c'].
  - intros [[? ?]|(c' & ? & ? & ?)]; [exists c|exists c']; (split; [|done]);
      [apply list_elem_of_here|by apply list_elem_of_further].
Qed.

(** Settlement clauses of an unbacked pool.  An unbacked backing keeps, in
    order, exactly the clauses whose mechanism does not fulfil through
    capacity, and drops each other mechanism once; a backed one keeps all. *)
Theorem admissible_settlement_spec {C} b (mechanism : C → string) through clauses :
  let r := admissible_settlement b mechanism through [] [] clauses in
  r.1 = filter (λ c, _admitted b || negb (through (mechanism c)) = true) clauses ∧
  NoDup r.2 ∧
  ∀ m, m ∈ r.2 ↔ ∃ c, c ∈ clauses ∧ mechanism c = m ∧ _admitted b || negb (through m) = false.
Proof.
  assert (∀ kept dropped, NoDup dropped →
    let r := admissible_settlement b mechanism through kept dropped clauses in
    r.1 = kept ++ filter (λ c, _admitted b || negb (through (mechanism c)) = true) clauses ∧
    NoDup r.2 ∧ ∀ m, m ∈ r.2 ↔ m ∈ dropped ∨ barred b mechanism through clauses m) as H.
  { induction clauses as [|c l IH]; intros kept dropped Hnd; simpl.
    { rewrite app_nil_r. split_and!; [done..|]. intros m. rewrite barred_nil. tauto. }
    rewrite filter_cons. destruct (_ || _) eqn:E.
    - rewrite decide_True by done. destruct (IH (kept ++ [c]) dropped Hnd) as (-> & ? & Hm).
      rewrite <- app_assoc. split_and!; [done..|]. intros m. rewrite Hm, barred_cons.
      split; [tauto|]. intros [?|[[<- ?]|?]]; [tauto|congruence|tauto].
    - rewrite (decide_False (P := false = true)) by done. case_decide as Hin.
      + destruct (IH kept dropped Hnd) as (-> & ? & Hm). split_and!; [done..|].
        intros m. rewrite Hm, barred_cons. split; [tauto|]. intros [?|[[<- _]|?]]; tauto.
      + destruct (IH kept (dropped ++ [mechanism c])) as (-> & ? & Hm).
        { apply NoDup_app. split; [done|]. split; [|apply NoDup_singleton].
          by intros x Hx ->%list_elem_of_singleton. }
        split_and!; [done..|]. intros m.
        rewrite Hm, barred_cons, elem_of_app, list_elem_of_singleton. split.
        * intros [[?| ->]|?]; [tauto|right; by left|tauto].
        * intros [?|[[<- _]|?]]; tauto. }
  destruct (H [] [] ltac:(by apply NoDup_nil_2)) as (? & ? & Hm).
  split_and!; [done..|]. intros m. rewrite Hm, elem_of_nil. unfold barred. tauto.
Qed.
End facts.

(** ** Instances *)

Definition backed_tags : dict :=
  [(DELIVERABLE_MODES_POLICY_TAG, VList [VStr "vm"; VStr "k8s"]);
   (ADVERTISABLE_MODES_POLICY_TAG, VList [VStr "vm"]);
   (CAPACITY_BACKING_POLICY_TAG, VStr "backed")].

Lemma resolved_pool_delivery_witness :
  let p := {| advertisable_modes := {["vm"]}; backing := BACKED |} in
  (backing p = BACKED ∧
     (advertises p "vm" = true → pool_delivers_offering_mode backed_tags "vm" = Ok true)) ∨
  (backing p = UNBACKED ∧ pool_delivers_offering_mode backed_tags "vm" = Ok false ∧
     require_admission (backing p) = None).
Proof. apply (resolved_pool_delivery backed_tags). vm_compute. reflexivity. Defined.

Lemma hold_preference_validated_witness :
  validate_hold_preference [(MAX_RESERVATION_HOLD_SECONDS_POLICY_TAG, VInt 30)] = [] ↔
  ∃ cap, max_reservation_hold_seconds [(MAX_RESERVATION_HOLD_SECONDS_POLICY_TAG, VInt 30)]
           = Some cap ∧ VInt 30 = VInt cap ∧ (0 <= cap)%Z.
Proof. apply hold_preference_validated. vm_compute. reflexivity. Defined.

Definition capped_tags : dict := [(MAX_RESERVATION_HOLD_SECONDS_POLICY_TAG, VInt 30)].

Lemma capped_hold_bounded_witness :
  (NFloat (float_of_ratio 30 1) = NInt 60 ∨
   num_lt (NFloat (float_of_ratio 30 1)) (NInt 60) = true) ∧
  (max_reservation_hold_seconds capped_tags = None → NFloat (float_of_ratio 30 1) = NInt 60).
Proof. apply (capped_hold_bounded (NInt 60) capped_tags). vm_compute. reflexivity. Defined.
