(* ===== verification/LedgerTypes.v ===== *)
(** The site ledger's tables ([market_site/db.py]), its construction
    parameters, and the session discipline its methods run under. *)
From S2P Require Import Prelude PyNum PyValue PyTime PoolDeclarations.

Local Open Scope Z_scope.

(** ** Reservation states *)

Inductive ReservationState : Type :=
  | reserved | leased | releasing | released | release_failed | unmanaged | force_released.

#[export] Instance ReservationState_eq_dec : EqDecision ReservationState.
Proof. solve_decision. Defined.

Definition state_value (s : ReservationState) : string :=
  match s with
  | reserved => "reserved"
  | leased => "leased"
  | releasing => "releasing"
  | released => "released"
  | release_failed => "release_failed"
  | unmanaged => "unmanaged"
  | force_released => "force_released"
  end.

(** States that consume capacity. *)
Definition HELD_RESERVATION_STATES : list ReservationState :=
  [reserved; leased; releasing; release_failed; unmanaged].

Definition held_state (s : ReservationState) : bool :=
  bool_decide (s ∈ HELD_RESERVATION_STATES).

Definition _BEGIN_RELEASING_FROM : list ReservationState := [reserved; leased; release_failed].
Definition _RECORD_RELEASE_FAILED_FROM : list ReservationState := [reserved; leased; releasing].
Definition _COMMIT_REFUSED_STATES : list ReservationState :=
  [releasing; release_failed; unmanaged].

(** ** Rows *)

(** A JSON map of numbers, and the same read as exact amounts. *)
Abbreviation num_map := (gmap string num).
Abbreviation amounts := (gmap string decimal).

Record ResourcePool : Type := {
  pool_provider : string;
  pool_enabled : bool;
  pool_policy_tags : dict;
}.

Record CapacityBucket : Type := {
  capacity_bucket_id : string;
  backing_resource_id : string;
  bucket_pool_id : option string;
  bucket_host_id : option string;
  resource_type : string;
  resource_subtype : option string;
  total_units : option Z;
  capacity : num_map;
  attributes : dict;
  enabled : bool;
  bucket_updated_at : Z;
}.

Record CapacityReservation : Type := {
  capacity_reservation_id : string;
  settlement_resource_id : option string;
  units : Z;
  dimensions : option num_map;
  claim_attributes : option dict;
  res_state : ReservationState;
  deal_ref : dict;
  escrow_uid : option string;
  hold_expires_at : option string;
  offering_mode : option string;
  executor_target : option string;
  release_job_id : option string;
  executor_ref : option dict;
  lease_start_utc : option string;
  lease_end_utc : option string;
  create_job_id : option string;
  failure_reason : option string;
  failure_message : option string;
  released_at : option string;
  release_requested_at : option string;
  activated_at_utc : option string;
  created_at : Z;
}.

Record CapacityReservationDebit : Type := {
  debit_bucket_id : string;
  debit_dimensions : num_map;
}.

Record CapacityEvent : Type := {
  version : Z;
  kind : string;
  event_resource_id : option string;
  event_dimensions : option num_map;
  occurred_at : Z;
}.

(** The immutable payload of an intended-end event. *)
Record lease_end_payload : Type := {
  lep_event_id : string;
  lep_reservation_id : string;
  lep_site_id : string;
  lep_effective_at : value;
  lep_source_state : ReservationState;
  lep_cause : value;
  lep_reason : value;
  lep_caller : value;
  lep_claimed_deadline : value;
  lep_deadline_phase : value;
}.

Record LeaseEndedEvent : Type := {
  lee_reservation_id : string;
  lee_transition_key : string;
  lee_payload : lease_end_payload;
}.

(** ** The database

    [ext] stands for the tables of the composition that share the ledger's
    database: the release guard and the effects write only those. *)

Record DB (Ext : Type) : Type := {
  pools : gmap string ResourcePool;
  buckets : list CapacityBucket;
  reservations : list CapacityReservation;
  debits : gmap string CapacityReservationDebit;
  events : list CapacityEvent;
  lease_ends : list LeaseEndedEvent;
  ext : Ext;
}.
Arguments pools {Ext}. Arguments buckets {Ext}. Arguments reservations {Ext}.
Arguments debits {Ext}. Arguments events {Ext}. Arguments lease_ends {Ext}.
Arguments ext {Ext}.

(** ** Construction parameters of [CapacityLedgerService] *)

Record ledger_config (Ext : Type) : Type := {
  cfg_required_attributes : list string;
  cfg_unit_claim_keys : list string;
  cfg_mirror_dimension : string;
  cfg_release_guard : option (DB Ext → string → bool * Ext);
  cfg_release_effect : option (Ext → string → ReservationState → result Ext);
  cfg_site_id : string;
  cfg_lease_end_effect : option (Ext → lease_end_payload → result Ext);
  cfg_host_requirement : option dict;
  cfg_deliverable_hosts : option (Ext → gset string);
}.
Arguments cfg_required_attributes {Ext}. Arguments cfg_unit_claim_keys {Ext}.
Arguments cfg_mirror_dimension {Ext}. Arguments cfg_release_guard {Ext}.
Arguments cfg_release_effect {Ext}. Arguments cfg_site_id {Ext}.
Arguments cfg_lease_end_effect {Ext}. Arguments cfg_host_requirement {Ext}.
Arguments cfg_deliverable_hosts {Ext}.

(** ** The environment and a service's state

    [now] and [uuid4] draw from the environment's clock and identifier source;
    [clock_reads] and [ids_drawn] count what was drawn.  [working] is what the
    open session sees, [committed] what its last commit left. *)

Record environment : Type := {
  clock : nat → datetime;
  uuid4 : nat → string;
}.

Record world (Ext : Type) : Type := {
  working : DB Ext;
  committed : DB Ext;
  clock_reads : nat;
  ids_drawn : nat;
  depth : nat;
}.
Arguments working {Ext}. Arguments committed {Ext}. Arguments clock_reads {Ext}.
Arguments ids_drawn {Ext}. Arguments depth {Ext}.

Section session.
Context {Ext : Type} (env : environment).

Abbreviation W := (world Ext).
Abbreviation L := (M W).

Definition with_working (f : DB Ext → DB Ext) (w : W) : W :=
  {| working := f (working w); committed := committed w;
     clock_reads := clock_reads w; ids_drawn := ids_drawn w; depth := depth w |}.

Definition begin_session (w : W) : W :=
  {| working := committed w; committed := committed w;
     clock_reads := clock_reads w; ids_drawn := ids_drawn w; depth := depth w |}.

Definition set_depth (d : nat) (w : W) : W :=
  {| working := working w; committed := committed w;
     clock_reads := clock_reads w; ids_drawn := ids_drawn w; depth := d |}.

(** [datetime.now(timezone.utc)]. *)
Definition now_utc : L datetime := λ w,
  (Ok (clock env (clock_reads w)),
   {| working := working w; committed := committed w;
      clock_reads := S (clock_reads w); ids_drawn := ids_drawn w; depth := depth w |}).

(** [str(uuid.uuid4())]. *)
Definition fresh_id : L string := λ w,
  (Ok (uuid4 env (ids_drawn w)),
   {| working := working w; committed := committed w;
      clock_reads := clock_reads w; ids_drawn := S (ids_drawn w); depth := depth w |}).

(** The database's own [CURRENT_TIMESTAMP], in whole seconds. *)
Definition db_now : L Z := gets (λ w, instant (clock env (clock_reads w)) / us_per_second).

Definition db : L (DB Ext) := gets working.
Definition write (f : DB Ext → DB Ext) : L unit := modify (with_working f).

Definition commit_session : L unit := modify (λ w,
  {| working := working w; committed := working w;
     clock_reads := clock_reads w; ids_drawn := ids_drawn w; depth := depth w |}).

Definition rollback : L unit := modify begin_session.

(** [with session_factory() as db]: a session starts from what is committed,
    and whatever it did not commit is gone when it closes. *)
Definition in_session {A} (m : L A) : L A := λ w,
  let '(r, w') := m (begin_session w) in (r, begin_session w').

(** [with self.serialized()]: the lock is re-entrant and its depth restored. *)
Definition serialized {A} (m : L A) : L A := λ w,
  let '(r, w') := m (set_depth (S (depth w)) w) in (r, set_depth (depth w) w').

Definition _require_serialized (operation : string) : L unit :=
  d ← gets depth;
  if Nat.eqb d 0 then raise (RuntimeError operation) else mret tt.
End session.

(** ** Table writes *)

Section tables.
Context {Ext : Type}.
Implicit Types d : DB Ext.

Definition set_buckets (f : list CapacityBucket → list CapacityBucket) d : DB Ext :=
  {| pools := pools d; buckets := f (buckets d); reservations := reservations d;
     debits := debits d; events := events d; lease_ends := lease_ends d; ext := ext d |}.

Definition set_reservations (f : list CapacityReservation → list CapacityReservation) d : DB Ext :=
  {| pools := pools d; buckets := buckets d; reservations := f (reservations d);
     debits := debits d; events := events d; lease_ends := lease_ends d; ext := ext d |}.

Definition set_debit (k : string) (x : CapacityReservationDebit) d : DB Ext :=
  {| pools := pools d; buckets := buckets d; reservations := reservations d;
     debits := <[k := x]> (debits d); events := events d; lease_ends := lease_ends d;
     ext := ext d |}.

Definition set_ext (x : Ext) d : DB Ext :=
  {| pools := pools d; buckets := buckets d; reservations := reservations d;
     debits := debits d; events := events d; lease_ends := lease_ends d; ext := x |}.

Definition add_lease_end (e : LeaseEndedEvent) d : DB Ext :=
  {| pools := pools d; buckets := buckets d; reservations := reservations d;
     debits := debits d; events := events d; lease_ends := lease_ends d ++ [e]; ext := ext d |}.

(** The latest event version, zero for an empty feed. *)
Definition latest_version d : Z :=
  match last (events d) with Some e => version e | None => 0 end.

(** Appending to the feed: [version] is the table's autoincremented key. *)
Definition add_event (k : string) (rid : option string) (dims : option num_map)
    (at_ : Z) d : DB Ext :=
  {| pools := pools d; buckets := buckets d; reservations := reservations d;
     debits := debits d;
     events := events d ++ [{| version := latest_version d + 1; kind := k;
                               event_resource_id := rid; event_dimensions := dims;
                               occurred_at := at_ |}];
     lease_ends := lease_ends d; ext := ext d |}.

(** Row access by primary key. *)
Definition get_reservation_row (i : string) d : option CapacityReservation :=
  find_by capacity_reservation_id i (reservations d).

Definition get_bucket_row (i : string) d : option CapacityBucket :=
  find_by capacity_bucket_id i (buckets d).

(** Flushing a changed row. *)
Definition update_reservation (r : CapacityReservation) : DB Ext → DB Ext :=
  set_reservations (replace_by capacity_reservation_id r).

Definition update_bucket (b : CapacityBucket) : DB Ext → DB Ext :=
  set_buckets (replace_by capacity_bucket_id b).

Definition insert_reservation (r : CapacityReservation) : DB Ext → DB Ext :=
  set_reservations (λ l, l ++ [r]).

Definition insert_bucket (b : CapacityBucket) : DB Ext → DB Ext :=
  set_buckets (λ l, l ++ [b]).
End tables.

(** ** Attribute assignments on a reservation row *)

Section assignments.
Implicit Types r : CapacityReservation.

Definition set_settlement_resource_id (x : option string) r : CapacityReservation :=
  {| capacity_reservation_id := capacity_reservation_id r; settlement_resource_id := x; units :=
     units r; dimensions := dimensions r; claim_attributes := claim_attributes r; res_state :=
     res_state r; deal_ref := deal_ref r; escrow_uid := escrow_uid r; hold_expires_at :=
     hold_expires_at r; offering_mode := offering_mode r; executor_target := executor_target r;
     release_job_id := release_job_id r; executor_ref := executor_ref r; lease_start_utc :=
     lease_start_utc r; lease_end_utc := lease_end_utc r; create_job_id := create_job_id r;
     failure_reason := failure_reason r; failure_message := failure_message r; released_at :=
     released_at r; release_requested_at := release_requested_at r; activated_at_utc :=
     activated_at_utc r; created_at := created_at r |}.

Definition set_res_state (x : ReservationState) r : CapacityReservation :=
  {| capacity_reservation_id := capacity_reservation_id r; settlement_resource_id :=
     settlement_resource_id r; units := units r; dimensions := dimensions r; claim_attributes :=
     claim_attributes r; res_state := x; deal_ref := deal_ref r; escrow_uid := escrow_uid r;
     hold_expires_at := hold_expires_at r; offering_mode := offering_mode r; executor_target :=
     executor_target r; release_job_id := release_job_id r; executor_ref := executor_ref r;
     lease_start_utc := lease_start_utc r; lease_end_utc := lease_end_utc r; create_job_id :=
     create_job_id r; failure_reason := failure_reason r; failure_message := failure_message r;
     released_at := released_at r; release_requested_at := release_requested_at r;
     activated_at_utc := activated_at_utc r; created_at := created_at r |}.

Definition set_escrow_uid (x : option string) r : CapacityReservation :=
  {| capacity_reservation_id := capacity_reservation_id r; settlement_resource_id :=
     settlement_resource_id r; units := units r; dimensions := dimensions r; claim_attributes :=
     claim_attributes r; res_state := res_state r; deal_ref := deal_ref r; escrow_uid := x;
     hold_expires_at := hold_expires_at r; offering_mode := offering_mode r; executor_target :=
     executor_target r; release_job_id := release_job_id r; executor_ref := executor_ref r;
     lease_start_utc := lease_start_utc r; lease_end_utc := lease_end_utc r; create_job_id :=
     create_job_id r; failure_reason := failure_reason r; failure_message := failure_message r;
     released_at := released_at r; release_requested_at := release_requested_at r;
     activated_at_utc := activated_at_utc r; created_at := created_at r |}.

Definition set_hold_expires_at (x : option string) r : CapacityReservation :=
  {| capacity_reservation_id := capacity_reservation_id r; settlement_resource_id :=
     settlement_resource_id r; units := units r; dimensions := dimensions r; claim_attributes :=
     claim_attributes r; res_state := res_state r; deal_ref := deal_ref r; escrow_uid :=
     escrow_uid r; hold_expires_at := x; offering_mode := offering_mode r; executor_target :=
     executor_target r; release_job_id := release_job_id r; executor_ref := executor_ref r;
     lease_start_utc := lease_start_utc r; lease_end_utc := lease_end_utc r; create_job_id :=
     create_job_id r; failure_reason := failure_reason r; failure_message := failure_message r;
     released_at := released_at r; release_requested_at := release_requested_at r;
     activated_at_utc := activated_at_utc r; created_at := created_at r |}.

Definition set_executor_target (x : option string) r : CapacityReservation :=
  {| capacity_reservation_id := capacity_reservation_id r; settlement_resource_id :=
     settlement_resource_id r; units := units r; dimensions := dimensions r; claim_attributes :=
     claim_attributes r; res_state := res_state r; deal_ref := deal_ref r; escrow_uid :=
     escrow_uid r; hold_expires_at := hold_expires_at r; offering_mode := offering_mode r;
     executor_target := x; release_job_id := release_job_id r; executor_ref := executor_ref r;
     lease_start_utc := lease_start_utc r; lease_end_utc := lease_end_utc r; create_job_id :=
     create_job_id r; failure_reason := failure_reason r; failure_message := failure_message r;
     released_at := released_at r; release_requested_at := release_requested_at r;
     activated_at_utc := activated_at_utc r; created_at := created_at r |}.

Definition set_release_job_id (x : option string) r : CapacityReservation :=
  {| capacity_reservation_id := capacity_reservation_id r; settlement_resource_id :=
     settlement_resource_id r; units := units r; dimensions := dimensions r; claim_attributes :=
     claim_attributes r; res_state := res_state r; deal_ref := deal_ref r; escrow_uid :=
     escrow_uid r; hold_expires_at := hold_expires_at r; offering_mode := offering_mode r;
     executor_target := executor_target r; release_job_id := x; executor_ref := executor_ref r;
     lease_start_utc := lease_start_utc r; lease_end_utc := lease_end_utc r; create_job_id :=
     create_job_id r; failure_reason := failure_reason r; failure_message := failure_message r;
     released_at := released_at r; release_requested_at := release_requested_at r;
     activated_at_utc := activated_at_utc r; created_at := created_at r |}.

Definition set_executor_ref (x : option dict) r : CapacityReservation :=
  {| capacity_reservation_id := capacity_reservation_id r; settlement_resource_id :=
     settlement_resource_id r; units := units r; dimensions := dimensions r; claim_attributes :=
     claim_attributes r; res_state := res_state r; deal_ref := deal_ref r; escrow_uid :=
     escrow_uid r; hold_expires_at := hold_expires_at r; offering_mode := offering_mode r;
     executor_target := executor_target r; release_job_id := release_job_id r; executor_ref := x;
     lease_start_utc := lease_start_utc r; lease_end_utc := lease_end_utc r; create_job_id :=
     create_job_id r; failure_reason := failure_reason r; failure_message := failure_message r;
     released_at := released_at r; release_requested_at := release_requested_at r;
     activated_at_utc := activated_at_utc r; created_at := created_at r |}.

Definition set_lease_start_utc (x : option string) r : CapacityReservation :=
  {| capacity_reservation_id := capacity_reservation_id r; settlement_resource_id :=
     settlement_resource_id r; units := units r; dimensions := dimensions r; claim_attributes :=
     claim_attributes r; res_state := res_state r; deal_ref := deal_ref r; escrow_uid :=
     escrow_uid r; hold_expires_at := hold_expires_at r; offering_mode := offering_mode r;
     executor_target := executor_target r; release_job_id := release_job_id r; executor_ref :=
     executor_ref r; lease_start_utc := x; lease_end_utc := lease_end_utc r; create_job_id :=
     create_job_id r; failure_reason := failure_reason r; failure_message := failure_message r;
     released_at := released_at r; release_requested_at := release_requested_at r;
     activated_at_utc := activated_at_utc r; created_at := created_at r |}.

Definition set_lease_end_utc (x : option string) r : CapacityReservation :=
  {| capacity_reservation_id := capacity_reservation_id r; settlement_resource_id :=
     settlement_resource_id r; units := units r; dimensions := dimensions r; claim_attributes :=
     claim_attributes r; res_state := res_state r; deal_ref := deal_ref r; escrow_uid :=
     escrow_uid r; hold_expires_at := hold_expires_at r; offering_mode := offering_mode r;
     executor_target := executor_target r; release_job_id := release_job_id r; executor_ref :=
     executor_ref r; lease_start_utc := lease_start_utc r; lease_end_utc := x; create_job_id :=
     create_job_id r; failure_reason := failure_reason r; failure_message := failure_message r;
     released_at := released_at r; release_requested_at := release_requested_at r;
     activated_at_utc := activated_at_utc r; created_at := created_at r |}.

Definition set_create_job_id (x : option string) r : CapacityReservation :=
  {| capacity_reservation_id := capacity_reservation_id r; settlement_resource_id :=
     settlement_resource_id r; units := units r; dimensions := dimensions r; claim_attributes :=
     claim_attributes r; res_state := res_state r; deal_ref := deal_ref r; escrow_uid :=
     escrow_uid r; hold_expires_at := hold_expires_at r; offering_mode := offering_mode r;
     executor_target := executor_target r; release_job_id := release_job_id r; executor_ref :=
     executor_ref r; lease_start_utc := lease_start_utc r; lease_end_utc := lease_end_utc r;
     create_job_id := x; failure_reason := failure_reason r; failure_message := failure_message
     r; released_at := released_at r; release_requested_at := release_requested_at r;
     activated_at_utc := activated_at_utc r; created_at := created_at r |}.

Definition set_failure_reason (x : option string) r : CapacityReservation :=
  {| capacity_reservation_id := capacity_reservation_id r; settlement_resource_id :=
     settlement_resource_id r; units := units r; dimensions := dimensions r; claim_attributes :=
     claim_attributes r; res_state := res_state r; deal_ref := deal_ref r; escrow_uid :=
     escrow_uid r; hold_expires_at := hold_expires_at r; offering_mode := offering_mode r;
     executor_target := executor_target r; release_job_id := release_job_id r; executor_ref :=
     executor_ref r; lease_start_utc := lease_start_utc r; lease_end_utc := lease_end_utc r;
     create_job_id := create_job_id r; failure_reason := x; failure_message := failure_message r;
     released_at := released_at r; release_requested_at := release_requested_at r;
     activated_at_utc := activated_at_utc r; created_at := created_at r |}.

Definition set_failure_message (x : option string) r : CapacityReservation :=
  {| capacity_reservation_id := capacity_reservation_id r; settlement_resource_id :=
     settlement_resource_id r; units := units r; dimensions := dimensions r; claim_attributes :=
     claim_attributes r; res_state := res_state r; deal_ref := deal_ref r; escrow_uid :=
     escrow_uid r; hold_expires_at := hold_expires_at r; offering_mode := offering_mode r;
     executor_target := executor_target r; release_job_id := release_job_id r; executor_ref :=
     executor_ref r; lease_start_utc := lease_start_utc r; lease_end_utc := lease_end_utc r;
     create_job_id := create_job_id r; failure_reason := failure_reason r; failure_message := x;
     released_at := released_at r; release_requested_at := release_requested_at r;
     activated_at_utc := activated_at_utc r; created_at := created_at r |}.

Definition set_released_at (x : option string) r : CapacityReservation :=
  {| capacity_reservation_id := capacity_reservation_id r; settlement_resource_id :=
     settlement_resource_id r; units := units r; dimensions := dimensions r; claim_attributes :=
     claim_attributes r; res_state := res_state r; deal_ref := deal_ref r; escrow_uid :=
     escrow_uid r; hold_expires_at := hold_expires_at r; offering_mode := offering_mode r;
     executor_target := executor_target r; release_job_id := release_job_id r; executor_ref :=
     executor_ref r; lease_start_utc := lease_start_utc r; lease_end_utc := lease_end_utc r;
     create_job_id := create_job_id r; failure_reason := failure_reason r; failure_message :=
     failure_message r; released_at := x; release_requested_at := release_requested_at r;
     activated_at_utc := activated_at_utc r; created_at := created_at r |}.

Definition set_release_requested_at (x : option string) r : CapacityReservation :=
  {| capacity_reservation_id := capacity_reservation_id r; settlement_resource_id :=
     settlement_resource_id r; units := units r; dimensions := dimensions r; claim_attributes :=
     claim_attributes r; res_state := res_state r; deal_ref := deal_ref r; escrow_uid :=
     escrow_uid r; hold_expires_at := hold_expires_at r; offering_mode := offering_mode r;
     executor_target := executor_target r; release_job_id := release_job_id r; executor_ref :=
     executor_ref r; lease_start_utc := lease_start_utc r; lease_end_utc := lease_end_utc r;
     create_job_id := create_job_id r; failure_reason := failure_reason r; failure_message :=
     failure_message r; released_at := released_at r; release_requested_at := x; activated_at_utc
     := activated_at_utc r; created_at := created_at r |}.

Definition set_activated_at_utc (x : option string) r : CapacityReservation :=
  {| capacity_reservation_id := capacity_reservation_id r; settlement_resource_id :=
     settlement_resource_id r; units := units r; dimensions := dimensions r; claim_attributes :=
     claim_attributes r; res_state := res_state r; deal_ref := deal_ref r; escrow_uid :=
     escrow_uid r; hold_expires_at := hold_expires_at r; offering_mode := offering_mode r;
     executor_target := executor_target r; release_job_id := release_job_id r; executor_ref :=
     executor_ref r; lease_start_utc := lease_start_utc r; lease_end_utc := lease_end_utc r;
     create_job_id := create_job_id r; failure_reason := failure_reason r; failure_message :=
     failure_message r; released_at := released_at r; release_requested_at :=
     release_requested_at r; activated_at_utc := x; created_at := created_at r |}.

End assignments.
