(* ===== verification/LedgerMatching.v ===== *)
(** Claim parsing and feasibility: the module-level functions of
    [market_site/ledger.py] that interpret claims, declared capacity, held
    quantities and lease windows. *)
From S2P Require Import Prelude PyNum PyValue PyTime PoolDeclarations LedgerTypes.
From stdpp Require Import pretty.
From Stdlib Require Import Ascii.

Local Open Scope Z_scope.

Definition ALLOCATION_MODE_ATTR : string := "allocation_mode".
Definition ALLOCATION_MODE_EXCLUSIVE : string := "exclusive".
Definition ALLOCATION_MODE_SHAREABLE : string := "shareable".
Definition PHYSICAL_HOST_ID_ATTR : string := "physical_host_id".
Definition OFFERING_MODE_CLAIM_KEY : string := "offering_mode".
Definition _DIMENSIONS_CLAIM_KEY : string := "dimensions".
Definition _DEFAULT_UNIT_CLAIM_KEYS : list string := ["units"].
Definition _DEFAULT_MIRROR_DIMENSION : string := "units".

Definition _executor_ref_for_resource (resource : CapacityBucket) : option dict :=
  match str_truthy (bucket_host_id resource) with
  | Some h => Some [("host_id"%string, VStr h)]
  | None => None
  end.

(** ** Time *)

(** [text.replace("Z", "+00:00")]. *)
Definition zulu (l : chars) : chars :=
  l ≫= λ c, if bool_decide (c = "Z"%char) then to_chars "+00:00" else [c].

(** [text.replace(" ", "T", 1)]. *)
Fixpoint first_space_to_T (l : chars) : chars :=
  match l with
  | [] => []
  | c :: l => if bool_decide (c = " "%char) then "T"%char :: l else c :: first_space_to_T l
  end.

Definition aware (p : Z * option Z) : datetime := DT p.1 (default 0 p.2).

Definition parse_utc (value : option string) : option datetime :=
  match str_truthy value with
  | None => None
  | Some s =>
      let text := zulu (strip_chars (to_chars s)) in
      match fromisoformat_chars text with
      | Some p => Some (aware p)
      | None => aware <$> fromisoformat_chars (first_space_to_T text)
      end
  end.

(** [_windows_overlap]: half-open intervals, [None] unbounded. *)
Definition _windows_overlap (a_start a_end b_start b_end : option datetime) : bool :=
  let before e s := match e, s with Some e, Some s => dt_leb e s | _, _ => false end in
  negb (before a_end b_start) && negb (before b_end a_start).

Section lease_window.
Context {Ext : Type} (env : environment).

(** The clock is read only when a duration is given without a start. *)
Definition _lease_window (lease_start_utc : option string)
    (lease_duration_seconds : option Z) (lease_end_utc : option string)
    : M (world Ext) (option datetime * option datetime) :=
  let start := parse_utc lease_start_utc in
  let end_ := parse_utc lease_end_utc in
  match lease_duration_seconds with
  | None => mret (start, end_)
  | Some seconds =>
      if seconds <=? 0 then raise (ValueError "lease_duration_seconds must be > 0")
      else
        start ← match start with Some s => mret s | None => now_utc env end;
        us ← lift (timedelta_of_seconds seconds);
        e ← lift (dt_add_us start us);
        mret (Some start, Some e)
  end.
End lease_window.

(** ** Quantities *)

Definition _requested_offering_mode (claim : option dict) (required : bool)
    : result (option string) :=
  match dict_get OFFERING_MODE_CLAIM_KEY (default [] claim) with
  | VNone => if required then Err (ValueError "claim must include offering_mode") else Ok None
  | raw =>
      match canonical_string raw with
      | Some mode => Ok (Some mode)
      | None => Err (ValueError "offering_mode must be canonical")
      end
  end.

Definition _requested_units (claim : option dict) (unit_claim_keys : list string) : result Z :=
  let claim := default [] claim in
  match list_find (λ k, is_none (dict_get k claim) = false) unit_claim_keys with
  | None => Ok 1
  | Some (_, key) =>
      let raw := dict_get key claim in
      match raw with
      | VBool _ => Err (ValueError key)
      | _ =>
          match py_int raw with
          | Ok requested => if requested <? 1 then Err (ValueError key) else Ok requested
          | Err (TypeError _ | ValueError _) => Err (ValueError key)
          | Err e => Err e
          end
      end
  end.

Definition _to_decimal (v : value) (label : string) : result decimal :=
  match v with
  | VBool _ => Err (ValueError label)
  | _ =>
      match dec_of_value v with
      | Some amount => if dec_leb amount dec0 then Err (ValueError label) else Ok amount
      | None => Err (ValueError label)
      end
  end.

Definition _to_decimal_nonneg (v : value) (label : string) : result decimal :=
  match v with
  | VBool _ => Err (ValueError label)
  | _ =>
      match dec_of_value v with
      | Some amount => if dec_ltb amount dec0 then Err (ValueError label) else Ok amount
      | None => Err (ValueError label)
      end
  end.

(** A dict comprehension whose value expression may raise. *)
Fixpoint amounts_of (f : value → string → result decimal) (d : dict) : result amounts :=
  match d with
  | [] => Ok ∅
  | (k, v) :: d => a ← f v k; m ← amounts_of f d; Ok (<[k := a]> m)
  end.

Definition _requested_dimensions (claim : option dict) (unit_claim_keys : list string)
    (mirror_dimension : string) : result amounts :=
  match alist_get _DIMENSIONS_CLAIM_KEY (default [] claim) with
  | None =>
      n ← _requested_units claim unit_claim_keys;
      Ok {[ mirror_dimension := dec_of_Z n ]}
  | Some (VDict ((_ :: _) as raw)) => amounts_of _to_decimal raw
  | Some _ => Err (ValueError "dimensions must be a non-empty mapping")
  end.

Definition serialize_amount (a : decimal) : num :=
  if dec_eqb (dec_of_Z (dec_trunc a)) a then NInt (dec_trunc a) else NFloat (float_of_dec a).

Definition _serialize_dimensions (m : amounts) : num_map := serialize_amount <$> m.

(** One stored amount read back; [_to_decimal_nonneg] when [nonneg]. *)
Definition stored_amount (n : num) : result decimal :=
  match dec_of_num n with Some a => Ok a | None => Err (ValueError "stored amount") end.

Definition stored_nonneg (n : num) : result decimal :=
  _to_decimal_nonneg (VNum n) "capacity".

(** Reading a whole stored map: any refused amount refuses the map. *)
Definition read_amounts (f : num → result decimal) (m : num_map) : result amounts :=
  if decide (map_Forall (λ _ n, is_Some (to_option (f n))) m)
  then Ok (omap (λ n, to_option (f n)) m)
  else Err (ValueError "stored amounts").

Definition _resource_capacity (resource : CapacityBucket) (mirror_dimension : string)
    : result amounts :=
  if decide (capacity resource = ∅) then
    match total_units resource with
    | None => Ok ∅
    | Some n => Ok {[ mirror_dimension := dec_of_Z n ]}
    end
  else read_amounts stored_nonneg (capacity resource).

Definition _reservation_dimensions (reservation : CapacityReservation)
    (mirror_dimension : string) : result amounts :=
  match dimensions reservation with
  | Some m =>
      if decide (m = ∅) then Ok {[ mirror_dimension := dec_of_Z (units reservation) ]}
      else read_amounts stored_amount m
  | None => Ok {[ mirror_dimension := dec_of_Z (units reservation) ]}
  end.

(** [m.get(k, Decimal(0))]. *)
Definition amount_at (k : string) (m : amounts) : decimal := default dec0 (m !! k).

(** [a - b] over the keys of [keys]. *)
Definition difference_over (keys : gset string) (a b : amounts) : amounts :=
  set_to_map (λ k, (k, dec_sub (amount_at k a) (amount_at k b))) keys.

(** [totals[k] = totals.get(k, 0) + amount] for every key of [m]. *)
Definition accumulate (totals m : amounts) : amounts :=
  merge (λ t a, match a with
                | Some a => Some (dec_add (default dec0 t) a)
                | None => t
                end) totals m.

Inductive sign : Type := Plus | Minus.
#[export] Instance sign_eq_dec : EqDecision sign.
Proof. solve_decision. Defined.

Definition amount_sign (a : decimal) : option sign :=
  if dec_eqb a dec0 then None else if dec_ltb dec0 a then Some Plus else Some Minus.

(** [_capacity_change_kind]. *)
Definition _capacity_change_kind (delta : amounts) (old_enabled : option bool)
    (new_enabled : bool) : string :=
  let from_delta (s : sign) :=
    bool_decide (Exists (λ p, amount_sign p.2 = Some s) (map_to_list delta)) in
  let toggled (s : sign) :=
    match old_enabled with
    | Some old =>
        negb (Bool.eqb old new_enabled) &&
        bool_decide (s = if new_enabled then Plus else Minus)
    | None => false
    end in
  let plus := from_delta Plus || toggled Plus in
  let minus := from_delta Minus || toggled Minus in
  match plus, minus with
  | _, false => "released"
  | false, true => "reserved"
  | true, true => "capacity_changed"
  end.

(** ** Feasibility *)

Record ResourceFeasibilityView : Type := {
  fv_resource_id : string;
  fv_pool_id : string;
  fv_resource_kind : string;
  fv_available : gmap string num;
  fv_attributes : gmap string value;
  fv_host_id : option string;
}.

Definition opt_str (s : option string) : value :=
  match s with Some s => VStr s | None => VNone end.
Definition opt_int (z : option Z) : value :=
  match z with Some z => VInt z | None => VNone end.

(** Facts are written after the attributes and so override them. *)
Definition resource_feasibility_view (resource_id : string) (pool_id : option string)
    (resource_kind : string) (available : gmap string num) (attrs : dict)
    (resource_subtype : option string) (value_ units_ : value) (host_id : option string)
    (mirror_dimension : string) : ResourceFeasibilityView :=
  let authoritative_pool_id := default resource_id (str_truthy pool_id) in
  let normalized : gmap string value :=
    <["pool_id"%string := VStr authoritative_pool_id]>
    (<[mirror_dimension := units_]>
    (<["units"%string := units_]>
    (<["value"%string := value_]>
    (<["resource_subtype"%string := opt_str resource_subtype]>
    (<["resource_type"%string := VStr resource_kind]>
    (<["host_id"%string := opt_str host_id]>
    (<["resource_id"%string := VStr resource_id]> (list_to_map attrs)))))))) in
  {| fv_resource_id := resource_id; fv_pool_id := authoritative_pool_id;
     fv_resource_kind := resource_kind; fv_available := available;
     fv_attributes := normalized; fv_host_id := host_id |}.

(** [required_resource_kind] is [VNone] when the claim names none. *)
Definition resource_satisfies_requirement (resource : ResourceFeasibilityView)
    (required_resource_kind : value) (required_dimensions : amounts)
    (required_attributes : dict) : bool :=
  (is_none required_resource_kind ||
   py_eq (VStr (fv_resource_kind resource)) required_resource_kind) &&
  bool_decide (map_Forall
    (λ k a, num_lt (default (NInt 0) (fv_available resource !! k)) (NDec a) = false)
    required_dimensions) &&
  forallb (λ kv, py_eq (default VNone (fv_attributes resource !! kv.1)) kv.2)
    required_attributes.

Definition _split_claim_requirement (claim : option dict) (unit_claim_keys : list string)
    : value * dict :=
  let claim := default [] claim in
  (dict_get "resource_type" claim,
   filter (λ kv, kv.1 ∉ unit_claim_keys ∧ kv.1 ≠ _DIMENSIONS_CLAIM_KEY ∧
                 kv.1 ≠ OFFERING_MODE_CLAIM_KEY ∧ kv.1 ≠ "resource_type"%string) claim).

Definition _resource_feasibility_view (resource : CapacityBucket) (available : amounts)
    (mirror_dimension : string) : ResourceFeasibilityView :=
  resource_feasibility_view (backing_resource_id resource) (bucket_pool_id resource)
    (resource_type resource) (NDec <$> available) (attributes resource)
    (resource_subtype resource) (opt_int (total_units resource))
    (opt_int (total_units resource)) (bucket_host_id resource) mirror_dimension.

(** A [snapshot()] row, the payload [_resource_payload] builds. *)
Record resource_payload : Type := {
  rp_resource_id : string;
  rp_pool_id : option string;
  rp_resource_type : string;
  rp_resource_subtype : option string;
  rp_host_id : option string;
  rp_value : option Z;
  rp_state : string;
  rp_available_units : option Z;
  rp_capacity : num_map;
  rp_available : num_map;
  rp_attributes : dict;
  rp_enabled : bool;
}.

Definition dict_resource_satisfies_claim (row : resource_payload) (claim : option dict)
    (unit_claim_keys : list string) (mirror_dimension : string) : result bool :=
  match str_truthy (rp_pool_id row) with
  | None => Ok false
  | Some _ =>
      match claim with
      | None | Some [] => Ok true
      | Some _ =>
          let '(resource_kind, required_attributes) :=
            _split_claim_requirement claim unit_claim_keys in
          required_dimensions ← _requested_dimensions claim unit_claim_keys mirror_dimension;
          let resource := resource_feasibility_view (rp_resource_id row) (rp_pool_id row)
            (rp_resource_type row) (rp_available row) (rp_attributes row)
            (rp_resource_subtype row) (opt_int (rp_value row))
            (opt_int (rp_available_units row)) (rp_host_id row) mirror_dimension in
          Ok (resource_satisfies_requirement resource resource_kind required_dimensions
                required_attributes)
      end
  end.

(** ** Physical hosts *)

(** [str(value) if value else None].  Strings, integers and booleans are
    rendered; a float or a container, whose text the model does not render, is
    kept as itself, so it equals only an equal one. *)
Definition _physical_host_id (resource : CapacityBucket) : option value :=
  let v := dict_get PHYSICAL_HOST_ID_ATTR (attributes resource) in
  if truthy v then
    Some match v with
         | VInt z => VStr (pretty z)
         | VBool true => VStr "True"
         | _ => v
         end
  else None.

Definition _allocation_mode (resource : CapacityBucket) : option string :=
  match dict_get ALLOCATION_MODE_ATTR (attributes resource) with
  | VStr s =>
      if bool_decide (s = ALLOCATION_MODE_EXCLUSIVE ∨ s = ALLOCATION_MODE_SHAREABLE)
      then Some s else None
  | _ => None
  end.

(** States that occupy capacity whatever their window says. *)
Definition windowless_state (s : ReservationState) : bool :=
  match s with releasing | release_failed | unmanaged => true | _ => false end.

Definition _reservation_overlaps (reservation : CapacityReservation)
    (lease_start lease_end : option datetime) : bool :=
  if windowless_state (res_state reservation) then true
  else
    let row_start := parse_utc (lease_start_utc reservation) in
    let row_end := parse_utc (lease_end_utc reservation) in
    match row_start, row_end with
    | None, None => true
    | _, _ => _windows_overlap lease_start lease_end row_start row_end
    end.
