(* ===== verification/Ledger.v ===== *)
(** [CapacityLedgerService] ([market_site/ledger.py]): the site ledger's reads
    and its operations, each a whole handler with its guards, its writes in
    the code's order, its event, and its commit. *)
From S2P Require Import Prelude PyNum PyValue PyTime PoolDeclarations LedgerTypes.
From S2P Require Import LedgerMatching.

Local Open Scope Z_scope.

Section ledger.
Context {Ext : Type} (env : environment) (cfg : ledger_config Ext).

Abbreviation DBx := (DB Ext).
Abbreviation L := (M (world Ext)).
Abbreviation mirror := (cfg_mirror_dimension cfg).

Implicit Types (d : DBx) (r : CapacityReservation) (b : CapacityBucket).

(** ** Lookups *)

Definition _bucket_by_backing_resource d (resource_id : string) : option CapacityBucket :=
  find_by backing_resource_id resource_id (buckets d).

Definition _debit_for_reservation d (i : string) : option CapacityReservationDebit :=
  debits d !! i.

Definition _bucket_for_reservation d (i : string) : option CapacityBucket :=
  debit ← _debit_for_reservation d i; get_bucket_row (debit_bucket_id debit) d.

Definition _backing_resource_id d (i : string) : option string :=
  backing_resource_id <$> _bucket_for_reservation d i.

Definition backing_pool_id_in_session d (i : string) : option string :=
  rid ← _backing_resource_id d i;
  resource ← _bucket_by_backing_resource d rid;
  str_truthy (bucket_pool_id resource).

(** The reservations in a capacity-holding state debited against a bucket. *)
Definition debited_to d (bucket_id : string) r : bool :=
  match debits d !! capacity_reservation_id r with
  | Some x => bool_decide (debit_bucket_id x = bucket_id)
  | None => false
  end.

Definition holders d (bucket_id : string) : list CapacityReservation :=
  filter (λ r, held_state (res_state r) && debited_to d bucket_id r = true) (reservations d).

(** The most recently created match, the earliest row of a tie. *)
Definition latest_created (l : list CapacityReservation) : option CapacityReservation :=
  head (sort_by (λ r r', created_at r' <=? created_at r) l).

Definition _find_reservation d (capacity_reservation_id' escrow_uid' resource_id : option string)
    : option CapacityReservation :=
  match str_truthy capacity_reservation_id' with
  | Some i => get_reservation_row i d
  | None =>
      match str_truthy escrow_uid' with
      | Some e =>
          latest_created
            (filter (λ r, held_state (res_state r) = true ∧ escrow_uid r = Some e)
               (reservations d))
      | None =>
          match str_truthy resource_id with
          | Some rid =>
              bucket ← _bucket_by_backing_resource d rid;
              latest_created (holders d (capacity_bucket_id bucket))
          | None => None
          end
      end
  end.

(** ** Held quantities and conflicts *)

(** Whether a holding reservation counts against a window. *)
Definition counts_in_window (lease_start lease_end : option datetime) r : bool :=
  match lease_start, lease_end with
  | None, None => true
  | _, _ => _reservation_overlaps r lease_start lease_end
  end.

Fixpoint sum_dimensions (totals : amounts) (l : list CapacityReservation) : result amounts :=
  match l with
  | [] => Ok totals
  | r :: l => m ← _reservation_dimensions r mirror; sum_dimensions (accumulate totals m) l
  end.

Definition _held_dimensions d (resource_id : string)
    (lease_start lease_end : option datetime) : result amounts :=
  match _bucket_by_backing_resource d resource_id with
  | None => Ok ∅
  | Some bucket =>
      sum_dimensions ∅
        (filter (λ r, counts_in_window lease_start lease_end r = true)
           (holders d (capacity_bucket_id bucket)))
  end.

Definition _held_units d (resource_id : string)
    (lease_start lease_end : option datetime) : result Z :=
  held ← _held_dimensions d resource_id lease_start lease_end;
  Ok (dec_trunc (amount_at mirror held)).

Definition same_host (h h' : option value) : bool :=
  match h, h' with Some v, Some v' => py_eq v v' | _, _ => false end.

(** One holding reservation blocks a resource of the same physical host when
    either of the two is exclusive. *)
Definition blocks d (physical_host_id : option value) (mode : string)
    (lease_start lease_end : option datetime) (exclude : option string) r : bool :=
  bool_decide (Some (capacity_reservation_id r) ≠ exclude) &&
  match _bucket_for_reservation d (capacity_reservation_id r) with
  | None => false
  | Some held_resource =>
      same_host (_physical_host_id held_resource) physical_host_id &&
      match _allocation_mode held_resource with
      | None => false
      | Some held_mode =>
          _reservation_overlaps r lease_start lease_end &&
          (bool_decide (mode = ALLOCATION_MODE_EXCLUSIVE) ||
           bool_decide (held_mode = ALLOCATION_MODE_EXCLUSIVE))
      end
  end.

Definition _has_physical_host_conflict d (resource : CapacityBucket)
    (lease_start lease_end : option datetime) (exclude : option string) : bool :=
  match _physical_host_id resource, _allocation_mode resource with
  | Some h, Some mode =>
      existsb (blocks d (Some h) mode lease_start lease_end exclude)
        (filter (λ r, held_state (res_state r) = true) (reservations d))
  | _, _ => false
  end.

(** ** Pools and hosts *)

Definition _pool_declares_mode d (resource : CapacityBucket) (requested_mode : string)
    : result bool :=
  match bucket_pool_id resource ≫= λ p, pools d !! p with
  | None => Ok false
  | Some pool =>
      if pool_enabled pool then pool_delivers_offering_mode (pool_policy_tags pool) requested_mode
      else Ok false
  end.

Definition _pool_provider d (pool_id : option string) : option string :=
  p ← str_truthy pool_id; pool_provider <$> pools d !! p.

Definition _pool_delivers d (pool_id : option string) : bool :=
  match str_truthy pool_id ≫= λ p, pools d !! p with
  | None => true
  | Some pool =>
      match declared_deliverable_modes (pool_policy_tags pool) with
      | Ok modes => negb (bool_decide (modes = ∅))
      | Err _ => true
      end
  end.

Definition _deliverable_host_ids d : option (gset string) :=
  (λ f, f (ext d)) <$> cfg_deliverable_hosts cfg.

(** ** Candidates *)

Definition has_required_attributes (resource : CapacityBucket) : bool :=
  forallb (λ k, match dict_get k (attributes resource) with
                | VStr s => negb (bool_decide (py_strip s = ""%string))
                | _ => false
                end) (cfg_required_attributes cfg).

Inductive verdict : Type :=
  | Skip
  | Undeclared (pool_id : string)
  | Match (available : amounts).

(** The body of [_find_candidate]'s loop for one enabled row. *)
Definition judge_candidate d (claim : option dict) (requested : amounts)
    (requested_mode : option string) (lease_start lease_end : option datetime)
    (resource : CapacityBucket) : result verdict :=
  match str_truthy (bucket_pool_id resource) with
  | None => Ok Skip
  | Some pool_id =>
      if negb (has_required_attributes resource) then Ok Skip else
      let '(kind, attrs) := _split_claim_requirement claim (cfg_unit_claim_keys cfg) in
      cap ← _resource_capacity resource mirror;
      let fits m :=
        resource_satisfies_requirement (_resource_feasibility_view resource m mirror)
          kind requested attrs in
      if negb (fits cap) then Ok Skip else
      declared ← match requested_mode with
                 | None => Ok true
                 | Some mode => _pool_declares_mode d resource mode
                 end;
      if negb declared then Ok (Undeclared pool_id) else
      usable ← declaration_has_usable_host (bucket_host_id resource)
                 (_pool_provider d (Some pool_id)) true (cfg_host_requirement cfg)
                 (_deliverable_host_ids d);
      if negb usable then Ok Skip else
      held ← _held_dimensions d (backing_resource_id resource) lease_start lease_end;
      let available := difference_over (dom cap) cap held in
      if negb (fits available) then Ok Skip else
      if _has_physical_host_conflict d resource lease_start lease_end None then Ok Skip
      else Ok (Match available)
  end.

(** The first match, or the pools that matched without declaring the mode. *)
Fixpoint scan_candidates (judge : CapacityBucket → result verdict)
    (undeclared : gset string) (rows : list CapacityBucket)
    : result (CapacityBucket * amounts + gset string) :=
  match rows with
  | [] => Ok (inr undeclared)
  | resource :: rows =>
      v ← judge resource;
      match v with
      | Skip => scan_candidates judge undeclared rows
      | Undeclared p => scan_candidates judge ({[p]} ∪ undeclared) rows
      | Match available => Ok (inl (resource, available))
      end
  end.

Definition by_updated_at (rows : list CapacityBucket) : list CapacityBucket :=
  sort_by (λ b b', bucket_updated_at b <=? bucket_updated_at b') rows.

Definition enabled_rows d : list CapacityBucket :=
  by_updated_at (filter (λ b, enabled b = true) (buckets d)).

Definition _find_candidate d (claim : option dict) (requested : amounts)
    (lease_start lease_end : option datetime) : result (option (CapacityBucket * amounts)) :=
  requested_mode ← _requested_offering_mode claim false;
  found ← scan_candidates
            (judge_candidate d claim requested requested_mode lease_start lease_end)
            ∅ (enabled_rows d);
  match found with
  | inl m => Ok (Some m)
  | inr undeclared =>
      if bool_decide (undeclared = ∅) then Ok None
      else Err (UndeclaredOfferingModeError (sorted_names undeclared))
  end.
(** ** Payloads *)

Record reservation_payload : Type := {
  pl_capacity_reservation_id : string;
  pl_settlement_resource_id : option string;
  pl_units : Z;
  pl_dimensions : num_map;
  pl_state : ReservationState;
  pl_deal_ref : dict;
  pl_escrow_uid : option string;
  pl_hold_expires_at : option string;
  pl_offering_mode : option string;
  pl_executor_target : option string;
  pl_release_job_id : option string;
  pl_executor_ref : dict;
  pl_host_id : value;
  pl_lease_start_utc : option string;
  pl_lease_end_utc : option string;
  pl_create_job_id : option string;
  pl_claim_attributes : option dict;
  pl_failure_reason : option string;
  pl_failure_message : option string;
  pl_released_at : option string;
  pl_release_requested_at : option string;
  pl_activated_at_utc : option string;
}.

Definition _reservation_payload r : result reservation_payload :=
  dims ← _reservation_dimensions r mirror;
  Ok {| pl_capacity_reservation_id := capacity_reservation_id r;
        pl_settlement_resource_id := settlement_resource_id r;
        pl_units := units r;
        pl_dimensions := _serialize_dimensions dims;
        pl_state := res_state r;
        pl_deal_ref := deal_ref r;
        pl_escrow_uid := escrow_uid r;
        pl_hold_expires_at := hold_expires_at r;
        pl_offering_mode := offering_mode r;
        pl_executor_target := executor_target r;
        pl_release_job_id := release_job_id r;
        pl_executor_ref := default [] (executor_ref r);
        pl_host_id := dict_get "host_id" (default [] (executor_ref r));
        pl_lease_start_utc := lease_start_utc r;
        pl_lease_end_utc := lease_end_utc r;
        pl_create_job_id := create_job_id r;
        pl_claim_attributes := claim_attributes r;
        pl_failure_reason := failure_reason r;
        pl_failure_message := failure_message r;
        pl_released_at := released_at r;
        pl_release_requested_at := release_requested_at r;
        pl_activated_at_utc := activated_at_utc r |}.

(** The scalar fields and their [allocated_<mirror>]/[available_<mirror>]
    aliases carry the same numbers, so one field stands for each pair. *)
Record match_payload : Type := {
  mp_resource_id : string;
  mp_host_id : option string;
  mp_resource_subtype : option string;
  mp_value : option Z;
  mp_allocated_units : Z;
  mp_available_units : Z;
  mp_dimensions : num_map;
  mp_available : num_map;
  mp_capacity : num_map;
  mp_attributes : dict;
}.

Definition _match_payload (resource : CapacityBucket) (available requested : amounts)
    : result match_payload :=
  cap ← _resource_capacity resource mirror;
  Ok {| mp_resource_id := backing_resource_id resource;
        mp_host_id := bucket_host_id resource;
        mp_resource_subtype := resource_subtype resource;
        mp_value := total_units resource;
        mp_allocated_units := dec_trunc (amount_at mirror requested);
        mp_available_units := dec_trunc (amount_at mirror available);
        mp_dimensions := _serialize_dimensions requested;
        mp_available := _serialize_dimensions available;
        mp_capacity := _serialize_dimensions cap;
        mp_attributes := attributes resource |}.

(** What [reserve] returns: the hold an escrow already has, with the
    resource it is debited against, or the hold just made. *)
Inductive reserve_payload : Type :=
  | ExistingHold (payload : reservation_payload) (resource_id : option string)
  | FreshHold (payload : match_payload) (capacity_reservation_id : string)
      (settlement_resource_id hold_expires_at offering_mode : option string)
      (superseded : option string).

(** [_resource_payload] at one instant. *)
Definition resource_payload_at d (row : CapacityBucket) (now now' : datetime)
    : result resource_payload :=
  cap ← _resource_capacity row mirror;
  held ← _held_dimensions d (backing_resource_id row) (Some now) (Some now');
  let mirrored := bool_decide (is_Some (cap !! mirror)) in
  let blocked := _has_physical_host_conflict d row (Some now) (Some now') None in
  let available_map : amounts :=
    if blocked then (λ _, dec0) <$> cap
    else (λ a, dec_max a dec0) <$> difference_over (dom cap) cap held in
  let nothing_held := bool_decide (map_Forall (λ _ a, dec_ltb dec0 a = false) held) in
  let any_available := negb (bool_decide (map_Forall (λ _ a, dec_ltb dec0 a = false) available_map)) in
  let available :=
    if blocked then false
    else if mirrored then dec_ltb dec0 (amount_at mirror available_map) || nothing_held
    else nothing_held || any_available in
  Ok {| rp_resource_id := backing_resource_id row;
        rp_pool_id := bucket_pool_id row;
        rp_resource_type := resource_type row;
        rp_resource_subtype := resource_subtype row;
        rp_host_id := bucket_host_id row;
        rp_value := dec_trunc <$> cap !! mirror;
        rp_state := if available then "available" else "leased";
        rp_available_units := if mirrored then Some (dec_trunc (amount_at mirror available_map)) else None;
        rp_capacity := _serialize_dimensions cap;
        rp_available := _serialize_dimensions available_map;
        rp_attributes := attributes row;
        rp_enabled := enabled row |}.

Definition _resource_payload (row : CapacityBucket) : L resource_payload :=
  now ← now_utc env;
  d ← db;
  now' ← lift (dt_add_us now 1);
  lift (resource_payload_at d row now now').

(** ** Shared write steps *)

Definition add_capacity_event (kind : string) (resource_id : option string)
    (dims : option num_map) : L unit :=
  t ← db_now env;
  write (add_event kind resource_id dims t).

Definition _release_permitted (i : string) : L bool :=
  match cfg_release_guard cfg with
  | None => mret true
  | Some guard =>
      d ← db;
      let '(permitted, x) := guard d i in
      write (set_ext x);; mret permitted
  end.

Definition _run_release_effect (i : string) (state : ReservationState) : L unit :=
  match cfg_release_effect cfg with
  | None => mret tt
  | Some effect => d ← db; x ← lift (effect (ext d) i state); write (set_ext x)
  end.

Definition recorded_end d (i key : string) : bool :=
  bool_decide (Exists (λ e, lee_reservation_id e = i ∧ lee_transition_key e = key)
                 (lease_ends d)).

(** [context.get(key, fallback)]. *)
Definition context_or (context : dict) (key : string) (fallback : value) : value :=
  default fallback (alist_get key context).

Definition _record_lease_end r (transition_key : string) (context : dict)
    (cause : string) (reason : option string) : L unit :=
  d ← db;
  if recorded_end d (capacity_reservation_id r) transition_key then mret tt else
  event_id ← fresh_id env;
  now ← now_utc env;
  let payload :=
    {| lep_event_id := event_id;
       lep_reservation_id := capacity_reservation_id r;
       lep_site_id := cfg_site_id cfg;
       lep_effective_at := context_or context "effective_at" (VInt (timestamp_int now));
       lep_source_state := res_state r;
       lep_cause := context_or context "cause" (VStr cause);
       lep_reason := context_or context "reason" (opt_str reason);
       lep_caller := dict_get "caller" context;
       lep_claimed_deadline := dict_get "claimed_deadline" context;
       lep_deadline_phase := dict_get "deadline_phase" context |} in
  write (add_lease_end {| lee_reservation_id := capacity_reservation_id r;
                          lee_transition_key := transition_key;
                          lee_payload := payload |});;
  match cfg_lease_end_effect cfg with
  | None => mret tt
  | Some effect => d ← db; x ← lift (effect (ext d) payload); write (set_ext x)
  end.

(** ** Expiry *)

Definition lapse_context (expires : datetime) : dict :=
  [("effective_at", VInt (timestamp_int expires));
   ("claimed_deadline", VInt (timestamp_int expires));
   ("deadline_phase", VStr "reservation")]%string.

Definition lapsed_row (now : datetime) r : CapacityReservation :=
  set_failure_reason (Some "hold_expired"%string)
    (set_released_at (Some (isoformat now)) (set_res_state released r)).

Definition is_stale_hold r : bool :=
  bool_decide (res_state r = reserved) && bool_decide (is_Some (hold_expires_at r)).

(** One row of the sweep; [true] when it lapsed. *)
Definition lapse_hold (now : datetime) r : L bool :=
  match parse_utc (hold_expires_at r) with
  | None => mret false
  | Some expires =>
      if dt_ltb now expires then mret false else
      permitted ← _release_permitted (capacity_reservation_id r);
      if negb permitted then mret false else
      _record_lease_end r "end" (lapse_context expires) "hold_expired" None;;
      write (update_reservation (lapsed_row now r));;
      _run_release_effect (capacity_reservation_id r) released;;
      d ← db;
      add_capacity_event "released" (_backing_resource_id d (capacity_reservation_id r)) None;;
      mret true
  end.

Fixpoint lapse_holds (now : datetime) (rows : list CapacityReservation) (lapsed : bool) : L bool :=
  match rows with
  | [] => mret lapsed
  | r :: rows => b ← lapse_hold now r; lapse_holds now rows (b || lapsed)
  end.

Definition _expire_stale_holds : L unit :=
  now ← now_utc env;
  d ← db;
  lapsed ← lapse_holds now (filter (λ r, is_stale_hold r = true) (reservations d)) false;
  if (lapsed : bool) then commit_session else mret tt.

(** Every ledger operation runs in its own session under the lock. *)
Definition operation {A} (m : L A) : L A := serialized (in_session m).

Definition expire_due_holds : L unit := operation _expire_stale_holds.

(** ** Probe and reserve *)

Definition probe (claim : option dict) (lease_start : option string)
    (lease_duration_seconds : option Z) : L (option match_payload) :=
  lift (_requested_offering_mode claim true);;
  requested ← lift (_requested_dimensions claim (cfg_unit_claim_keys cfg) mirror);
  '(window_start, window_end) ← _lease_window env lease_start lease_duration_seconds None;
  operation (
    _expire_stale_holds;;
    d ← db;
    m ← lift (_find_candidate d claim requested window_start window_end);
    match m with
    | None => mret None
    | Some (resource, available) =>
        p ← lift (_match_payload resource available requested); mret (Some p)
    end).

(** [deal.get("escrow_uid")]: an escrow is named by a string. *)
Definition deal_escrow (deal : option dict) : option string :=
  match dict_get "escrow_uid" (default [] deal) with VStr s => Some s | _ => None end.

(** The TTL's expiry as stored. *)
Definition hold_expiry (ttl_seconds : option float) : L (option string) :=
  match ttl_seconds with
  | None => mret None
  | Some ttl =>
      now ← now_utc env;
      us ← lift (timedelta_of_float ttl);
      e ← lift (dt_add_us now us);
      mret (Some (isoformat e))
  end.

(** [db.add(row); db.flush()]: a primary key taken is an [IntegrityError]. *)
Definition insert_reservation_checked r : L unit :=
  d ← db;
  match get_reservation_row (capacity_reservation_id r) d with
  | Some _ => raise IntegrityError
  | None => write (insert_reservation r)
  end.

Definition insert_debit_checked (i : string) (x : CapacityReservationDebit) : L unit :=
  d ← db;
  match debits d !! i with
  | Some _ => raise IntegrityError
  | None => write (set_debit i x)
  end.

(** The row a matched claim becomes. *)
Definition hold_row (i : string) (requested : amounts) (claim_attrs : option dict)
    (deal : option dict) (expires_at mode : option string) (resource : CapacityBucket)
    (window_start window_end : option datetime) (created : Z) : CapacityReservation :=
  {| capacity_reservation_id := i;
     settlement_resource_id := None;
     units := dec_trunc (amount_at mirror requested);
     dimensions := Some (_serialize_dimensions requested);
     claim_attributes := claim_attrs;
     res_state := reserved;
     deal_ref := default [] deal;
     escrow_uid := deal_escrow deal;
     hold_expires_at := expires_at;
     offering_mode := mode;
     executor_target := None;
     release_job_id := None;
     executor_ref := _executor_ref_for_resource resource;
     lease_start_utc := isoformat <$> window_start;
     lease_end_utc := isoformat <$> window_end;
     create_job_id := None;
     failure_reason := None;
     failure_message := None;
     released_at := None;
     release_requested_at := None;
     activated_at_utc := None;
     created_at := created |}.

(** The write half shared by [reserve] and [resize_reservation]: the row, its
    debit, the event, the commit, and the returned payload. *)
Definition place_reservation (resource : CapacityBucket) (available requested : amounts)
    (claim_attrs deal : option dict) (mode expires_at : option string)
    (window_start window_end : option datetime) (superseded : option string)
    : L (option reserve_payload) :=
  i ← fresh_id env;
  created ← db_now env;
  let row := hold_row i requested claim_attrs deal expires_at mode resource
               window_start window_end created in
  insert_reservation_checked row;;
  insert_debit_checked i {| debit_bucket_id := capacity_bucket_id resource;
                            debit_dimensions := _serialize_dimensions requested |};;
  add_capacity_event "reserved" (Some (backing_resource_id resource))
    (Some (_serialize_dimensions (dec_neg <$> requested)));;
  commit_session;;
  p ← lift (_match_payload resource
              (difference_over (dom available ∪ dom requested) available requested) requested);
  mret (Some (FreshHold p i None expires_at
                (match superseded with None => mode | Some _ => None end) superseded)).

Definition reserve (claim deal_ref' : option dict) (ttl_seconds : option float)
    (lease_start : option string) (lease_duration_seconds : option Z)
    : L (option reserve_payload) :=
  requested ← lift (_requested_dimensions claim (cfg_unit_claim_keys cfg) mirror);
  requested_mode ← lift (_requested_offering_mode claim true);
  let claim_attrs := (_split_claim_requirement claim (cfg_unit_claim_keys cfg)).2 in
  let escrow := deal_escrow deal_ref' in
  '(window_start, window_end) ← _lease_window env lease_start lease_duration_seconds None;
  operation (
    _expire_stale_holds;;
    d ← db;
    let existing := match str_truthy escrow with
                    | Some e => _find_reservation d None (Some e) None
                    | None => None
                    end in
    match existing with
    | Some existing =>
        if bool_decide (offering_mode existing = requested_mode) then
          p ← lift (_reservation_payload existing);
          mret (Some (ExistingHold p (_backing_resource_id d (capacity_reservation_id existing))))
        else raise (CapacityConflictError "offering_mode")
    | None =>
        m ← lift (_find_candidate d claim requested window_start window_end);
        match m with
        | None => mret None
        | Some (resource, available) =>
            expires_at ← hold_expiry ttl_seconds;
            place_reservation resource available requested (Some claim_attrs) deal_ref'
              requested_mode expires_at window_start window_end None
        end
    end).

(** ** Commit *)

(** A reservation's first commit. *)
Definition leased_row (window_start window_end : option datetime) (lease_end : option string)
    (started_at : option string) r : CapacityReservation :=
  let r := set_res_state leased r in
  let r := if window_end then set_lease_end_utc lease_end r else r in
  let r := set_hold_expires_at None r in
  match window_start with
  | Some s => set_lease_start_utc (Some (isoformat s)) r
  | None =>
      match str_truthy (lease_start_utc r) with
      | Some _ => r
      | None => set_lease_start_utc started_at r
      end
  end.

Definition with_escrow (deal : option dict) r : CapacityReservation :=
  match str_truthy (deal_escrow deal), str_truthy (escrow_uid r) with
  | Some e, None => set_escrow_uid (Some e) r
  | _, _ => r
  end.

Definition needs_start (window_start : option datetime) r : bool :=
  match window_start, str_truthy (lease_start_utc r) with None, None => true | _, _ => false end.

Definition commit (resource_id capacity_reservation_id' lease_start lease_end : option string)
    (deal : option dict) : L (option reservation_payload) :=
  '(window_start, window_end) ← _lease_window env lease_start None lease_end;
  operation (
    d ← db;
    match _find_reservation d capacity_reservation_id' None
            (match str_truthy capacity_reservation_id' with
             | Some _ => None | None => resource_id end) with
    | None => mret None
    | Some r =>
        if negb (held_state (res_state r)) || bool_decide (res_state r ∈ _COMMIT_REFUSED_STATES)
        then raise (CapacityConflictError "cannot commit") else
        let r := with_escrow deal r in
        if bool_decide (res_state r = leased) then
          write (update_reservation r);;
          commit_session;;
          p ← lift (_reservation_payload r); mret (Some p)
        else
          started_at ← (if needs_start window_start r
                        then now ← now_utc env; mret (Some (isoformat now))
                        else mret None);
          let r := leased_row window_start window_end lease_end started_at r in
          write (update_reservation r);;
          d ← db;
          add_capacity_event "committed" (_backing_resource_id d (capacity_reservation_id r)) None;;
          commit_session;;
          p ← lift (_reservation_payload r); mret (Some p)
    end).

(** ** Release *)

Definition released_row (state : ReservationState) (now : datetime)
    (reason message : option string) r : CapacityReservation :=
  set_failure_message message (set_failure_reason reason
    (set_released_at (Some (isoformat now)) (set_res_state state r))).

(** [a or b]. *)
Definition str_or (a b : option string) : option string :=
  match str_truthy a with Some s => Some s | None => b end.

Definition is_released (s : ReservationState) : bool :=
  match s with released | force_released => true | _ => false end.

Definition release (capacity_reservation_id' : option string) (deal : option dict)
    (forced : bool) (reason message : option string) (end_context : dict)
    : L (option reservation_payload) :=
  let state := if forced then force_released else released in
  operation (
    d ← db;
    match _find_reservation d capacity_reservation_id'
            (match str_truthy capacity_reservation_id' with
             | Some _ => None | None => deal_escrow deal end) None with
    | None => mret None
    | Some r =>
        let i := capacity_reservation_id r in
        if is_released (res_state r) then
          _release_permitted i;;
          commit_session;;
          p ← lift (_reservation_payload r); mret (Some p)
        else if negb (held_state (res_state r)) then mret None
        else if negb forced && bool_decide (res_state r = unmanaged) then mret None
        else
          permitted ← (if forced then mret true else _release_permitted i);
          if negb permitted then mret None else
          _record_lease_end r (if forced then "force_release" else "end") end_context
            (if forced then "force_release" else "release") (str_or message reason);;
          now ← now_utc env;
          let r := released_row state now reason message r in
          write (update_reservation r);;
          _run_release_effect i state;;
          d ← db;
          dims ← lift (_reservation_dimensions r mirror);
          add_capacity_event "released" (_backing_resource_id d i)
            (Some (_serialize_dimensions dims));;
          commit_session;;
          p ← lift (_reservation_payload r); mret (Some p)
    end).

(** ** Resize *)

Definition resize_reservation (old_id : string) (new_claim deal : option dict)
    (ttl_seconds : option float) (lease_start : option string)
    (lease_duration_seconds : option Z) : L (option reserve_payload) :=
  requested ← lift (_requested_dimensions new_claim (cfg_unit_claim_keys cfg) mirror);
  requested_mode ← lift (_requested_offering_mode new_claim true);
  '(window_start, window_end) ← _lease_window env lease_start lease_duration_seconds None;
  operation (
    _expire_stale_holds;;
    d ← db;
    match get_reservation_row old_id d with
    | None => mret None
    | Some old =>
        if negb (held_state (res_state old)) then mret None else
        permitted ← _release_permitted old_id;
        if negb permitted then mret None else
        old_dimensions ← lift (_reservation_dimensions old mirror);
        let old_backing := _backing_resource_id d old_id in
        _record_lease_end old "end" [] "superseded" None;;
        now ← now_utc env;
        write (update_reservation
                 (set_failure_reason (Some "superseded"%string)
                    (set_released_at (Some (isoformat now)) (set_res_state released old))));;
        _run_release_effect old_id released;;
        add_capacity_event "released" old_backing
          (Some (_serialize_dimensions old_dimensions));;
        d ← db;
        m ← lift (_find_candidate d new_claim requested window_start window_end);
        match m with
        | None => rollback;; mret None
        | Some (resource, available) =>
            expires_at ← hold_expiry ttl_seconds;
            place_reservation resource available requested (claim_attributes old) deal
              requested_mode expires_at window_start window_end (Some old_id)
        end
    end).
End ledger.
