(* ===== verification/LedgerLifecycle.v ===== *)
(** The lease tail of [CapacityLedgerService]: assignment to a settlement
    resource, scheduling candidates, truncation, activation, the conditional
    release transitions, and the reads of reservations and events. *)
From S2P Require Import Prelude PyNum PyValue PyTime PoolDeclarations LedgerTypes.
From S2P Require Import LedgerMatching Ledger.

Local Open Scope Z_scope.

Section lifecycle.
Context {Ext : Type} (env : environment) (cfg : ledger_config Ext).

Abbreviation DBx := (DB Ext).
Abbreviation L := (M (world Ext)).
Abbreviation mirror := (cfg_mirror_dimension cfg).

Implicit Types (d : DBx) (r : CapacityReservation) (b : CapacityBucket).

(** Committing a changed row and returning its payload. *)
Definition save_and_return r : L (option reservation_payload) :=
  write (update_reservation r);;
  commit_session;;
  p ← lift (_reservation_payload cfg r); mret (Some p).

(** ** Assignment *)

Definition lacks_capacity (cap held dims : amounts) : bool :=
  bool_decide (¬ map_Forall
    (λ k a, dec_ltb (dec_sub (amount_at k cap) (amount_at k held)) a = false) dims).

(** The checks on a destination, in order. *)
Definition check_destination d (settlement_resource_id' : string) r : result CapacityBucket :=
  match _bucket_by_backing_resource d settlement_resource_id' with
  | None => Err (CapacityConflictError "unavailable")
  | Some destination =>
      if negb (enabled destination) then Err (CapacityConflictError "unavailable") else
      match str_truthy (bucket_pool_id destination) with
      | None => Err (CapacityConflictError "records no pool")
      | Some pool_id =>
          match str_truthy (offering_mode r) with
          | None => Err (CapacityConflictError "no executor identity")
          | Some mode =>
              declared ← _pool_declares_mode d destination mode;
              if negb declared then Err (UndeclaredOfferingModeError [pool_id]) else
              usable ← declaration_has_usable_host (bucket_host_id destination)
                         (_pool_provider d (Some pool_id)) true (cfg_host_requirement cfg)
                         (_deliverable_host_ids cfg d);
              if negb usable then Err (CapacityConflictError "no usable host")
              else Ok destination
          end
      end
  end.

Definition assign_settlement_resource_in_session (i settlement_resource_id' : string)
    : L (option reservation_payload) :=
  _require_serialized "assign_settlement_resource_in_session";;
  d ← db;
  match _find_reservation d (Some i) None None with
  | None => mret None
  | Some r =>
      if negb (held_state (res_state r)) then raise (CapacityConflictError "cannot assign") else
      destination ← lift (check_destination d settlement_resource_id' r);
      let i := capacity_reservation_id r in
      if bool_decide (_backing_resource_id d i = Some settlement_resource_id') then
        let r := set_settlement_resource_id (Some settlement_resource_id') r in
        write (update_reservation r);;
        p ← lift (_reservation_payload cfg r); mret (Some p)
      else
        dims ← lift (_reservation_dimensions r mirror);
        held ← lift (_held_dimensions cfg d settlement_resource_id' None None);
        cap ← lift (_resource_capacity destination mirror);
        if lacks_capacity cap held dims then raise (CapacityConflictError "lacks capacity") else
        let source_id := _backing_resource_id d i in
        match _debit_for_reservation d i with
        | None => raise (CapacityConflictError "has no capacity debit")
        | Some debit =>
            write (set_debit i {| debit_bucket_id := capacity_bucket_id destination;
                                  debit_dimensions := debit_dimensions debit |});;
            let r := set_executor_ref (_executor_ref_for_resource destination)
                       (set_settlement_resource_id (Some settlement_resource_id') r) in
            write (update_reservation r);;
            add_capacity_event env "capacity_released_for_reassignment" source_id
              (Some (_serialize_dimensions dims));;
            add_capacity_event env "capacity_assigned_for_settlement"
              (Some settlement_resource_id')
              (Some (_serialize_dimensions (dec_neg <$> dims)));;
            p ← lift (_reservation_payload cfg r); mret (Some p)
        end
  end.

Definition assign_settlement_resource (i settlement_resource_id' : string)
    : L (option reservation_payload) :=
  operation (
    _expire_stale_holds env cfg;;
    result ← assign_settlement_resource_in_session i settlement_resource_id';
    commit_session;;
    mret result).

(** ** Scheduling candidates *)

(** [available[key] = available.get(key, 0) + amount] for the reservation's
    own dimensions. *)
Definition credit_back (available own : amounts) : amounts := accumulate available own.

Definition scheduling_view d (now instant_end : datetime) (exclude : string)
    (own_backing : option string) (own : amounts) (resource : CapacityBucket)
    : result (option ResourceFeasibilityView) :=
  match str_truthy (bucket_pool_id resource) with
  | None => Ok None
  | Some _ =>
      if _has_physical_host_conflict d resource (Some now) (Some instant_end) (Some exclude)
      then Ok None else
      cap ← _resource_capacity resource mirror;
      held ← _held_dimensions cfg d (backing_resource_id resource) (Some now) (Some instant_end);
      let available := difference_over (dom cap) cap held in
      let available :=
        if bool_decide (Some (backing_resource_id resource) = own_backing)
        then credit_back available own else available in
      Ok (Some (_resource_feasibility_view resource available mirror))
  end.

Fixpoint scheduling_views (view : CapacityBucket → result (option ResourceFeasibilityView))
    (rows : list CapacityBucket) : result (list ResourceFeasibilityView) :=
  match rows with
  | [] => Ok []
  | b :: rows =>
      v ← view b; vs ← scheduling_views view rows;
      Ok (match v with Some v => v :: vs | None => vs end)
  end.

Definition own_dimensions_of d (exclude : string) : result amounts :=
  match get_reservation_row exclude d with
  | Some r => _reservation_dimensions r mirror
  | None => Ok ∅
  end.

Definition iter_scheduling_candidates_in_session (resource_kind exclude_reservation_id : string)
    : L (list ResourceFeasibilityView) :=
  now ← now_utc env;
  instant_end ← lift (dt_add_us now 1);
  d ← db;
  own ← lift (own_dimensions_of d exclude_reservation_id);
  let rows := sort_by (λ b b', string_leb (backing_resource_id b) (backing_resource_id b'))
    (filter (λ b, enabled b = true ∧ resource_type b = resource_kind) (buckets d)) in
  lift (scheduling_views
          (scheduling_view d now instant_end exclude_reservation_id
             (_backing_resource_id d exclude_reservation_id) own) rows).

(** ** Truncation and activation *)

Definition truncate_lease (i lease_end : string) : L (option reservation_payload) :=
  operation (
    d ← db;
    match _find_reservation d (Some i) None None with
    | None => mret None
    | Some r =>
        if negb (bool_decide (res_state r = leased)) then mret None else
        let current_end := parse_utc (lease_end_utc r) in
        match parse_utc (Some lease_end) with
        | None => mret None
        | Some new_end =>
            if match current_end with Some c => dt_ltb c new_end | None => false end
            then mret None
            else
              let r := set_lease_end_utc (Some lease_end) r in
              write (update_reservation r);;
              add_capacity_event env "lease_truncated"
                (_backing_resource_id d (capacity_reservation_id r)) None;;
              commit_session;;
              p ← lift (_reservation_payload cfg r); mret (Some p)
        end
    end).

Definition activate_lease (i : string) : L (option reservation_payload) :=
  operation (
    d ← db;
    match _find_reservation d (Some i) None None with
    | None => mret None
    | Some r =>
        if negb (bool_decide (res_state r = leased))
        then raise (CapacityConflictError "cannot activate") else
        match lease_end_utc r with
        | None => raise (CapacityConflictError "no lease tail; cannot activate")
        | Some _ =>
            match activated_at_utc r with
            | None =>
                now ← now_utc env;
                save_and_return (set_activated_at_utc (Some (isoformat now)) r)
            | Some _ => p ← lift (_reservation_payload cfg r); mret (Some p)
            end
        end
    end).

(** ** Release transitions *)

Definition is_due (now : datetime) r : bool :=
  bool_decide (res_state r = leased) &&
  match parse_utc (lease_end_utc r) with Some e => dt_leb e now | None => false end.

Definition list_lease_due (now : datetime) : L (list reservation_payload) :=
  operation (
    d ← db;
    lift (mapM_result (_reservation_payload cfg)
            (filter (λ r, is_due now r = true) (reservations d)))).

Definition with_release_job_id (release_job_id' : option string) r : CapacityReservation :=
  match release_job_id' with None => r | Some j => set_release_job_id (Some j) r end.

Definition begin_releasing (i : string) (release_job_id' : option string) (end_context : dict)
    : L (option reservation_payload) :=
  operation (
    d ← db;
    match get_reservation_row i d with
    | None => mret None
    | Some r =>
        if bool_decide (res_state r = releasing) then
          if match release_job_id', release_job_id r with
             | Some j, Some j' => negb (bool_decide (j = j'))
             | _, _ => false
             end
          then mret None
          else save_and_return (with_release_job_id release_job_id' r)
        else if negb (bool_decide (res_state r ∈ _BEGIN_RELEASING_FROM)) then mret None
        else
          _record_lease_end env cfg r "end" end_context "release" None;;
          now ← now_utc env;
          save_and_return
            (with_release_job_id release_job_id'
               (set_res_state releasing
                  (set_release_requested_at (Some (isoformat now)) r)))
    end).

Definition record_release_failed (i reason : string) (message release_job_id' : option string)
    (end_context : dict) : L (option reservation_payload) :=
  operation (
    d ← db;
    match get_reservation_row i d with
    | None => mret None
    | Some r =>
        if negb (bool_decide (res_state r ∈ _RECORD_RELEASE_FAILED_FROM)) then mret None
        else if bool_decide (res_state r = releasing) &&
                bool_decide (is_Some release_job_id') &&
                negb (bool_decide (release_job_id r = release_job_id'))
        then mret None
        else
          _record_lease_end env cfg r "release_failure" end_context "release_failed"
            (str_or message (Some reason));;
          save_and_return
            (set_failure_message message
               (set_failure_reason (Some reason) (set_res_state release_failed r)))
    end).

Definition record_unmanaged (i reason : string) (message : option string)
    : L (option reservation_payload) :=
  operation (
    d ← db;
    match get_reservation_row i d with
    | None => mret None
    | Some r =>
        if negb (bool_decide (res_state r = leased)) then mret None
        else save_and_return
               (set_failure_message message
                  (set_failure_reason (Some reason) (set_res_state unmanaged r)))
    end).

Definition record_create_handle_in_session (i create_job_id' : string)
    : L (option reservation_payload) :=
  d ← db;
  match get_reservation_row i d with
  | None => mret None
  | Some r =>
      if is_released (res_state r) then mret None else
      let r := match str_truthy (create_job_id r) with
               | None => set_create_job_id (Some create_job_id') r
               | Some _ => r
               end in
      write (update_reservation r);;
      p ← lift (_reservation_payload cfg r); mret (Some p)
  end.

(** [_sync_executor_fields] with the one argument this caller passes. *)
Definition _sync_executor_fields (target : string) r : result CapacityReservation :=
  match offering_mode r with
  | None => Err (CapacityConflictError "no executor identity")
  | Some _ => Ok (set_executor_target (Some target) r)
  end.

Definition record_executor_target_in_session (i target : string)
    : L (option reservation_payload) :=
  d ← db;
  match get_reservation_row i d with
  | None => mret None
  | Some r =>
      if is_released (res_state r) then mret None else
      r ← lift (match executor_target r with
                | None => _sync_executor_fields target r
                | Some _ => Ok r
                end);
      write (update_reservation r);;
      p ← lift (_reservation_payload cfg r); mret (Some p)
  end.

(** ** Reads *)

(** [LIMIT n]: a negative limit is no limit. *)
Definition sql_limit {A} (n : Z) (l : list A) : list A :=
  if n <? 0 then l else take (Z.to_nat n) l.

Definition events_page d (after_version limit : Z) : list CapacityEvent * Z :=
  (sql_limit limit (filter (λ e, after_version < version e) (events d)), latest_version d).

Definition events_after (after_version limit : Z) : L (list CapacityEvent * Z) :=
  operation (d ← db; mret (events_page d after_version limit)).

Definition payload_of (o : option CapacityReservation) : result (option reservation_payload) :=
  match o with
  | Some r => p ← _reservation_payload cfg r; Ok (Some p)
  | None => Ok None
  end.

Definition get_reservation (i : string) : L (option reservation_payload) :=
  operation (d ← db; lift (payload_of (get_reservation_row i d))).

Definition get_reservation_by_escrow (escrow : string) : L (option reservation_payload) :=
  operation (d ← db; lift (payload_of (_find_reservation d None (Some escrow) None))).

Definition get_reservation_backing_resource_id (i : string) : L (option string) :=
  operation (d ← db; mret (_backing_resource_id d i)).

Definition in_state (state : option ReservationState) r : bool :=
  match state with None => true | Some s => bool_decide (res_state r = s) end.

Definition list_reservations (state : option ReservationState) : L (list reservation_payload) :=
  operation (
    d ← db;
    lift (mapM_result (_reservation_payload cfg)
            (sort_by (λ r r', created_at r <=? created_at r')
               (filter (λ r, in_state state r = true) (reservations d))))).

Definition lease_end_events (i : string) : L (list lease_end_payload) :=
  operation (
    d ← db;
    mret (lee_payload <$>
          sort_by (λ e e', string_leb (lep_event_id (lee_payload e))
                                      (lep_event_id (lee_payload e')))
            (filter (λ e, lee_reservation_id e = i) (lease_ends d)))).
End lifecycle.
