(* ===== verification/LedgerRegistry.v ===== *)
(** The declaration half of [CapacityLedgerService]: registering a capacity
    declaration, comparing one with what is stored, and the views the site
    offers.  [CapacityDeclaration] is [market_site/declarations.py]. *)
From S2P Require Import Prelude PyNum PyValue PyTime PoolDeclarations LedgerTypes.
From S2P Require Import LedgerMatching Ledger.

Local Open Scope Z_scope.

(** ** Declarations *)

Record CapacityDeclaration : Type := {
  decl_resource_id : string;
  decl_pool_id : string;
  decl_resource_type : string;
  decl_resource_subtype : option string;
  decl_host_id : option string;
  decl_capacity : amounts;
  decl_attributes : dict;
  decl_enabled : bool;
}.

Definition IDENTITY_FIELDS : list string :=
  ["resource_id"; "pool_id"; "host_id"; "resource_type"; "resource_subtype"].

(** [_declared_amount]: a number, never a string that spells one. *)
Definition _declared_amount (v : value) (label : string) : result decimal :=
  match v with
  | VNum n =>
      match dec_of_num n with
      | Some a => if dec_ltb a dec0 then Err (ValueError label) else Ok a
      | None => Err (ValueError label)
      end
  | _ => Err (ValueError label)
  end.

Definition non_empty_text (s : string) : bool := negb (bool_decide (s = ""%string)).
Definition non_empty_opt (s : option string) : bool :=
  match s with Some s => non_empty_text s | None => true end.

(** The declaration's own validation: non-empty identity fields and names, at
    least one dimension, and no attribute that restates an identity field. *)
Definition make_declaration (resource_id pool_id resource_type' : string)
    (subtype host_id : option string) (cap attrs : dict) (enabled' : bool)
    : result CapacityDeclaration :=
  if negb (non_empty_text resource_id && non_empty_text pool_id &&
           non_empty_text resource_type' && non_empty_opt subtype && non_empty_opt host_id &&
           forallb (λ kv, non_empty_text kv.1) cap && forallb (λ kv, non_empty_text kv.1) attrs)
  then Err (ValueError "string_too_short")
  else if bool_decide (cap = []) then Err (ValueError "too_short")
  else if existsb (λ kv, bool_decide (kv.1 ∈ IDENTITY_FIELDS)) attrs
  then Err (ValueError "reserved_attribute")
  else
    c ← amounts_of _declared_amount cap;
    Ok {| decl_resource_id := resource_id; decl_pool_id := pool_id;
          decl_resource_type := resource_type'; decl_resource_subtype := subtype;
          decl_host_id := host_id; decl_capacity := c; decl_attributes := attrs;
          decl_enabled := enabled' |}.

(** ** Comparing columns *)

Definition amounts_eqb (a b : amounts) : bool :=
  bool_decide (dom a = dom b) &&
  bool_decide (map_Forall (λ k x, dec_eqb x (amount_at k b) = true) a).

Definition num_map_eqb (a b : num_map) : bool :=
  bool_decide (dom a = dom b) &&
  bool_decide (map_Forall (λ k x, num_eqb x (default (NInt 0) (b !! k)) = true) a).

Section registry.
Context {Ext : Type} (env : environment) (cfg : ledger_config Ext).

Abbreviation DBx := (DB Ext).
Abbreviation L := (M (world Ext)).
Abbreviation mirror := (cfg_mirror_dimension cfg).

Implicit Types (d : DBx) (r : CapacityReservation) (b : CapacityBucket).

(** ** Storing a declaration *)

(** [_write_declaration]: every declared field, [total_units] mirroring the
    mirror dimension when the declaration names it. *)
Definition _write_declaration b (decl : CapacityDeclaration) : CapacityBucket :=
  {| capacity_bucket_id := capacity_bucket_id b;
     backing_resource_id := backing_resource_id b;
     bucket_pool_id := Some (decl_pool_id decl);
     bucket_host_id := decl_host_id decl;
     resource_type := decl_resource_type decl;
     resource_subtype := decl_resource_subtype decl;
     total_units := dec_trunc <$> decl_capacity decl !! mirror;
     capacity := _serialize_dimensions (decl_capacity decl);
     attributes := decl_attributes decl;
     enabled := decl_enabled decl;
     bucket_updated_at := bucket_updated_at b |}.

(** Flushing a row: only columns whose value changed are written, and
    [updated_at] moves only when one did. *)
Definition flush_bucket (old new : CapacityBucket) (now : Z) : CapacityBucket :=
  let same_capacity := num_map_eqb (capacity old) (capacity new) in
  let same_attributes := py_eq (VDict (attributes old)) (VDict (attributes new)) in
  let unchanged :=
    bool_decide (bucket_pool_id old = bucket_pool_id new) &&
    bool_decide (bucket_host_id old = bucket_host_id new) &&
    bool_decide (resource_type old = resource_type new) &&
    bool_decide (resource_subtype old = resource_subtype new) &&
    bool_decide (total_units old = total_units new) &&
    bool_decide (enabled old = enabled new) && same_capacity && same_attributes in
  {| capacity_bucket_id := capacity_bucket_id old;
     backing_resource_id := backing_resource_id old;
     bucket_pool_id := bucket_pool_id new;
     bucket_host_id := bucket_host_id new;
     resource_type := resource_type new;
     resource_subtype := resource_subtype new;
     total_units := total_units new;
     capacity := if same_capacity then capacity old else capacity new;
     attributes := if same_attributes then attributes old else attributes new;
     enabled := enabled new;
     bucket_updated_at := if unchanged then bucket_updated_at old else now |}.

(** A row about to be inserted, before its declared fields are written. *)
Definition blank_bucket (i resource_id : string) (now : Z) : CapacityBucket :=
  {| capacity_bucket_id := i; backing_resource_id := resource_id; bucket_pool_id := None;
     bucket_host_id := None; resource_type := "compute.gpu"; resource_subtype := None;
     total_units := None; capacity := ∅; attributes := []; enabled := true;
     bucket_updated_at := now |}.

Definition assigned_to d (resource_id : string) : list CapacityReservation :=
  filter (λ r, held_state (res_state r) &&
               bool_decide (settlement_resource_id r = Some resource_id) = true)
    (reservations d).

(** [_refuse_reassignment_under_obligation]. *)
Definition under_obligation d b : bool :=
  negb (bool_decide (holders d (capacity_bucket_id b) = []%list)) ||
  negb (bool_decide (assigned_to d (backing_resource_id b) = []%list)).

Definition host_holder d (host_id : string) : option CapacityBucket :=
  find_by bucket_host_id (Some host_id) (buckets d).

(** Another resource is already declared on the host. *)
Definition host_taken d (decl : CapacityDeclaration) : bool :=
  match decl_host_id decl ≫= host_holder d with
  | Some holder => negb (bool_decide (backing_resource_id holder = decl_resource_id decl))
  | None => false
  end.

(** The declaration would move an obligated resource to another pool. *)
Definition moves_obligated d (decl : CapacityDeclaration) (bucket : option CapacityBucket) : bool :=
  match bucket with
  | Some b =>
      negb (bool_decide (bucket_pool_id b = Some (decl_pool_id decl))) && under_obligation d b
  | None => false
  end.

(** What only stored state can refuse. *)
Definition registration_refusal d (decl : CapacityDeclaration) (bucket : option CapacityBucket)
    : option py_error :=
  if host_taken d decl then Some (CapacityConflictError "host already carries a resource")
  else if moves_obligated d decl bucket then Some (CapacityConflictError "cannot move pools")
  else None.

Definition capacity_delta (new old : amounts) : amounts :=
  difference_over (dom new ∪ dom old) new old.

Definition insert_bucket_checked b : L unit :=
  d ← db;
  match get_bucket_row (capacity_bucket_id b) d with
  | Some _ => raise IntegrityError
  | None => write (insert_bucket b)
  end.

Definition register_declaration_in_session (decl : CapacityDeclaration) : L resource_payload :=
  _require_serialized "register_declaration_in_session";;
  d ← db;
  match pools d !! decl_pool_id decl with
  | None => raise (UnknownPoolError (decl_pool_id decl))
  | Some _ =>
      let bucket := _bucket_by_backing_resource d (decl_resource_id decl) in
      old_capacity ← lift (match bucket with
                           | Some b => _resource_capacity b mirror
                           | None => Ok ∅
                           end);
      match registration_refusal d decl bucket with
      | Some e => raise e
      | None =>
          let delta := capacity_delta (decl_capacity decl) old_capacity in
          now ← db_now env;
          stored ←
            match bucket with
            | None =>
                i ← fresh_id env;
                let b := _write_declaration (blank_bucket i (decl_resource_id decl) now) decl in
                insert_bucket_checked b;; mret b
            | Some old =>
                let b := flush_bucket old (_write_declaration old decl) now in
                write (update_bucket b);; mret b
            end;
          add_capacity_event env
            (match bucket with
             | None => "released"%string
             | Some old => _capacity_change_kind delta (Some (enabled old)) (decl_enabled decl)
             end)
            (Some (decl_resource_id decl)) (Some (_serialize_dimensions delta));;
          _resource_payload env cfg stored
      end
  end.

(** The declared dimensions of a registration request. *)
Definition requested_capacity (total_units' : option Z) (cap : option dict) : result dict :=
  match cap, total_units' with
  | Some ((_ :: _) as dimensions'), _ =>
      match total_units', alist_get mirror dimensions' with
      | Some n, Some v =>
          supplied ← _to_decimal_nonneg v mirror;
          if dec_eqb supplied (dec_of_Z n) then Ok dimensions'
          else Err (ValueError "disagrees with total_units")
      | _, _ => Ok dimensions'
      end
  | _, Some n => Ok [(mirror, VInt n)]
  | _, None => Err (ValueError "a capacity declaration must name at least one dimension")
  end.

Definition register_resource_in_session (resource_id pool_id : string) (total_units' : option Z)
    (resource_type' : string) (subtype : option string) (attrs cap : option dict)
    (enabled' : bool) (host_id : option string) : L resource_payload :=
  _require_serialized "register_resource_in_session";;
  if bool_decide (pool_id = ""%string) then raise (ValueError "pool_id") else
  dimensions' ← lift (requested_capacity total_units' cap);
  decl ← lift (make_declaration resource_id pool_id resource_type' subtype host_id
                 dimensions' (default [] attrs) enabled');
  register_declaration_in_session decl.

Definition register_resource (resource_id pool_id : string) (total_units' : option Z)
    (resource_type' : string) (subtype : option string) (attrs cap : option dict)
    (enabled' : bool) (host_id : option string) : L resource_payload :=
  operation (
    payload ← register_resource_in_session resource_id pool_id total_units' resource_type'
                subtype attrs cap enabled' host_id;
    commit_session;;
    mret payload).

(** ** Comparing with what is stored *)

Definition declaration_eqb b (stored_capacity : amounts) (decl : CapacityDeclaration) : bool :=
  bool_decide (backing_resource_id b = decl_resource_id decl) &&
  bool_decide (bucket_pool_id b = Some (decl_pool_id decl)) &&
  bool_decide (resource_type b = decl_resource_type decl) &&
  bool_decide (resource_subtype b = decl_resource_subtype decl) &&
  bool_decide (bucket_host_id b = decl_host_id decl) &&
  amounts_eqb stored_capacity (decl_capacity decl) &&
  py_eq (VDict (attributes b)) (VDict (decl_attributes decl)) &&
  Bool.eqb (enabled b) (decl_enabled decl).

Definition declaration_change_in_session d (decl : CapacityDeclaration) : result string :=
  match _bucket_by_backing_resource d (decl_resource_id decl) with
  | None => Ok "created"%string
  | Some b =>
      c ← _resource_capacity b mirror;
      Ok (if declaration_eqb b c decl then "unchanged" else "updated")%string
  end.

(** ** What the site offers *)

Fixpoint resource_payloads (rows : list CapacityBucket) : L (list resource_payload) :=
  match rows with
  | [] => mret []
  | b :: rows => p ← _resource_payload env cfg b; ps ← resource_payloads rows; mret (p :: ps)
  end.

Definition list_resources : L (list resource_payload) :=
  operation (
    _expire_stale_holds env cfg;;
    d ← db;
    resource_payloads (by_updated_at (buckets d))).

Definition set_payload_enabled (e : bool) (p : resource_payload) : resource_payload :=
  {| rp_resource_id := rp_resource_id p; rp_pool_id := rp_pool_id p;
     rp_resource_type := rp_resource_type p; rp_resource_subtype := rp_resource_subtype p;
     rp_host_id := rp_host_id p; rp_value := rp_value p; rp_state := rp_state p;
     rp_available_units := rp_available_units p; rp_capacity := rp_capacity p;
     rp_available := rp_available p; rp_attributes := rp_attributes p; rp_enabled := e |}.

(** The host rule applied to one enabled declaration of the list. *)
Definition offer d (row : CapacityBucket) (p : resource_payload) : result resource_payload :=
  if negb (rp_enabled p) then Ok p else
  usable ← declaration_has_usable_host (bucket_host_id row)
             (_pool_provider d (bucket_pool_id row)) (_pool_delivers d (bucket_pool_id row))
             (cfg_host_requirement cfg) (_deliverable_host_ids cfg d);
  Ok (set_payload_enabled usable p).

Definition list_offered_resources : L (list resource_payload) :=
  operation (
    _expire_stale_holds env cfg;;
    d ← db;
    let rows := by_updated_at (buckets d) in
    payloads ← resource_payloads rows;
    match cfg_host_requirement cfg with
    | None => mret payloads
    | Some _ => lift (mapM_result (λ p, offer d p.1 p.2) (zip rows payloads))
    end).

Definition snapshot : L (list resource_payload) :=
  offered ← list_offered_resources;
  mret (filter (λ p, rp_enabled p = true) offered).
End registry.
