(* ===== verification/LedgerSpec.v ===== *)
(** The site ledger's abstract specification: what one write may do to the
    database, as a labelled step relation, and the facts about rows, windows
    and admission it is stated with.  [LedgerTrack] shows that every operation
    performs only such steps. *)
From S2P Require Import Prelude PyNum PyValue PyTime PyTimeFacts PoolDeclarations LedgerTypes.
From S2P Require Import LedgerMatching Ledger LedgerLifecycle LedgerRegistry.
From stdpp Require Export relations.

Local Open Scope Z_scope.

(** ** Reservation rows *)

(** The edges of the reservation state machine, an update in place included.
    Nothing leaves [released] or [force_released]. *)
Definition state_edge (s s' : ReservationState) : bool :=
  held_state s &&
  match s' with
  | reserved => bool_decide (s = reserved)
  | leased => bool_decide (s ∈ [reserved; leased])
  | releasing => bool_decide (s ∈ releasing :: _BEGIN_RELEASING_FROM)
  | release_failed => bool_decide (s ∈ release_failed :: _RECORD_RELEASE_FAILED_FROM)
  | unmanaged => bool_decide (s ∈ [leased; unmanaged])
  | released | force_released => true
  end.

Arguments state_edge : simpl never.

(** One update of a row: what was agreed when the capacity was reserved is
    kept, the state moves along an edge, and what is recorded once stays. *)
Record row_step (r r' : CapacityReservation) : Prop := {
  rs_id : capacity_reservation_id r' = capacity_reservation_id r;
  rs_units : units r' = units r;
  rs_dimensions : dimensions r' = dimensions r;
  rs_claim : claim_attributes r' = claim_attributes r;
  rs_deal : deal_ref r' = deal_ref r;
  rs_mode : offering_mode r' = offering_mode r;
  rs_created : created_at r' = created_at r;
  rs_edge : state_edge (res_state r) (res_state r') = true;
  rs_activated : ∀ x, activated_at_utc r = Some x → activated_at_utc r' = Some x;
  rs_escrow : ∀ e, str_truthy (escrow_uid r) = Some e → escrow_uid r' = escrow_uid r;
  rs_target : ∀ x, executor_target r = Some x → executor_target r' = Some x;
  rs_job : ∀ j, str_truthy (create_job_id r) = Some j → create_job_id r' = create_job_id r;
}.

(** Whether an instant lies in a half-open window, [None] unbounded. *)
Definition in_window (start end_ : option datetime) (t : Z) : Prop :=
  match start with Some s => instant s <= t | None => True end ∧
  match end_ with Some e => t < instant e | None => True end.

(** A window [isoformat] renders faithfully. *)
Definition window_valid (start end_ : option datetime) : Prop :=
  (∀ d, start = Some d → valid_datetime d) ∧ (∀ d, end_ = Some d → valid_datetime d).

(** The instants a row's lease window covers. *)
Definition covers (r : CapacityReservation) (t : Z) : Prop :=
  in_window (parse_utc (lease_start_utc r)) (parse_utc (lease_end_utc r)) t.

Definition window_kept (r r' : CapacityReservation) : Prop := ∀ t, covers r' t → covers r t.

(** ** Labels *)

Inductive label : Type :=
  | LExt
  | LEvent (kind : string)
  | LEnd (i key : string)
  | LRow (r r' : CapacityReservation)
  | LHold (r : CapacityReservation)
  | LRebind (i bucket_id : string)
  | LNewBucket (b : CapacityBucket)
  | LBucket (old new : CapacityBucket).

Section spec.
Context {Ext : Type} (cfg : ledger_config Ext).

Implicit Types (d : DB Ext) (r : CapacityReservation) (b : CapacityBucket).

(** Everything the admission predicate asks of the row it selects. *)
Record admitted d (claim : option dict) (requested : amounts)
    (ws we : option datetime) b (available : amounts) : Prop := {
  ad_row : b ∈ buckets d;
  ad_enabled : enabled b = true;
  ad_pool : is_Some (str_truthy (bucket_pool_id b));
  ad_attributes : has_required_attributes cfg b = true;
  ad_mode : ∃ mode, _requested_offering_mode claim false = Ok mode ∧
    ∀ m, mode = Some m → _pool_declares_mode d b m = Ok true;
  ad_host : declaration_has_usable_host (bucket_host_id b)
    (_pool_provider d (str_truthy (bucket_pool_id b))) true (cfg_host_requirement cfg)
    (_deliverable_host_ids cfg d) = Ok true;
  ad_available : ∃ cap held,
    _resource_capacity b (cfg_mirror_dimension cfg) = Ok cap ∧
    _held_dimensions cfg d (backing_resource_id b) ws we = Ok held ∧
    available = difference_over (dom cap) cap held;
  ad_fits : resource_satisfies_requirement
    (_resource_feasibility_view b available (cfg_mirror_dimension cfg))
    (_split_claim_requirement claim (cfg_unit_claim_keys cfg)).1 requested
    (_split_claim_requirement claim (cfg_unit_claim_keys cfg)).2 = true;
  ad_conflict : _has_physical_host_conflict d b ws we None = false;
}.

(** What a reassignment asks of its destination. *)
Record rebindable d r (dest : CapacityBucket) : Prop := {
  rb_row : dest ∈ buckets d;
  rb_found : _bucket_by_backing_resource d (backing_resource_id dest) = Some dest;
  rb_held : r ∈ reservations d ∧ held_state (res_state r) = true;
  rb_moves : _backing_resource_id d (capacity_reservation_id r) ≠
             Some (backing_resource_id dest);
  rb_checked : check_destination cfg d (backing_resource_id dest) r = Ok dest;
  rb_room : ∃ cap held dims,
    _resource_capacity dest (cfg_mirror_dimension cfg) = Ok cap ∧
    _held_dimensions cfg d (backing_resource_id dest) None None = Ok held ∧
    _reservation_dimensions r (cfg_mirror_dimension cfg) = Ok dims ∧
    lacks_capacity cap held dims = false;
}.

(** No other resource is declared on the host. *)
Definition host_free d (host_id : option string) (resource_id : string) : Prop :=
  ∀ holder, host_id ≫= host_holder d = Some holder → backing_resource_id holder = resource_id.

Inductive ledger_step : label → DB Ext → DB Ext → Prop :=
  | st_ext d x : ledger_step LExt d (set_ext x d)
  | st_event d k rid dims t : ledger_step (LEvent k) d (add_event k rid dims t d)
  | st_end d e :
      recorded_end d (lee_reservation_id e) (lee_transition_key e) = false →
      ledger_step (LEnd (lee_reservation_id e) (lee_transition_key e)) d (add_lease_end e d)
  | st_row d r r' :
      get_reservation_row (capacity_reservation_id r) d = Some r →
      row_step r r' →
      ledger_step (LRow r r') d (update_reservation r' d)
  | st_hold d i claim requested attrs deal expires mode b available ws we created :
      get_reservation_row i d = None →
      debits d !! i = None →
      admitted d claim requested ws we b available →
      window_valid ws we →
      ledger_step
        (LHold (hold_row cfg i requested attrs deal expires mode b ws we created)) d
        (set_debit i {| debit_bucket_id := capacity_bucket_id b;
                        debit_dimensions := _serialize_dimensions requested |}
           (insert_reservation
              (hold_row cfg i requested attrs deal expires mode b ws we created) d))
  | st_rebind d r dest debit :
      debits d !! capacity_reservation_id r = Some debit →
      get_reservation_row (capacity_reservation_id r) d = Some r →
      rebindable d r dest →
      ledger_step (LRebind (capacity_reservation_id r) (capacity_bucket_id dest)) d
        (set_debit (capacity_reservation_id r)
           {| debit_bucket_id := capacity_bucket_id dest;
              debit_dimensions := debit_dimensions debit |} d)
  | st_new_bucket d b :
      get_bucket_row (capacity_bucket_id b) d = None →
      _bucket_by_backing_resource d (backing_resource_id b) = None →
      host_free d (bucket_host_id b) (backing_resource_id b) →
      is_Some (bucket_pool_id b ≫= λ p, pools d !! p) →
      ledger_step (LNewBucket b) d (insert_bucket b d)
  | st_bucket d old new :
      _bucket_by_backing_resource d (backing_resource_id old) = Some old →
      capacity_bucket_id new = capacity_bucket_id old →
      backing_resource_id new = backing_resource_id old →
      host_free d (bucket_host_id new) (backing_resource_id old) →
      is_Some (bucket_pool_id new ≫= λ p, pools d !! p) →
      (bucket_pool_id new = bucket_pool_id old ∨ under_obligation d old = false) →
      ledger_step (LBucket old new) d (update_bucket new d).

(** Steps whose label is allowed, and any number of them. *)
Definition allowed_step (allowed : label → Prop) d d' : Prop :=
  ∃ l, allowed l ∧ ledger_step l d d'.

Definition steps (allowed : label → Prop) : relation (DB Ext) := rtc (allowed_step allowed).

Definition any_label (l : label) : Prop := True.
End spec.

(** * Well-formedness of the ledger's tables, and that every step of the
    abstract specification keeps it. *)

(** A debit row belongs to a stored reservation, names a stored bucket and
    repeats the reservation's quantities. *)
Definition debit_matches (l : list CapacityReservation) (bs : list CapacityBucket)
    (i : string) (x : CapacityReservationDebit) : Prop :=
  (∃ b, b ∈ bs ∧ capacity_bucket_id b = debit_bucket_id x) ∧
  (∃ r, r ∈ l ∧ capacity_reservation_id r = i ∧
        debit_dimensions x = default ∅ (dimensions r)).

(** Two rows declared on one host are the same row. *)
Definition hosts_unique (bs : list CapacityBucket) : Prop :=
  ∀ b b', b ∈ bs → b' ∈ bs → is_Some (bucket_host_id b) →
  bucket_host_id b = bucket_host_id b' → b = b'.

Record db_wf {Ext} (d : DB Ext) : Prop := {
  wf_ids : NoDup (capacity_reservation_id <$> reservations d);
  wf_bucket_ids : NoDup (capacity_bucket_id <$> buckets d);
  wf_backing : NoDup (backing_resource_id <$> buckets d);
  wf_hosts : hosts_unique (buckets d);
  wf_pools : ∀ b p, b ∈ buckets d → bucket_pool_id b = Some p → is_Some (pools d !! p);
  wf_debited : ∀ r, r ∈ reservations d → is_Some (debits d !! capacity_reservation_id r);
  wf_debits : ∀ i x, debits d !! i = Some x → debit_matches (reservations d) (buckets d) i x;
  wf_events : version <$> events d = seqZ 1 (Z.of_nat (length (events d)));
  wf_ends : NoDup ((λ e, (lee_reservation_id e, lee_transition_key e)) <$> lease_ends d);
}.

Section wf.
Context {Ext : Type} (cfg : ledger_config Ext).
Implicit Types d : DB Ext.

Lemma get_row_in d i r :
  get_reservation_row i d = Some r → r ∈ reservations d ∧ capacity_reservation_id r = i.
Proof. apply find_by_Some. Qed.

Lemma row_in_get d r :
  db_wf d → r ∈ reservations d → get_reservation_row (capacity_reservation_id r) d = Some r.
Proof. intros ??. by apply find_by_elem; [apply wf_ids|]. Qed.

Lemma latest_created_in l r : latest_created l = Some r → r ∈ l.
Proof.
  unfold latest_created. intros H. rewrite <- (elem_of_sort_by (λ r r', created_at r' <=? created_at r)).
  destruct (sort_by _ l); [done|]. injection H as ->. set_solver.
Qed.

Lemma find_reservation_in d i e rid r :
  _find_reservation d i e rid = Some r → r ∈ reservations d.
Proof.
  unfold _find_reservation. destruct (str_truthy i) as [i'|]; [by intros [? _]%get_row_in|].
  destruct (str_truthy e) as [e'|].
  { intros H%latest_created_in. by apply list_elem_of_filter in H as [_ ?]. }
  destruct (str_truthy rid) as [rid'|]; [|done].
  destruct (_bucket_by_backing_resource d rid') as [b|]; [|done]. simpl.
  intros H%latest_created_in. by apply list_elem_of_filter in H as [_ ?].
Qed.

Lemma bucket_found_in d i b :
  _bucket_by_backing_resource d i = Some b → b ∈ buckets d ∧ backing_resource_id b = i.
Proof. apply find_by_Some. Qed.

Lemma latest_version_wf d :
  version <$> events d = seqZ 1 (Z.of_nat (length (events d))) →
  latest_version d = Z.of_nat (length (events d)).
Proof.
  unfold latest_version. generalize (events d) as l. intros l.
  destruct l as [|e l] using rev_ind; [done|]. clear IHl.
  rewrite last_snoc, fmap_app, length_app. simpl. intros H.
  assert (Z.of_nat (length l + 1) = Z.of_nat (length l) + 1) as E by lia. rewrite E in *.
  rewrite seqZ_app in H by lia. apply app_inj_2 in H as [_ H]; [|done].
  simpl in H. injection H as ->. lia.
Qed.

Lemma wf_add_event k rid dims t d : db_wf d → db_wf (add_event k rid dims t d).
Proof.
  intros []. split; simpl; try done.
  rewrite fmap_app, length_app, wf_events0. simpl. rewrite latest_version_wf by done.
  replace (Z.of_nat (length (events d) + 1)) with (Z.of_nat (length (events d)) + 1) by lia.
  rewrite seqZ_app by lia. f_equal. simpl. rewrite seqZ_cons by lia. simpl. f_equal. lia.
Qed.

Lemma wf_set_ext x d : db_wf d → db_wf (set_ext x d).
Proof. by intros []. Qed.

Lemma wf_add_lease_end e d :
  recorded_end d (lee_reservation_id e) (lee_transition_key e) = false →
  db_wf d → db_wf (add_lease_end e d).
Proof.
  intros Hrec []. split; simpl; try done. rewrite fmap_app.
  apply NoDup_app. split; [done|]. split; [|apply NoDup_singleton].
  intros k Hk ->%list_elem_of_singleton. apply list_elem_of_fmap in Hk as (e' & Heq & He').
  unfold recorded_end in Hrec. apply bool_decide_eq_false in Hrec. apply Hrec.
  apply Exists_exists. exists e'. split; [done|]. by injection Heq as -> ->.
Qed.

Lemma wf_update_reservation r r' d :
  get_reservation_row (capacity_reservation_id r) d = Some r → row_step r r' →
  db_wf d → db_wf (update_reservation r' d).
Proof.
  intros [Hr _]%get_row_in Hstep []. split; simpl; try done.
  - by rewrite replace_by_keys.
  - intros x [[-> _]|[Hx _]]%elem_of_replace_by; [|by apply wf_debited0].
    rewrite (rs_id _ _ Hstep). by apply wf_debited0.
  - intros i x Hix. destruct (wf_debits0 i x Hix) as [? (y & Hy & <- & Hdim)].
    split; [done|]. destruct (decide (capacity_reservation_id y = capacity_reservation_id r')).
    + assert (y = r) as ->.
      { eapply key_inj; [exact wf_ids0|done..|]. rewrite <- (rs_id _ _ Hstep). done. }
      exists r'. rewrite (rs_id _ _ Hstep), (rs_dimensions _ _ Hstep). split; [|done].
      apply elem_of_replace_by. left. naive_solver.
    + exists y. split; [|done]. apply elem_of_replace_by. by right.
Qed.

Lemma wf_new_hold i r x d :
  get_reservation_row i d = None → debits d !! i = None → capacity_reservation_id r = i →
  (∃ b, b ∈ buckets d ∧ capacity_bucket_id b = debit_bucket_id x) →
  debit_dimensions x = default ∅ (dimensions r) →
  db_wf d → db_wf (set_debit i x (insert_reservation r d)).
Proof.
  intros Hi Hx Hid Hb Hdim []. unfold get_reservation_row in Hi. rewrite find_by_None in Hi.
  split; simpl; try done.
  - rewrite fmap_app. apply NoDup_app. split; [done|]. split; [|apply NoDup_singleton].
    intros k (y & -> & Hy)%list_elem_of_fmap Heq%list_elem_of_singleton. naive_solver.
  - intros y [Hy| ->%list_elem_of_singleton]%elem_of_app.
    + rewrite lookup_insert_ne by naive_solver. by apply wf_debited0.
    + subst i. rewrite lookup_insert_eq. done.
  - intros j y. rewrite lookup_insert_Some. intros [[<- <-]|[Hne Hy]].
    + split; [done|]. exists r. set_solver.
    + destruct (wf_debits0 j y Hy) as [? (z & ? & ? & ?)]. split; [done|].
      exists z. set_solver.
Qed.

Lemma wf_rebind r bucket_id debit d :
  debits d !! capacity_reservation_id r = Some debit →
  (∃ b, b ∈ buckets d ∧ capacity_bucket_id b = bucket_id) →
  db_wf d →
  db_wf (set_debit (capacity_reservation_id r)
           {| debit_bucket_id := bucket_id; debit_dimensions := debit_dimensions debit |} d).
Proof.
  intros Hdebit Hb []. split; simpl; try done.
  - intros y Hy. destruct (decide (capacity_reservation_id y = capacity_reservation_id r)) as [->|].
    + by rewrite lookup_insert_eq.
    + rewrite lookup_insert_ne by done. by apply wf_debited0.
  - intros j y. rewrite lookup_insert_Some. intros [[<- <-]|[_ Hy]]; [|by apply wf_debits0].
    split; [done|]. by destruct (wf_debits0 _ _ Hdebit) as [_ ?].
Qed.

Lemma host_free_unique d b h rid :
  hosts_unique (buckets d) → host_free d (Some h) rid →
  b ∈ buckets d → bucket_host_id b = Some h → backing_resource_id b = rid.
Proof.
  intros Hu Hf Hb Hh. unfold host_free, host_holder in Hf. simpl in Hf.
  destruct (find_by bucket_host_id (Some h) (buckets d)) as [b'|] eqn:E.
  - rewrite <- (Hf b' eq_refl). apply find_by_Some in E as [Hb' Hh'].
    f_equal. apply Hu; [done..| |congruence]. by rewrite Hh.
  - by eapply find_by_None in E.
Qed.

Lemma wf_new_bucket b d :
  get_bucket_row (capacity_bucket_id b) d = None →
  _bucket_by_backing_resource d (backing_resource_id b) = None →
  host_free d (bucket_host_id b) (backing_resource_id b) →
  is_Some (bucket_pool_id b ≫= λ p, pools d !! p) →
  db_wf d → db_wf (insert_bucket b d).
Proof.
  unfold get_bucket_row, _bucket_by_backing_resource. rewrite !find_by_None.
  intros Hid Hback Hfree Hpool [].
  assert (∀ b' h, b' ∈ buckets d → bucket_host_id b' = Some h → bucket_host_id b ≠ Some h) as Hh.
  { intros b' h Hb' Hh' Heq. rewrite Heq in Hfree. apply (Hback b' Hb').
    by eapply host_free_unique. }
  split; simpl; try done.
  - rewrite fmap_app. apply NoDup_app. split; [done|]. split; [|apply NoDup_singleton].
    intros k (y & -> & Hy)%list_elem_of_fmap Heq%list_elem_of_singleton. naive_solver.
  - rewrite fmap_app. apply NoDup_app. split; [done|]. split; [|apply NoDup_singleton].
    intros k (y & -> & Hy)%list_elem_of_fmap Heq%list_elem_of_singleton. naive_solver.
  - intros x y [Hx| ->%list_elem_of_singleton]%elem_of_app
      [Hy| ->%list_elem_of_singleton]%elem_of_app [h Hh1] Hh2; [by apply wf_hosts0; [..|exists h|]| | |done].
    + by destruct (Hh x h Hx Hh1); congruence.
    + by destruct (Hh y h Hy); congruence.
  - intros x p [Hx| ->%list_elem_of_singleton]%elem_of_app Hp; [by eapply wf_pools0|].
    by rewrite Hp in Hpool.
  - intros j y Hy. destruct (wf_debits0 j y Hy) as [(z & ? & ?) ?]. split; [|done].
    exists z. set_solver.
Qed.

Lemma wf_update_bucket old new d :
  _bucket_by_backing_resource d (backing_resource_id old) = Some old →
  capacity_bucket_id new = capacity_bucket_id old →
  backing_resource_id new = backing_resource_id old →
  host_free d (bucket_host_id new) (backing_resource_id old) →
  is_Some (bucket_pool_id new ≫= λ p, pools d !! p) →
  db_wf d → db_wf (update_bucket new d).
Proof.
  intros [Hold _]%bucket_found_in Hid Hback Hfree Hpool [].
  assert (∀ b, b ∈ buckets d → capacity_bucket_id b = capacity_bucket_id new → b = old) as Hkey.
  { intros b Hb Heq. eapply key_inj; [exact wf_bucket_ids0|done..|congruence]. }
  assert (∀ b, b ∈ buckets d → backing_resource_id b = backing_resource_id old →
               capacity_bucket_id b = capacity_bucket_id new) as Hkey'.
  { intros b Hb Heq. rewrite Hid. f_equal. by eapply key_inj; [exact wf_backing0|..]. }
  split; simpl; try done.
  - by rewrite replace_by_keys.
  - replace (backing_resource_id <$> _) with (backing_resource_id <$> buckets d); [done|].
    unfold replace_by. rewrite <- list_fmap_compose. apply list_fmap_ext.
    intros k b Hb%list_elem_of_lookup_2. simpl. case_decide; [|done].
    by rewrite (Hkey b), Hback by done.
  - intros x y [[-> _]|[Hx Hnx]]%elem_of_replace_by
      [[-> _]|[Hy Hny]]%elem_of_replace_by [h Hh1] Hh2; [done| | |by apply wf_hosts0; [..|exists h|]].
    + destruct Hny. apply Hkey'; [done|].
      eapply host_free_unique; [done| |done|]; [by rewrite Hh1 in Hfree|congruence].
    + destruct Hnx. apply Hkey'; [done|].
      eapply (host_free_unique _ _ h); [done| |done|done]. by rewrite <- Hh2, Hh1 in Hfree.
  - intros x p [[-> _]|[Hx _]]%elem_of_replace_by Hp; [by rewrite Hp in Hpool|].
    by eapply wf_pools0.
  - intros j y Hy. destruct (wf_debits0 j y Hy) as [(z & Hz & Hzid) ?]. split; [|done].
    destruct (decide (capacity_bucket_id z = capacity_bucket_id new)).
    + exists new. split; [|congruence]. apply elem_of_replace_by. left. eauto.
    + exists z. split; [|done]. apply elem_of_replace_by. by right.
Qed.

Lemma ledger_step_wf l d d' : ledger_step cfg l d d' → db_wf d → db_wf d'.
Proof.
  destruct 1 as [| | | |? ? ? ? ? ? ? ? b ? ? ? ? ? ? Had|? ? dest ? ? ? Hrb| |]; intros Hwf.
  - by apply wf_set_ext.
  - by apply wf_add_event.
  - by apply wf_add_lease_end.
  - by eapply wf_update_reservation.
  - apply wf_new_hold; try done. exists b. split; [apply Had|done].
  - apply wf_rebind; try done. exists dest. split; [apply Hrb|done].
  - by apply wf_new_bucket.
  - by eapply wf_update_bucket.
Qed.

Lemma steps_wf allowed d d' : steps cfg allowed d d' → db_wf d → db_wf d'.
Proof. induction 1 as [|? ? ? [? [_ H]]]; [done|]. eauto using ledger_step_wf. Qed.
End wf.
