(* ===== verification/LedgerAdmission.v ===== *)
(** Lease windows: stored instants read back as they were written, and
    [_windows_overlap] decides whether two half-open windows meet. *)
From S2P Require Import Prelude PyNum PyValue PyTime PyTimeFacts PoolDeclarations LedgerTypes.
From S2P Require Import LedgerMatching Ledger LedgerLifecycle LedgerRegistry LedgerSpec.
From Stdlib Require Import Ascii.

Local Open Scope Z_scope.

(** ** Stored instants *)

Lemma zulu_plain l : Forall plain l → zulu l = l.
Proof.
  induction 1 as [|c l (_ & Hc & _) _ IH]; [done|].
  change (zulu (c :: l)) with
    ((if bool_decide (c = "Z"%char) then to_chars "+00:00" else [c]) ++ zulu l).
  rewrite bool_decide_eq_false_2 by done. by rewrite IH.
Qed.

Lemma parse_utc_isoformat d : valid_datetime d → parse_utc (Some (isoformat d)) = Some d.
Proof.
  intros Hd. unfold parse_utc.
  assert (to_chars (isoformat d) = isoformat_chars d) as Hchars
    by apply String.list_ascii_of_string_of_list_ascii.
  assert (str_truthy (Some (isoformat d)) = Some (isoformat d)) as ->.
  { destruct (isoformat d) eqn:E; [|done]. by destruct (isoformat_not_nil d). }
  rewrite Hchars, strip_chars_plain, zulu_plain by apply plain_isoformat.
  rewrite fromisoformat_isoformat by done. by destruct d.
Qed.

Lemma parse_utc_valid s d : parse_utc s = Some d → valid_datetime d.
Proof.
  unfold parse_utc. destruct (str_truthy s) as [t|]; [|done].
  destruct (fromisoformat_chars (zulu _)) as [[us off]|] eqn:E.
  - intros [= <-]. by apply fromisoformat_valid in E.
  - destruct (fromisoformat_chars (first_space_to_T _)) as [[us off]|] eqn:E'; [|done].
    intros [= <-]. by apply fromisoformat_valid in E'.
Qed.

Lemma parse_utc_stored w :
  (∀ d, w = Some d → valid_datetime d) → parse_utc (isoformat <$> w) = w.
Proof. destruct w as [d|]; [|done]. intros H. simpl. apply parse_utc_isoformat. auto. Qed.

(** ** Overlap *)

(** A window that contains an instant. *)
Definition window_nonempty (start end_ : option datetime) : Prop :=
  match start, end_ with Some s, Some e => instant s < instant e | _, _ => True end.

Lemma windows_overlap_complete s e s' e' t :
  in_window s e t → in_window s' e' t → _windows_overlap s e s' e' = true.
Proof.
  unfold in_window, _windows_overlap, dt_leb. intros [H1 H2] [H3 H4].
  apply andb_true_iff. rewrite !negb_true_iff.
  split; [destruct e, s'|destruct e', s]; try done; apply Z.leb_gt; lia.
Qed.

Lemma windows_overlap_sound s e s' e' :
  window_nonempty s e → window_nonempty s' e' →
  _windows_overlap s e s' e' = true → ∃ t, in_window s e t ∧ in_window s' e' t.
Proof.
  unfold in_window, window_nonempty, _windows_overlap, dt_leb. intros H1 H2.
  rewrite andb_true_iff, !negb_true_iff. intros [H3 H4].
  exists (match s, s' with
          | Some a, Some b => Z.max (instant a) (instant b)
          | Some a, None => instant a
          | None, Some b => instant b
          | None, None => match e, e' with
                          | Some a, Some b => Z.min (instant a) (instant b) - 1
                          | Some a, None | None, Some a => instant a - 1
                          | None, None => 0
                          end
          end).
  destruct s, e, s', e'; rewrite ?Z.leb_gt in *; split_and!; lia.
Qed.

(** A row whose declared window meets an instant of the asked window counts
    as overlapping it, whatever its state. *)
Lemma reservation_overlaps_covers r ws we t :
  covers r t → in_window ws we t → _reservation_overlaps r ws we = true.
Proof.
  intros Hc Hw. unfold _reservation_overlaps. destruct (windowless_state _); [done|].
  unfold covers in Hc. pose proof (windows_overlap_complete _ _ _ _ _ Hw Hc).
  by destruct (parse_utc (lease_start_utc r)), (parse_utc (lease_end_utc r)).
Qed.

Lemma counts_in_window_covers r ws we t :
  covers r t → in_window ws we t → counts_in_window ws we r = true.
Proof.
  intros. unfold counts_in_window. destruct ws, we; [..|done];
    by eapply reservation_overlaps_covers.
Qed.

#[export] Instance in_window_dec s e t : Decision (in_window s e t).
Proof. unfold in_window. destruct s, e; apply _. Defined.

#[export] Instance covers_dec r t : Decision (covers r t).
Proof. unfold covers. apply _. Defined.

(** * The admission predicate: what a selected candidate satisfies, that it is
    the first such row, and what it means that there is none. *)

Section admission.
Context {Ext : Type} (cfg : ledger_config Ext).
Implicit Types (d : DB Ext) (b : CapacityBucket).

Lemma judge_candidate_Match d claim requested mode ws we b available :
  _requested_offering_mode claim false = Ok mode →
  judge_candidate cfg d claim requested mode ws we b = Ok (Match available) →
  b ∈ buckets d → enabled b = true →
  admitted cfg d claim requested ws we b available.
Proof.
  intros Hmode Hjudge Hin Hen. unfold judge_candidate in Hjudge.
  destruct (str_truthy (bucket_pool_id b)) as [pool|] eqn:Hpool; [|done].
  destruct (has_required_attributes cfg b) eqn:Hattrs; [|done]. simpl in Hjudge.
  apply result_bind_Ok in Hjudge as (cap & Hcap & Hjudge).
  destruct (resource_satisfies_requirement (_resource_feasibility_view b cap _) _ _ _); [|done].
  simpl in Hjudge. apply result_bind_Ok in Hjudge as (declared & Hdecl & Hjudge).
  destruct declared; [|done]. simpl in Hjudge.
  apply result_bind_Ok in Hjudge as (usable & Husable & Hjudge). destruct usable; [|done].
  simpl in Hjudge. apply result_bind_Ok in Hjudge as (held & Hheld & Hjudge).
  destruct (resource_satisfies_requirement (_resource_feasibility_view b (difference_over _ _ _) _)
              _ _ _) eqn:Hfits; [|done].
  simpl in Hjudge. destruct (_has_physical_host_conflict _ _ _ _ _) eqn:Hconflict; [done|].
  injection Hjudge as <-. split; try done.
  - exists mode. split; [done|]. intros m ->. exact Hdecl.
  - by rewrite Hpool.
  - by exists cap, held.
Qed.

(** The scan stops at the first row that matches; every row before it was
    skipped or matched without declaring the mode. *)
Lemma scan_candidates_inl judge undeclared rows b available :
  scan_candidates judge undeclared rows = Ok (inl (b, available)) →
  ∃ before after, rows = before ++ b :: after ∧ judge b = Ok (Match available) ∧
    Forall (λ b', judge b' = Ok Skip ∨ ∃ p, judge b' = Ok (Undeclared p)) before.
Proof.
  revert undeclared. induction rows as [|b' rows IH]; intros undeclared Hscan; simpl in *; [done|].
  apply result_bind_Ok in Hscan as (v & Hv & Hscan). destruct v as [|p|a].
  - destruct (IH _ Hscan) as (before & after & -> & ? & ?). exists (b' :: before), after.
    split_and!; [done..|]. constructor; eauto.
  - destruct (IH _ Hscan) as (before & after & -> & ? & ?). exists (b' :: before), after.
    split_and!; [done..|]. constructor; eauto.
  - injection Hscan as -> ->. by exists [], rows.
Qed.

Lemma scan_candidates_inr judge undeclared rows found :
  scan_candidates judge undeclared rows = Ok (inr found) →
  undeclared ⊆ found ∧
  Forall (λ b, judge b = Ok Skip ∨ ∃ p, judge b = Ok (Undeclared p) ∧ p ∈ found) rows.
Proof.
  revert undeclared. induction rows as [|b' rows IH]; intros undeclared Hscan; simpl in *.
  { by injection Hscan as ->. }
  apply result_bind_Ok in Hscan as (v & Hv & Hscan). destruct v as [|p|a]; [| |done].
  - destruct (IH _ Hscan). auto.
  - destruct (IH _ Hscan) as [Hsub ?]. split; [set_solver|]. constructor; [|done].
    right. exists p. split; [done|set_solver].
Qed.

Lemma elem_of_enabled_rows d b : b ∈ enabled_rows d ↔ b ∈ buckets d ∧ enabled b = true.
Proof.
  unfold enabled_rows, by_updated_at. rewrite elem_of_sort_by, list_elem_of_filter. naive_solver.
Qed.

Lemma find_candidate_Some d claim requested ws we b available :
  _find_candidate cfg d claim requested ws we = Ok (Some (b, available)) →
  ∃ mode before after, _requested_offering_mode claim false = Ok mode ∧
    enabled_rows d = before ++ b :: after ∧
    judge_candidate cfg d claim requested mode ws we b = Ok (Match available) ∧
    Forall (λ b', judge_candidate cfg d claim requested mode ws we b' = Ok Skip ∨
      ∃ p, judge_candidate cfg d claim requested mode ws we b' = Ok (Undeclared p)) before.
Proof.
  unfold _find_candidate. intros H. apply result_bind_Ok in H as (mode & Hmode & H).
  apply result_bind_Ok in H as (found & Hscan & H). destruct found as [[b' a']|u].
  - injection H as -> ->. apply scan_candidates_inl in Hscan as (before & after & ? & ? & ?).
    by exists mode, before, after.
  - by destruct (bool_decide _).
Qed.

Lemma find_candidate_admitted d claim requested ws we b available :
  _find_candidate cfg d claim requested ws we = Ok (Some (b, available)) →
  admitted cfg d claim requested ws we b available.
Proof.
  intros (mode & before & after & Hmode & Hrows & Hjudge & _)%find_candidate_Some.
  assert (b ∈ enabled_rows d) as [? ?]%elem_of_enabled_rows by (rewrite Hrows; set_solver).
  by eapply judge_candidate_Match.
Qed.

Lemma find_candidate_None d claim requested ws we :
  _find_candidate cfg d claim requested ws we = Ok None →
  ∃ mode, _requested_offering_mode claim false = Ok mode ∧
    ∀ b, b ∈ buckets d → enabled b = true →
      judge_candidate cfg d claim requested mode ws we b = Ok Skip.
Proof.
  unfold _find_candidate. intros H. apply result_bind_Ok in H as (mode & Hmode & H).
  apply result_bind_Ok in H as (found & Hscan & H). destruct found as [[b' a']|u]; [done|].
  destruct (bool_decide _) eqn:Hu; [|done]. apply bool_decide_eq_true in Hu. subst u.
  exists mode. split; [done|]. intros b Hb Hen.
  apply scan_candidates_inr in Hscan as [_ Hall]. rewrite Forall_forall in Hall.
  destruct (Hall b) as [|(p & _ & ?)]; [by apply elem_of_enabled_rows|done|set_solver].
Qed.
End admission.
