(* ===== verification/LedgerTrack.v ===== *)
(** The refinement: every operation of [CapacityLedgerService] changes the
    database only by steps of [LedgerSpec.ledger_step]. *)
From S2P Require Import Prelude PyNum PyValue PyTime PyTimeFacts PoolDeclarations.
From S2P Require Import LedgerTypes LedgerMatching Ledger LedgerLifecycle LedgerRegistry.
From S2P Require Import LedgerSpec LedgerAdmission.

Local Open Scope Z_scope.

(** ** Symbolic execution of session primitives *)

Section rules.
Context {Ext : Type} (env : environment).
Implicit Types (w : world Ext).

Definition tick w : world Ext :=
  {| working := working w; committed := committed w;
     clock_reads := S (clock_reads w); ids_drawn := ids_drawn w; depth := depth w |}.

Definition draw w : world Ext :=
  {| working := working w; committed := committed w;
     clock_reads := clock_reads w; ids_drawn := S (ids_drawn w); depth := depth w |}.

Definition saved w : world Ext :=
  {| working := working w; committed := working w;
     clock_reads := clock_reads w; ids_drawn := ids_drawn w; depth := depth w |}.

Lemma wp_db (Q : result (DB Ext) → world Ext → Prop) w : Q (Ok (working w)) w → wp db Q w.
Proof. done. Qed.
Lemma wp_write f (Q : result unit → world Ext → Prop) w :
  Q (Ok tt) (with_working f w) → wp (write f) Q w.
Proof. done. Qed.
Lemma wp_now (Q : result datetime → world Ext → Prop) w :
  Q (Ok (clock env (clock_reads w))) (tick w) → wp (now_utc env) Q w.
Proof. done. Qed.
Lemma wp_fresh (Q : result string → world Ext → Prop) w :
  Q (Ok (uuid4 env (ids_drawn w))) (draw w) → wp (fresh_id env) Q w.
Proof. done. Qed.
Lemma wp_db_now (Q : result Z → world Ext → Prop) w :
  Q (Ok (instant (clock env (clock_reads w)) / us_per_second)) w → wp (db_now env) Q w.
Proof. done. Qed.
Lemma wp_commit (Q : result unit → world Ext → Prop) w :
  Q (Ok tt) (saved w) → wp commit_session Q w.
Proof. done. Qed.
Lemma wp_rollback (Q : result unit → world Ext → Prop) w :
  Q (Ok tt) (begin_session w) → wp rollback Q w.
Proof. done. Qed.

(** What an operation leaves once its session is closed. *)
Definition closed (w w' : world Ext) : world Ext := set_depth (depth w) (begin_session w').
Definition opened (w : world Ext) : world Ext := begin_session (set_depth (S (depth w)) w).

Lemma wp_operation {A} (m : M (world Ext) A) (Q : result A → world Ext → Prop) w :
  wp m (λ r w', Q r (closed w w')) (opened w) → wp (operation m) Q w.
Proof.
  unfold wp, operation, serialized, in_session, opened, closed.
  by destruct (m (begin_session (set_depth (S (depth w)) w))).
Qed.
End rules.

Ltac l_step :=
  cbv beta iota zeta;
  first
    [ match goal with
      | |- wp db _ _ => apply wp_db
      | |- wp (write _) _ _ => apply wp_write
      | |- wp (now_utc _) _ _ => apply wp_now
      | |- wp (fresh_id _) _ _ => apply wp_fresh
      | |- wp (db_now _) _ _ => apply wp_db_now
      | |- wp commit_session _ _ => apply wp_commit
      | |- wp rollback _ _ => apply wp_rollback
      end
    | wp_step ].

(** ** What every session keeps *)

Section track.
Context {Ext : Type} (env : environment) (cfg : ledger_config Ext).
Context (allowed : label → Prop).
Context (allow_ext : allowed LExt) (allow_event : ∀ k, allowed (LEvent k))
  (allow_end : ∀ i k, allowed (LEnd i k)) (allow_hold : ∀ r, allowed (LHold r))
  (allow_rebind : ∀ i b, allowed (LRebind i b))
  (allow_row : ∀ r r', row_step r r' → window_kept r r' → allowed (LRow r r')).

Implicit Types (w : world Ext) (d : DB Ext).

Abbreviation Steps := (steps cfg allowed).

Definition reach d w : Prop := Steps d (committed w) ∧ Steps d (working w).

(** The postcondition of code running inside a session. *)
Definition tracked {A} d : result A → world Ext → Prop := λ r w,
  match r with Ok _ => reach d w | Err _ => Steps d (committed w) end.

(** Whatever a helper does, it leaves the capacity tables alone. *)
Record quiet w w' : Prop := {
  q_committed : committed w' = committed w;
  q_depth : depth w' = depth w;
  q_pools : pools (working w') = pools (working w);
  q_buckets : buckets (working w') = buckets (working w);
  q_reservations : reservations (working w') = reservations (working w);
  q_debits : debits (working w') = debits (working w);
  q_events : events (working w') = events (working w);
  q_steps : Steps (working w) (working w');
}.

Lemma quiet_refl w : quiet w w.
Proof. by split. Qed.

Lemma quiet_trans w1 w2 w3 : quiet w1 w2 → quiet w2 w3 → quiet w1 w3.
Proof. intros [] []. split; try congruence. by etrans. Qed.

Lemma quiet_reach d w w' : quiet w w' → reach d w → reach d w'.
Proof.
  intros Hq [? ?]. split; [by rewrite (q_committed _ _ Hq)|].
  etrans; [done|]. apply Hq.
Qed.

Lemma one_step l d d' : allowed l → ledger_step cfg l d d' → Steps d d'.
Proof. intros. apply rtc_once. by exists l. Qed.

Lemma reach_write d w f :
  reach d w → Steps (working w) (f (working w)) → reach d (with_working f w).
Proof. intros [? ?] ?. split; simpl; [done|by etrans]. Qed.

Lemma quiet_ext w x : quiet w (with_working (set_ext x) w).
Proof. split; try done. by eapply one_step; [|apply st_ext]. Qed.

Lemma quiet_tick w : quiet w (tick w).
Proof. by split. Qed.
Lemma quiet_draw w : quiet w (draw w).
Proof. by split. Qed.

(** Quietly, or raising with nothing committed. *)
Definition quietly {A} w : result A → world Ext → Prop := λ r w',
  match r with Ok _ => quiet w w' | Err _ => committed w' = committed w end.

Lemma wp_release_permitted i w :
  wp (_release_permitted cfg i) (λ r w', ∃ b, r = Ok b ∧ quiet w w') w.
Proof.
  unfold _release_permitted. destruct (cfg_release_guard cfg) as [guard|].
  - repeat l_step. simpl. eexists; split; [done|]. apply quiet_ext.
  - l_step. eexists; split; [done|apply quiet_refl].
Qed.

Lemma wp_run_release_effect i s w : wp (_run_release_effect cfg i s) (quietly w) w.
Proof.
  unfold _run_release_effect. destruct (cfg_release_effect cfg) as [effect|].
  - repeat l_step. destruct (effect _ _ _); simpl; [|done]. l_step. apply quiet_ext.
  - l_step. apply quiet_refl.
Qed.

Lemma wp_record_lease_end r key context cause reason w :
  wp (_record_lease_end env cfg r key context cause reason) (quietly w) w.
Proof.
  unfold _record_lease_end. l_step. l_step. simpl.
  l_step; [l_step; apply quiet_refl|]. do 3 (l_step; l_step; simpl).
  match goal with |- context [add_lease_end ?e] => set (x := e) end.
  assert (quiet w (with_working (add_lease_end x) (tick (draw w)))) as Hq.
  { split; try done. by eapply one_step; [|apply (st_end cfg (working w) x)]. }
  destruct (cfg_lease_end_effect cfg) as [effect|]; [|by l_step].
  do 3 (l_step; simpl). l_step. destruct (effect _ _); simpl; [|done]. l_step.
  eapply quiet_trans, quiet_ext. done.
Qed.

(** ** Rows *)

Definition row_live w (r : CapacityReservation) : Prop :=
  get_reservation_row (capacity_reservation_id r) (working w) = Some r.

Lemma row_live_quiet w w' (r : CapacityReservation) : quiet w w' → row_live w r → row_live w' r.
Proof. intros Hq. unfold row_live, get_reservation_row. by rewrite (q_reservations _ _ Hq). Qed.

Lemma reach_wf d w : db_wf d → reach d w → db_wf (working w).
Proof. intros ? [_ ?]. by eapply steps_wf. Qed.

Lemma reach_row d w (r r' : CapacityReservation) :
  reach d w → row_live w r → row_step r r' → allowed (LRow r r') →
  reach d (with_working (update_reservation r') w).
Proof. intros. apply reach_write; [done|]. by eapply one_step; [|apply st_row]. Qed.

Lemma reach_event d w k rid dims t :
  reach d w → reach d (with_working (add_event k rid dims t) w).
Proof. intros. apply reach_write; [done|]. by eapply one_step; [|apply st_event]. Qed.

Lemma reach_saved d w : reach d w → reach d (saved w).
Proof. by intros [? ?]. Qed.
Lemma reach_tick d w : reach d w → reach d (tick w).
Proof. by intros [? ?]. Qed.
Lemma reach_draw d w : reach d w → reach d (draw w).
Proof. by intros [? ?]. Qed.
Lemma reach_begin d w : Steps d (committed w) → reach d (begin_session w).
Proof. by split. Qed.

Lemma wp_capacity_event k rid dims (Q : result unit → world Ext → Prop) w :
  Q (Ok tt) (with_working
    (add_event k rid dims (instant (clock env (clock_reads w)) / us_per_second)) w) →
  wp (add_capacity_event env k rid dims) Q w.
Proof. done. Qed.

(** Sequencing a helper whose effect is quiet. *)
Lemma wp_quietly_bind {A B} (m : M (world Ext) A) (k : A → M (world Ext) B) d w :
  wp m (quietly w) w → reach d w →
  (∀ a w', quiet w w' → reach d w' → wp (k a) (tracked d) w') →
  wp (m ≫= k) (tracked d) w.
Proof.
  intros Hm Hr Hk. apply wp_bind. eapply wp_mono; [exact Hm|].
  intros [a|e] w' Hq; simpl in *.
  - apply Hk; [done|]. by eapply quiet_reach.
  - rewrite Hq. by destruct Hr.
Qed.

Lemma wp_permitted_bind {B} i (k : bool → M (world Ext) B) d w :
  reach d w → (∀ b w', quiet w w' → reach d w' → wp (k b) (tracked d) w') →
  wp (_release_permitted cfg i ≫= k) (tracked d) w.
Proof.
  intros Hr Hk. apply wp_bind. eapply wp_mono; [apply wp_release_permitted|].
  intros ? w' (b & -> & Hq). apply Hk; [done|]. by eapply quiet_reach.
Qed.

(** Reads that may raise. *)
Lemma wp_lift_bind {A B} (x : result A) (k : A → M (world Ext) B) d w :
  reach d w → (∀ a, x = Ok a → wp (k a) (tracked d) w) → wp (lift x ≫= k) (tracked d) w.
Proof.
  intros [? ?] Hk. apply wp_bind, wp_lift. destruct x as [a|e]; simpl; [by apply Hk|done].
Qed.

(** ** The hold sweep *)

Lemma lapsed_row_step now (r : CapacityReservation) :
  res_state r = reserved → row_step r (lapsed_row now r) ∧ window_kept r (lapsed_row now r).
Proof. intros Hs. split; [|by intros t]. split; simpl; rewrite ?Hs; done. Qed.

Lemma wp_lapse_hold now (r : CapacityReservation) d w :
  reach d w → row_live w r → res_state r = reserved →
  wp (lapse_hold env cfg now r) (λ x w', tracked d x w' ∧
    ∀ r', capacity_reservation_id r' ≠ capacity_reservation_id r →
          row_live w r' → match x with Ok _ => row_live w' r' | Err _ => True end) w.
Proof.
  intros Hr Hlive Hs. unfold lapse_hold.
  destruct (parse_utc _) as [expires|]; [|by l_step]. l_step; [by l_step|].
  l_step. eapply wp_mono; [apply wp_release_permitted|]. intros ? w1 (b & -> & Hq1).
  assert (reach d w1) as Hr1 by by eapply quiet_reach.
  destruct b; simpl; [|l_step; split; [done|]; intros; by eapply row_live_quiet].
  l_step. eapply wp_mono; [apply wp_record_lease_end|]. intros [[]|e] w2 Hq2; simpl in Hq2;
    [|split; [simpl; rewrite Hq2; by destruct Hr1|done]].
  assert (reach d w2) as Hr2 by by eapply quiet_reach.
  assert (row_live w2 r) as Hl2.
  { eapply row_live_quiet; [exact Hq2|]. by eapply row_live_quiet; [exact Hq1|]. }
  destruct (lapsed_row_step now r Hs). do 2 l_step.
  set (w3 := with_working _ w2).
  assert (reach d w3) as Hr3 by (apply (reach_row d w2 r); auto).
  l_step. eapply wp_mono; [apply wp_run_release_effect|]. intros [[]|e] w4 Hq4; simpl in Hq4;
    [|split; [simpl; rewrite Hq4; by destruct Hr3|done]].
  assert (reach d w4) as Hr4 by by eapply quiet_reach.
  do 2 l_step. apply wp_bind, wp_capacity_event. l_step.
  split; [by apply reach_event|]. intros r' Hne Hlive'.
  assert (row_live w3 r') as Hl3; [|exact (row_live_quiet _ _ r' Hq4 Hl3)].
  unfold row_live, w3, get_reservation_row. simpl. rewrite find_by_replace_ne by done.
  eapply row_live_quiet; [exact Hq2|]. by eapply row_live_quiet; [exact Hq1|].
Qed.

Lemma wp_lapse_holds now rows lapsed d w :
  reach d w → NoDup (capacity_reservation_id <$> rows) →
  (∀ r, r ∈ rows → row_live w r ∧ res_state r = reserved) →
  wp (lapse_holds env cfg now rows lapsed) (tracked d) w.
Proof.
  revert lapsed w. induction rows as [|r rows IH]; intros lapsed w Hr Hnd Hrows; simpl.
  { by l_step. }
  rewrite fmap_cons, NoDup_cons in Hnd. destruct Hnd as [Hr' Hnd].
  destruct (Hrows r) as [Hlive Hs]; [set_solver|].
  l_step. eapply wp_mono; [by apply wp_lapse_hold|]. intros [b|e] w' [Hw' Hothers]; [|done].
  apply IH; [done..|]. intros r'' Hr''. destruct (Hrows r'') as [? ?]; [set_solver|].
  split; [|done]. apply Hothers; [|done]. intros Heq. apply Hr'. rewrite <- Heq.
  by apply list_elem_of_fmap_2.
Qed.

Lemma wp_expire_stale_holds d w :
  db_wf d → reach d w → wp (_expire_stale_holds env cfg) (tracked d) w.
Proof.
  intros Hwf Hr. unfold _expire_stale_holds. do 4 l_step.
  assert (db_wf (working w)) as Hwfw by by eapply reach_wf.
  apply wp_bind. eapply wp_mono.
  - apply (wp_lapse_holds _ _ _ d); [by apply reach_tick| |].
    + apply filter_keys_NoDup. exact (wf_ids _ Hwfw).
    + intros r [Hstale Hin]%list_elem_of_filter. split; [by apply row_in_get|].
      unfold is_stale_hold in Hstale. apply andb_true_iff in Hstale as [Hs _].
      by apply bool_decide_eq_true in Hs.
  - intros [[]|e] w' Hw'; simpl in *; [| |done]; l_step; [by apply reach_saved|done].
Qed.

(** Code after the sweep. *)
Lemma wp_after_sweep {A} (m : M (world Ext) A) d w :
  db_wf d → reach d w → (∀ w', reach d w' → wp m (tracked d) w') →
  wp (_expire_stale_holds env cfg ≫= λ _, m) (tracked d) w.
Proof.
  intros. apply wp_bind. eapply wp_mono; [by apply wp_expire_stale_holds|].
  intros [[]|e] w'; [auto|done].
Qed.

(** An operation tracks what is committed. *)
Definition tracks {A} (m : M (world Ext) A) : Prop :=
  ∀ w, db_wf (committed w) →
  wp m (λ _ w', Steps (committed w) (committed w')) w.

Lemma tracks_operation {A} (m : M (world Ext) A) :
  (∀ d w, db_wf d → reach d w → wp m (tracked d) w) → tracks (operation m).
Proof.
  intros Hm w Hwf. apply wp_operation. eapply wp_mono.
  - apply (Hm (committed w)); [done|]. split; apply rtc_refl.
  - intros [a|e] w'; simpl; [by intros [? ?]|done].
Qed.

(** An effect-free prologue that may raise or read the clock. *)
Lemma tracks_lift {A B} (x : result A) (k : A → M (world Ext) B) :
  (∀ a, x = Ok a → tracks (k a)) → tracks (lift x ≫= k).
Proof.
  intros Hk w Hwf. l_step. l_step. destruct x as [a|e]; [by apply Hk|apply rtc_refl].
Qed.

Lemma wp_lease_window start dur end_ w :
  (∀ n, valid_datetime (clock env n)) →
  wp (_lease_window env start dur end_)
    (λ x w', working w' = working w ∧ committed w' = committed w ∧ depth w' = depth w ∧
       match x with Ok (ws, we) => window_valid ws we | Err _ => True end) w.
Proof.
  intros Hclock. set (Q := λ x w', _). unfold _lease_window.
  destruct dur as [s|]; [|l_step; split_and!; [done..|split; apply parse_utc_valid]].
  l_step; [by l_step|].
  assert (∀ (x : datetime) w', valid_datetime x →
    working w' = working w ∧ committed w' = committed w ∧ depth w' = depth w →
    wp ((us ← lift (timedelta_of_seconds s); e ← lift (dt_add_us x us);
         mret (Some x, Some e)) : M (world Ext) _) Q w') as Hrest.
  { intros x w' Hx (? & ? & ?). do 2 l_step. destruct (timedelta_of_seconds s); [|by split_and!].
    do 2 l_step. destruct (dt_add_us _ _) as [e|] eqn:He; [|by split_and!]. l_step.
    split_and!; [done..|]. split; intros ? [= <-]; [done|by eapply dt_add_us_valid]. }
  l_step. destruct (parse_utc start) eqn:Hs; l_step; apply Hrest; try done.
  by eapply parse_utc_valid.
Qed.
End track.
