(* ===== verification/LedgerRefinement.v ===== *)
(** Every ledger operation refines the abstract specification: what it
    commits is reached from what was committed by steps of [ledger_step]. *)
From S2P Require Import Prelude PyNum PyValue PyTime PyTimeFacts PoolDeclarations.
From S2P Require Import LedgerTypes LedgerMatching Ledger LedgerLifecycle LedgerRegistry.
From S2P Require Import LedgerSpec LedgerAdmission LedgerTrack.

Local Open Scope Z_scope.

(** ** Row updates *)

Ltac row_step_simpl := split; [split; simpl; eauto; try done; try congruence|by intros t].

Section rows.
Implicit Types (r : CapacityReservation).

Lemma row_step_trans_live r r' :
  row_step r r' → held_state (res_state r) = true.
Proof. intros H%rs_edge. by apply andb_true_iff in H as [? _]. Qed.

(** A field assignment that leaves the state alone. *)
Lemma same_state_edge s : held_state s = true → state_edge s s = true.
Proof. by destruct s. Qed.

Lemma is_released_held s : is_released s = negb (held_state s).
Proof. by destruct s. Qed.

Lemma released_row_step s now reason message r :
  held_state (res_state r) = true → is_released s = true →
  row_step r (released_row s now reason message r) ∧
  window_kept r (released_row s now reason message r).
Proof.
  intros Hh Hs. row_step_simpl. unfold state_edge. rewrite Hh. by destruct s.
Qed.

Lemma superseded_row_step now r :
  held_state (res_state r) = true →
  let r' := set_failure_reason (Some "superseded"%string)
              (set_released_at (Some (isoformat now)) (set_res_state released r)) in
  row_step r r' ∧ window_kept r r'.
Proof. intros Hh. row_step_simpl. unfold state_edge. by rewrite Hh. Qed.

Lemma with_escrow_step deal r :
  held_state (res_state r) = true →
  row_step r (with_escrow deal r) ∧ window_kept r (with_escrow deal r).
Proof.
  intros Hh. pose proof (same_state_edge _ Hh). unfold with_escrow.
  destruct (str_truthy (deal_escrow deal)), (str_truthy (escrow_uid r)) eqn:He;
    row_step_simpl; intros; congruence.
Qed.

Lemma assigned_row_step x e r :
  held_state (res_state r) = true →
  (row_step r (set_settlement_resource_id x r) ∧ window_kept r (set_settlement_resource_id x r)) ∧
  let r' := set_executor_ref e (set_settlement_resource_id x r) in
  row_step r r' ∧ window_kept r r'.
Proof. intros Hh. pose proof (same_state_edge _ Hh). split; row_step_simpl. Qed.

Lemma truncated_row_step lease_end new_end r :
  res_state r = leased → parse_utc (Some lease_end) = Some new_end →
  match parse_utc (lease_end_utc r) with Some c => dt_ltb c new_end | None => false end = false →
  row_step r (set_lease_end_utc (Some lease_end) r) ∧
  window_kept r (set_lease_end_utc (Some lease_end) r).
Proof.
  intros Hs Hnew Hle. split; [split; simpl; rewrite ?Hs; done|].
  intros t. unfold covers, in_window. cbn [lease_start_utc lease_end_utc set_lease_end_utc].
  rewrite Hnew. intros [? ?]. split; [done|]. destruct (parse_utc (lease_end_utc r)); [|done].
  unfold dt_ltb in Hle. apply Z.ltb_ge in Hle. lia.
Qed.

Lemma activated_row_step now r :
  res_state r = leased → activated_at_utc r = None →
  row_step r (set_activated_at_utc (Some (isoformat now)) r) ∧
  window_kept r (set_activated_at_utc (Some (isoformat now)) r).
Proof. intros Hs Ha. split; [split; simpl; rewrite ?Hs, ?Ha; done|by intros t]. Qed.

Lemma with_release_job_id_step j r r' :
  row_step r r' ∧ window_kept r r' →
  row_step r (with_release_job_id j r') ∧ window_kept r (with_release_job_id j r').
Proof. destruct j; [|done]. intros [[] ?]. by split. Qed.

Lemma releasing_row_step now r :
  res_state r ∈ _BEGIN_RELEASING_FROM →
  let r' := set_res_state releasing (set_release_requested_at (Some (isoformat now)) r) in
  row_step r r' ∧ window_kept r r'.
Proof.
  intros Hs. split; [|by intros t]. split; simpl; try done.
  destruct (res_state r); set_solver.
Qed.

Lemma release_failed_row_step message reason r :
  res_state r ∈ _RECORD_RELEASE_FAILED_FROM →
  let r' := set_failure_message message
              (set_failure_reason (Some reason) (set_res_state release_failed r)) in
  row_step r r' ∧ window_kept r r'.
Proof.
  intros Hs. split; [|by intros t]. split; simpl; try done.
  destruct (res_state r); set_solver.
Qed.

Lemma unmanaged_row_step message reason r :
  res_state r = leased →
  let r' := set_failure_message message
              (set_failure_reason (Some reason) (set_res_state unmanaged r)) in
  row_step r r' ∧ window_kept r r'.
Proof. intros Hs. split; [|by intros t]. split; simpl; rewrite ?Hs; done. Qed.

Lemma create_handle_row_step j r :
  is_released (res_state r) = false → str_truthy (create_job_id r) = None →
  row_step r (set_create_job_id (Some j) r) ∧ window_kept r (set_create_job_id (Some j) r).
Proof.
  rewrite is_released_held, negb_false_iff. intros Hh%same_state_edge Hj.
  row_step_simpl.
Qed.

Lemma executor_target_row_step target r r' :
  is_released (res_state r) = false → executor_target r = None →
  _sync_executor_fields target r = Ok r' →
  row_step r r' ∧ window_kept r r'.
Proof.
  rewrite is_released_held, negb_false_iff. intros Hh%same_state_edge Ht.
  unfold _sync_executor_fields. destruct (offering_mode r) eqn:Em; [|done]. intros [= <-].
  row_step_simpl.
Qed.

Lemma row_step_refl r : held_state (res_state r) = true → row_step r r ∧ window_kept r r.
Proof. intros Hh%same_state_edge. by row_step_simpl. Qed.

(** Committing a reservation. *)
Lemma leased_row_step ws we lease_end started deal r :
  held_state (res_state r) = true → res_state r ∉ _COMMIT_REFUSED_STATES →
  row_step r (leased_row ws we lease_end started (with_escrow deal r)).
Proof.
  intros Hh Hs. destruct (with_escrow_step deal r Hh) as [[] _].
  assert (state_edge (res_state r) leased = true) as He.
  { destruct (res_state r); try done; set_solver. }
  unfold leased_row. destruct we, ws; simpl; repeat case_match; split; simpl; done.
Qed.
End rows.

(** ** Operations *)

Section operations.
Context {Ext : Type} (env : environment) (cfg : ledger_config Ext).
Context (allowed : label → Prop).
Context (allow_ext : allowed LExt) (allow_event : ∀ k, allowed (LEvent k))
  (allow_end : ∀ i k, allowed (LEnd i k)) (allow_hold : ∀ r, allowed (LHold r))
  (allow_rebind : ∀ i b, allowed (LRebind i b))
  (allow_row : ∀ r r', row_step r r' → window_kept r r' → allowed (LRow r r'))
  (clock_valid : ∀ n, valid_datetime (clock env n)).

Implicit Types (w : world Ext) (d : DB Ext).

Abbreviation Steps := (steps cfg allowed).
Abbreviation Reach := (reach cfg allowed).
Abbreviation Tracked := (tracked cfg allowed).
Abbreviation Tracks := (tracks cfg allowed).

Lemma tracks_window {B} start dur end_ (k : _ → M (world Ext) B) :
  (∀ ws we, window_valid ws we → Tracks (k (ws, we))) →
  Tracks (_lease_window env start dur end_ ≫= k).
Proof.
  intros Hk w Hwf. apply wp_bind. eapply wp_mono; [by apply wp_lease_window|].
  intros [[ws we]|e] w' (_ & Heq & _ & Hwin); [|rewrite Heq; apply rtc_refl].
  rewrite <- Heq in *. by apply Hk.
Qed.

(** Returning what a read computes. *)
Lemma wp_lift_return {A B} (x : result A) (f : A → B) d w :
  Reach d w → wp ((p ← lift x; mret (f p)) : M (world Ext) B) (Tracked d) w.
Proof. intros. apply wp_lift_bind; [done|]. intros. by l_step. Qed.

Lemma wp_lift_end {A} (x : result A) d w : Reach d w → wp (lift x) (Tracked d) w.
Proof. intros []. l_step. by destruct x. Qed.

Lemma wp_save_and_return (r r' : CapacityReservation) d w :
  Reach d w → row_live w r → row_step r r' ∧ window_kept r r' →
  wp (save_and_return cfg r') (Tracked d) w.
Proof.
  intros Hr Hlive [? ?]. unfold save_and_return. do 4 l_step.
  apply wp_lift_return, reach_saved. apply (reach_row _ _ _ _ r); auto.
Qed.

Lemma live_of_found i e rid d w (r : CapacityReservation) :
  db_wf d → Reach d w → _find_reservation (working w) i e rid = Some r → row_live w r.
Proof.
  intros Hwf Hr Hf. apply row_in_get; [|by eapply find_reservation_in].
  by eapply reach_wf.
Qed.

Lemma live_of_get i w (r : CapacityReservation) :
  get_reservation_row i (working w) = Some r → row_live w r.
Proof. intros H. unfold row_live. by destruct (get_row_in _ _ _ H) as [_ ->]. Qed.

(** *** Reading and probing *)

Lemma tracks_probe claim start dur : Tracks (probe env cfg claim start dur).
Proof.
  apply tracks_lift; intros _ _. apply tracks_lift; intros requested _.
  apply tracks_window; intros ws we Hwin. apply tracks_operation. intros d w Hwf Hr.
  apply wp_after_sweep; [done..|]. intros w' Hr'. do 2 l_step. apply wp_lift_bind; [done|].
  intros [[b a]|] _; [|by l_step]. by apply wp_lift_return.
Qed.

Lemma tracks_expire_due_holds : Tracks (expire_due_holds env cfg).
Proof. apply tracks_operation. intros. by apply wp_expire_stale_holds. Qed.

(** *** Holds *)

Lemma wp_hold_expiry ttl (Q : result (option string) → world Ext → Prop) w :
  (∀ x, Q x w) → (∀ x, Q x (tick w)) → wp (hold_expiry env ttl) Q w.
Proof.
  intros H1 H2. unfold hold_expiry. destruct ttl; [|by l_step].
  do 2 l_step. simpl. do 2 l_step. destruct (timedelta_of_float _); simpl; [|done].
  do 2 l_step. destruct (dt_add_us _ _); simpl; [|done]. by l_step.
Qed.

Lemma wp_insert_reservation_checked (r : CapacityReservation)
    (Q : result unit → world Ext → Prop) w :
  Q (Err IntegrityError) w →
  (get_reservation_row (capacity_reservation_id r) (working w) = None →
   Q (Ok tt) (with_working (insert_reservation r) w)) →
  wp (insert_reservation_checked r) Q w.
Proof.
  intros H1 H2. unfold insert_reservation_checked. do 2 l_step.
  destruct (get_reservation_row _ _); l_step; auto.
Qed.

Lemma wp_insert_debit_checked i x (Q : result unit → world Ext → Prop) w :
  Q (Err IntegrityError) w →
  (debits (working w) !! i = None → Q (Ok tt) (with_working (set_debit i x) w)) →
  wp (insert_debit_checked i x) Q w.
Proof.
  intros H1 H2. unfold insert_debit_checked. do 2 l_step.
  destruct (_ !! i); l_step; auto.
Qed.

Lemma wp_place_reservation claim b available requested attrs deal mode expires ws we sup d w :
  Reach d w → admitted cfg (working w) claim requested ws we b available → window_valid ws we →
  wp (place_reservation env cfg b available requested attrs deal mode expires ws we sup)
     (Tracked d) w.
Proof.
  intros [Hc Hw] Had Hwin. unfold place_reservation. do 4 l_step.
  apply wp_bind, wp_insert_reservation_checked; [done|]. intros Hi.
  apply wp_bind, wp_insert_debit_checked; [done|]. intros Hx.
  apply wp_bind, wp_capacity_event. do 2 l_step.
  apply wp_lift_return, reach_saved, reach_event; [done|].
  split; simpl; [done|]. etrans; [done|].
  by eapply one_step; [|eapply st_hold].
Qed.

Lemma wp_find_and_place claim requested attrs deal mode ttl ws we sup d w
    (absent : M (world Ext) (option reserve_payload)) :
  Reach d w → window_valid ws we → wp absent (Tracked d) w →
  wp (m ← lift (_find_candidate cfg (working w) claim requested ws we);
      match m with
      | None => absent
      | Some (resource, available) =>
          expires_at ← hold_expiry env ttl;
          place_reservation env cfg resource available requested attrs deal
            mode expires_at ws we sup
      end) (Tracked d) w.
Proof.
  intros Hr Hwin Habs. apply wp_lift_bind; [done|]. intros [[b a]|] Hfind; [|done].
  apply find_candidate_admitted in Hfind.
  l_step. apply wp_hold_expiry; intros [x|e]; simpl;
    first [by destruct Hr|eapply wp_place_reservation; first [done|by apply reach_tick]].
Qed.

Lemma tracks_reserve claim deal ttl start dur : Tracks (reserve env cfg claim deal ttl start dur).
Proof.
  apply tracks_lift; intros requested _. apply tracks_lift; intros mode _.
  apply tracks_window; intros ws we Hwin. apply tracks_operation. intros d w Hwf Hr.
  apply wp_after_sweep; [done..|]. intros w' Hr'. do 2 l_step.
  destruct (match str_truthy (deal_escrow deal) with Some _ => _ | None => _ end) as [r|].
  - l_step; [by apply wp_lift_return|l_step; by destruct Hr'].
  - apply wp_find_and_place; [done..|by l_step].
Qed.

(** *** Commit and release *)

(** The row [commit] writes for a first commit. *)
Definition committed_row (start end_ : option string) (deal : option dict)
    (started : option string) (r : CapacityReservation) : CapacityReservation :=
  leased_row (parse_utc start) (parse_utc end_) end_ started (with_escrow deal r).

(** Reading the row [commit] addresses. *)
Definition commit_target d (rid i : option string) : option CapacityReservation :=
  _find_reservation d i None (match str_truthy i with Some _ => None | None => rid end).

Lemma wp_commit_op rid i start end_ deal w :
  db_wf (committed w) →
  (∀ r started, commit_target (committed w) rid i = Some r →
     row_step r (committed_row start end_ deal started r) →
     allowed (LRow r (committed_row start end_ deal started r))) →
  wp (commit env cfg rid i start end_ deal) (λ _ w', Steps (committed w) (committed w')) w.
Proof.
  intros Hwf Hallow. unfold commit. apply wp_bind. unfold _lease_window. l_step.
  apply wp_operation. eapply wp_mono with (Q := Tracked (committed w));
    [|by intros [a|e] w'; simpl; [intros [? ?]|]].
  set (w0 := opened w). assert (Reach (committed w) w0) as Hr by (split; apply rtc_refl).
  do 2 l_step. change (working w0) with (committed w).
  change (_find_reservation _ _ _ _) with (commit_target (committed w) rid i).
  destruct (commit_target (committed w) rid i) as [r|] eqn:Hf; [|by l_step].
  assert (row_live w0 r) as Hlive.
  { apply row_in_get; [done|]. by eapply find_reservation_in. }
  l_step; [l_step; by destruct Hr|]. apply orb_false_iff in Heqb as [Hheld Hrefused].
  apply negb_false_iff in Hheld. apply bool_decide_eq_false in Hrefused.
  destruct (with_escrow_step deal r Hheld) as [Hesc Hescw].
  assert (∀ started w1, working w1 = committed w → Reach (committed w) w1 →
    wp (write (update_reservation (committed_row start end_ deal started r)) ≫= λ _,
        d ← db;
        add_capacity_event env "committed"
          (_backing_resource_id d
             (capacity_reservation_id (committed_row start end_ deal started r))) None;;
        commit_session;;
        p ← lift (_reservation_payload cfg (committed_row start end_ deal started r));
        mret (Some p)) (Tracked (committed w)) w1) as Hfirst.
  { intros started w1 Hw1 Hr1.
    assert (row_step r (committed_row start end_ deal started r)) by by apply leased_row_step.
    do 4 l_step. apply wp_bind, wp_capacity_event. do 2 l_step.
    apply wp_lift_return, reach_saved, reach_event; [done|].
    apply (reach_row _ _ _ _ r); auto. unfold row_live. by rewrite Hw1. }
  l_step.
  - do 4 l_step. apply wp_lift_return, reach_saved. apply (reach_row _ _ _ _ r); auto.
  - l_step. l_step.
    + do 2 l_step. l_step. apply Hfirst; [done|by apply reach_tick].
    + l_step. by apply Hfirst.
Qed.

Lemma wp_save_release (r r' : CapacityReservation) s d w :
  Reach d w → row_live w r → row_step r r' ∧ window_kept r r' →
  wp (write (update_reservation r');;
      _run_release_effect cfg (capacity_reservation_id r) s;;
      d ← db;
      dims ← lift (_reservation_dimensions r' (cfg_mirror_dimension cfg));
      add_capacity_event env "released"
        (_backing_resource_id d (capacity_reservation_id r)) (Some (_serialize_dimensions dims));;
      commit_session;;
      p ← lift (_reservation_payload cfg r'); mret (Some p)) (Tracked d) w.
Proof.
  intros Hr Hlive [? ?]. do 2 l_step.
  eapply wp_quietly_bind; [apply wp_run_release_effect; auto| |].
  { apply (reach_row _ _ _ _ r); auto. }
  intros [] w1 Hq1 Hr1. do 2 l_step. apply wp_lift_bind; [done|]. intros dims _.
  apply wp_bind, wp_capacity_event. do 2 l_step.
  by apply wp_lift_return, reach_saved, reach_event.
Qed.

Lemma tracks_release i deal forced reason message context :
  Tracks (release env cfg i deal forced reason message context).
Proof.
  apply tracks_operation. intros d w Hwf Hr. do 2 l_step.
  destruct (_find_reservation _ _ _ _) as [r|] eqn:Hf; [|by l_step].
  assert (row_live w r) as Hlive by by eapply live_of_found.
  l_step.
  { apply wp_permitted_bind; [auto..|]. intros _ w1 Hq1 Hr1. do 2 l_step.
    by apply wp_lift_return, reach_saved. }
  l_step; [by l_step|]. apply negb_false_iff in Heqb0. l_step; [by l_step|].
  assert (∀ permitted w1, quiet cfg allowed w w1 → Reach d w1 →
    wp (if negb permitted then mret None else
        _record_lease_end env cfg r (if forced then "force_release" else "end") context
          (if forced then "force_release" else "release") (str_or message reason);;
        now ← now_utc env;
        let r := released_row (if forced then force_released else released) now reason message r in
        write (update_reservation r);;
        _run_release_effect cfg (capacity_reservation_id r)
          (if forced then force_released else released);;
        d ← db;
        dims ← lift (_reservation_dimensions r (cfg_mirror_dimension cfg));
        add_capacity_event env "released"
          (_backing_resource_id d (capacity_reservation_id r)) (Some (_serialize_dimensions dims));;
        commit_session;;
        p ← lift (_reservation_payload cfg r); mret (Some p)) (Tracked d) w1) as Hrest.
  { intros permitted w1 Hq1 Hr1. l_step; [by l_step|].
    eapply wp_quietly_bind; [apply wp_record_lease_end; auto|done|]. intros [] w2 Hq2 Hr2.
    do 2 l_step. apply (wp_save_release r); [by apply reach_tick| |].
    - apply (row_live_quiet cfg allowed w1 w2 r Hq2).
      by apply (row_live_quiet cfg allowed w w1 r Hq1).
    - by apply released_row_step; destruct forced. }
  l_step. destruct forced; simpl in *.
  - l_step. by apply (Hrest true).
  - eapply wp_mono; [by apply wp_release_permitted|]. intros ? w1 (b & -> & Hq1).
    apply (Hrest b); [done|by eapply quiet_reach].
Qed.

Lemma tracks_resize_reservation old_id claim deal ttl start dur :
  Tracks (resize_reservation env cfg old_id claim deal ttl start dur).
Proof.
  apply tracks_lift; intros requested _. apply tracks_lift; intros mode _.
  apply tracks_window; intros ws we Hwin. apply tracks_operation. intros d w Hwf Hr.
  apply wp_after_sweep; [done..|]. clear w Hr. intros w Hr. do 2 l_step.
  destruct (get_reservation_row old_id (working w)) as [old|] eqn:Hget; [|by l_step].
  pose proof (live_of_get _ _ _ Hget) as Hlive.
  destruct (get_row_in _ _ _ Hget) as [_ Hid].
  l_step; [by l_step|]. apply negb_false_iff in Heqb.
  apply wp_permitted_bind; [done..|]. intros b w1 Hq1 Hr1. l_step; [by l_step|].
  apply wp_lift_bind; [done|]. intros dims _.
  eapply wp_quietly_bind; [apply wp_record_lease_end; auto|done|]. intros [] w2 Hq2 Hr2.
  do 4 l_step.
  eapply wp_quietly_bind; [apply wp_run_release_effect; auto| |].
  { pose proof (superseded_row_step (clock env (clock_reads w2)) old Heqb) as [? ?].
    apply (reach_row _ _ _ _ old); [by apply reach_tick| |done|by apply allow_row].
    apply (row_live_quiet cfg allowed w1 w2 old Hq2).
    by apply (row_live_quiet cfg allowed w w1 old Hq1). }
  intros [] w3 Hq3 Hr3. apply wp_bind, wp_capacity_event. do 2 l_step.
  apply wp_find_and_place; [by apply reach_event|done|].
  do 3 l_step. apply reach_begin. by destruct Hr3.
Qed.

(** *** Assignment *)

Lemma check_destination_Ok d rid (r : CapacityReservation) b :
  check_destination cfg d rid r = Ok b →
  _bucket_by_backing_resource d rid = Some b ∧ enabled b = true ∧
  ∃ p mode, str_truthy (bucket_pool_id b) = Some p ∧ str_truthy (offering_mode r) = Some mode ∧
    _pool_declares_mode d b mode = Ok true ∧
    declaration_has_usable_host (bucket_host_id b) (_pool_provider d (Some p)) true
      (cfg_host_requirement cfg) (_deliverable_host_ids cfg d) = Ok true.
Proof.
  unfold check_destination. destruct (_bucket_by_backing_resource d rid) as [b'|]; [|done].
  destruct (enabled b') eqn:Hen; [|done]. simpl.
  destruct (str_truthy (bucket_pool_id b')) as [p|] eqn:Hp; [|done].
  destruct (str_truthy (offering_mode r)) as [mode|] eqn:Hmode; [|done].
  intros (declared & Hd & H)%result_bind_Ok. destruct declared; [|done]. simpl in H.
  apply result_bind_Ok in H as (usable & Hu & H). destruct usable; [|done].
  injection H as <-. naive_solver.
Qed.

Lemma wp_assign_in_session i rid d w :
  db_wf d → Reach d w →
  wp (assign_settlement_resource_in_session env cfg i rid) (Tracked d) w.
Proof.
  intros Hwf Hr. unfold assign_settlement_resource_in_session.
  l_step. unfold _require_serialized. do 2 l_step. l_step; [l_step; by destruct Hr|].
  l_step. l_step. l_step.
  destruct (_find_reservation _ _ _ _) as [r|] eqn:Hf; [|by l_step].
  assert (row_live w r) as Hlive by by eapply live_of_found.
  l_step; [l_step; by destruct Hr|]. apply negb_false_iff in Heqb0.
  apply wp_lift_bind; [done|]. intros dest Hdest. l_step.
  { do 2 l_step. apply wp_lift_return. apply (reach_row _ _ _ _ r); [done..| |];
      [by apply assigned_row_step|apply allow_row; by apply assigned_row_step]. }
  apply bool_decide_eq_false in Heqb1.
  apply wp_lift_bind; [done|]. intros dims Hdims.
  apply wp_lift_bind; [done|]. intros held Hheld.
  apply wp_lift_bind; [done|]. intros cap Hcap.
  l_step; [l_step; by destruct Hr|].
  destruct (_debit_for_reservation _ _) as [debit|] eqn:Hdebit; [|l_step; by destruct Hr].
  destruct (check_destination_Ok _ _ _ _ Hdest) as (Hfound & _).
  destruct (bucket_found_in _ _ _ Hfound) as [Hin Hrid]. do 2 l_step.
  set (w1 := with_working _ w).
  assert (Reach d w1) as Hr1.
  { apply reach_write; [done|]. eapply one_step; [apply allow_rebind|].
    apply st_rebind; [done..|]. split; rewrite ?Hrid; try done.
    - split; [|done]. by eapply find_reservation_in.
    - by exists cap, held, dims. }
  destruct (assigned_row_step (Some rid) (_executor_ref_for_resource dest) r Heqb0)
    as [_ [Hstep Hwin]].
  do 2 l_step. do 2 (apply wp_bind, wp_capacity_event).
  apply wp_lift_return, reach_event; [done|]. apply reach_event; [done|]. apply (reach_row _ _ _ _ r); auto.
Qed.

Lemma tracks_assign_settlement_resource i rid :
  Tracks (assign_settlement_resource env cfg i rid).
Proof.
  apply tracks_operation. intros d w Hwf Hr. apply wp_after_sweep; [done..|].
  intros w' Hr'. l_step. eapply wp_mono; [by apply wp_assign_in_session|].
  intros [x|e] w''; [|done]. intros ?. do 3 l_step. by apply reach_saved.
Qed.

Lemma wp_scheduling_candidates kind exclude d w :
  Reach d w → wp (iter_scheduling_candidates_in_session env cfg kind exclude) (Tracked d) w.
Proof.
  intros Hr. unfold iter_scheduling_candidates_in_session. do 2 l_step.
  apply wp_lift_bind; [by apply reach_tick|]. intros e _. do 2 l_step.
  apply wp_lift_bind; [by apply reach_tick|]. intros own _.
  apply wp_lift_end. by apply reach_tick.
Qed.

(** *** The lease tail *)

Lemma tracks_truncate_lease i lease_end : Tracks (truncate_lease env cfg i lease_end).
Proof.
  apply tracks_operation. intros d w Hwf Hr. do 2 l_step.
  destruct (_find_reservation _ _ _ _) as [r|] eqn:Hf; [|by l_step].
  assert (row_live w r) as Hlive by by eapply live_of_found.
  l_step; [by l_step|]. apply negb_false_iff, bool_decide_eq_true in Heqb.
  destruct (parse_utc (Some lease_end)) as [new_end|] eqn:Hnew; [|by l_step].
  l_step; [by l_step|]. destruct (truncated_row_step lease_end new_end r) as [? ?]; [done..|].
  do 2 l_step. apply wp_bind, wp_capacity_event. do 2 l_step.
  apply wp_lift_return, reach_saved, reach_event; [done|]. apply (reach_row _ _ _ _ r); auto.
Qed.

Lemma tracks_activate_lease i : Tracks (activate_lease env cfg i).
Proof.
  apply tracks_operation. intros d w Hwf Hr. do 2 l_step.
  destruct (_find_reservation _ _ _ _) as [r|] eqn:Hf; [|by l_step].
  assert (row_live w r) as Hlive by by eapply live_of_found.
  l_step; [l_step; by destruct Hr|]. apply negb_false_iff, bool_decide_eq_true in Heqb.
  destruct (lease_end_utc r); [|l_step; by destruct Hr].
  destruct (activated_at_utc r) eqn:Ha; [by apply wp_lift_return|]. do 2 l_step.
  eapply wp_save_and_return; [by apply reach_tick|done|by apply activated_row_step].
Qed.

Lemma tracks_list_lease_due now : Tracks (list_lease_due cfg now).
Proof. apply tracks_operation. intros d w Hwf Hr. do 2 l_step. by apply wp_lift_end. Qed.

Lemma tracks_begin_releasing i job context : Tracks (begin_releasing env cfg i job context).
Proof.
  apply tracks_operation. intros d w Hwf Hr. do 2 l_step.
  destruct (get_reservation_row _ _) as [r|] eqn:Hget; [|by l_step].
  pose proof (live_of_get _ _ _ Hget) as Hlive. l_step.
  - apply bool_decide_eq_true in Heqb. l_step; [by l_step|].
    eapply wp_save_and_return; [done..|]. apply with_release_job_id_step.
    apply row_step_refl. by rewrite Heqb.
  - l_step; [by l_step|]. apply negb_false_iff, bool_decide_eq_true in Heqb0.
    eapply wp_quietly_bind; [apply wp_record_lease_end; auto|done|]. intros [] w1 Hq1 Hr1.
    do 2 l_step. apply (wp_save_and_return r); [by apply reach_tick| |].
    + by apply (row_live_quiet cfg allowed w w1 r Hq1).
    + by apply with_release_job_id_step, releasing_row_step.
Qed.

Lemma tracks_record_release_failed i reason message job context :
  Tracks (record_release_failed env cfg i reason message job context).
Proof.
  apply tracks_operation. intros d w Hwf Hr. do 2 l_step.
  destruct (get_reservation_row _ _) as [r|] eqn:Hget; [|by l_step].
  pose proof (live_of_get _ _ _ Hget) as Hlive. l_step; [by l_step|].
  apply negb_false_iff, bool_decide_eq_true in Heqb. l_step; [by l_step|].
  eapply wp_quietly_bind; [apply wp_record_lease_end; auto|done|]. intros [] w1 Hq1 Hr1.
  apply (wp_save_and_return r); [done| |by apply release_failed_row_step].
  by apply (row_live_quiet cfg allowed w w1 r Hq1).
Qed.

Lemma tracks_record_unmanaged i reason message : Tracks (record_unmanaged cfg i reason message).
Proof.
  apply tracks_operation. intros d w Hwf Hr. do 2 l_step.
  destruct (get_reservation_row _ _) as [r|] eqn:Hget; [|by l_step].
  pose proof (live_of_get _ _ _ Hget) as Hlive. l_step; [by l_step|].
  apply negb_false_iff, bool_decide_eq_true in Heqb.
  eapply wp_save_and_return; [done..|]. by apply unmanaged_row_step.
Qed.

Lemma wp_record_create_handle i job d w :
  Reach d w → wp (record_create_handle_in_session cfg i job) (Tracked d) w.
Proof.
  intros Hr. unfold record_create_handle_in_session. do 2 l_step.
  destruct (get_reservation_row _ _) as [r|] eqn:Hget; [|by l_step].
  pose proof (live_of_get _ _ _ Hget) as Hlive. l_step; [by l_step|]. do 2 l_step.
  apply wp_lift_return. set (r' := match _ with Some _ => _ | None => _ end).
  assert (row_step r r' ∧ window_kept r r') as [? ?]; [|apply (reach_row _ _ _ _ r); auto].
  unfold r'. destruct (str_truthy (create_job_id r)) eqn:?; [|by apply create_handle_row_step].
  apply row_step_refl. by rewrite is_released_held, negb_false_iff in Heqb.
Qed.

Lemma wp_record_executor_target i target d w :
  Reach d w → wp (record_executor_target_in_session cfg i target) (Tracked d) w.
Proof.
  intros Hr. unfold record_executor_target_in_session. do 2 l_step.
  destruct (get_reservation_row _ _) as [r|] eqn:Hget; [|by l_step].
  pose proof (live_of_get _ _ _ Hget) as Hlive. l_step; [by l_step|].
  apply wp_lift_bind; [done|]. intros r' Hr'. do 2 l_step.
  apply wp_lift_return.
  assert (row_step r r' ∧ window_kept r r') as [? ?]; [|apply (reach_row _ _ _ _ r); auto].
  destruct (executor_target r) eqn:Ht; [|by eapply executor_target_row_step].
  injection Hr' as <-. apply row_step_refl. by rewrite is_released_held, negb_false_iff in Heqb.
Qed.

(** *** Declarations and offers *)

Lemma wp_resource_payload b d w :
  Reach d w → wp (_resource_payload env cfg b) (λ x w', Tracked d x w' ∧
    working w' = working w ∧ committed w' = committed w) w.
Proof.
  intros [? ?]. unfold _resource_payload. do 6 l_step. destruct (dt_add_us _ _); [|done]. l_step.
  by destruct (resource_payload_at _ _ _ _ _).
Qed.

Lemma wp_resource_payloads rows d w :
  Reach d w → wp (resource_payloads env cfg rows) (Tracked d) w.
Proof.
  revert w. induction rows as [|b rows IH]; intros w Hr; simpl; [by l_step|].
  l_step. eapply wp_mono; [by apply (wp_resource_payload b d)|].
  intros [p|e] w' [Hw' _]; [|done]. l_step. eapply wp_mono; [by apply IH|].
  intros [ps|e] w'' Hw''; [|done]. by l_step.
Qed.

Lemma tracks_list_resources : Tracks (list_resources env cfg).
Proof.
  apply tracks_operation. intros d w Hwf Hr. apply wp_after_sweep; [done..|].
  intros w' Hr'. do 2 l_step. by apply wp_resource_payloads.
Qed.

Lemma tracks_list_offered_resources : Tracks (list_offered_resources env cfg).
Proof.
  apply tracks_operation. intros d w Hwf Hr. apply wp_after_sweep; [done..|].
  intros w' Hr'. do 3 l_step. eapply wp_mono; [by apply wp_resource_payloads|].
  intros [ps|e] w''; [|done]. intros ?. destruct (cfg_host_requirement cfg); [|by l_step].
  by apply wp_lift_end.
Qed.

Lemma tracks_snapshot : Tracks (snapshot env cfg).
Proof.
  intros w Hwf. unfold snapshot. l_step. eapply wp_mono; [by apply tracks_list_offered_resources|].
  intros [ps|e] w'' ?; [by l_step|done].
Qed.

Lemma wp_register_declaration decl d w :
  db_wf d → Reach d w → (∀ b, allowed (LNewBucket b)) →
  (∀ old now, _bucket_by_backing_resource (working w) (decl_resource_id decl) = Some old →
     allowed (LBucket old (flush_bucket old (_write_declaration cfg old decl) now))) →
  wp (register_declaration_in_session env cfg decl) (Tracked d) w.
Proof.
  intros Hwf Hr Hnew Hold. unfold register_declaration_in_session.
  l_step. unfold _require_serialized. do 2 l_step. l_step; [l_step; by destruct Hr|].
  do 3 l_step. destruct (pools (working w) !! decl_pool_id decl) as [pool|] eqn:Hpool;
    [|l_step; by destruct Hr].
  apply wp_lift_bind; [done|]. intros old_capacity _.
  destruct (registration_refusal _ _ _) eqn:Href; [l_step; by destruct Hr|].
  unfold registration_refusal in Href. destruct (host_taken _ _) eqn:Htaken; [done|].
  destruct (moves_obligated _ _ _) eqn:Hmoves; [done|].
  assert (host_free (working w) (decl_host_id decl) (decl_resource_id decl)) as Hfree.
  { intros holder Hh. unfold host_taken in Htaken. rewrite Hh in Htaken.
    by apply negb_false_iff, bool_decide_eq_true in Htaken. }
  assert (∀ b x w1, Reach d w1 → wp (add_capacity_event env x
      (Some (decl_resource_id decl)) (Some (_serialize_dimensions
        (capacity_delta (decl_capacity decl) old_capacity))) ≫= λ _,
      _resource_payload env cfg b) (Tracked d) w1) as Hrest.
  { intros b x w1 Hr1. apply wp_bind, wp_capacity_event.
    eapply wp_mono; [by apply wp_resource_payload, reach_event|]. by intros ? ? [? _]. }
  do 2 l_step.
  destruct (_bucket_by_backing_resource _ _) as [old|] eqn:Hbucket; l_step.
  - destruct (bucket_found_in _ _ _ Hbucket) as [_ Hid]. do 3 l_step. apply Hrest.
    apply reach_write; [done|]. eapply one_step; [by apply Hold|].
    apply st_bucket; simpl; rewrite ?Hid, ?Hpool; try done.
    unfold moves_obligated in Hmoves. apply andb_false_iff in Hmoves as [Hp|?]; [left|by right].
    by apply negb_false_iff, bool_decide_eq_true in Hp.
  - l_step. l_step. unfold insert_bucket_checked. do 3 l_step.
    destruct (get_bucket_row _ _) eqn:Hrow; [l_step; by destruct Hr|]. do 2 l_step.
    apply Hrest. destruct Hr as [? ?]. split; simpl; [done|]. etrans; [done|].
    eapply one_step; [apply Hnew|]. apply st_new_bucket; simpl; rewrite ?Hpool; done.
Qed.

(** The declaration a registration request makes: its dimensions, checked as
    the declaration model checks them. *)
Definition registered_declaration (rid pool : string) (n : option Z) (rt : string)
    (sub : option string) (attrs cap : option dict) (en : bool) (host : option string)
    : result CapacityDeclaration :=
  dimensions' ← requested_capacity cfg n cap;
  make_declaration rid pool rt sub host dimensions' (default [] attrs) en.

Lemma wp_register_in_session rid pool n rt sub attrs cap en host d w :
  db_wf d → Reach d w → (∀ b, allowed (LNewBucket b)) →
  (∀ decl old now, registered_declaration rid pool n rt sub attrs cap en host = Ok decl →
     _bucket_by_backing_resource (working w) rid = Some old →
     allowed (LBucket old (flush_bucket old (_write_declaration cfg old decl) now))) →
  wp (register_resource_in_session env cfg rid pool n rt sub attrs cap en host) (Tracked d) w.
Proof.
  intros Hwf Hr Hnew Hold. unfold register_resource_in_session.
  l_step. unfold _require_serialized at 1. do 2 l_step. l_step; [l_step; by destruct Hr|].
  l_step. l_step; [l_step; by destruct Hr|].
  apply wp_lift_bind; [done|]. intros dims Hdims.
  apply wp_lift_bind; [done|]. intros decl Hdecl.
  assert (registered_declaration rid pool n rt sub attrs cap en host = Ok decl) as Hmade.
  { unfold registered_declaration. by rewrite Hdims. }
  assert (decl_resource_id decl = rid) as Hid.
  { unfold make_declaration in Hdecl.
    do 3 (match type of Hdecl with (if ?b then _ else _) = _ => destruct b; [done|] end).
    apply result_bind_Ok in Hdecl as (c & _ & Hdecl). by injection Hdecl as <-. }
  apply wp_register_declaration; [done..|]. intros old now Hfound. apply Hold; [done|].
  by rewrite <- Hid.
Qed.

Lemma wp_register_resource rid pool n rt sub attrs cap en host w :
  db_wf (committed w) → (∀ b, allowed (LNewBucket b)) →
  (∀ decl old now, registered_declaration rid pool n rt sub attrs cap en host = Ok decl →
     _bucket_by_backing_resource (committed w) rid = Some old →
     allowed (LBucket old (flush_bucket old (_write_declaration cfg old decl) now))) →
  wp (register_resource env cfg rid pool n rt sub attrs cap en host)
     (λ _ w', Steps (committed w) (committed w')) w.
Proof.
  intros Hwf Hnew Hold. apply wp_operation. l_step.
  eapply wp_mono; [apply (wp_register_in_session _ _ _ _ _ _ _ _ _ (committed w)); done|].
  intros [p|e] w'; simpl; [|done]. intros [? ?]. do 3 l_step. done.
Qed.
End operations.
