(* ===== verification/LedgerCapacity.v ===== *)
(** Capacity accounting over whole amounts: what a bucket holds at an
    instant, and that no step of the specification takes it beyond what the
    bucket declares. *)
From S2P Require Import Prelude PyNum PyValue PyNumFacts PyTime PyTimeFacts PoolDeclarations.
From S2P Require Import LedgerTypes LedgerMatching Ledger LedgerLifecycle LedgerRegistry.
From S2P Require Import LedgerSpec LedgerAdmission.

Local Open Scope Z_scope.

(** ** Whole amounts *)

Definition whole_num (n : num) : Prop := ∃ z, n = NInt z ∧ 0 <= z.

Definition num_Z (n : num) : Z := match n with NInt z => z | _ => 0 end.

(** The dimension map a row's quantities are read from. *)
Definition effective (m : option num_map) (mirror : string) (n : option Z) : num_map :=
  let m := default ∅ m in
  if decide (m = ∅) then match n with Some z => {[ mirror := NInt z ]} | None => ∅ end else m.

Definition whole_map (m : num_map) : Prop := map_Forall (λ _ n, whole_num n) m.

Definition amount_in (m : num_map) (k : string) : Z := num_Z (default (NInt 0) (m !! k)).

Section capacity.
Context {Ext : Type} (cfg : ledger_config Ext).
Abbreviation mirror := (cfg_mirror_dimension cfg).
Implicit Types (d : DB Ext) (b : CapacityBucket).

Definition row_map (r : CapacityReservation) : num_map :=
  effective (dimensions r) mirror (Some (units r)).
Definition bucket_map b : num_map := effective (Some (capacity b)) mirror (total_units b).

Definition row_amount (k : string) (r : CapacityReservation) : Z := amount_in (row_map r) k.
Definition room (k : string) b : Z := amount_in (bucket_map b) k.

Definition whole_bucket b : Prop :=
  whole_map (bucket_map b) ∧ map_Forall (λ _ n, num_Z n < cap_limit) (bucket_map b).

Record whole_ledger d : Prop := {
  wl_rows : ∀ r, r ∈ reservations d → whole_map (row_map r);
  wl_buckets : ∀ b, b ∈ buckets d → whole_bucket b;
}.

Definition total (k : string) (l : list CapacityReservation) : Z :=
  foldr (λ r n, row_amount k r + n) 0 l.

(** What a bucket holds of a dimension at an instant. *)
Definition load d (bucket_id : string) (k : string) (t : Z) : Z :=
  total k (filter (λ r, covers r t) (holders d bucket_id)).

Definition within_capacity d : Prop :=
  ∀ b k t, b ∈ buckets d → load d (capacity_bucket_id b) k t <= room k b.

(** Whole ledgers hold no more than they declare. *)
Definition safe d : Prop := whole_ledger d → within_capacity d.

(** ** Reading whole maps *)

Lemma amount_in_nonneg m k : whole_map m → 0 <= amount_in m k.
Proof.
  intros Hm. unfold amount_in. destruct (m !! k) as [n|] eqn:E; simpl; [|done].
  by destruct (Hm k n E) as (z & -> & ?).
Qed.

Lemma room_limit b k : whole_bucket b → room k b < cap_limit.
Proof.
  intros [_ Hm]. unfold room, amount_in. destruct (bucket_map b !! k) as [n|] eqn:E; [|done].
  exact (Hm k n E).
Qed.

(** Deciding that a ledger is whole. *)
#[export] Instance whole_num_dec n : Decision (whole_num n).
Proof.
  refine (match n with
          | NInt z => if decide (0 <= z) then left _ else right _
          | _ => right _
          end); unfold whole_num; [by exists z|by intros (? & [= <-] & ?)|by intros (? & ? & ?)..].
Defined.

Definition whole_ledgerb d : bool :=
  forallb (λ r, bool_decide (whole_map (row_map r))) (reservations d) &&
  forallb (λ b, bool_decide (whole_map (bucket_map b)) &&
    bool_decide (map_Forall (λ _ n, num_Z n < cap_limit) (bucket_map b))) (buckets d).

Lemma whole_ledgerb_true d : whole_ledgerb d = true → whole_ledger d.
Proof.
  unfold whole_ledgerb. rewrite andb_true_iff, !forallb_forall. intros [Hr Hb]. split.
  - intros r Hin%list_elem_of_In. by apply Hr, bool_decide_eq_true in Hin.
  - intros b Hin%list_elem_of_In. apply Hb, andb_true_iff in Hin as [H1 H2].
    apply bool_decide_eq_true in H1, H2. by split.
Qed.

(** Reading a whole map back gives its amounts. *)
Definition whole_amounts (m : num_map) : amounts := dec_of_Z ∘ num_Z <$> m.

Lemma read_amounts_whole f m :
  whole_map m → (∀ z, 0 <= z → f (NInt z) = Ok (dec_of_Z z)) →
  read_amounts f m = Ok (whole_amounts m).
Proof.
  intros Hm Hf. unfold read_amounts. rewrite decide_True.
  - f_equal. apply map_eq. intros k. unfold whole_amounts. rewrite lookup_omap, lookup_fmap.
    destruct (m !! k) as [n|] eqn:E; simpl; [|done].
    destruct (Hm k n E) as (z & -> & ?). by rewrite Hf.
  - intros k n E. destruct (Hm k n E) as (z & -> & ?). by rewrite Hf.
Qed.

Lemma whole_amounts_singleton k z : whole_amounts {[k := NInt z]} = {[k := dec_of_Z z]}.
Proof. unfold whole_amounts. by rewrite map_fmap_singleton. Qed.

Lemma reservation_dimensions_whole (r : CapacityReservation) :
  whole_map (row_map r) → _reservation_dimensions r mirror = Ok (whole_amounts (row_map r)).
Proof.
  unfold row_map, effective, _reservation_dimensions.
  assert (∀ z, 0 <= z → stored_amount (NInt z) = Ok (dec_of_Z z)) by done.
  destruct (dimensions r) as [m|]; simpl.
  - destruct (decide (m = ∅)); intros Hm; [by rewrite whole_amounts_singleton|].
    by apply read_amounts_whole.
  - rewrite decide_True by done. intros _. by rewrite whole_amounts_singleton.
Qed.

Lemma stored_nonneg_whole z : 0 <= z → stored_nonneg (NInt z) = Ok (dec_of_Z z).
Proof.
  intros Hz. unfold stored_nonneg, _to_decimal_nonneg. simpl.
  change dec0 with (dec_of_Z 0). rewrite dec_ltb_whole. by rewrite (proj2 (Z.ltb_ge _ _)) by lia.
Qed.

Lemma resource_capacity_whole b :
  whole_bucket b → _resource_capacity b mirror = Ok (whole_amounts (bucket_map b)).
Proof.
  intros [Hm _]. revert Hm. unfold bucket_map, effective, _resource_capacity. simpl.
  destruct (decide (capacity b = ∅)); intros Hm.
  - destruct (total_units b); [by rewrite whole_amounts_singleton|done].
  - apply read_amounts_whole; [done|]. apply stored_nonneg_whole.
Qed.

Lemma amount_at_whole k m : amount_at k (whole_amounts m) = dec_of_Z (amount_in m k).
Proof.
  unfold amount_at, whole_amounts, amount_in. rewrite lookup_fmap. by destruct (m !! k).
Qed.

Lemma dom_whole_amounts m : dom (whole_amounts m) = dom m.
Proof. apply dom_fmap_L. Qed.

(** ** Sums *)

Lemma accumulate_at k (t m : amounts) :
  amount_at k (accumulate t m) =
  match m !! k with Some a => dec_add (amount_at k t) a | None => amount_at k t end.
Proof.
  unfold amount_at, accumulate. rewrite lookup_merge.
  by destruct (t !! k), (m !! k).
Qed.

Lemma sum_dimensions_counts l totals n :
  (∀ r, r ∈ l → whole_map (row_map r)) → (∀ k, counts (amount_at k totals) (n k)) →
  ∃ held, sum_dimensions cfg totals l = Ok held ∧
    ∀ k, counts (amount_at k held) (n k + total k l).
Proof.
  revert totals n. induction l as [|r l IH]; intros totals n Hl Hn; simpl.
  { exists totals. split; [done|]. intros k. rewrite Z.add_0_r. done. }
  assert (whole_map (row_map r)) as Hr by (apply Hl; set_solver).
  rewrite reservation_dimensions_whole by done. simpl.
  destruct (IH (accumulate totals (whole_amounts (row_map r))) (λ k, n k + row_amount k r))
    as (held & Hheld & Hcounts).
  - set_solver.
  - intros k. rewrite accumulate_at. unfold row_amount, amount_in, whole_amounts.
    rewrite lookup_fmap. destruct (row_map r !! k) as [x|] eqn:E; simpl.
    + destruct (Hr k x E) as (z & -> & ?). by apply counts_add.
    + by rewrite Z.add_0_r.
  - exists held. split; [done|]. intros k. specialize (Hcounts k). by rewrite Z.add_assoc.
Qed.

Lemma total_nonneg k l : (∀ r, r ∈ l → whole_map (row_map r)) → 0 <= total k l.
Proof.
  induction l as [|r l IH]; intros Hl; simpl; [done|].
  assert (0 <= row_amount k r) by (apply amount_in_nonneg, Hl; set_solver).
  assert (0 <= total k l) by (apply IH; set_solver). lia.
Qed.

(** Keeping fewer rows, or rows with the same amounts, keeps no more. *)
Lemma total_filter_le k (P Q : CapacityReservation → Prop)
    `{∀ r, Decision (P r)} `{∀ r, Decision (Q r)} l :
  (∀ r, r ∈ l → whole_map (row_map r)) → (∀ r, r ∈ l → P r → Q r) →
  total k (filter P l) <= total k (filter Q l).
Proof.
  induction l as [|r l IH]; intros Hl HPQ; [done|]. rewrite !filter_cons.
  assert (0 <= row_amount k r) by (apply amount_in_nonneg, Hl; set_solver).
  assert (total k (filter P l) <= total k (filter Q l)) by (apply IH; set_solver).
  assert (P r → Q r) by (apply HPQ; set_solver).
  repeat case_decide; simpl; try lia. tauto.
Qed.

Lemma total_app k l l' : total k (l ++ l') = total k l + total k l'.
Proof. induction l as [|r l IH]; simpl; [done|]. rewrite IH. lia. Qed.

Lemma held_dimensions_counts d b ws we :
  whole_ledger d → _bucket_by_backing_resource d (backing_resource_id b) = Some b →
  ∃ held, _held_dimensions cfg d (backing_resource_id b) ws we = Ok held ∧
    ∀ k, counts (amount_at k held)
           (total k (filter (λ r, counts_in_window ws we r = true)
                            (holders d (capacity_bucket_id b)))).
Proof.
  intros Hwl Hb. unfold _held_dimensions. rewrite Hb.
  destruct (sum_dimensions_counts
    (filter (λ r, counts_in_window ws we r = true) (holders d (capacity_bucket_id b))) ∅ (λ _, 0))
    as (held & ? & Hc).
  - intros r [_ [_ Hr]%list_elem_of_filter]%list_elem_of_filter. by apply wl_rows in Hr.
  - intros k. unfold amount_at. rewrite lookup_empty. apply counts_zero.
  - exists held. split; [done|]. intros k. apply Hc.
Qed.

Lemma load_counted d bucket_id k t (ws we : option datetime) :
  whole_ledger d → in_window ws we t →
  load d bucket_id k t <=
  total k (filter (λ r, counts_in_window ws we r = true) (holders d bucket_id)).
Proof.
  intros Hwl Ht. apply total_filter_le.
  - intros r [_ Hr]%list_elem_of_filter. by apply wl_rows in Hr.
  - intros r _ Hc. by eapply counts_in_window_covers.
Qed.

(** ** Admission leaves room *)

Lemma difference_over_lookup (keys : gset string) (a b : amounts) k :
  difference_over keys a b !! k =
  if decide (k ∈ keys) then Some (dec_sub (amount_at k a) (amount_at k b)) else None.
Proof.
  unfold difference_over.
  set (f := λ k, (k, dec_sub (amount_at k a) (amount_at k b))).
  assert (∀ x, (set_to_map f keys : amounts) !! k = Some x ↔ ∃ y, y ∈ keys ∧ f y = (k, x)) as Hl.
  { intros x. apply lookup_set_to_map. by intros ? ? _ _ [=]. }
  case_decide as Hk.
  - apply Hl. by exists k.
  - destruct ((set_to_map f keys : amounts) !! k) as [x|] eqn:E; [|done].
    destruct (proj1 (Hl x) eq_refl) as (y & ? & [= -> _]). done.
Qed.

(** A whole amount that is not above the difference of a whole capacity and
    what is held fits beside what is held. *)
Lemma fits_beside c held h a z :
  0 <= c < cap_limit → counts held h → 0 <= z →
  (dec_frac a).1 = z * (dec_frac a).2 →
  num_lt (NDec (dec_sub (dec_of_Z c) held)) (NDec a) = false → h + z <= c.
Proof.
  intros Hc Hh Hz Ha Hlt. destruct (sub_counts c held h Hc Hh) as [Heq|[Hneg _]].
  - rewrite Heq in Hlt. pose proof (whole_not_below _ _ _ Ha Hlt). lia.
  - rewrite negative_below in Hlt; [done..|]. rewrite Ha.
    pose proof (dec_frac_pos a). nia.
Qed.

Lemma serialized_amount requested k :
  whole_map (_serialize_dimensions requested) →
  match requested !! k with
  | Some a => ∃ z, serialize_amount a = NInt z ∧ 0 <= z ∧
                   (dec_frac a).1 = z * (dec_frac a).2
  | None => True
  end.
Proof.
  intros Hw. destruct (requested !! k) as [a|] eqn:E; [|done].
  destruct (Hw k (serialize_amount a)) as (z & Hz & ?).
  { unfold _serialize_dimensions. by rewrite lookup_fmap, E. }
  exists z. split_and!; [done..|]. by apply dec_eqb_whole, serialize_whole.
Qed.

(** The amounts of the row [reserve] writes are the requested ones. *)
Lemma hold_row_amount i requested attrs deal expires mode b ws we created k :
  row_amount k (hold_row cfg i requested attrs deal expires mode b ws we created) =
  match requested !! k with Some a => num_Z (serialize_amount a) | None => 0 end.
Proof.
  unfold row_amount, amount_in, row_map, effective. simpl. case_decide as He.
  - unfold _serialize_dimensions in He. apply fmap_empty_inv in He as ->.
    rewrite lookup_empty. unfold amount_at. rewrite lookup_empty. simpl.
    destruct (decide (k = mirror)) as [->|]; [by rewrite lookup_singleton_eq|].
    by rewrite lookup_singleton_ne.
  - unfold _serialize_dimensions. rewrite lookup_fmap. by destruct (requested !! k).
Qed.

Lemma hold_row_whole i requested attrs deal expires mode b ws we created :
  whole_map (row_map (hold_row cfg i requested attrs deal expires mode b ws we created)) →
  whole_map (_serialize_dimensions requested).
Proof.
  unfold row_map, effective. simpl. case_decide as He; [|done]. intros _. rewrite He.
  apply map_Forall_empty.
Qed.

Lemma admitted_room d claim requested ws we b available i attrs deal expires mode created :
  db_wf d → whole_ledger d → within_capacity d →
  admitted cfg d claim requested ws we b available →
  let r := hold_row cfg i requested attrs deal expires mode b ws we created in
  whole_map (row_map r) →
  ∀ k t, in_window ws we t → load d (capacity_bucket_id b) k t + row_amount k r <= room k b.
Proof.
  intros Hwf Hwl Hcap Had r Hr k t Ht. pose proof (ad_row _ _ _ _ _ _ _ _ Had) as Hb.
  pose proof (wl_buckets _ Hwl b Hb) as Hbw. pose proof (room_limit b k Hbw) as Hlim.
  pose proof (proj1 Hbw) as Hbm.
  assert (load d (capacity_bucket_id b) k t <= room k b) as Hload by by apply Hcap.
  unfold r in *. rewrite hold_row_amount. apply hold_row_whole in Hr.
  pose proof (serialized_amount requested k Hr) as Ha.
  destruct (requested !! k) as [a|] eqn:Hreq; [|lia]. destruct Ha as (z & -> & Hz & Hfrac).
  simpl num_Z.
  destruct (ad_available _ _ _ _ _ _ _ _ Had) as (cap & held & Hcapeq & Hheldeq & ->).
  rewrite resource_capacity_whole in Hcapeq by done. injection Hcapeq as <-.
  destruct (held_dimensions_counts d b ws we Hwl) as (held' & Hheld' & Hcounts).
  { by apply find_by_elem; [apply wf_backing|]. }
  rewrite Hheldeq in Hheld'. injection Hheld' as <-.
  pose proof (ad_fits _ _ _ _ _ _ _ _ Had) as Hfits.
  apply andb_true_iff in Hfits as [Hfits _]. apply andb_true_iff in Hfits as [_ Hfits].
  apply bool_decide_eq_true in Hfits. specialize (Hfits k a Hreq). simpl in Hfits.
  rewrite lookup_fmap, difference_over_lookup, dom_whole_amounts in Hfits.
  case_decide as Hk; simpl in Hfits.
  - rewrite amount_at_whole in Hfits.
    pose proof (load_counted d (capacity_bucket_id b) k t ws we Hwl Ht).
    pose proof (amount_in_nonneg _ k Hbm).
    enough (total k (filter (λ r, counts_in_window ws we r = true)
      (holders d (capacity_bucket_id b))) + z <= room k b) by lia.
    eapply (fits_beside (room k b)); [done|apply Hcounts|done..].
  - assert (z <= 0); [|lia]. by apply (whole_not_below 0 a).
Qed.

(** ** Steps *)

(** A row's window never grows, and a stored declaration never shrinks. *)
Definition narrow (l : label) : Prop :=
  match l with
  | LRow r r' => window_kept r r'
  | LBucket old new =>
      whole_bucket new → whole_bucket old ∧ ∀ k, room k old <= room k new
  | _ => True
  end.

(** A holding reservation debited to a bucket. *)
Definition holding d (bucket_id : string) (r : CapacityReservation) : Prop :=
  held_state (res_state r) && debited_to d bucket_id r = true.

Definition carried d (bucket_id : string) (t : Z) (r : CapacityReservation) : Prop :=
  covers r t ∧ holding d bucket_id r.

#[export] Instance carried_dec d i t r : Decision (carried d i t r).
Proof. unfold carried, holding. apply _. Defined.

Lemma load_carried d i k t : load d i k t = total k (filter (carried d i t) (reservations d)).
Proof. unfold load, holders. by rewrite list_filter_filter. Qed.

Lemma total_map_le k (P Q : CapacityReservation → Prop)
    `{∀ r, Decision (P r)} `{∀ r, Decision (Q r)} (g : CapacityReservation → CapacityReservation) l :
  (∀ r, r ∈ l → whole_map (row_map r)) → (∀ r, r ∈ l → row_amount k (g r) = row_amount k r) →
  (∀ r, r ∈ l → P (g r) → Q r) →
  total k (filter P (g <$> l)) <= total k (filter Q l).
Proof.
  induction l as [|r l IH]; intros Hl Hg HPQ; [done|]. rewrite fmap_cons, !filter_cons.
  assert (0 <= row_amount k r) by (apply amount_in_nonneg, Hl; set_solver).
  assert (total k (filter P (g <$> l)) <= total k (filter Q l)) by (apply IH; set_solver).
  assert (P (g r) → Q r) by (apply HPQ; set_solver).
  assert (row_amount k (g r) = row_amount k r) by (apply Hg; set_solver).
  repeat case_decide; simpl; try lia. tauto.
Qed.

Lemma total_filter_one k (P Q : CapacityReservation → Prop)
    `{∀ r, Decision (P r)} `{∀ r, Decision (Q r)} r l :
  NoDup l → (∀ x, x ∈ l → whole_map (row_map x)) → r ∈ l →
  (∀ x, x ∈ l → x ≠ r → P x → Q x) →
  total k (filter P l) <= total k (filter Q l) + row_amount k r.
Proof.
  induction l as [|x l IH]; intros Hnd Hl Hr HPQ; [set_solver|]. rewrite !filter_cons.
  apply NoDup_cons in Hnd as [Hx Hnd].
  assert (0 <= row_amount k x) by (apply amount_in_nonneg, Hl; set_solver).
  apply elem_of_cons in Hr as [->|Hr].
  - assert (total k (filter P l) <= total k (filter Q l)).
    { apply total_filter_le; [set_solver|]. intros y Hy. apply HPQ; [set_solver|]. by intros ->. }
    repeat case_decide; simpl; lia.
  - assert (total k (filter P l) <= total k (filter Q l) + row_amount k r) by (apply IH; set_solver).
    assert (x ≠ r) by (by intros ->). assert (P x → Q x) by (apply HPQ; set_solver). repeat case_decide; simpl; try lia. tauto.
Qed.

Lemma row_step_amounts r r' : row_step r r' → row_map r' = row_map r.
Proof. intros []. unfold row_map. congruence. Qed.

Lemma wf_NoDup_rows d : db_wf d → NoDup (reservations d).
Proof. intros Hwf. by eapply NoDup_fmap_1, wf_ids. Qed.

Lemma safe_row d r r' :
  db_wf d → get_reservation_row (capacity_reservation_id r) d = Some r → row_step r r' →
  window_kept r r' → safe d → safe (update_reservation r' d).
Proof.
  intros Hwf [Hr _]%get_row_in Hstep Hwin Hsafe Hwl'. destruct Hwl' as [Hrows Hbuckets].
  assert (∀ x, x ∈ reservations d → capacity_reservation_id x = capacity_reservation_id r' → x = r)
    as Hkey.
  { intros x Hx Hid. eapply key_inj; [exact (wf_ids _ Hwf)|done..|].
    by rewrite Hid, (rs_id _ _ Hstep). }
  assert (whole_ledger d) as Hwl.
  { split; [|done]. intros x Hx.
    destruct (decide (capacity_reservation_id x = capacity_reservation_id r')) as [Hid|Hid].
    - rewrite (Hkey x Hx Hid), <- (row_step_amounts r r' Hstep). apply Hrows. simpl.
      apply elem_of_replace_by. left. eauto.
    - apply Hrows. simpl. apply elem_of_replace_by. by right. }
  intros b k t Hb. etrans; [|by apply (Hsafe Hwl b k t)].
  rewrite !load_carried. simpl. unfold replace_by. apply total_map_le.
  - intros x Hx. by apply Hwl.
  - intros x Hx. case_decide as Hid; [|done]. rewrite (Hkey x Hx Hid).
    unfold row_amount. by rewrite (row_step_amounts r r' Hstep).
  - intros x Hx. case_decide as Hid; [|done]. rewrite (Hkey x Hx Hid).
    unfold carried, holding, debited_to. simpl. rewrite (rs_id _ _ Hstep).
    intros [Hc Hh]. split; [by apply Hwin|]. apply andb_true_iff in Hh as [_ Hd].
    rewrite Hd, andb_true_r. pose proof (rs_edge _ _ Hstep) as He.
    by apply andb_true_iff in He as [? _].
Qed.

Lemma safe_hold d i claim requested attrs deal expires mode b available ws we created :
  let r := hold_row cfg i requested attrs deal expires mode b ws we created in
  db_wf d → get_reservation_row i d = None → debits d !! i = None →
  admitted cfg d claim requested ws we b available → window_valid ws we → safe d →
  safe (set_debit i {| debit_bucket_id := capacity_bucket_id b;
                       debit_dimensions := _serialize_dimensions requested |}
          (insert_reservation r d)).
Proof.
  intros r Hwf Hi Hx Had [Hws Hwe] Hsafe [Hrows Hbuckets]. simpl in *.
  assert (whole_ledger d) as Hwl by (split; [set_solver|done]).
  assert (whole_map (row_map r)) as Hr by set_solver.
  assert (∀ x, x ∈ reservations d → capacity_reservation_id x ≠ i) as Hne.
  { unfold get_reservation_row in Hi. by rewrite find_by_None in Hi. }
  intros b' k t Hb'. simpl in Hb'. rewrite load_carried. simpl.
  rewrite filter_app, total_app.
  set (d' := set_debit _ _ _).
  assert (total k (filter (carried d' (capacity_bucket_id b') t) (reservations d)) <=
          load d (capacity_bucket_id b') k t) as Hold.
  { rewrite load_carried. apply total_filter_le; [apply Hwl|]. intros x Hxin.
    unfold carried, holding, debited_to, d'. simpl. rewrite lookup_insert_ne; [done|].
    intros Heq. by destruct (Hne x Hxin). }
  etrans; [apply Z.add_le_mono_r, Hold|]. rewrite filter_cons, filter_nil.
  pose proof (Hsafe Hwl b' k t Hb') as Hcap. case_decide as Hc; simpl; [|lia].
  destruct Hc as [Hcov Hh]. unfold holding, debited_to, d' in Hh. simpl in Hh.
  rewrite lookup_insert_eq in Hh. apply bool_decide_eq_true in Hh. simpl in Hh.
  rewrite <- Hh, Z.add_0_r.
  assert (b' = b) as ->.
  { eapply key_inj; [exact (wf_bucket_ids _ Hwf)|done|apply Had|done]. }
  unfold r. eapply admitted_room; try done; [by apply Hsafe|].
  unfold covers, r in Hcov. simpl in Hcov. by rewrite !parse_utc_stored in Hcov.
Qed.

(** Reassignment counts every holder of the destination, so it fits at every
    instant. *)
Lemma rebind_room d r dest k :
  db_wf d → whole_ledger d → rebindable cfg d r dest → within_capacity d →
  (∀ t, load d (capacity_bucket_id dest) k t <= room k dest) →
  row_amount k r = 0 ∨
  total k (holders d (capacity_bucket_id dest)) + row_amount k r <= room k dest.
Proof.
  intros Hwf Hwl Hrb Hcap Hload.
  destruct (rb_room _ _ _ _ Hrb) as (cap & held & dims & Hc & Hh & Hd & Hroom).
  destruct (rb_held _ _ _ _ Hrb) as [Hr _]. pose proof (wl_rows _ Hwl r Hr) as Hrow.
  pose proof (wl_buckets _ Hwl dest (rb_row _ _ _ _ Hrb)) as Hbw.
  pose proof (proj1 Hbw) as Hbm. rewrite resource_capacity_whole in Hc by done. injection Hc as <-.
  rewrite reservation_dimensions_whole in Hd by done. injection Hd as <-.
  destruct (held_dimensions_counts d dest None None Hwl (rb_found _ _ _ _ Hrb))
    as (held' & Hh' & Hcounts).
  rewrite Hh in Hh'. injection Hh' as <-. specialize (Hcounts k).
  assert (filter (λ r, counts_in_window None None r = true)
            (holders d (capacity_bucket_id dest)) = holders d (capacity_bucket_id dest)) as Hall.
  { by apply filter_all. }
  rewrite Hall in Hcounts.
  unfold row_amount, amount_in. destruct (row_map r !! k) as [n|] eqn:E; [right|by left].
  destruct (Hrow k n E) as (z & -> & Hz). simpl.
  unfold lacks_capacity in Hroom. apply bool_decide_eq_false, dec_stable in Hroom.
  assert (whole_amounts (row_map r) !! k = Some (dec_of_Z z)) as Hk
    by (unfold whole_amounts; by rewrite lookup_fmap, E).
  specialize (Hroom k _ Hk). cbv beta in Hroom. rewrite amount_at_whole in Hroom.
  assert (0 <= amount_in (bucket_map dest) k) by by apply amount_in_nonneg.
  assert (amount_in (bucket_map dest) k < cap_limit) by (by apply room_limit).
  destruct (sub_counts (amount_in (bucket_map dest) k) _ _ ltac:(lia) Hcounts) as [Heq|[Hneg _]].
  - rewrite Heq, dec_ltb_whole in Hroom. apply Z.ltb_ge in Hroom.
    unfold room. lia.
  - by rewrite dec_ltb_negative in Hroom.
Qed.

Lemma safe_rebind d r dest debit :
  debits d !! capacity_reservation_id r = Some debit →
  db_wf d → rebindable cfg d r dest → safe d →
  safe (set_debit (capacity_reservation_id r)
          {| debit_bucket_id := capacity_bucket_id dest;
             debit_dimensions := debit_dimensions debit |} d).
Proof.
  intros Hdebit Hwf Hrb Hsafe [Hrows Hbuckets]. simpl in *.
  assert (whole_ledger d) as Hwl by by split. pose proof (Hsafe Hwl) as Hcap.
  destruct (rb_held _ _ _ _ Hrb) as [Hr Hheld].
  assert (∀ x, x ∈ reservations d → x ≠ r →
    capacity_reservation_id x ≠ capacity_reservation_id r) as Hne.
  { intros x Hx Hxr Heq. apply Hxr. by eapply key_inj; [exact (wf_ids _ Hwf)|..]. }
  intros b k t Hb. simpl in Hb. rewrite load_carried. simpl. set (d' := set_debit _ _ _).
  assert (∀ i x, x ∈ reservations d → x ≠ r → carried d' i t x → carried d i t x) as Hsame.
  { intros i x Hx Hxr. unfold carried, holding, debited_to, d'. simpl.
    rewrite lookup_insert_ne; [done|]. intros Heq. by apply (Hne x). }
  destruct (decide (capacity_bucket_id b = capacity_bucket_id dest)) as [Heq|Hdiff].
  - assert (b = dest) as ->.
    { eapply key_inj; [exact (wf_bucket_ids _ Hwf)|done|apply Hrb|done]. }
    destruct (rebind_room d r dest k Hwf Hwl Hrb Hcap) as [Hz|Hroom]; [by intros; apply Hcap| |].
    + etrans; [|apply (Hcap dest k t Hb)]. rewrite load_carried.
      etrans; [apply (total_filter_one k _ (carried d (capacity_bucket_id dest) t) r)|];
        [by apply wf_NoDup_rows|apply Hwl|done|apply Hsame|lia].
    + etrans; [|exact Hroom]. unfold holders.
      apply total_filter_one; [by apply wf_NoDup_rows|apply Hwl|done|].
      intros x Hx Hxr Hc. by apply Hsame in Hc as [_ ?].
  - etrans; [|apply (Hcap b k t Hb)]. rewrite load_carried.
    apply total_filter_le; [apply Hwl|]. intros x Hx Hc.
    destruct (decide (capacity_reservation_id x = capacity_reservation_id r)) as [Hid|Hid].
    + destruct Hc as [_ Hh]. unfold holding, debited_to, d' in Hh. simpl in Hh.
      rewrite Hid, lookup_insert_eq in Hh. apply andb_true_iff in Hh as [_ Hh].
      apply bool_decide_eq_true in Hh. simpl in Hh. congruence.
    + apply Hsame; [done|by intros ->|done].
Qed.

Lemma safe_new_bucket d b :
  db_wf d → get_bucket_row (capacity_bucket_id b) d = None → safe d → safe (insert_bucket b d).
Proof.
  unfold get_bucket_row. rewrite find_by_None. intros Hwf Hnew Hsafe [Hrows Hbuckets]. simpl in *.
  assert (whole_ledger d) as Hwl by (split; [done|set_solver]).
  intros b' k t [Hb'| ->%list_elem_of_singleton]%elem_of_app; [by apply Hsafe|].
  rewrite load_carried. simpl.
  assert (filter (carried (insert_bucket b d) (capacity_bucket_id b) t) (reservations d) = [])
    as ->; [|apply amount_in_nonneg, Hbuckets; set_solver].
  apply filter_none. intros r Hr [_ Hh].
  unfold holding, debited_to in Hh. simpl in Hh. apply andb_true_iff in Hh as [_ Hh].
  destruct (debits d !! capacity_reservation_id r) as [x|] eqn:Hx; [|done].
  apply bool_decide_eq_true in Hh. destruct (wf_debits _ Hwf _ _ Hx) as [(b' & Hb' & Heq) _].
  apply (Hnew b' Hb'). congruence.
Qed.

Lemma safe_bucket d old new :
  db_wf d → old ∈ buckets d → capacity_bucket_id new = capacity_bucket_id old →
  narrow (LBucket old new) → safe d → safe (update_bucket new d).
Proof.
  intros Hwf Hold Hid Hnarrow Hsafe [Hrows Hbuckets]. simpl in *.
  assert (∀ b, b ∈ buckets d → capacity_bucket_id b = capacity_bucket_id new → b = old) as Hkey.
  { intros b Hb Heq. eapply key_inj; [exact (wf_bucket_ids _ Hwf)|done..|congruence]. }
  destruct Hnarrow as [Hwold Hroom].
  { apply Hbuckets, elem_of_replace_by. left. eauto. }
  assert (whole_ledger d) as Hwl.
  { split; [done|]. intros b Hb.
    destruct (decide (capacity_bucket_id b = capacity_bucket_id new)) as [Heq|Hne].
    - by rewrite (Hkey b Hb Heq).
    - apply Hbuckets, elem_of_replace_by. by right. }
  intros b k t [[-> _]|[Hb Hne]]%elem_of_replace_by; [|by apply (Hsafe Hwl b k t)].
  etrans; [|apply Hroom]. rewrite Hid. by apply (Hsafe Hwl old k t).
Qed.

Lemma step_safe l d d' :
  ledger_step cfg l d d' → narrow l → db_wf d → safe d → safe d'.
Proof.
  destruct 1; intros Hnarrow Hwf Hsafe.
  - intros [? ?]. by apply Hsafe.
  - intros [? ?]. by apply Hsafe.
  - intros [? ?]. by apply Hsafe.
  - by eapply safe_row.
  - by eapply safe_hold.
  - by apply safe_rebind.
  - by apply safe_new_bucket.
  - apply (safe_bucket _ old); try done. by apply bucket_found_in in H as [? _].
Qed.

Lemma steps_safe d d' : steps cfg narrow d d' → db_wf d → safe d → safe d'.
Proof.
  induction 1 as [|x y z (l & Hl & Hstep) _ IH]; [done|]. intros Hwf Hsafe.
  apply IH; [by eapply ledger_step_wf|by eapply step_safe].
Qed.
End capacity.
