(* ===== verification/LedgerHistory.v ===== *)
(** The ledger as its clients see it: one call at a time, each a whole public
    operation of [CapacityLedgerService], and histories of calls.  The theorems
    are about whatever history the clients produce. *)
From S2P Require Import Prelude PyNum PyValue PyTime PyTimeFacts PoolDeclarations LedgerTypes.
From S2P Require Import LedgerMatching Ledger LedgerLifecycle LedgerRegistry LedgerSpec.
From S2P Require Import LedgerAdmission LedgerTrack LedgerRefinement LedgerCapacity.

Local Open Scope Z_scope.

(** ** Calls *)

Inductive call : Type :=
  | CExpireDueHolds
  | CProbe (claim : option dict) (start : option string) (duration : option Z)
  | CReserve (claim deal : option dict) (ttl : option float) (start : option string)
      (duration : option Z)
  | CCommit (resource_id reservation_id start end_ : option string) (deal : option dict)
  | CRelease (reservation_id : option string) (deal : option dict) (forced : bool)
      (reason message : option string) (context : dict)
  | CResize (old_id : string) (claim deal : option dict) (ttl : option float)
      (start : option string) (duration : option Z)
  | CAssign (reservation_id resource_id : string)
  | CTruncate (reservation_id lease_end : string)
  | CActivate (reservation_id : string)
  | CListDue (now : datetime)
  | CBeginReleasing (reservation_id : string) (job : option string) (context : dict)
  | CReleaseFailed (reservation_id reason : string) (message job : option string) (context : dict)
  | CUnmanaged (reservation_id reason : string) (message : option string)
  | CCreateHandle (reservation_id job : string)
  | CExecutorTarget (reservation_id target : string)
  | CRegister (resource_id pool_id : string) (units_ : option Z) (kind_ : string)
      (subtype : option string) (attrs cap : option dict) (enabled_ : bool)
      (host : option string)
  | CListResources
  | CSnapshot.

Section service.
Context {Ext : Type} (env : environment) (cfg : ledger_config Ext).

Abbreviation L := (M (world Ext)).

(** A caller's transaction around one in-session method. *)
Definition transaction {A} (m : L A) : L A :=
  operation (a ← m; commit_session;; mret a).

Definition ignore {A} (m : L A) : L unit := m ≫= λ _, mret tt.

Definition perform (c : call) : L unit :=
  match c with
  | CExpireDueHolds => ignore (expire_due_holds env cfg)
  | CProbe claim start dur => ignore (probe env cfg claim start dur)
  | CReserve claim deal ttl start dur => ignore (reserve env cfg claim deal ttl start dur)
  | CCommit rid i start end_ deal => ignore (commit env cfg rid i start end_ deal)
  | CRelease i deal forced reason message context =>
      ignore (release env cfg i deal forced reason message context)
  | CResize i claim deal ttl start dur =>
      ignore (resize_reservation env cfg i claim deal ttl start dur)
  | CAssign i rid => ignore (assign_settlement_resource env cfg i rid)
  | CTruncate i e => ignore (truncate_lease env cfg i e)
  | CActivate i => ignore (activate_lease env cfg i)
  | CListDue now => ignore (list_lease_due cfg now)
  | CBeginReleasing i job context => ignore (begin_releasing env cfg i job context)
  | CReleaseFailed i reason message job context =>
      ignore (record_release_failed env cfg i reason message job context)
  | CUnmanaged i reason message => ignore (record_unmanaged cfg i reason message)
  | CCreateHandle i job => ignore (transaction (record_create_handle_in_session cfg i job))
  | CExecutorTarget i target =>
      ignore (transaction (record_executor_target_in_session cfg i target))
  | CRegister rid pool n kind_ sub attrs cap en host =>
      ignore (register_resource env cfg rid pool n kind_ sub attrs cap en host)
  | CListResources => ignore (list_resources env cfg)
  | CSnapshot => ignore (snapshot env cfg)
  end.

(** The world a call leaves, whether it returned or raised. *)
Definition after (c : call) (w : world Ext) : world Ext := (perform c w).2.

Definition history (cs : list call) (w : world Ext) : world Ext := fold_left (λ w c, after c w) cs w.

(** ** Calls that keep every declared window and quantity *)

(** [commit] with a window inside the one reserved, and a [register_resource]
    whose own declaration, if it makes one, leaves a stored resource no less
    capacity than it has; any other call. *)
Definition narrow_call (c : call) (d : DB Ext) : Prop :=
  match c with
  | CCommit rid i start end_ deal =>
      ∀ r started, commit_target d rid i = Some r →
        window_kept r (committed_row start end_ deal started r)
  | CRegister rid pool n kind_ sub attrs cap en host =>
      ∀ decl old now,
        registered_declaration cfg rid pool n kind_ sub attrs cap en host = Ok decl →
        _bucket_by_backing_resource d rid = Some old →
        narrow cfg (LBucket old (flush_bucket old (_write_declaration cfg old decl) now))
  | _ => True
  end.

(** ** Refinement of single calls *)

Context (clock_valid : ∀ n, valid_datetime (clock env n)).

Lemma wp_ignore {A} (m : L A) (P : world Ext → Prop) w :
  wp m (λ _ w', P w') w → wp (ignore m) (λ _ w', P w') w.
Proof.
  intros H. unfold ignore. apply wp_bind. eapply wp_mono; [exact H|].
  intros [a|e] w' ?; [by apply wp_ret|done].
Qed.

Lemma tracks_transaction {A} allowed (m : L A) :
  (∀ d w, db_wf d → reach cfg allowed d w → wp m (tracked cfg allowed d) w) →
  tracks cfg allowed (transaction m).
Proof.
  intros Hm. apply tracks_operation. intros d w Hwf Hr. l_step.
  eapply wp_mono; [by apply Hm|]. intros [a|e] w'; [|done]. intros ?.
  do 3 l_step. by apply reach_saved.
Qed.

Section tracking.
Context (allowed : label → Prop).
Context (allow_ext : allowed LExt) (allow_event : ∀ k, allowed (LEvent k))
  (allow_end : ∀ i k, allowed (LEnd i k)) (allow_hold : ∀ r, allowed (LHold r))
  (allow_rebind : ∀ i b, allowed (LRebind i b)) (allow_new : ∀ b, allowed (LNewBucket b))
  (allow_row : ∀ r r', row_step r r' → window_kept r r' → allowed (LRow r r')).

Lemma wp_perform c w :
  db_wf (committed w) →
  (∀ rid i start end_ deal, c = CCommit rid i start end_ deal →
     ∀ r started, commit_target (committed w) rid i = Some r →
     row_step r (committed_row start end_ deal started r) →
     allowed (LRow r (committed_row start end_ deal started r))) →
  (∀ rid pool n k sub attrs cap en host, c = CRegister rid pool n k sub attrs cap en host →
     ∀ decl old now, registered_declaration cfg rid pool n k sub attrs cap en host = Ok decl →
     _bucket_by_backing_resource (committed w) rid = Some old →
     allowed (LBucket old (flush_bucket old (_write_declaration cfg old decl) now))) →
  wp (perform c) (λ _ w', steps cfg allowed (committed w) (committed w')) w.
Proof.
  intros Hwf Hcommit Hregister. destruct c; apply wp_ignore.
  - by apply tracks_expire_due_holds.
  - by apply tracks_probe.
  - by apply tracks_reserve.
  - apply wp_commit_op; eauto.
  - by apply tracks_release.
  - by apply tracks_resize_reservation.
  - by apply tracks_assign_settlement_resource.
  - by apply tracks_truncate_lease.
  - by apply tracks_activate_lease.
  - by apply tracks_list_lease_due.
  - by apply tracks_begin_releasing.
  - by apply tracks_record_release_failed.
  - by apply tracks_record_unmanaged.
  - apply tracks_transaction; [|done]. intros. by apply wp_record_create_handle.
  - apply tracks_transaction; [|done]. intros. by apply wp_record_executor_target.
  - apply wp_register_resource; eauto.
  - by apply tracks_list_resources.
  - by apply tracks_snapshot.
Qed.
End tracking.

Lemma after_any c w :
  db_wf (committed w) → steps cfg any_label (committed w) (committed (after c w)).
Proof. intros Hwf. by apply (wp_perform any_label). Qed.

Lemma after_narrow c w :
  db_wf (committed w) → narrow_call c (committed w) →
  steps cfg (narrow cfg) (committed w) (committed (after c w)).
Proof.
  intros Hwf Hc. apply (wp_perform (narrow cfg)); simpl; try done.
  - intros rid i start end_ deal -> r started Hr _. by apply Hc.
  - intros rid pool n k sub attrs cap en host -> decl old now Hdecl Hold.
    exact (Hc decl old now Hdecl Hold).
Qed.

Lemma after_wf c w : db_wf (committed w) → db_wf (committed (after c w)).
Proof. intros Hwf. eapply steps_wf; [by apply after_any|done]. Qed.

(** A history whose every call keeps windows and quantities. *)
Fixpoint narrow_history (cs : list call) (w : world Ext) : Prop :=
  match cs with
  | [] => True
  | c :: cs => narrow_call c (committed w) ∧ narrow_history cs (after c w)
  end.

Lemma history_any cs w :
  db_wf (committed w) → steps cfg any_label (committed w) (committed (history cs w)).
Proof.
  revert w. induction cs as [|c cs IH]; intros w Hwf; simpl; [apply rtc_refl|].
  etrans; [by apply after_any|]. by apply IH, after_wf.
Qed.

Lemma history_narrow cs w :
  db_wf (committed w) → narrow_history cs w →
  steps cfg (narrow cfg) (committed w) (committed (history cs w)).
Proof.
  revert w. induction cs as [|c cs IH]; intros w Hwf; simpl; [intros; apply rtc_refl|].
  intros [Hc Hcs]. etrans; [by apply after_narrow|]. apply IH; [by apply after_wf|done].
Qed.
End service.

(** * What every history of calls keeps: reservations are never lost, their
    agreed terms never change, their state only advances, and the two feeds
    are only appended to. *)

(** How far a state is along a reservation's life. *)
Definition stage (s : ReservationState) : Z :=
  match s with
  | reserved => 0
  | leased => 1
  | releasing | release_failed | unmanaged => 2
  | released | force_released => 3
  end.

Definition edge (s s' : ReservationState) : Prop := state_edge s s' = true.

Lemma edge_stage s s' : edge s s' → stage s <= stage s'.
Proof. destruct s, s'; unfold edge; vm_compute; done. Qed.

Lemma edges_stage s s' : rtc edge s s' → stage s <= stage s'.
Proof. induction 1 as [|s s' s'' H%edge_stage]; lia. Qed.

Lemma edges_terminal s s' : rtc edge s s' → is_released s = true → s' = s.
Proof. intros [->|(s1 & H & _)]%rtc_inv; [done|]. by destruct s. Qed.

(** What a row keeps whatever happens to it. *)
Record same_terms (r r' : CapacityReservation) : Prop := {
  st_units : units r' = units r;
  st_dimensions : dimensions r' = dimensions r;
  st_claim : claim_attributes r' = claim_attributes r;
  st_deal : deal_ref r' = deal_ref r;
  st_mode : offering_mode r' = offering_mode r;
  st_created : created_at r' = created_at r;
  st_activated : ∀ x, activated_at_utc r = Some x → activated_at_utc r' = Some x;
  st_escrow : ∀ e, str_truthy (escrow_uid r) = Some e → escrow_uid r' = escrow_uid r;
  st_target : ∀ x, executor_target r = Some x → executor_target r' = Some x;
  st_job : ∀ j, str_truthy (create_job_id r) = Some j → create_job_id r' = create_job_id r;
}.

Lemma same_terms_refl r : same_terms r r.
Proof. by split. Qed.

Lemma row_step_same_terms r r' r'' : row_step r r' → same_terms r' r'' → same_terms r r''.
Proof.
  intros [] []. split; try congruence; auto.
  - intros e He. rewrite <- (rs_escrow _ He). apply (st_escrow0 e). by rewrite (rs_escrow _ He).
  - intros j Hj. rewrite <- (rs_job _ Hj). apply (st_job0 j). by rewrite (rs_job _ Hj).
Qed.

Lemma row_steps_same_terms r r' : rtc row_step r r' → same_terms r r'.
Proof. induction 1; [apply same_terms_refl|by eapply row_step_same_terms]. Qed.

Lemma row_steps_edges r r' : rtc row_step r r' → rtc edge (res_state r) (res_state r').
Proof. induction 1 as [|r r' r'' H]; [done|]. eapply rtc_l; [|done]. apply H. Qed.

Lemma row_steps_terminal r r' : rtc row_step r r' → is_released (res_state r) = true → r' = r.
Proof.
  intros [->|(r1 & H & _)]%rtc_inv Hs; [done|]. apply rs_edge in H. by destruct (res_state r).
Qed.

Section history.
Context {Ext : Type} (cfg : ledger_config Ext).
Implicit Types d : DB Ext.

Lemma ledger_step_row l d d' i r :
  ledger_step cfg l d d' → get_reservation_row i d = Some r →
  ∃ r', get_reservation_row i d' = Some r' ∧ rtc row_step r r'.
Proof.
  intros Hstep Hget. destruct (get_row_in _ _ _ Hget) as [_ Hid].
  destruct Hstep as [| | |d r0 r' Hr0 Hstep|d j| | |]; try by exists r; split; [|apply rtc_refl].
  - destruct (decide (i = capacity_reservation_id r0)) as [->|Hne].
    + rewrite Hget in Hr0. injection Hr0 as ->. exists r'. split; [|by apply rtc_once].
      unfold get_reservation_row in *. simpl. rewrite <- (rs_id _ _ Hstep) in *.
      by eapply find_by_replace_eq.
    + exists r. split; [|apply rtc_refl]. unfold get_reservation_row in *. simpl.
      rewrite find_by_replace_ne; [done|]. by rewrite (rs_id _ _ Hstep).
  - exists r. split; [|apply rtc_refl]. unfold get_reservation_row in *. simpl.
    by apply find_by_app_l.
Qed.

Lemma steps_row allowed d d' i r :
  steps cfg allowed d d' → get_reservation_row i d = Some r →
  ∃ r', get_reservation_row i d' = Some r' ∧ rtc row_step r r'.
Proof.
  intros H. revert r. induction H as [|x y z (l & _ & Hstep) _ IH]; intros r Hr.
  { exists r. split; [done|apply rtc_refl]. }
  destruct (ledger_step_row _ _ _ _ _ Hstep Hr) as (r1 & Hr1 & ?).
  destruct (IH r1 Hr1) as (r2 & ? & ?). exists r2. split; [done|by etrans].
Qed.

Lemma steps_feeds allowed d d' :
  steps cfg allowed d d' →
  pools d' = pools d ∧ events d `prefix_of` events d' ∧ lease_ends d `prefix_of` lease_ends d'.
Proof.
  induction 1 as [d|x y z (l & _ & Hstep) _ (Hp & He & Hl)]; [done|].
  rewrite Hp. assert (pools y = pools x ∧ events x `prefix_of` events y ∧
    lease_ends x `prefix_of` lease_ends y) as (-> & ? & ?).
  { destruct Hstep; simpl; split_and!; try done; by apply prefix_app_r. }
  split_and!; [done|by etrans..].
Qed.
End history.
