(* ===== verification/LedgerProperties.v ===== *)
(** A concrete site: an environment, a configuration and the worlds a few
    calls produce, at which the library's theorems are instantiated. *)
From S2P Require Import Prelude PyNum PyValue PyNumFacts PyTime PyTimeFacts PoolDeclarations.
From S2P Require Import LedgerTypes.
From S2P Require Import LedgerMatching Ledger LedgerLifecycle LedgerRegistry LedgerSpec.
From S2P Require Import LedgerCapacity LedgerHistory PyTimeFacts LedgerAdmission LedgerTrack.
From S2P Require Import LedgerRefinement LedgerHistory.
From stdpp Require Import pretty.

Local Open Scope Z_scope.
Local Open Scope string_scope.

Definition demo_now : datetime := DT 1700000000000000 0.

Definition demo_env : environment :=
  {| clock := λ _, demo_now; uuid4 := λ n, "id" +:+ pretty n |}.

Definition demo_cfg : ledger_config unit :=
  {| cfg_required_attributes := []; cfg_unit_claim_keys := _DEFAULT_UNIT_CLAIM_KEYS;
     cfg_mirror_dimension := _DEFAULT_MIRROR_DIMENSION; cfg_release_guard := None;
     cfg_release_effect := None; cfg_site_id := "site"; cfg_lease_end_effect := None;
     cfg_host_requirement := None; cfg_deliverable_hosts := None |}.

(** The same site with a guard that refuses every release. *)
Definition guarded_cfg : ledger_config unit :=
  {| cfg_required_attributes := []; cfg_unit_claim_keys := _DEFAULT_UNIT_CLAIM_KEYS;
     cfg_mirror_dimension := _DEFAULT_MIRROR_DIMENSION;
     cfg_release_guard := Some (λ d _, (false, ext d));
     cfg_release_effect := None; cfg_site_id := "site"; cfg_lease_end_effect := None;
     cfg_host_requirement := None; cfg_deliverable_hosts := None |}.

Definition demo_pool : ResourcePool :=
  {| pool_provider := "kvm"; pool_enabled := true;
     pool_policy_tags := [(DELIVERABLE_MODES_POLICY_TAG, VList [VStr "vm"])] |}.

Definition demo_db : DB unit :=
  {| pools := <["p1" := demo_pool]> {["p0" := demo_pool]}; buckets := []; reservations := [];
     debits := ∅; events := []; lease_ends := []; ext := tt |}.

Definition demo_world : world unit :=
  {| working := demo_db; committed := demo_db; clock_reads := 0; ids_drawn := 0; depth := 0 |}.

Definition demo_claim (n : Z) : option dict :=
  Some [("units", VInt n); ("offering_mode", VStr "vm")].
Definition demo_deal : option dict := Some [("escrow_uid", VStr "e1")].

Definition demo_register (rid pool : string) (n : Z) : call :=
  CRegister rid pool (Some n) "compute.gpu" None None None true None.
Definition demo_reserve (n : Z) (deal : option dict) : call :=
  CReserve (demo_claim n) deal None None None.

(** Two resources; a hold of three units on the first; its lease. *)
Definition declared_world : world unit :=
  history demo_env demo_cfg [demo_register "gpu0" "p0" 8; demo_register "gpu1" "p1" 4] demo_world.
Definition held_world : world unit := after demo_env demo_cfg (demo_reserve 3 demo_deal) declared_world.
Definition leased_world : world unit :=
  after demo_env demo_cfg
    (CCommit None (Some "id2") None (Some "2030-01-01T00:00:00+00:00") demo_deal) held_world.

Lemma demo_clock n : valid_datetime (clock demo_env n).
Proof. split; [done|]. vm_compute. split; [done|by left]. Qed.

Lemma demo_wf : db_wf (committed demo_world).
Proof.
  split; simpl; try done; try (by apply NoDup_nil_2).
  - intros b b' Hb. by apply not_elem_of_nil in Hb.
  - intros b p Hb. by apply not_elem_of_nil in Hb.
  - intros r Hr. by apply not_elem_of_nil in Hr.
Qed.

Lemma declared_wf : db_wf (committed declared_world).
Proof.
  unfold declared_world, history. simpl.
  do 2 (apply after_wf; [apply demo_clock|]). apply demo_wf.
Qed.

Lemma held_wf : db_wf (committed held_world).
Proof. apply after_wf; [apply demo_clock|apply declared_wf]. Qed.

Lemma leased_wf : db_wf (committed leased_world).
Proof. apply after_wf; [apply demo_clock|apply held_wf]. Qed.

Example held_world_row :
  (λ r, (res_state r, units r, escrow_uid r)) <$>
    get_reservation_row "id2" (committed held_world) = Some (reserved, 3, Some "e1").
Proof. vm_compute. reflexivity. Qed.

Example leased_world_row :
  (λ r, (res_state r, lease_end_utc r)) <$> get_reservation_row "id2" (committed leased_world) =
  Some (leased, Some "2030-01-01T00:00:00+00:00").
Proof. vm_compute. reflexivity. Qed.

Example leased_world_events :
  kind <$> events (committed leased_world) = ["released"; "released"; "reserved"; "committed"].
Proof. vm_compute. reflexivity. Qed.

(** * What the ledger promises its clients over any history of calls. *)

Local Close Scope string_scope.
Local Close Scope Z_scope.
Local Open Scope Z_scope.

Section properties.
Context {Ext : Type} (env : environment) (cfg : ledger_config Ext).
Implicit Types (w : world Ext) (d : DB Ext).

(** C1: capacity is never oversubscribed.  Whatever calls the clients make, in
    whatever order, if amounts are whole numbers below 10^28, no [commit]
    widens a reserved window and no registration declares less of a stored
    resource than it holds, then at every instant and for every dimension a
    bucket's held reservations whose window covers the instant total at most
    what the bucket declares.  A resource may be registered again, for as much
    or for more. *)
Theorem history_never_overcommits cs w :
  (∀ n, valid_datetime (clock env n)) → db_wf (committed w) → safe cfg (committed w) →
  narrow_history env cfg cs w →
  let d := committed (history env cfg cs w) in
  whole_ledger cfg d →
  ∀ b k t, b ∈ buckets d → load cfg d (capacity_bucket_id b) k t <= room cfg k b.
Proof.
  intros Hclock Hwf Hsafe Hnarrow d Hwl. eapply steps_safe; [|exact Hwf|exact Hsafe|exact Hwl].
  by apply history_narrow.
Qed.

(** C2: refinement.  Each public ledger operation, whether it returns or
    raises, changes the committed database only by steps the abstract
    specification allows: admitted holds, reassignments to a destination with
    room, state-machine edges that keep the agreed terms, guarded bucket
    writes, and appends to the two feeds. *)
Theorem call_refines_specification c w :
  (∀ n, valid_datetime (clock env n)) → db_wf (committed w) →
  steps cfg any_label (committed w) (committed (after env cfg c w)).
Proof. intros. by apply after_any. Qed.

(** The tables stay well formed over any history: primary and unique keys
    hold, every reservation has exactly one debit on a stored bucket that
    repeats its quantities, recorded pools exist, event versions are 1, 2, 3,
    ..., and a reservation has at most one intended-end event per key. *)
Theorem history_keeps_tables_wf cs w :
  (∀ n, valid_datetime (clock env n)) → db_wf (committed w) →
  db_wf (committed (history env cfg cs w)).
Proof. intros. eapply steps_wf; [by apply history_any|done]. Qed.

(** A reservation is never lost and its terms never change: units,
    dimensions, claim attributes, deal, offering mode and creation instant are
    those it was reserved with; its activation instant, escrow, executor
    target and creation handle, once recorded, stay. *)
Theorem history_keeps_reservation_terms cs w i r :
  (∀ n, valid_datetime (clock env n)) → db_wf (committed w) →
  get_reservation_row i (committed w) = Some r →
  ∃ r', get_reservation_row i (committed (history env cfg cs w)) = Some r' ∧ same_terms r r'.
Proof.
  intros Hclock Hwf Hget.
  destruct (steps_row cfg any_label _ _ i r (history_any env cfg Hclock cs w Hwf) Hget)
    as (r' & ? & ?).
  exists r'. split; [done|]. by apply row_steps_same_terms.
Qed.

(** C10: the reservation state machine.  Over any history a reservation's state
    follows the machine's edges, its stage (reserved, leased, ending, ended)
    never goes back, and a row that is released or force-released is never
    written again. *)
Theorem history_follows_state_machine cs w i r :
  (∀ n, valid_datetime (clock env n)) → db_wf (committed w) →
  get_reservation_row i (committed w) = Some r →
  ∃ r', get_reservation_row i (committed (history env cfg cs w)) = Some r' ∧
    rtc edge (res_state r) (res_state r') ∧ stage (res_state r) <= stage (res_state r') ∧
    (is_released (res_state r) = true → r' = r).
Proof.
  intros Hclock Hwf Hget.
  destruct (steps_row cfg any_label _ _ i r (history_any env cfg Hclock cs w Hwf) Hget)
    as (r' & ? & Hrows).
  exists r'. pose proof (row_steps_edges _ _ Hrows).
  split_and!; [done|done|by apply edges_stage|by apply row_steps_terminal].
Qed.

(** Both feeds are append-only: over any history what was read from the
    capacity events and from the intended-end events stays where it was, and
    the ledger never writes the pools. *)
Theorem history_appends_to_feeds cs w :
  (∀ n, valid_datetime (clock env n)) → db_wf (committed w) →
  let d' := committed (history env cfg cs w) in
  pools d' = pools (committed w) ∧ events (committed w) `prefix_of` events d' ∧
  lease_ends (committed w) `prefix_of` lease_ends d'.
Proof. intros Hclock Hwf. eapply steps_feeds. by apply history_any. Qed.
End properties.

(** ** Instances *)

Definition demo_history : list call :=
  [demo_register "gpu0" "p0" 8; demo_reserve 3 demo_deal; demo_reserve 5 None;
   demo_reserve 1 None; CRelease (Some "id1"%string) None false None None [];
   demo_reserve 2 None; demo_register "gpu0" "p0" 8; demo_register "gpu0" "p0" 12;
   demo_reserve 4 None].

(** A row of one dimension that declares as much of it, or more. *)
Lemma one_dimension_narrow (old new : CapacityBucket) k a b :
  bucket_map demo_cfg old = {[ k := NInt a ]} → bucket_map demo_cfg new = {[ k := NInt b ]} →
  0 <= a <= b → narrow demo_cfg (LBucket old new).
Proof.
  intros Hold Hnew Hle. unfold narrow, whole_bucket, room. rewrite Hold, Hnew.
  intros [_ Hlim]. rewrite map_Forall_singleton in Hlim. simpl in Hlim. split.
  - split; apply map_Forall_singleton; [exists a; split; [done|lia]|simpl; lia].
  - intros j. unfold amount_in. destruct (decide (k = j)) as [->|Hne].
    + rewrite !lookup_singleton_eq. simpl. lia.
    + by rewrite !lookup_singleton_ne.
Qed.

Lemma history_never_overcommits_witness :
  let d := committed (history demo_env demo_cfg demo_history demo_world) in
  load demo_cfg d "id0" "units" 0 = 11 ∧
  ∀ b, b ∈ buckets d → load demo_cfg d (capacity_bucket_id b) "units" 0 <= room demo_cfg "units" b.
Proof.
  split; [vm_compute; reflexivity|]. intros b.
  apply (history_never_overcommits demo_env demo_cfg demo_history demo_world
           demo_clock demo_wf).
  - intros _ b' k t Hb. by apply not_elem_of_nil in Hb.
  - cbn [narrow_history demo_history demo_register demo_reserve narrow_call].
    split_and!; try exact I; intros decl old now Hdecl Hold; vm_compute in Hdecl, Hold;
      [discriminate Hold|injection Hdecl as <-; injection Hold as <-..].
    + apply (one_dimension_narrow _ _ "units" 8 8); [vm_compute; reflexivity..|lia].
    + apply (one_dimension_narrow _ _ "units" 8 12); [vm_compute; reflexivity..|lia].
  - apply whole_ledgerb_true. vm_compute. reflexivity.
Defined.

Lemma call_refines_specification_witness :
  steps demo_cfg any_label (committed declared_world) (committed held_world).
Proof.
  apply (call_refines_specification demo_env demo_cfg (demo_reserve 3 demo_deal)).
  - apply demo_clock.
  - apply declared_wf.
Defined.

Lemma history_keeps_tables_wf_witness :
  db_wf (committed (history demo_env demo_cfg demo_history demo_world)).
Proof. apply (history_keeps_tables_wf demo_env demo_cfg); [apply demo_clock|apply demo_wf]. Defined.

Definition held_row : CapacityReservation :=
  default (hold_row demo_cfg "" ∅ None None None None
             (blank_bucket "" "" 0) None None 0)
    (get_reservation_row "id2" (committed held_world)).

Definition ending_history : list call :=
  [CCommit None (Some "id2"%string) None (Some "2030-01-01T00:00:00+00:00"%string) demo_deal;
   CActivate "id2"; CBeginReleasing "id2" None [];
   CRelease (Some "id2"%string) None false None None []; CUnmanaged "id2" "late" None].

Lemma history_keeps_reservation_terms_witness :
  units held_row = 3 ∧
  ∃ r', get_reservation_row "id2"
          (committed (history demo_env demo_cfg ending_history held_world)) = Some r' ∧
        same_terms held_row r'.
Proof.
  split; [vm_compute; reflexivity|].
  apply (history_keeps_reservation_terms demo_env demo_cfg);
    [apply demo_clock|apply held_wf|vm_compute; reflexivity].
Defined.

Lemma history_follows_state_machine_witness :
  ∃ r', get_reservation_row "id2"
          (committed (history demo_env demo_cfg ending_history held_world)) = Some r' ∧
    rtc edge (res_state held_row) (res_state r') ∧
    stage (res_state held_row) <= stage (res_state r') ∧
    (is_released (res_state held_row) = true → r' = held_row).
Proof.
  apply (history_follows_state_machine demo_env demo_cfg);
    [apply demo_clock|apply held_wf|vm_compute; reflexivity].
Defined.

Lemma history_appends_to_feeds_witness :
  let d' := committed (history demo_env demo_cfg ending_history held_world) in
  pools d' = pools (committed held_world) ∧
  events (committed held_world) `prefix_of` events d' ∧
  lease_ends (committed held_world) `prefix_of` lease_ends d'.
Proof.
  apply (history_appends_to_feeds demo_env demo_cfg); [apply demo_clock|apply held_wf].
Defined.
