(* ===== verification/Backoff.v ===== *)
(** The claim lease's exponential backoff ([market_fulfillment/backoff.py]).

    [multiplier ** n] is CPython's float power: [OverflowError] when a finite
    base overflows, and otherwise the power correctly rounded. *)
From S2P Require Import Prelude PyNum.
From Stdlib Require Import SpecFloat.

Local Open Scope Z_scope.

(** ** Floating-point expressions *)

Definition float_of_int (z : Z) : float := float_of_ratio z 1.

(** [x * y], [x + y], [x - y] and [x < y]. *)
Definition float_mul : float → float → float := SFmul f_prec f_emax.
Definition float_add : float → float → float := SFadd f_prec f_emax.
Definition float_sub : float → float → float := SFsub f_prec f_emax.
Definition float_ltb : float → float → bool := SFltb.

(** [min(a, b)] and [max(a, b)]: the first argument unless the second is
    strictly better. *)
Definition float_min (a b : float) : float := if float_ltb b a then b else a.
Definition float_max (a b : float) : float := if float_ltb a b then b else a.

(** [x ** n] for an integer [n >= 0]; the base as a fraction in lowest terms. *)
Definition float_pow (x : float) (n : Z) : result float :=
  if n =? 0 then Ok (float_of_int 1) else
  match float_frac x with
  | Some (p, q) =>
      let '(p, q) := (Z.ggcd p q).2 in
      match float_of_ratio (p ^ n) (Z.to_pos (q ^ n)) with
      | S754_infinity _ => Err OverflowError
      | f => Ok f
      end
  | None =>
      match x with
      | S754_infinity s => Ok (S754_infinity (s && Z.odd n))
      | _ => Ok S754_nan
      end
  end.

(** ** The backoff *)

Record Backoff : Type := {
  initial_seconds : float;
  multiplier : float;
  max_seconds : float;
  jitter_fraction : float;
}.

(** [Backoff.delay_seconds]; [random] is what [random_source.random()]
    returns. *)
Definition delay_seconds (b : Backoff) (random : float) (attempt_count : Z) : result float :=
  let attempt_index := Z.max 0 (attempt_count - 1) in
  power ← float_pow (multiplier b) attempt_index;
  let base := float_min (float_mul (initial_seconds b) power) (max_seconds b) in
  if SFleb (jitter_fraction b) (float_of_int 0) then Ok base
  else
    let factor := float_add (float_of_int 1)
      (float_mul (jitter_fraction b)
         (float_sub (float_mul (float_of_int 2) random) (float_of_int 1))) in
    Ok (float_max (float_of_int 0) (float_mul base factor)).

Definition default_backoff : Backoff :=
  {| initial_seconds := float_of_int 5; multiplier := float_of_int 2;
     max_seconds := float_of_int 300; jitter_fraction := float_of_ratio 1 10 |}.
