(* ===== verification/SettlementJournal.v ===== *)
(** The settlement runtime's records and its operation journal
    ([market_settlement_runtime/models.py], [sqlite_repository.py]).

    A repository method is one transaction on the tables: a function of the
    journal that returns what it answers and the journal it commits, or raises
    and commits nothing.  A column of JSON text is kept as the object it decodes
    to; where the source compares the texts, [canonical_json] writes them.
    [time.time()] is an argument, and so is the text of [_now], by which due
    obligations are ordered.  Identities and SHA-256 are parameters.  The two
    methods no port declares and nothing calls, [save_settlement_obligation] and
    [upsert_settlement_operation], and the migrations are not modelled. *)
From S2P Require Import Prelude PyNum PyValue PyTime PyText Backoff.
From Stdlib Require Import Ascii SpecFloat.

Local Open Scope string_scope.
Local Open Scope list_scope.
Local Open Scope Z_scope.

(** ** Canonical JSON *)

(** [repr] of a float, as [json.dumps] writes it. *)
Definition float_repr_chars (f : float) : chars :=
  match f with
  | S754_nan => to_chars "NaN"
  | S754_infinity s => to_chars (if s then "-Infinity" else "Infinity")
  | S754_zero s => sign_chars s ++ to_chars "0.0"
  | S754_finite s _ _ =>
      let d := default dec0 (dec_of_float f) in
      let c := Z.abs (coef d) in
      let d := strip_zeros (Z.to_nat (ndigits c)) c (expo d) in
      let digits := nat_chars (coef d) in
      let n := Z.of_nat (List.length digits) in
      let point := expo d + n in
      sign_chars s ++
      if (point <=? -4) || (16 <? point) then
        firstn 1 digits ++ match skipn 1 digits with [] => [] | rest => "."%char :: rest end ++
        "e"%char :: (if point - 1 <? 0 then "-"%char else "+"%char) ::
        (let e := Z.abs (point - 1) in if e <? 100 then pad 2 e else nat_chars e)
      else if point <=? 0 then to_chars "0." ++ repeat "0"%char (Z.to_nat (- point)) ++ digits
      else if n <=? point then digits ++ repeat "0"%char (Z.to_nat (point - n)) ++ to_chars ".0"
      else firstn (Z.to_nat point) digits ++ "."%char :: skipn (Z.to_nat point) digits
  end.

Fixpoint comma_separated (l : list chars) : chars :=
  match l with
  | [] => []
  | [x] => x
  | x :: l => x ++ ","%char :: comma_separated l
  end.

Fixpoint json_chars (v : value) : result chars :=
  match v with
  | VNone => Ok (to_chars "null")
  | VBool b => Ok (to_chars (if b then "true" else "false"))
  | VNum (NInt z) => int_chars z
  | VNum (NFloat f) => Ok (float_repr_chars f)
  | VNum (NDec _) => Err (TypeError "Object of type Decimal is not JSON serializable")
  | VStr s => Ok (json_string_chars (to_chars s))
  | VList l =>
      items ← (fix go l := match l with
                           | [] => Ok []
                           | x :: l => c ← json_chars x; cs ← go l; Ok (c :: cs)
                           end) l;
      Ok ("["%char :: comma_separated items ++ ["]"%char])
  | VDict d =>
      let members := (fix go d := match d with
                                  | [] => []
                                  | (k, x) :: d => (k, json_chars x) :: go d
                                  end) d in
      items ← mapM_result (λ kv, c ← kv.2; Ok (json_string_chars (to_chars kv.1) ++ ":"%char :: c))
                (sort_by (λ a b, string_leb a.1 b.1) members);
      Ok ("{"%char :: comma_separated items ++ ["}"%char])
  end.

(** [json.dumps(v, ensure_ascii=False, separators=(",", ":"), sort_keys=True)]. *)
Definition canonical_json (v : value) : result string := of_chars <$> json_chars v.

Example canonical_json_example :
  canonical_json (VList [VBool true; VNum (NFloat (float_of_ratio 1 10)); VNum (NFloat (float_of_ratio (-1) 100000));
                         VNum (NFloat (float_of_ratio (10 ^ 22) 1)); VNum (NFloat (float_of_ratio 1800 1)); VDict []])
  = Ok "[true,0.1,-1e-05,1e+22,1800.0,{}]".
Proof. vm_compute. reflexivity. Qed.

(** ** States *)

Inductive OperationKind : Type := materialize_op | status_op | fulfill_op | cleanup_op | check_op | collect_op | reclaim_op.

#[export] Instance OperationKind_eq_dec : EqDecision OperationKind.
Proof. solve_decision. Defined.

Definition operation_name (k : OperationKind) : string :=
  match k with
  | materialize_op => "materialize" | status_op => "status" | fulfill_op => "fulfill" | cleanup_op => "cleanup"
  | check_op => "check" | collect_op => "collect" | reclaim_op => "reclaim"
  end.

Definition operation_kinds : list OperationKind :=
  [materialize_op; status_op; fulfill_op; cleanup_op; check_op; collect_op; reclaim_op].

#[export] Instance OperationKind_countable : Countable OperationKind.
Proof.
  refine (inj_countable operation_name (λ s, find_by operation_name s operation_kinds) _).
  by intros [].
Defined.

(** The state of an operation, and of a terminal effect. *)
Inductive OperationState : Type := s_pending | s_in_progress | s_succeeded | s_manual_required.
Inductive MaterializationState : Type := m_pending | m_in_progress | m_materialized | m_manual_required.
Inductive ConditionState : Type := c_pending | c_ready | c_failed | c_manual_required.
Inductive EscrowStatus : Type :=
  | es_requires_action | es_pending | es_ready | es_collected | es_reclaimed | es_expired | es_failed
  | es_manual_required.

#[export] Instance OperationState_eq_dec : EqDecision OperationState.
Proof. solve_decision. Defined.
#[export] Instance MaterializationState_eq_dec : EqDecision MaterializationState.
Proof. solve_decision. Defined.
#[export] Instance ConditionState_eq_dec : EqDecision ConditionState.
Proof. solve_decision. Defined.
#[export] Instance EscrowStatus_eq_dec : EqDecision EscrowStatus.
Proof. solve_decision. Defined.

(** Reserved or done: what collection and reclaim exclude in each other. *)
Definition taken (s : OperationState) : bool := bool_decide (s = s_in_progress ∨ s = s_succeeded).
(** Done, and never reserved again. *)
Definition terminal (s : OperationState) : bool := bool_decide (s = s_succeeded ∨ s = s_manual_required).

(** ** Rows *)

(** What an obligation is registered with. *)
Record Terms (Identity : Type) : Type := {
  ob_ref : string;
  ob_agreement_ref : string;
  ob_index : Z;
  ob_hash : string;
  ob_obligation : dict;
  ob_payer : Identity;
  ob_claimant : Identity;
}.
Arguments ob_ref {Identity} _.
Arguments ob_agreement_ref {Identity} _.
Arguments ob_index {Identity} _.
Arguments ob_hash {Identity} _.
Arguments ob_obligation {Identity} _.
Arguments ob_payer {Identity} _.
Arguments ob_claimant {Identity} _.

Record Obligation (Identity : Type) : Type := {
  ob_terms : Terms Identity;
  mechanism_params : dict;
  mechanism_ref : option string;
  mechanism_status : option EscrowStatus;
  mechanism_state : dict;
  buyer_action : option dict;
  condition_anchor : option string;
  fulfillment_ref : option string;
  materialization_state : MaterializationState;
  condition_state : ConditionState;
  collection_state : OperationState;
  reclaim_state : OperationState;
  materialization_receipt : option dict;
  status_receipt : option dict;
  collection_receipt : option dict;
  reclaim_receipt : option dict;
  ob_last_error : option string;
  ob_version : Z;
  ob_updated_at : string;
}.
Arguments ob_terms {Identity} _.
Arguments mechanism_params {Identity} _.
Arguments mechanism_ref {Identity} _.
Arguments mechanism_status {Identity} _.
Arguments mechanism_state {Identity} _.
Arguments buyer_action {Identity} _.
Arguments condition_anchor {Identity} _.
Arguments fulfillment_ref {Identity} _.
Arguments materialization_state {Identity} _.
Arguments condition_state {Identity} _.
Arguments collection_state {Identity} _.
Arguments reclaim_state {Identity} _.
Arguments materialization_receipt {Identity} _.
Arguments status_receipt {Identity} _.
Arguments collection_receipt {Identity} _.
Arguments reclaim_receipt {Identity} _.
Arguments ob_last_error {Identity} _.
Arguments ob_version {Identity} _.
Arguments ob_updated_at {Identity} _.

Record Operation : Type := {
  op_request_hash : string;
  op_state : OperationState;
  op_attempts : Z;
  op_uncertain : bool;
  op_receipt : option dict;
  op_last_error : option string;
  op_lease_owner : option string;
  op_lease_until : option float;
  op_next_attempt : option float;
  op_awaiting_delivery : bool;
}.

Record Journal (Identity : Type) : Type := {
  obligations : gmap string (Obligation Identity);
  operations : gmap (string * OperationKind) Operation;
}.
Arguments obligations {Identity} _.
Arguments operations {Identity} _.

Section journal.
Context {Identity : Type} `{!EqDecision Identity}.

Local Abbreviation Obligation := (Obligation Identity).
Local Abbreviation Journal := (Journal Identity).

(** ** Writing columns: every write of a row counts its version *)

Definition put_obligation (o : Obligation) (j : Journal) : Journal :=
  {| obligations := <[ob_ref (ob_terms o) := o]> (obligations j); operations := operations j |}.
Definition put_operation (ref : string) (k : OperationKind) (op : Operation) (j : Journal) : Journal :=
  {| obligations := obligations j; operations := <[(ref, k) := op]> (operations j) |}.

Definition set_mechanism_params (params : dict) (stamp : string) (o : Obligation) : Obligation :=
  {| ob_terms := ob_terms o; mechanism_params := params; mechanism_ref := mechanism_ref o;
     mechanism_status := mechanism_status o; mechanism_state := mechanism_state o; buyer_action := buyer_action o;
     condition_anchor := condition_anchor o; fulfillment_ref := fulfillment_ref o;
     materialization_state := materialization_state o; condition_state := condition_state o;
     collection_state := collection_state o; reclaim_state := reclaim_state o;
     materialization_receipt := materialization_receipt o; status_receipt := status_receipt o;
     collection_receipt := collection_receipt o; reclaim_receipt := reclaim_receipt o;
     ob_last_error := ob_last_error o; ob_version := ob_version o + 1; ob_updated_at := stamp |}.

Definition set_fulfillment_ref (ref : string) (stamp : string) (o : Obligation) : Obligation :=
  {| ob_terms := ob_terms o; mechanism_params := mechanism_params o; mechanism_ref := mechanism_ref o;
     mechanism_status := mechanism_status o; mechanism_state := mechanism_state o; buyer_action := buyer_action o;
     condition_anchor := condition_anchor o; fulfillment_ref := Some ref;
     materialization_state := materialization_state o; condition_state := condition_state o;
     collection_state := collection_state o; reclaim_state := reclaim_state o;
     materialization_receipt := materialization_receipt o; status_receipt := status_receipt o;
     collection_receipt := collection_receipt o; reclaim_receipt := reclaim_receipt o;
     ob_last_error := ob_last_error o; ob_version := ob_version o + 1; ob_updated_at := stamp |}.

(** The states a reservation writes. *)
Definition set_states (m : MaterializationState) (collection reclaim : OperationState) (stamp : string)
    (o : Obligation) : Obligation :=
  {| ob_terms := ob_terms o; mechanism_params := mechanism_params o; mechanism_ref := mechanism_ref o;
     mechanism_status := mechanism_status o; mechanism_state := mechanism_state o; buyer_action := buyer_action o;
     condition_anchor := condition_anchor o; fulfillment_ref := fulfillment_ref o;
     materialization_state := m; condition_state := condition_state o;
     collection_state := collection; reclaim_state := reclaim;
     materialization_receipt := materialization_receipt o; status_receipt := status_receipt o;
     collection_receipt := collection_receipt o; reclaim_receipt := reclaim_receipt o;
     ob_last_error := ob_last_error o; ob_version := ob_version o + 1; ob_updated_at := stamp |}.

(** ** Registering and reading *)

(** The obligation registered at an index of an agreement, and the one a
    mechanism reference names. *)
Definition at_index (agreement : string) (index : Z) (j : Journal) : list Obligation :=
  (map_to_list (obligations j)).*2 ≫= λ o,
    if decide (ob_agreement_ref (ob_terms o) = agreement ∧ ob_index (ob_terms o) = index) then [o] else [].
Definition with_mechanism_ref (ref : string) (j : Journal) : list Obligation :=
  (map_to_list (obligations j)).*2 ≫= λ o, if decide (mechanism_ref o = Some ref) then [o] else [].

(** [INSERT OR IGNORE] meets a unique index. *)
Definition insert_conflicts (o : Obligation) (j : Journal) : bool :=
  bool_decide (is_Some (obligations j !! ob_ref (ob_terms o)))
  || negb (is_nil (at_index (ob_agreement_ref (ob_terms o)) (ob_index (ob_terms o)) j))
  || match mechanism_ref o with Some m => negb (is_nil (with_mechanism_ref m j)) | None => false end.

Definition upsert_settlement_obligation (o : Obligation) (j : Journal) : result (Obligation * Journal) :=
  let j' := if insert_conflicts o j then j else put_obligation o j in
  match at_index (ob_agreement_ref (ob_terms o)) (ob_index (ob_terms o)) j' with
  | [] => Err (RuntimeError "settlement obligation insert was lost")
  | stored :: _ =>
      if negb (bool_decide (ob_ref (ob_terms stored) = ob_ref (ob_terms o))
               && bool_decide (ob_hash (ob_terms stored) = ob_hash (ob_terms o)))
      then Err (ValueError "agreement obligation index was reused with different terms")
      else if negb (bool_decide (ob_payer (ob_terms stored) = ob_payer (ob_terms o))
                    && bool_decide (ob_claimant (ob_terms stored) = ob_claimant (ob_terms o)))
      then Err (ValueError "settlement obligation principal binding changed")
      else Ok (stored, j')
  end.

Definition load_settlement_obligation (ref : string) (j : Journal) : option Obligation := obligations j !! ref.
Definition load_settlement_operation (ref : string) (k : OperationKind) (j : Journal) : option Operation :=
  operations j !! (ref, k).
Definition load_settlement_obligation_by_mechanism_ref (ref : string) (j : Journal) : option Obligation :=
  head (with_mechanism_ref ref j).
Definition list_settlement_obligations (agreement : string) (j : Journal) : list Obligation :=
  sort_by (λ a b, ob_index (ob_terms a) <=? ob_index (ob_terms b))
    ((map_to_list (obligations j)).*2 ≫= λ o,
       if decide (ob_agreement_ref (ob_terms o) = agreement) then [o] else []).

(** ** Binding what is written once *)

Definition bind_settlement_mechanism_params (ref : string) (params : dict) (stamp : string) (j : Journal)
    : result (Obligation * Journal) :=
  if is_nil params then Err (ValueError "mechanism_params must be non-empty") else
  encoded ← canonical_json (VDict params);
  match obligations j !! ref with
  | None => Err (KeyError ref)
  | Some o =>
      existing ← canonical_json (VDict (mechanism_params o));
      if bool_decide (existing = encoded) then Ok (o, j)
      else if negb (is_nil (mechanism_params o)) then Err (ValueError "mechanism_params are immutable once bound")
      else if negb (bool_decide (materialization_state o = m_pending))
              || bool_decide (is_Some (operations j !! (ref, materialize_op)))
      then Err (ValueError "mechanism_params cannot bind after materialization starts")
      else let o := set_mechanism_params params stamp o in Ok (o, put_obligation o j)
  end.

Definition bind_settlement_fulfillment (ref fulfillment : string) (stamp : string) (j : Journal)
    : result (Obligation * Journal) :=
  match obligations j !! ref with
  | None => Err (KeyError ref)
  | Some o =>
      match fulfillment_ref o with
      | Some existing =>
          if bool_decide (existing = fulfillment) then Ok (o, j)
          else Err (ValueError "fulfillment_ref is immutable once bound")
      | None =>
          if taken (reclaim_state o) then Err (ValueError "fulfillment cannot bind after reclaim reservation")
          else let o := set_fulfillment_ref fulfillment stamp o in Ok (o, put_obligation o j)
      end
  end.

(** ** Reserving an operation *)

Definition new_operation (request_hash : string) : Operation :=
  {| op_request_hash := request_hash; op_state := s_pending; op_attempts := 0; op_uncertain := false;
     op_receipt := None; op_last_error := None; op_lease_owner := None; op_lease_until := None;
     op_next_attempt := None; op_awaiting_delivery := false |}.

Definition leased_to (worker : string) (until : float) (op : Operation) : Operation :=
  {| op_request_hash := op_request_hash op; op_state := s_in_progress; op_attempts := op_attempts op + 1;
     op_uncertain := op_uncertain op; op_receipt := op_receipt op; op_last_error := op_last_error op;
     op_lease_owner := Some worker; op_lease_until := Some until; op_next_attempt := None;
     op_awaiting_delivery := false |}.

(** [COALESCE(lease_until_unix, 0) >= now]. *)
Definition lease_live (now : float) (op : Operation) : bool :=
  SFleb now (default (S754_zero false) (op_lease_until op)).

Definition in_progress (op : option Operation) : bool :=
  match op with Some op => bool_decide (op_state op = s_in_progress) | None => false end.
Definition succeeded (op : option Operation) : bool :=
  match op with Some op => bool_decide (op_state op = s_succeeded) | None => false end.
(** In progress under a lease of [worker]'s. *)
Definition held_by (worker : string) (op : option Operation) : bool :=
  match op with
  | Some op => bool_decide (op_state op = s_in_progress ∧ op_lease_owner op = Some worker)
  | None => false
  end.
(** In progress under a lease of another's that has not ended. *)
Definition held_by_other (worker : string) (now : float) (op : Operation) : bool :=
  bool_decide (op_state op = s_in_progress) && negb (bool_decide (op_lease_owner op = Some worker))
  && match op_lease_until op with Some until => SFleb now until | None => false end.

(** The operations of one obligation. *)
Definition Rows : Type := OperationKind → option Operation.
Definition rows (ref : string) (j : Journal) : Rows := λ k, operations j !! (ref, k).

(** A failed mechanism whose domain cleanup is done. *)
Definition returned_cleanup_complete (o : Obligation) (ops : Rows) : bool :=
  bool_decide (mechanism_status o = Some es_failed) && succeeded (ops cleanup_op).

(** Fulfillment or a check in flight under a lease that has not ended. *)
Definition active_conflict (now : float) (ops : Rows) : bool :=
  existsb (λ k, match ops k with
                | Some op => bool_decide (op_state op = s_in_progress) && lease_live now op
                | None => false
                end) [fulfill_op; check_op].

(** What keeps a reservation from the operation before its row is read. *)
Definition reservation_excluded (o : Obligation) (k : OperationKind) (now : float) (ops : Rows) : bool :=
  match k with
  | fulfill_op | check_op | collect_op => taken (reclaim_state o)
  | reclaim_op =>
      taken (collection_state o)
      || bool_decide (is_Some (fulfillment_ref o)) && negb (returned_cleanup_complete o ops)
      || bool_decide (condition_state o = c_ready) && negb (returned_cleanup_complete o ops)
      || active_conflict now ops
  | _ => false
  end.

(** What a reservation writes on the obligation; [None] when the guarded write
    of a reclaim changes no row. *)
Definition mark_reserved (o : Obligation) (k : OperationKind) (stamp : string) (ops : Rows) : option Obligation :=
  match k with
  | materialize_op =>
      Some (if bool_decide (materialization_state o = m_materialized) then o
            else set_states m_in_progress (collection_state o) (reclaim_state o) stamp o)
  | collect_op =>
      Some (if taken (reclaim_state o) then o
            else set_states (materialization_state o) s_in_progress (reclaim_state o) stamp o)
  | reclaim_op =>
      if negb (taken (collection_state o))
         && (bool_decide (fulfillment_ref o = None) && negb (bool_decide (condition_state o = c_ready))
             || returned_cleanup_complete o ops)
      then Some (set_states (materialization_state o) (collection_state o) s_in_progress stamp o)
      else None
  | _ => Some o
  end.

(** [None] is busy. *)
Definition reserve_settlement_operation (ref : string) (k : OperationKind) (request_hash worker : string)
    (now until : float) (stamp : string) (j : Journal) : result (option Operation * Journal) :=
  if SFleb until now then Err (ValueError "lease_until_unix must be in the future") else
  match obligations j !! ref with
  | None => Err (KeyError ref)
  | Some o =>
      let ops := rows ref j in
      if reservation_excluded o k now ops then Ok (None, j) else
      let stored := default (new_operation request_hash) (ops k) in
      if negb (bool_decide (op_request_hash stored = request_hash))
      then Err (ValueError "settlement operation was reused with a different request")
      else if terminal (op_state stored) then Ok (Some stored, j)
      else if held_by_other worker now stored then Ok (None, j)
      else
        let op := leased_to worker until stored in
        match mark_reserved o k stamp ops with
        | None => Ok (None, j)
        | Some o => Ok (Some op, put_operation ref k op (put_obligation o j))
        end
  end.

(** ** The receipt of a held operation *)

Inductive WriteResult : Type := written | unchanged | conflict | lost.
Inductive ClearResult : Type := cleared | refused | clear_lost.

Definition set_receipt (receipt : option dict) (uncertain : bool) (op : Operation) : Operation :=
  {| op_request_hash := op_request_hash op; op_state := op_state op; op_attempts := op_attempts op;
     op_uncertain := uncertain; op_receipt := receipt; op_last_error := op_last_error op;
     op_lease_owner := op_lease_owner op; op_lease_until := op_lease_until op; op_next_attempt := op_next_attempt op;
     op_awaiting_delivery := op_awaiting_delivery op |}.

(** The row of an operation a worker holds. *)
Definition held_operation (ref : string) (k : OperationKind) (worker : string) (j : Journal) : option Operation :=
  if held_by worker (rows ref j k) then rows ref j k else None.

Definition write_operation_receipt_field (ref : string) (k : OperationKind) (worker key : string) (x : value)
    (uncertain : bool) (j : Journal) : result (WriteResult * Journal) :=
  match held_operation ref k worker j with
  | None => Ok (lost, j)
  | Some op =>
      let receipt := default [] (op_receipt op) in
      if dict_has key receipt then
        stored ← canonical_json (dict_get key receipt); given ← canonical_json x;
        Ok (if bool_decide (stored = given) then unchanged else conflict, j)
      else
        let receipt := dict_set key x receipt in
        _ ← canonical_json (VDict receipt);
        Ok (written, put_operation ref k (set_receipt (Some receipt) (op_uncertain op || uncertain) op) j)
  end.

Definition dict_pop (key : string) (d : dict) : dict := List.filter (λ kv, negb (bool_decide (kv.1 = key))) d.

Definition clear_operation_receipt_field (ref : string) (k : OperationKind) (worker key unless_key : string)
    (j : Journal) : result (ClearResult * Journal) :=
  match held_operation ref k worker j with
  | None => Ok (clear_lost, j)
  | Some op =>
      let receipt := default [] (op_receipt op) in
      if dict_has unless_key receipt then Ok (refused, j)
      else
        let receipt := dict_pop key receipt in
        _ ← canonical_json (VDict receipt);
        Ok (cleared, put_operation ref k
              (set_receipt (match receipt with [] => None | _ => Some receipt end) (op_uncertain op) op) j)
  end.

(** An obligation waiting for an operator counts once. *)
Definition count_manual_required (j : Journal) : Z :=
  Z.of_nat (List.length (List.filter
    (λ o, bool_decide (mechanism_status o = Some es_manual_required)
          || existsb (λ k, match operations j !! (ob_ref (ob_terms o), k) with
                           | Some op => bool_decide (op_state op = s_manual_required)
                           | None => false
                           end) operation_kinds)
    (map_to_list (obligations j)).*2)).

(** ** Finishing a held operation *)

Record Finish : Type := {
  fn_state : OperationState;
  fn_receipt : option dict;
  fn_last_error : option string;
  fn_uncertain : bool;
  fn_mechanism_ref : option string;
  fn_mechanism_status : option EscrowStatus;
  fn_mechanism_state : option dict;
  fn_buyer_action : option dict;
  fn_condition_anchor : option string;
  fn_condition_state : option ConditionState;
  fn_next_attempt : option float;
}.

(** [COALESCE(a, b)]. *)
Definition coalesce {A} (a b : option A) : option A := match a with Some _ => a | None => b end.

Definition finished_operation (v : Finish) (op : Operation) : Operation :=
  {| op_request_hash := op_request_hash op; op_state := fn_state v; op_attempts := op_attempts op;
     op_uncertain := fn_uncertain v; op_receipt := coalesce (fn_receipt v) (op_receipt op);
     op_last_error := fn_last_error v; op_lease_owner := None; op_lease_until := None;
     op_next_attempt := fn_next_attempt v; op_awaiting_delivery := op_awaiting_delivery op |}.

Definition materialization_of (s : OperationState) : MaterializationState :=
  match s with
  | s_pending => m_pending | s_succeeded => m_materialized | s_manual_required => m_manual_required
  | s_in_progress => m_in_progress
  end.

Definition finish_materialize (v : Finish) (stamp : string) (o : Obligation) : Obligation :=
  {| ob_terms := ob_terms o; mechanism_params := mechanism_params o;
     mechanism_ref := coalesce (fn_mechanism_ref v) (mechanism_ref o);
     mechanism_status := coalesce (fn_mechanism_status v) (mechanism_status o);
     mechanism_state := default (mechanism_state o) (fn_mechanism_state v); buyer_action := fn_buyer_action v;
     condition_anchor := coalesce (fn_condition_anchor v) (condition_anchor o); fulfillment_ref := fulfillment_ref o;
     materialization_state := materialization_of (fn_state v); condition_state := condition_state o;
     collection_state := collection_state o; reclaim_state := reclaim_state o;
     materialization_receipt := coalesce (fn_receipt v) (materialization_receipt o);
     status_receipt := status_receipt o; collection_receipt := collection_receipt o;
     reclaim_receipt := reclaim_receipt o; ob_last_error := fn_last_error v; ob_version := ob_version o + 1;
     ob_updated_at := stamp |}.

(** What a reported status says of materialization. *)
Definition materialization_reported (s : option EscrowStatus) : option MaterializationState :=
  match s with
  | Some es_manual_required => Some m_manual_required
  | Some es_ready | Some es_collected | Some es_reclaimed | Some es_expired => Some m_materialized
  | _ => None
  end.

Definition finish_status (v : Finish) (stamp : string) (o : Obligation) : Obligation :=
  let reported s := bool_decide (fn_mechanism_status v = Some s) in
  {| ob_terms := ob_terms o; mechanism_params := mechanism_params o;
     mechanism_ref := coalesce (fn_mechanism_ref v) (mechanism_ref o);
     mechanism_status := coalesce (fn_mechanism_status v) (mechanism_status o);
     mechanism_state := default (mechanism_state o) (fn_mechanism_state v); buyer_action := fn_buyer_action v;
     condition_anchor := coalesce (fn_condition_anchor v) (condition_anchor o); fulfillment_ref := fulfillment_ref o;
     materialization_state :=
       (if bool_decide (collection_state o = s_succeeded) then materialization_state o
        else default (materialization_state o) (materialization_reported (fn_mechanism_status v)));
     condition_state := (if reported es_failed then c_failed else condition_state o);
     collection_state := (if reported es_collected then s_succeeded else collection_state o);
     reclaim_state := (if reported es_reclaimed then s_succeeded else reclaim_state o);
     materialization_receipt := materialization_receipt o;
     status_receipt := coalesce (fn_receipt v) (status_receipt o); collection_receipt := collection_receipt o;
     reclaim_receipt := reclaim_receipt o; ob_last_error := fn_last_error v; ob_version := ob_version o + 1;
     ob_updated_at := stamp |}.

(** The condition a check resolves to. *)
Definition condition_resolved (v : Finish) : ConditionState :=
  match fn_condition_state v with
  | Some c => c
  | None => match fn_state v with
            | s_succeeded => c_ready | s_manual_required => c_manual_required | _ => c_pending
            end
  end.

(** A check, a collection, a reclaim and a park write what only they may. *)
Definition finish_effect (condition : ConditionState) (collection reclaim : OperationState)
    (collected reclaimed : option dict) (v : Finish) (stamp : string) (o : Obligation) : Obligation :=
  {| ob_terms := ob_terms o; mechanism_params := mechanism_params o; mechanism_ref := mechanism_ref o;
     mechanism_status := mechanism_status o; mechanism_state := default (mechanism_state o) (fn_mechanism_state v);
     buyer_action := buyer_action o; condition_anchor := condition_anchor o; fulfillment_ref := fulfillment_ref o;
     materialization_state := materialization_state o; condition_state := condition;
     collection_state := collection; reclaim_state := reclaim;
     materialization_receipt := materialization_receipt o; status_receipt := status_receipt o;
     collection_receipt := coalesce collected (collection_receipt o);
     reclaim_receipt := coalesce reclaimed (reclaim_receipt o);
     ob_last_error := fn_last_error v; ob_version := ob_version o + 1; ob_updated_at := stamp |}.

Definition finished_obligation (k : OperationKind) (v : Finish) (stamp : string) (o : Obligation) : Obligation :=
  match k with
  | materialize_op => finish_materialize v stamp o
  | status_op => finish_status v stamp o
  | check_op => finish_effect (condition_resolved v) (collection_state o) (reclaim_state o) None None v stamp o
  | collect_op =>
      if bool_decide (reclaim_state o = s_succeeded) then o
      else finish_effect (condition_state o) (fn_state v) (reclaim_state o) (fn_receipt v) None v stamp o
  | reclaim_op =>
      if bool_decide (collection_state o = s_succeeded) then o
      else finish_effect (condition_state o) (collection_state o) (fn_state v) None (fn_receipt v) v stamp o
  | fulfill_op =>
      if bool_decide (fn_state v = s_manual_required)
      then finish_effect (condition_state o) (collection_state o) (reclaim_state o) None None v stamp o
      else o
  | cleanup_op => o
  end.

(** The unique index on mechanism references. *)
Definition mechanism_ref_conflicts (k : OperationKind) (v : Finish) (ref : string) (j : Journal) : bool :=
  match k, fn_mechanism_ref v with
  | (materialize_op | status_op), Some m =>
      existsb (λ o, negb (bool_decide (ob_ref (ob_terms o) = ref))) (with_mechanism_ref m j)
  | _, _ => false
  end.

Definition encodable (d : option dict) : result () :=
  match d with Some d => _ ← canonical_json (VDict d); Ok () | None => Ok () end.

(** [false] when the caller no longer holds the operation. *)
Definition finish_settlement_operation (ref : string) (k : OperationKind) (worker : string) (v : Finish)
    (stamp : string) (j : Journal) : result (bool * Journal) :=
  if bool_decide (fn_state v = s_in_progress) then Err (ValueError "unsupported operation outcome") else
  _ ← encodable (fn_receipt v); _ ← encodable (fn_mechanism_state v); _ ← encodable (fn_buyer_action v);
  match held_operation ref k worker j with
  | None => Ok (false, j)
  | Some op =>
      if mechanism_ref_conflicts k v ref j then Err IntegrityError else
      let j := put_operation ref k (finished_operation v op) j in
      Ok (true, match obligations j !! ref with
                | Some o => put_obligation (finished_obligation k v stamp o) j
                | None => j
                end)
  end.

Definition awaiting_delivery (now : float) (op : Operation) : Operation :=
  {| op_request_hash := op_request_hash op; op_state := s_pending; op_attempts := Z.max (op_attempts op - 1) 0;
     op_uncertain := false; op_receipt := op_receipt op; op_last_error := None; op_lease_owner := None;
     op_lease_until := None; op_next_attempt := Some now; op_awaiting_delivery := true |}.

Definition mark_fulfillment_awaiting_delivery (ref worker : string) (now : float) (j : Journal)
    : result (bool * Journal) :=
  match held_operation ref fulfill_op worker j with
  | None => Ok (false, j)
  | Some op => Ok (true, put_operation ref fulfill_op (awaiting_delivery now op) j)
  end.

(** ** Due work *)

Definition rescheduled (next : option float) (error : option string) (awaiting : bool) (op : Operation) : Operation :=
  {| op_request_hash := op_request_hash op; op_state := op_state op; op_attempts := op_attempts op;
     op_uncertain := op_uncertain op; op_receipt := op_receipt op;
     op_last_error := coalesce error (op_last_error op); op_lease_owner := op_lease_owner op;
     op_lease_until := op_lease_until op; op_next_attempt := next; op_awaiting_delivery := awaiting |}.

Definition schedule_settlement_retry (ref : string) (k : OperationKind) (next : float) (error : option string)
    (j : Journal) : result (() * Journal) :=
  match operations j !! (ref, k) with
  | Some op =>
      if bool_decide (op_state op = s_pending)
      then Ok (tt, put_operation ref k (rescheduled (Some next) error false op) j)
      else Err (KeyError (operation_name k))
  | None => Err (KeyError (operation_name k))
  end.

Definition woken (op : Operation) : Operation :=
  if bool_decide (op_state op = s_pending) then rescheduled None None (op_awaiting_delivery op) op else op.

Definition wake_settlement_obligation (ref : string) (j : Journal) : result (() * Journal) :=
  match obligations j !! ref with
  | None => Err (KeyError ref)
  | Some _ =>
      Ok (tt, {| obligations := obligations j;
                 operations := map_imap (λ key op, Some (if decide (key.1 = ref) then woken op else op)) (operations j) |})
  end.

(** [json_extract(mechanism_state, '$.terminal_risk_monitoring') = 1]. *)
Definition monitored (o : Obligation) : bool :=
  match dict_get "terminal_risk_monitoring" (mechanism_state o) with
  | VBool b => b
  | VNum n => num_eqb n (NInt 1)
  | _ => false
  end.

Definition status_is (o : Obligation) (s : EscrowStatus) : bool := bool_decide (mechanism_status o = Some s).

(** The operation through which an obligation is due. *)
Definition due_operation (o : Obligation) : OperationKind :=
  if status_is o es_failed && negb (bool_decide (collection_state o = s_succeeded)) then cleanup_op
  else if bool_decide (collection_state o = s_succeeded) then status_op
  else if status_is o es_ready && bool_decide (fulfillment_ref o = None) then fulfill_op
  else if bool_decide (condition_state o = c_ready) then collect_op
  else if status_is o es_ready then check_op else status_op.

Definition not_before (next : option float) (now : float) : bool :=
  match next with None => true | Some next => SFleb next now end.

Definition is_due (now : float) (j : Journal) (o : Obligation) : bool :=
  let uncollected := negb (bool_decide (collection_state o = s_succeeded)) in
  (bool_decide (is_Some (fulfillment_ref o)) || status_is o es_ready)
  && (negb (terminal (collection_state o)) || (bool_decide (collection_state o = s_succeeded) && monitored o))
  && negb (terminal (reclaim_state o))
  && (negb (bool_decide (condition_state o = c_failed ∨ condition_state o = c_manual_required))
      || (bool_decide (condition_state o = c_failed) && status_is o es_failed && uncollected))
  && (negb (existsb (status_is o) [es_collected; es_reclaimed; es_expired; es_failed; es_manual_required])
      || (status_is o es_collected && monitored o) || (status_is o es_failed && uncollected))
  && match operations j !! (ob_ref (ob_terms o), due_operation o) with
     | None => true
     | Some op =>
         (bool_decide (op_state op = s_pending)
          || bool_decide (op_state op = s_in_progress) && SFltb (default (S754_zero false) (op_lease_until op)) now)
         && not_before (op_next_attempt op) now
     end
  && negb match operations j !! (ob_ref (ob_terms o), status_op) with
          | None => false
          | Some op =>
              match op_next_attempt op with Some next => SFltb now next | None => false end
              || bool_decide (op_state op = s_in_progress) && lease_live now op
          end.

Definition list_due_settlement_obligations (now : float) (limit : Z) (j : Journal) : list Obligation :=
  if limit <=? 0 then []
  else firstn (Z.to_nat limit)
         (sort_by (λ a b, match String.compare (ob_updated_at a) (ob_updated_at b) with
                          | Lt => true | Gt => false
                          | Eq => string_leb (ob_ref (ob_terms a)) (ob_ref (ob_terms b))
                          end)
            (List.filter (is_due now j) (map_to_list (obligations j)).*2)).
End journal.
