(* ===== verification/SettlementRuntime.v ===== *)
(** The settlement runtime and its servicing worker
    ([market_settlement_runtime/runtime.py], [servicing.py]).

    A handler is a function of a world: the journal and the clocks.  Every
    transaction is one step; before it [others] may do what other tasks do while
    it is awaited, and the call of a mechanism client is a step of the whole
    world.  An obligation's mechanism client, identities, SHA-256, [str()] of
    values and errors, and the domain's ready and terminal hooks are parameters.
    Log lines and event callbacks, whose failures are swallowed, are not
    modelled, nor is the loop that sweeps on an interval. *)
From S2P Require Import Prelude PyNum PyValue PyText PyWire Backoff SettlementJournal.
From Stdlib Require Import SpecFloat.

Local Open Scope string_scope.
Local Open Scope list_scope.
Local Open Scope Z_scope.

(** ** What mechanisms report *)

Record MaterializationOutcome : Type := {
  mo_mechanism_ref : string;
  mo_status : EscrowStatus;
  mo_buyer_action : option dict;
  mo_condition_anchor : option string;
  mo_receipt : option dict;
  mo_mechanism_state : dict;
  mo_last_error : option string;
}.

Record StatusOutcome : Type := {
  so_status : EscrowStatus;
  so_mechanism_ref : string;
  so_buyer_action : option dict;
  so_condition_anchor : option string;
  so_receipt : option dict;
  so_mechanism_state : dict;
  so_last_error : option string;
}.

Record ConditionOutcome : Type := {
  co_decision : ConditionState;
  co_receipt : option dict;
  co_mechanism_state : dict;
  co_last_error : option string;
}.

Record EffectOutcome : Type := { eo_receipt : dict; eo_mechanism_state : dict }.

Inductive OutcomeStatus : Type := o_succeeded | o_pending | o_manual_required | o_busy | o_terminal.

#[export] Instance OutcomeStatus_eq_dec : EqDecision OutcomeStatus.
Proof. solve_decision. Defined.

Record SettlementOperationOutcome : Type := {
  oc_obligation_ref : string;
  oc_operation : OperationKind;
  oc_status : OutcomeStatus;
  oc_action : option dict;
  oc_receipt : option dict;
  oc_attempts : option Z;
}.

Inductive PlanStatus : Type := p_active | p_partial | p_complete | p_manual_required.

Definition MANUAL_REASON_KEY : string := "manual_reason".
Definition FULFILLMENT_SUBMISSION_KEY : string := "submission".
Definition FULFILLMENT_REFERENCE_KEY : string := "reference".

Definition settlement_operation_ref (ref : string) (k : OperationKind) : string :=
  "arkhai:settlement:" +:+ ref +:+ ":" +:+ operation_name k.

Definition _safe_buyer_action (action : option dict) : option dict :=
  match action with
  | None | Some [] => None
  | Some a =>
      match List.filter (λ kv, negb (is_none kv.2))
              (map (λ k, (k, dict_get k a)) ["kind"; "expires_at_unix"]) with
      | [] => None
      | safe => Some safe
      end
  end.

(** [float(v)]. *)
Definition py_float (v : value) : result float :=
  match v with
  | VBool b => Ok (float_of_int (if b then 1 else 0))
  | VNum (NInt z) => float_of_Z z
  | VNum (NFloat f) => Ok f
  | VNum (NDec d) => Ok (float_of_dec d)
  | VStr s => match float_of_text s with Some f => Ok f | None => Err (ValueError "could not convert string to float") end
  | _ => Err (TypeError "float() argument must be a string or a real number")
  end.

Section runtime.
Context {Identity : Type} `{!EqDecision Identity}.
Context (dump_identity : Identity → dict) (read_identity : value → result Identity) (sha256 : string → string).
Context (py_str : value → string) (error_text error_message : py_error → string).

Local Abbreviation Obligation := (Obligation Identity).
Local Abbreviation Journal := (Journal Identity).

(** ** Registering an obligation *)

Definition obligation_payload_hash (o : dict) : result string := sha256 <$> canonical_json (VDict o).

(** The obligation with its principals written canonically, and the two. *)
Definition _canonical_obligation_principals (o : dict) : result (dict * Identity * Identity) :=
  if negb (dict_has "payer_principal" o) then Err (ValueError "settlement obligation requires payer_principal")
  else if negb (dict_has "claimant_principal" o)
  then Err (ValueError "settlement obligation requires claimant_principal")
  else
    payer ← read_identity (dict_get "payer_principal" o);
    claimant ← read_identity (dict_get "claimant_principal" o);
    Ok (dict_set "claimant_principal" (VDict (dump_identity claimant))
          (dict_set "payer_principal" (VDict (dump_identity payer)) o), payer, claimant).

Definition derive_obligation_ref (agreement_ref : string) (index : Z) (o : dict) : result string :=
  if bool_decide (agreement_ref = "") then Err (ValueError "agreement_ref must be non-empty")
  else if index <? 0 then Err (ValueError "obligation_index must be non-negative")
  else
    sha256 <$> canonical_json (VDict [("protocol", VStr "arkhai.settlement-obligation.v1");
                                      ("agreement_ref", VStr agreement_ref); ("obligation_index", VInt index);
                                      ("obligation", VDict o)]).

Definition new_obligation (t : Terms Identity) : Obligation :=
  {| ob_terms := t; mechanism_params := []; mechanism_ref := None; mechanism_status := None; mechanism_state := [];
     buyer_action := None; condition_anchor := None; fulfillment_ref := None; materialization_state := m_pending;
     condition_state := c_pending; collection_state := s_pending; reclaim_state := s_pending;
     materialization_receipt := None; status_receipt := None; collection_receipt := None; reclaim_receipt := None;
     ob_last_error := None; ob_version := 0; ob_updated_at := "" |}.

Definition from_obligation (agreement_ref : string) (index : Z) (o : dict) : result Obligation :=
  '(snapshot, payer, claimant) ← _canonical_obligation_principals o;
  ref ← derive_obligation_ref agreement_ref index snapshot;
  hash ← obligation_payload_hash snapshot;
  Ok (new_obligation {| ob_ref := ref; ob_agreement_ref := agreement_ref; ob_index := index; ob_hash := hash;
                        ob_obligation := snapshot; ob_payer := payer; ob_claimant := claimant |}).

Definition parked (o : Obligation) : bool :=
  bool_decide (materialization_state o = m_manual_required) || bool_decide (condition_state o = c_manual_required)
  || bool_decide (collection_state o = s_manual_required) || bool_decide (reclaim_state o = s_manual_required).
Definition settled (o : Obligation) : bool :=
  bool_decide (collection_state o = s_succeeded) || bool_decide (reclaim_state o = s_succeeded).

Definition aggregate_settlement_status (l : list Obligation) : PlanStatus :=
  if existsb parked l then p_manual_required
  else if negb (is_nil l) && forallb settled l then p_complete
  else if existsb settled l then p_partial else p_active.

(** ** The world, transactions and clients *)

Record World : Type := { w_journal : Journal; w_now : float; w_stamp : string }.
Definition with_journal (j : Journal) (w : World) : World :=
  {| w_journal := j; w_now := w_now w; w_stamp := w_stamp w |}.

Context (others : World → World).

Definition transact {A} (t : string → Journal → result (A * Journal)) : M World A := λ w,
  let w := others w in
  match t (w_stamp w) (w_journal w) with
  | Ok (a, j) => (Ok a, with_journal j w)
  | Err e => (Err e, w)
  end.
Definition query {A} (f : Journal → A) : M World A := transact (λ _ j, Ok (f j, j)).

Record EscrowClient : Type := {
  cl_materialize : dict → string → M World MaterializationOutcome;
  cl_get_status : dict → string → string → dict → M World StatusOutcome;
  cl_check : dict → string → string → string → dict → M World ConditionOutcome;
  cl_collect : dict → string → string → string → dict → M World EffectOutcome;
  cl_reclaim_expired : dict → string → string → dict → dict → M World EffectOutcome;
}.

Context (clients : string → option EscrowClient) (lease_seconds fulfillment_lease_seconds : float).

(** ** Reading and checking a record *)

Definition _load (ref : string) : M World Obligation :=
  row ← query (load_settlement_obligation ref);
  match row with None => raise (KeyError ref) | Some o => mret o end.

Definition _client (o : Obligation) : M World EscrowClient :=
  let m := dict_get "mechanism" (ob_obligation (ob_terms o)) in
  match clients (if truthy m then match m with VStr s => s | m => py_str m end else "") with
  | Some c => mret c
  | None => raise (ValueError "no conditional escrow client")
  end.

Fixpoint merge_params (bound params : dict) : result dict :=
  match bound with
  | [] => Ok params
  | (k, x) :: bound =>
      if dict_has k params && negb (py_eq (dict_get k params) x)
      then Err (ValueError "immutable mechanism parameter conflicts with accepted terms")
      else merge_params bound (dict_set k x params)
  end.

Definition _operation_obligation (o : Obligation) : result dict :=
  let snapshot := ob_obligation (ob_terms o) in
  if is_nil (mechanism_params o) then Ok snapshot else
  params ← match dict_get "params" snapshot with
           | VNone => Ok []
           | VDict d => Ok d
           | _ => Err (ValueError "settlement obligation params must be an object")
           end;
  params ← merge_params (mechanism_params o) params;
  Ok (dict_set "params" (VDict params) snapshot).

Definition _require_participant (o : Obligation) (p : Identity) : M World () :=
  if bool_decide (p = ob_payer (ob_terms o) ∨ p = ob_claimant (ob_terms o)) then mret tt
  else raise (PermissionError "only an obligation participant").
Definition _require_payer (o : Obligation) (p : Identity) : M World () :=
  if bool_decide (p = ob_payer (ob_terms o)) then mret tt else raise (PermissionError "only the obligation payer").
Definition _require_claimant (o : Obligation) (p : Identity) : M World () :=
  if bool_decide (p = ob_claimant (ob_terms o)) then mret tt
  else raise (PermissionError "only the obligation claimant").

(** [not x] of an optional text. *)
Definition named (x : option string) : option string := str_truthy x.

Definition _require_mechanism_ref (o : Obligation) : M World string :=
  match named (mechanism_ref o) with Some r => mret r | None => raise (ValueError "obligation has no mechanism_ref") end.
Definition _require_materialized (o : Obligation) : M World string :=
  match named (mechanism_ref o) with
  | Some r => if bool_decide (materialization_state o = m_materialized) then mret r
              else raise (ValueError "obligation is not materialized")
  | None => raise (ValueError "obligation is not materialized")
  end.
Definition _require_fulfillment (o : Obligation) : M World string :=
  match named (fulfillment_ref o) with Some r => mret r | None => raise (ValueError "fulfillment_ref is required") end.

(** ** Reserving and finishing *)

Definition _request_hash (o : Obligation) (k : OperationKind) (p : Identity) (request : dict) : result string :=
  let t := ob_terms o in
  let principal :=
    if bool_decide (k = status_op)
    then [("payer", VDict (dump_identity (ob_payer t))); ("claimant", VDict (dump_identity (ob_claimant t)))]
    else dump_identity p in
  sha256 <$> canonical_json (VDict [("protocol", VStr "arkhai.settlement-operation.v2"); ("obligation_ref", VStr (ob_ref t));
                                    ("obligation_hash", VStr (ob_hash t)); ("operation", VStr (operation_name k));
                                    ("principal", VDict principal); ("request", VDict request);
                                    ("mechanism_params", VDict (mechanism_params o))]).

Definition lease_of (k : OperationKind) : float :=
  if bool_decide (k = fulfill_op) then fulfillment_lease_seconds else lease_seconds.

Definition _reserve (o : Obligation) (k : OperationKind) (worker : string) (p : Identity) (request : dict)
    : M World (option Operation) :=
  now ← gets w_now;
  hash ← lift (_request_hash o k p request);
  transact (reserve_settlement_operation (ob_ref (ob_terms o)) k hash worker now (float_add now (lease_of k))).

Definition _outcome (o : Obligation) (k : OperationKind) (s : OutcomeStatus) (receipt action : option dict)
    (attempts : option Z) : SettlementOperationOutcome :=
  {| oc_obligation_ref := ob_ref (ob_terms o); oc_operation := k; oc_status := s; oc_action := action;
     oc_receipt := receipt; oc_attempts := attempts |}.

Definition _terminal_outcome (o : Obligation) (k : OperationKind) (op : Operation)
    : option SettlementOperationOutcome :=
  match op_state op with
  | s_succeeded => Some (_outcome o k o_succeeded (op_receipt op) None None)
  | s_manual_required => Some (_outcome o k o_manual_required (op_receipt op) None None)
  | _ => None
  end.

(** What follows a reservation: busy, already decided, or held. *)
Definition if_reserved (o : Obligation) (k : OperationKind) (reserved : option Operation)
    (held : Operation → M World SettlementOperationOutcome) : M World SettlementOperationOutcome :=
  match reserved with
  | None => mret (_outcome o k o_busy None None None)
  | Some op => match _terminal_outcome o k op with Some r => mret r | None => held op end
  end.

Definition manual_reason (o : Obligation) : value := dict_get MANUAL_REASON_KEY (mechanism_state o).

Definition _keep_parked_reason (o : Obligation) (state : dict) (fulfillment_parked : bool) : dict :=
  if dict_has MANUAL_REASON_KEY state then state
  else if (fulfillment_parked || parked o) && truthy (manual_reason o)
  then dict_set MANUAL_REASON_KEY (manual_reason o) state
  else state.

Definition no_finish (s : OperationState) : Finish :=
  {| fn_state := s; fn_receipt := None; fn_last_error := None; fn_uncertain := false; fn_mechanism_ref := None;
     fn_mechanism_status := None; fn_mechanism_state := None; fn_buyer_action := None; fn_condition_anchor := None;
     fn_condition_state := None; fn_next_attempt := None |}.
Definition with_mechanism_state (s : option dict) (v : Finish) : Finish :=
  {| fn_state := fn_state v; fn_receipt := fn_receipt v; fn_last_error := fn_last_error v;
     fn_uncertain := fn_uncertain v; fn_mechanism_ref := fn_mechanism_ref v;
     fn_mechanism_status := fn_mechanism_status v; fn_mechanism_state := s; fn_buyer_action := fn_buyer_action v;
     fn_condition_anchor := fn_condition_anchor v; fn_condition_state := fn_condition_state v;
     fn_next_attempt := fn_next_attempt v |}.

Definition _finish (o : Obligation) (k : OperationKind) (worker : string) (v : Finish) : M World () :=
  let ref := ob_ref (ob_terms o) in
  v ← match fn_mechanism_state v with
      | None => mret v
      | Some state =>
          fulfillment_parked ←
            (if negb (bool_decide (k = fulfill_op)) && truthy (manual_reason o)
                && negb (dict_has MANUAL_REASON_KEY state)
             then fulfill ← query (load_settlement_operation ref fulfill_op);
                  mret match fulfill with
                       | Some op => bool_decide (op_state op = s_manual_required)
                       | None => false
                       end
             else mret false);
          mret (with_mechanism_state (Some (_keep_parked_reason o state fulfillment_parked)) v)
      end;
  saved ← transact (finish_settlement_operation ref k worker v);
  if (saved : bool) then mret tt else raise (RuntimeError "settlement operation lease was lost").

Definition failure (v : Finish) (error : string) (uncertain : bool) : Finish :=
  {| fn_state := fn_state v; fn_receipt := None; fn_last_error := Some error; fn_uncertain := uncertain;
     fn_mechanism_ref := None; fn_mechanism_status := None; fn_mechanism_state := fn_mechanism_state v;
     fn_buyer_action := None; fn_condition_anchor := None; fn_condition_state := None; fn_next_attempt := None |}.

Definition _finish_retry (o : Obligation) (k : OperationKind) (worker : string) (e : py_error) (uncertain : bool)
    : M World () :=
  _finish o k worker (failure (no_finish s_pending) (error_text e) uncertain).

(** [getattr(error, "code", "") or ""]. *)
Definition error_code (e : py_error) : string :=
  match e with
  | SettlementManualRequired _ code => code
  | QuerySyntaxError q | QueryValidationError q => qe_code q
  | _ => ""
  end.

Definition _finish_manual (o : Obligation) (k : OperationKind) (worker : string) (e : py_error)
    : M World SettlementOperationOutcome :=
  let code := error_code e in
  let state := if bool_decide (code = "") then None
               else Some (dict_set MANUAL_REASON_KEY (VStr code) (mechanism_state o)) in
  _finish o k worker (failure (with_mechanism_state state (no_finish s_manual_required)) (error_message e) false);;
  mret (_outcome o k o_manual_required None None None).

(** [try: call except SettlementManualRequired: park except Exception: retry; raise]. *)
Definition attempt {A} (o : Obligation) (k : OperationKind) (worker : string) (uncertain : bool) (call : M World A)
    (after : A → M World SettlementOperationOutcome) : M World SettlementOperationOutcome := λ w,
  match call w with
  | (Ok a, w) => after a w
  | (Err (SettlementManualRequired _ _ as e), w) => _finish_manual o k worker e w
  | (Err e, w) => (_finish_retry o k worker e uncertain;; raise e) w
  end.

(** ** Plans *)

Definition register_obligation (agreement_ref : string) (index : Z) (o : dict) : M World Obligation :=
  record ← lift (from_obligation agreement_ref index o);
  transact (λ stamp, upsert_settlement_obligation
    {| ob_terms := ob_terms record; mechanism_params := mechanism_params record; mechanism_ref := mechanism_ref record;
       mechanism_status := mechanism_status record; mechanism_state := mechanism_state record;
       buyer_action := buyer_action record; condition_anchor := condition_anchor record;
       fulfillment_ref := fulfillment_ref record; materialization_state := materialization_state record;
       condition_state := condition_state record; collection_state := collection_state record;
       reclaim_state := reclaim_state record; materialization_receipt := materialization_receipt record;
       status_receipt := status_receipt record; collection_receipt := collection_receipt record;
       reclaim_receipt := reclaim_receipt record; ob_last_error := ob_last_error record;
       ob_version := ob_version record; ob_updated_at := stamp |}).

Fixpoint register_from (agreement_ref : string) (index : Z) (l : list dict) : M World (list Obligation) :=
  match l with
  | [] => mret []
  | o :: l =>
      r ← register_obligation agreement_ref index o;
      rs ← register_from agreement_ref (index + 1) l;
      mret (r :: rs)
  end.
Definition register_plan (agreement_ref : string) (l : list dict) : M World (list Obligation) :=
  register_from agreement_ref 0 l.

Definition get_status (agreement_ref : string) : M World (PlanStatus * list Obligation) :=
  l ← query (list_settlement_obligations agreement_ref);
  mret (aggregate_settlement_status l, l).

Definition manual_required_count : M World Z := query count_manual_required.

Definition adopt (ref : string) (p : Identity) (mechanism : string) (receipt : option dict) (anchor : option string)
    (state : option dict) (worker : string) : M World SettlementOperationOutcome :=
  if bool_decide (mechanism = "") then raise (ValueError "mechanism_ref must be non-empty") else
  o ← _load ref;
  _require_participant o p;;
  reserved ← _reserve o materialize_op worker p [("adopted_mechanism_ref", VStr mechanism)];
  if_reserved o materialize_op reserved (λ _,
    _finish o materialize_op worker
      {| fn_state := s_succeeded; fn_receipt := receipt; fn_last_error := None; fn_uncertain := false;
         fn_mechanism_ref := Some mechanism; fn_mechanism_status := Some es_ready;
         fn_mechanism_state := Some (default [] state); fn_buyer_action := None; fn_condition_anchor := anchor;
         fn_condition_state := None; fn_next_attempt := None |};;
    mret (_outcome o materialize_op o_succeeded receipt None None)).

Definition bind_mechanism_params (ref : string) (params : dict) (p : Identity) : M World Obligation :=
  o ← _load ref;
  _require_payer o p;;
  if is_nil params then raise (ValueError "mechanism_params must be non-empty")
  else transact (bind_settlement_mechanism_params ref params).

(** ** Fulfillment, whose effect is the domain's *)

Definition bind_fulfillment (ref fulfillment : string) (p : Identity) : M World Obligation :=
  o ← _load ref;
  _require_claimant o p;;
  if bool_decide (fulfillment = "") then raise (ValueError "fulfillment_ref must be non-empty")
  else transact (bind_settlement_fulfillment ref fulfillment).

Definition with_receipt (receipt : dict) : Finish :=
  {| fn_state := s_succeeded; fn_receipt := Some receipt; fn_last_error := None; fn_uncertain := false;
     fn_mechanism_ref := None; fn_mechanism_status := None; fn_mechanism_state := None; fn_buyer_action := None;
     fn_condition_anchor := None; fn_condition_state := None; fn_next_attempt := None |}.

Definition reserve_fulfillment (ref : string) (p : Identity) (worker : string) : M World SettlementOperationOutcome :=
  o ← _load ref;
  _require_claimant o p;;
  reserved ← _reserve o fulfill_op worker p [];
  if_reserved o fulfill_op reserved (λ op,
    match named (fulfillment_ref o) with
    | Some f =>
        let receipt := [("fulfillment_ref", VStr f)] in
        _finish o fulfill_op worker (with_receipt receipt);;
        mret (_outcome o fulfill_op o_succeeded (Some receipt) None None)
    | None => mret (_outcome o fulfill_op o_pending (op_receipt op) None (Some (op_attempts op)))
    end).

Definition complete_fulfillment (ref fulfillment : string) (p : Identity) (worker : string) : M World Obligation :=
  o ← bind_fulfillment ref fulfillment p;
  _finish o fulfill_op worker (with_receipt [("fulfillment_ref", VStr fulfillment)]);;
  _load ref.

Definition lease_lost {A} : M World A := raise (RuntimeError "settlement operation lease was lost").

Definition defer_fulfillment (ref : string) (p : Identity) (worker : string) : M World () :=
  o ← _load ref;
  _require_claimant o p;;
  now ← gets w_now;
  marked ← transact (λ _, mark_fulfillment_awaiting_delivery (ob_ref (ob_terms o)) worker now);
  if (marked : bool) then mret tt else lease_lost.

Definition retry_fulfillment (ref : string) (e : py_error) (p : Identity) (worker : string) : M World () :=
  o ← _load ref;
  _require_claimant o p;;
  _finish_retry o fulfill_op worker e true.

Definition _write_fulfillment_field (ref key : string) (x : value) (p : Identity) (worker : string) : M World () :=
  o ← _load ref;
  _require_claimant o p;;
  r ← transact (λ _, write_operation_receipt_field ref fulfill_op worker key x true);
  match r with
  | lost => lease_lost
  | conflict => raise (SettlementOperationConflict key)
  | _ => mret tt
  end.

Definition record_fulfillment_submission (ref : string) (submission : dict) (p : Identity) (worker : string)
    : M World () :=
  _write_fulfillment_field ref FULFILLMENT_SUBMISSION_KEY (VDict submission) p worker.

Definition record_fulfillment_publication (ref reference : string) (p : Identity) (worker : string) : M World () :=
  if bool_decide (py_strip reference = "")
  then raise (ValueError "a publication reference must be a non-empty string")
  else _write_fulfillment_field ref FULFILLMENT_REFERENCE_KEY (VStr reference) p worker.

Definition clear_fulfillment_submission (ref : string) (p : Identity) (worker : string) : M World () :=
  o ← _load ref;
  _require_claimant o p;;
  r ← transact (λ _, clear_operation_receipt_field ref fulfill_op worker FULFILLMENT_SUBMISSION_KEY
                       FULFILLMENT_REFERENCE_KEY);
  match r with
  | clear_lost => lease_lost
  | refused => raise (SettlementOperationConflict "a fulfillment whose publication is recorded")
  | cleared => mret tt
  end.

Definition park_fulfillment (ref : string) (e : py_error) (p : Identity) (worker : string)
    : M World SettlementOperationOutcome :=
  o ← _load ref;
  _require_claimant o p;;
  _finish_manual o fulfill_op worker e.

(** ** Cleanup *)

Definition reserve_cleanup (ref : string) (p : Identity) (worker : string) : M World SettlementOperationOutcome :=
  o ← _load ref;
  _require_claimant o p;;
  _require_fulfillment o;;
  reserved ← _reserve o cleanup_op worker p [];
  if_reserved o cleanup_op reserved (λ _, mret (_outcome o cleanup_op o_pending None None None)).

Definition complete_cleanup (ref : string) (p : Identity) (worker : string) : M World SettlementOperationOutcome :=
  o ← _load ref;
  _require_claimant o p;;
  let receipt := [("cleanup", VStr "complete")] in
  _finish o cleanup_op worker (with_receipt receipt);;
  mret (_outcome o cleanup_op o_succeeded (Some receipt) None None).

Definition retry_cleanup (ref : string) (e : py_error) (p : Identity) (worker : string) : M World () :=
  o ← _load ref;
  _require_claimant o p;;
  _finish_retry o cleanup_op worker e false.

(** ** Operations on the mechanism *)

Definition materialize (ref : string) (p : Identity) (worker : string) : M World SettlementOperationOutcome :=
  o ← _load ref;
  _require_payer o p;;
  client ← _client o;
  reserved ← _reserve o materialize_op worker p [];
  if_reserved o materialize_op reserved (λ _,
    attempt o materialize_op worker true
      (snapshot ← lift (_operation_obligation o);
       cl_materialize client snapshot (settlement_operation_ref (ob_ref (ob_terms o)) materialize_op))
      (λ r,
        let state := match mo_status r with
                     | es_manual_required => s_manual_required | es_ready => s_succeeded | _ => s_pending
                     end in
        _finish o materialize_op worker
          {| fn_state := state; fn_receipt := mo_receipt r; fn_last_error := mo_last_error r; fn_uncertain := false;
             fn_mechanism_ref := Some (mo_mechanism_ref r); fn_mechanism_status := Some (mo_status r);
             fn_mechanism_state := Some (mo_mechanism_state r);
             fn_buyer_action := _safe_buyer_action (mo_buyer_action r);
             fn_condition_anchor := mo_condition_anchor r; fn_condition_state := None; fn_next_attempt := None |};;
        mret (_outcome o materialize_op
                match state with s_manual_required => o_manual_required | s_succeeded => o_succeeded | _ => o_pending end
                (mo_receipt r) (mo_buyer_action r) None))).

Definition risk_monitored (state : dict) : bool := truthy (dict_get "terminal_risk_monitoring" state).

Definition reported_terminal (r : StatusOutcome) : bool :=
  match so_status r with
  | es_reclaimed | es_expired | es_failed => true
  | es_collected => negb (risk_monitored (so_mechanism_state r))
  | _ => false
  end.

Definition reconcile_status (ref : string) (p : Identity) (worker : string) : M World SettlementOperationOutcome :=
  o ← _load ref;
  _require_participant o p;;
  if bool_decide (collection_state o = s_succeeded) && negb (risk_monitored (mechanism_state o))
  then mret (_outcome o status_op o_terminal (collection_receipt o) None None)
  else if bool_decide (reclaim_state o = s_succeeded)
  then mret (_outcome o status_op o_terminal (reclaim_receipt o) None None)
  else
    mechanism ← _require_mechanism_ref o;
    client ← _client o;
    reserved ← _reserve o status_op worker p [];
    if_reserved o status_op reserved (λ _,
      attempt o status_op worker false
        (snapshot ← lift (_operation_obligation o);
         cl_get_status client snapshot mechanism (settlement_operation_ref (ob_ref (ob_terms o)) status_op)
           (mechanism_state o))
        (λ r,
          let state := if bool_decide (so_status r = es_manual_required) then s_manual_required
                       else if reported_terminal r then s_succeeded else s_pending in
          _finish o status_op worker
            {| fn_state := state; fn_receipt := so_receipt r; fn_last_error := so_last_error r; fn_uncertain := false;
               fn_mechanism_ref := Some (so_mechanism_ref r); fn_mechanism_status := Some (so_status r);
               fn_mechanism_state := Some (so_mechanism_state r);
               fn_buyer_action := _safe_buyer_action (so_buyer_action r);
               fn_condition_anchor := so_condition_anchor r; fn_condition_state := None; fn_next_attempt := None |};;
          mret (_outcome o status_op
                  match state with s_manual_required => o_manual_required | s_succeeded => o_succeeded | _ => o_pending end
                  (so_receipt r) (so_buyer_action r) None))).

Definition effect_finish (state : OperationState) (receipt : option dict) (error : option string) (mstate : dict)
    (condition : option ConditionState) : Finish :=
  {| fn_state := state; fn_receipt := receipt; fn_last_error := error; fn_uncertain := false; fn_mechanism_ref := None;
     fn_mechanism_status := None; fn_mechanism_state := Some mstate; fn_buyer_action := None;
     fn_condition_anchor := None; fn_condition_state := condition; fn_next_attempt := None |}.

Definition check (ref : string) (p : Identity) (worker : string) : M World SettlementOperationOutcome :=
  o ← _load ref;
  _require_claimant o p;;
  mechanism ← _require_materialized o;
  fulfillment ← _require_fulfillment o;
  client ← _client o;
  reserved ← _reserve o check_op worker p [("fulfillment_ref", VStr fulfillment)];
  if_reserved o check_op reserved (λ _,
    attempt o check_op worker false
      (snapshot ← lift (_operation_obligation o);
       cl_check client snapshot mechanism fulfillment (settlement_operation_ref (ob_ref (ob_terms o)) check_op)
         (mechanism_state o))
      (λ r,
        let state := match co_decision r with
                     | c_pending => s_pending | c_manual_required => s_manual_required | _ => s_succeeded
                     end in
        _finish o check_op worker
          (effect_finish state (co_receipt r) (co_last_error r) (co_mechanism_state r) (Some (co_decision r)));;
        mret (_outcome o check_op
                match co_decision r with
                | c_manual_required => o_manual_required | c_pending => o_pending | c_failed => o_terminal
                | c_ready => o_succeeded
                end (co_receipt r) None None))).

(** The effect of a collection or a reclaim, done. *)
Definition effect_done (o : Obligation) (k : OperationKind) (worker : string) (r : EffectOutcome)
    : M World SettlementOperationOutcome :=
  _finish o k worker (effect_finish s_succeeded (Some (eo_receipt r)) None (eo_mechanism_state r) None);;
  mret (_outcome o k o_succeeded (Some (eo_receipt r)) None None).

Definition collect (ref : string) (p : Identity) (worker : string) : M World SettlementOperationOutcome :=
  o ← _load ref;
  _require_claimant o p;;
  mechanism ← _require_materialized o;
  if negb (bool_decide (condition_state o = c_ready)) then raise (ValueError "obligation conditions are not ready") else
  fulfillment ← _require_fulfillment o;
  client ← _client o;
  reserved ← _reserve o collect_op worker p [];
  if_reserved o collect_op reserved (λ _,
    attempt o collect_op worker true
      (snapshot ← lift (_operation_obligation o);
       cl_collect client snapshot mechanism fulfillment (settlement_operation_ref (ob_ref (ob_terms o)) collect_op)
         (mechanism_state o))
      (effect_done o collect_op worker)).

Definition reclaim (ref : string) (p : Identity) (worker : string) (options : dict)
    : M World SettlementOperationOutcome :=
  o ← _load ref;
  _require_payer o p;;
  mechanism ← _require_materialized o;
  now ← gets w_now;
  expires ← (if dict_has "expiration_unix" (ob_obligation (ob_terms o))
             then lift (py_float (dict_get "expiration_unix" (ob_obligation (ob_terms o))))
             else raise (KeyError "expiration_unix"));
  if SFltb now expires then raise (ValueError "obligation has not expired") else
  (if status_is o es_failed && bool_decide (is_Some (fulfillment_ref o))
      && negb (bool_decide (collection_state o = s_succeeded))
   then cleanup ← query (load_settlement_operation (ob_ref (ob_terms o)) cleanup_op);
        if succeeded cleanup then mret tt
        else raise (ValueError "domain cleanup must complete before reclaiming returned funding")
   else mret tt);;
  client ← _client o;
  reserved ← _reserve o reclaim_op worker p [("mechanism_options", VDict options)];
  if_reserved o reclaim_op reserved (λ _,
    attempt o reclaim_op worker true
      (snapshot ← lift (_operation_obligation o);
       cl_reclaim_expired client snapshot mechanism (settlement_operation_ref (ob_ref (ob_terms o)) reclaim_op)
         (mechanism_state o) options)
      (effect_done o reclaim_op worker)).

(** ** Servicing *)

Record Worker : Type := {
  wk_id : string;
  wk_on_terminal : option (Obligation → string → option string → M World ());
  wk_on_ready : option (Obligation → string → M World ());
}.

(** [_ServicingStepError]: the operation a pass failed in, and why. *)
Record step_error : Type := { se_operation : OperationKind; se_error : py_error }.

(** [try: m except Exception as exc: raise _ServicingStepError(k, exc)]; a pass
    returns the step error it raises. *)
Definition step {A} (k : OperationKind) (m : M World A) (next : A → M World (option step_error))
    : M World (option step_error) := λ w,
  match m w with
  | (Ok a, w) => next a w
  | (Err e, w) => (Ok (Some {| se_operation := k; se_error := e |}), w)
  end.

(** [min(30.0 * (2 ** (attempts - 1)), 1800.0)]. *)
Definition retry_backoff (attempts : Z) : result float :=
  power ← float_of_Z (2 ^ (attempts - 1));
  Ok (float_min (float_mul (float_of_int 30) power) (float_of_int 1800)).

Definition _schedule (ref : string) (k : OperationKind) (now : float) (error : option string) : M World () :=
  row ← query (load_settlement_operation ref k);
  match row with
  | Some op =>
      if bool_decide (op_state op = s_pending) then
        backoff ← lift (retry_backoff (Z.max 1 (if op_attempts op =? 0 then 1 else op_attempts op)));
        transact (λ _, schedule_settlement_retry ref k (float_add now backoff) error)
      else mret tt
  | None => mret tt
  end.

Section worker.
Context (wk : Worker).

(** A terminal callback's failure is swallowed. *)
Definition _terminal (o : Obligation) (outcome : string) (reason : option string) : M World () :=
  match wk_on_terminal wk with
  | None => mret tt
  | Some f => catch (f o outcome reason) (λ _, mret tt)
  end.

Definition status_name (s : EscrowStatus) : string :=
  match s with
  | es_requires_action => "requires_action" | es_pending => "pending" | es_ready => "ready"
  | es_collected => "collected" | es_reclaimed => "reclaimed" | es_expired => "expired" | es_failed => "failed"
  | es_manual_required => "manual_required"
  end.
Definition condition_name (c : ConditionState) : string :=
  match c with
  | c_pending => "pending" | c_ready => "ready" | c_failed => "failed" | c_manual_required => "manual_required"
  end.

Definition _cleanup (o : Obligation) (reason : option string) : M World (option step_error) :=
  let ref := ob_ref (ob_terms o) in
  let p := ob_claimant (ob_terms o) in
  reserved ← reserve_cleanup ref p (wk_id wk);
  if bool_decide (oc_status reserved = o_busy ∨ oc_status reserved = o_succeeded) then mret None else
  λ w,
    match ((match wk_on_terminal wk with Some f => f o "failed" reason | None => mret tt end);;
           _ ← complete_cleanup ref p (wk_id wk); mret tt) w with
    | (Ok _, w) => (Ok None, w)
    | (Err e, w) =>
        (retry_cleanup ref e p (wk_id wk);; mret (Some {| se_operation := cleanup_op; se_error := e |})) w
    end.

Definition _after_ready_step (ref : string) (now : float) : M World () :=
  fulfill ← query (load_settlement_operation ref fulfill_op);
  match fulfill with
  | Some op =>
      if bool_decide (op_state op = s_pending) && op_awaiting_delivery op then
        transact (λ _, schedule_settlement_retry ref fulfill_op
          match op_next_attempt op with
          | Some next => if SFeqb next (S754_zero false) then now else next
          | None => now
          end None)
      else _schedule ref fulfill_op now None
  | None => _schedule ref fulfill_op now None
  end.

(** Collection, once conditions are ready. *)
Definition _collect_step (o : Obligation) : M World (option step_error) :=
  let ref := ob_ref (ob_terms o) in
  if negb (bool_decide (condition_state o = c_ready)) then mret None else
  step collect_op (collect ref (ob_claimant (ob_terms o)) (wk_id wk)) (λ collected,
    o ← _load ref;
    match oc_status collected with
    | o_succeeded => _terminal o "collected" None
    | o_manual_required => _terminal o "manual_required" (ob_last_error o)
    | _ => mret tt
    end;;
    mret None).

Definition _check_step (o : Obligation) (now : float) : M World (option step_error) :=
  let ref := ob_ref (ob_terms o) in
  if negb (bool_decide (condition_state o = c_pending)) then _collect_step o else
  step check_op (check ref (ob_claimant (ob_terms o)) (wk_id wk)) (λ checked,
    o ← _load ref;
    match oc_status checked with
    | o_busy => mret None
    | o_pending => _schedule ref check_op now None;; mret None
    | o_manual_required | o_terminal =>
        _terminal o (condition_name (condition_state o)) (ob_last_error o);; mret None
    | o_succeeded => _collect_step o
    end).

Definition _ready_step (o : Obligation) (now : float) : M World (option step_error) :=
  let ref := ob_ref (ob_terms o) in
  match fulfillment_ref o, wk_on_ready wk with
  | Some _, _ => _check_step o now
  | None, None => _schedule ref fulfill_op now None;; mret None
  | None, Some f =>
      step fulfill_op (f o (wk_id wk)) (λ _,
        o ← _load ref;
        match fulfillment_ref o with
        | None => _after_ready_step ref now;; mret None
        | Some _ => _check_step o now
        end)
  end.

Definition _service (initial : Obligation) (now : float) : M World (option step_error) :=
  let ref := ob_ref (ob_terms initial) in
  step status_op (reconcile_status ref (ob_claimant (ob_terms initial)) (wk_id wk)) (λ status,
    if bool_decide (oc_status status = o_busy) then mret None else
    o ← _load ref;
    if status_is o es_failed && bool_decide (is_Some (fulfillment_ref o))
       && negb (bool_decide (collection_state o = s_succeeded))
    then _cleanup o (ob_last_error o)
    else if existsb (status_is o) [es_reclaimed; es_expired; es_failed; es_manual_required]
    then _terminal o (default "" (status_name <$> mechanism_status o)) (ob_last_error o);; mret None
    else if bool_decide (oc_status status = o_terminal)
    then _terminal o (default "terminal" (status_name <$> mechanism_status o)) (ob_last_error o);; mret None
    else if bool_decide (collection_state o = s_succeeded) then
      if negb (risk_monitored (mechanism_state o)) then _terminal o "collected" None;; mret None
      else _schedule ref status_op now None;; mret None
    else if negb (status_is o es_ready) then _schedule ref status_op now None;; mret None
    else _ready_step o now).

(** Whatever a pass raises, the sweep goes on. *)
Definition _service_record (o : Obligation) (now : float) : M World () := λ w,
  match _service o now w with
  | (Ok None, w) => (Ok tt, w)
  | (Ok (Some e), w) =>
      catch (_schedule (ob_ref (ob_terms o)) (se_operation e) now
               (Some ("_ServicingStepError: " +:+ error_text (se_error e)))) (λ _, mret tt) w
  | (Err e, w) => _terminal o "manual_required" (Some (error_text e)) w
  end.

Definition run_once (limit : Z) : M World Z :=
  now ← gets w_now;
  rows ← query (list_due_settlement_obligations now limit);
  for_each rows (λ o, _service_record o now);;
  mret (Z.of_nat (List.length rows)).

Definition service_obligation (ref : string) : M World () :=
  o ← _load ref;
  now ← gets w_now;
  _service_record o now.

Definition wake (ref : string) : M World () := transact (λ _, wake_settlement_obligation ref).
End worker.
End runtime.
