(* ===== verification/SettlementRuntimeProperties.v ===== *)
(** What the settlement runtime promises: its journal's transactions are steps
    of a small machine on one obligation and its operations, in which collection
    and reclaim exclude each other, leases exclude other workers, decisions are
    final and bindings are written once; a mechanism is only asked for an effect
    its worker holds. *)
From S2P Require Import Prelude PyNum PyValue PyNumFacts PyText Backoff SettlementJournal.
From S2P Require Import SettlementRuntime.
From Stdlib Require Import SpecFloat.

Local Open Scope string_scope.
Local Open Scope list_scope.
Local Open Scope Z_scope.

Section journal.
Context {Identity : Type} `{!EqDecision Identity}.

Local Abbreviation Obligation := (Obligation Identity).
Local Abbreviation Journal := (Journal Identity).
Local Abbreviation Terms := (Terms Identity).

(** ** Histories of transactions *)

(** What a repository is asked to write. *)
Inductive JournalCall : Type :=
  | Register (t : Terms) (stamp : string)
  | BindParams (ref : string) (params : dict) (stamp : string)
  | BindFulfillment (ref fulfillment stamp : string)
  | Reserve (ref : string) (k : OperationKind) (request_hash worker : string) (now until : float) (stamp : string)
  | WriteField (ref : string) (k : OperationKind) (worker key : string) (x : value) (uncertain : bool)
  | ClearField (ref : string) (k : OperationKind) (worker key unless_key : string)
  | FinishOperation (ref : string) (k : OperationKind) (worker : string) (v : Finish) (stamp : string)
  | AwaitDelivery (ref worker : string) (now : float)
  | ScheduleRetry (ref : string) (k : OperationKind) (next : float) (error : option string)
  | Wake (ref : string).

(** A registration as [register_plan] sends it. *)
Definition registered (t : Terms) (stamp : string) : Obligation :=
  let o := new_obligation t in
  {| ob_terms := t; mechanism_params := mechanism_params o; mechanism_ref := mechanism_ref o;
     mechanism_status := mechanism_status o; mechanism_state := mechanism_state o; buyer_action := buyer_action o;
     condition_anchor := condition_anchor o; fulfillment_ref := fulfillment_ref o;
     materialization_state := materialization_state o; condition_state := condition_state o;
     collection_state := collection_state o; reclaim_state := reclaim_state o;
     materialization_receipt := materialization_receipt o; status_receipt := status_receipt o;
     collection_receipt := collection_receipt o; reclaim_receipt := reclaim_receipt o;
     ob_last_error := ob_last_error o; ob_version := ob_version o; ob_updated_at := stamp |}.

(** The journal a transaction leaves, committed or not. *)
Definition after {A} (r : result (A * Journal)) (j : Journal) : Journal :=
  match r with Ok (_, j') => j' | Err _ => j end.

Definition perform (c : JournalCall) (j : Journal) : Journal :=
  match c with
  | Register t stamp => after (upsert_settlement_obligation (registered t stamp) j) j
  | BindParams ref params stamp => after (bind_settlement_mechanism_params ref params stamp j) j
  | BindFulfillment ref f stamp => after (bind_settlement_fulfillment ref f stamp j) j
  | Reserve ref k hash worker now until stamp =>
      after (reserve_settlement_operation ref k hash worker now until stamp j) j
  | WriteField ref k worker key x u => after (write_operation_receipt_field ref k worker key x u j) j
  | ClearField ref k worker key unless => after (clear_operation_receipt_field ref k worker key unless j) j
  | FinishOperation ref k worker v stamp => after (finish_settlement_operation ref k worker v stamp j) j
  | AwaitDelivery ref worker now => after (mark_fulfillment_awaiting_delivery ref worker now j) j
  | ScheduleRetry ref k next error => after (schedule_settlement_retry ref k next error j) j
  | Wake ref => after (wake_settlement_obligation ref j) j
  end.

Definition perform_all (l : list JournalCall) (j : Journal) : Journal := fold_left (λ j c, perform c j) l j.
Definition empty_journal : Journal := {| obligations := ∅; operations := ∅ |}.

(** ** The machine on one obligation *)

Definition upd (k : OperationKind) (op : Operation) (ops : Rows) : Rows :=
  λ k', if decide (k' = k) then Some op else ops k'.

Inductive cell_step (o : Obligation) (ops : Rows) : JournalCall → Obligation → Rows → Prop :=
  | cs_params ref params stamp :
      mechanism_params o = [] → ops materialize_op = None →
      cell_step o ops (BindParams ref params stamp) (set_mechanism_params params stamp o) ops
  | cs_fulfillment ref f stamp :
      fulfillment_ref o = None → taken (reclaim_state o) = false →
      cell_step o ops (BindFulfillment ref f stamp) (set_fulfillment_ref f stamp o) ops
  | cs_reserve ref k hash worker now until stamp o' :
      let stored := default (new_operation hash) (ops k) in
      reservation_excluded o k now ops = false → terminal (op_state stored) = false →
      held_by_other worker now stored = false → mark_reserved o k stamp ops = Some o' →
      cell_step o ops (Reserve ref k hash worker now until stamp) o' (upd k (leased_to worker until stored) ops)
  | cs_write ref k worker key x u op :
      ops k = Some op → held_by worker (ops k) = true → dict_has key (default [] (op_receipt op)) = false →
      cell_step o ops (WriteField ref k worker key x u) o
        (upd k (set_receipt (Some (dict_set key x (default [] (op_receipt op)))) (op_uncertain op || u) op) ops)
  | cs_clear ref k worker key unless op :
      ops k = Some op → held_by worker (ops k) = true → dict_has unless (default [] (op_receipt op)) = false →
      let receipt := dict_pop key (default [] (op_receipt op)) in
      cell_step o ops (ClearField ref k worker key unless) o
        (upd k (set_receipt (match receipt with [] => None | _ => Some receipt end) (op_uncertain op) op) ops)
  | cs_finish ref k worker v stamp op :
      ops k = Some op → held_by worker (ops k) = true → fn_state v ≠ s_in_progress →
      cell_step o ops (FinishOperation ref k worker v stamp) (finished_obligation k v stamp o)
        (upd k (finished_operation v op) ops)
  | cs_await ref worker now op :
      ops fulfill_op = Some op → held_by worker (ops fulfill_op) = true →
      cell_step o ops (AwaitDelivery ref worker now) o (upd fulfill_op (awaiting_delivery now op) ops)
  | cs_retry ref k next error op :
      ops k = Some op → op_state op = s_pending →
      cell_step o ops (ScheduleRetry ref k next error) o (upd k (rescheduled (Some next) error false op) ops)
  | cs_wake ref : cell_step o ops (Wake ref) o (λ k, woken <$> ops k).

(** The obligation a call names. *)
Definition target (c : JournalCall) : string :=
  match c with
  | Register t _ => ob_ref t
  | BindParams ref _ _ | BindFulfillment ref _ _ | Reserve ref _ _ _ _ _ _ | WriteField ref _ _ _ _ _
  | ClearField ref _ _ _ _ | FinishOperation ref _ _ _ _ | AwaitDelivery ref _ _ | ScheduleRetry ref _ _ _
  | Wake ref => ref
  end.

(** Rows are stored under their keys, and an operation has its obligation. *)
Definition keyed (j : Journal) : Prop :=
  (∀ ref o, obligations j !! ref = Some o → ob_ref (ob_terms o) = ref) ∧
  (∀ ref k, obligations j !! ref = None → operations j !! (ref, k) = None).

(** What a call makes of one obligation's cell. *)
Inductive cell_moves (c : JournalCall) (ref : string) (j j' : Journal) : Prop :=
  | cell_same :
      obligations j' !! ref = obligations j !! ref → (∀ k, rows ref j' k = rows ref j k) → cell_moves c ref j j'
  | cell_new t stamp :
      c = Register t stamp → ob_ref t = ref → obligations j !! ref = None →
      obligations j' !! ref = Some (registered t stamp) → (∀ k, rows ref j' k = None) → cell_moves c ref j j'
  | cell_stepped o o' ops' :
      target c = ref → obligations j !! ref = Some o → obligations j' !! ref = Some o' →
      cell_step o (rows ref j) c o' ops' → (∀ k, rows ref j' k = ops' k) → cell_moves c ref j j'.

Lemma rows_put ref k op (j : Journal) k' : rows ref (put_operation ref k op j) k' = upd k op (rows ref j) k'.
Proof.
  unfold rows, upd, put_operation. simpl. case_decide as Hk; [by subst; rewrite lookup_insert_eq|].
  apply lookup_insert_ne. congruence.
Qed.

Lemma rows_put_ne ref ref' k op (j : Journal) k' : ref' ≠ ref → rows ref' (put_operation ref k op j) k' = rows ref' j k'.
Proof. intros Hne. unfold rows, put_operation. simpl. apply lookup_insert_ne. congruence. Qed.

Lemma held_operation_Some ref k worker (j : Journal) op :
  held_operation ref k worker j = Some op → rows ref j k = Some op ∧ held_by worker (rows ref j k) = true.
Proof. unfold held_operation. by destruct (held_by worker (rows ref j k)). Qed.

Lemma marked_ref (o o' : Obligation) k stamp ops :
  mark_reserved o k stamp ops = Some o' → ob_terms o' = ob_terms o.
Proof.
  unfold mark_reserved. destruct k; intros H; repeat case_match; by simplify_eq.
Qed.

Lemma finished_terms k v stamp (o : Obligation) : ob_terms (finished_obligation k v stamp o) = ob_terms o.
Proof. destruct k; simpl; repeat case_match; done. Qed.

Lemma cell_step_terms o ops c o' ops' : cell_step o ops c o' ops' → ob_terms o' = ob_terms o.
Proof. destruct 1; try done; [by eapply marked_ref|by rewrite finished_terms]. Qed.

(** A call that writes one operation, and perhaps its obligation. *)
Lemma moves_put c ref j o o' k op ops' :
  keyed j → target c = ref → obligations j !! ref = Some o → cell_step o (rows ref j) c o' ops' →
  (∀ k', ops' k' = upd k op (rows ref j) k') →
  ∀ ref', cell_moves c ref' j (put_operation ref k op (put_obligation o' j)).
Proof.
  intros [Hk _] Ht Ho Hs Hops ref'. pose proof (cell_step_terms _ _ _ _ _ Hs) as Hterms.
  assert (ob_ref (ob_terms o') = ref) as Hr by (rewrite Hterms; by apply Hk).
  destruct (decide (ref' = ref)) as [->|Hne].
  - eapply cell_stepped; [done|exact Ho| |exact Hs|].
    + simpl. rewrite Hr. apply lookup_insert_eq.
    + intros k'. by rewrite rows_put, Hops.
  - apply cell_same; [|intros k'; rewrite rows_put_ne by done; done].
    simpl. rewrite Hr. by apply lookup_insert_ne.
Qed.

Lemma moves_put_row c ref j o k op ops' :
  keyed j → target c = ref → obligations j !! ref = Some o → cell_step o (rows ref j) c o ops' →
  (∀ k', ops' k' = upd k op (rows ref j) k') →
  ∀ ref', cell_moves c ref' j (put_operation ref k op j).
Proof.
  intros [Hk _] Ht Ho Hs Hops ref'. destruct (decide (ref' = ref)) as [->|Hne].
  - eapply cell_stepped; [done|exact Ho|done|exact Hs|]. intros k'. by rewrite rows_put, Hops.
  - apply cell_same; [done|]. intros k'. by apply rows_put_ne.
Qed.

Lemma moves_put_obligation c ref j o o' :
  keyed j → target c = ref → obligations j !! ref = Some o → cell_step o (rows ref j) c o' (rows ref j) →
  ∀ ref', cell_moves c ref' j (put_obligation o' j).
Proof.
  intros [Hk _] Ht Ho Hs ref'. pose proof (cell_step_terms _ _ _ _ _ Hs) as Hterms.
  assert (ob_ref (ob_terms o') = ref) as Hr by (rewrite Hterms; by apply Hk).
  destruct (decide (ref' = ref)) as [->|Hne].
  - eapply cell_stepped; [done|exact Ho| |exact Hs|done]. simpl. rewrite Hr. apply lookup_insert_eq.
  - apply cell_same; [|done]. simpl. rewrite Hr. by apply lookup_insert_ne.
Qed.

Lemma moves_none c ref j : cell_moves c ref j j.
Proof. by apply cell_same. Qed.

Lemma held_has_obligation ref k op j : keyed j → rows ref j k = Some op → ∃ o, obligations j !! ref = Some o.
Proof.
  intros [_ Hfk] Hrow. destruct (obligations j !! ref) as [o|] eqn:Ho; [by exists o|].
  unfold rows in Hrow. by rewrite (Hfk _ k Ho) in Hrow.
Qed.

Lemma register_moves t stamp j :
  keyed j → ∀ ref, cell_moves (Register t stamp) ref j (perform (Register t stamp) j).
Proof.
  intros [_ Hfk] ref. simpl. unfold upsert_settlement_obligation.
  destruct (insert_conflicts (registered t stamp) j) eqn:Hc.
  { repeat case_match; apply moves_none. }
  apply orb_false_iff in Hc as [[Hnew%bool_decide_eq_false _]%orb_false_iff _].
  apply eq_None_not_Some in Hnew. simpl in Hnew.
  repeat case_match; try apply moves_none. simpl.
  destruct (decide (ref = ob_ref t)) as [->|Hne].
  - apply (cell_new _ _ _ _ t stamp); [done..| |]; [apply lookup_insert_eq|]. intros k. by apply Hfk.
  - apply cell_same; [|done]. simpl. by apply lookup_insert_ne.
Qed.

Lemma bind_params_moves ref params stamp j :
  keyed j → ∀ ref', cell_moves (BindParams ref params stamp) ref' j (perform (BindParams ref params stamp) j).
Proof.
  intros Hj ref'. simpl. unfold bind_settlement_mechanism_params.
  destruct (is_nil params); [apply moves_none|]. destruct (canonical_json (VDict params)); [simpl|apply moves_none].
  destruct (obligations j !! ref) as [o|] eqn:Ho; [|apply moves_none].
  destruct (canonical_json (VDict (mechanism_params o))); [simpl|apply moves_none].
  case_bool_decide; [apply moves_none|]. destruct (mechanism_params o) eqn:Hp; [simpl|apply moves_none].
  destruct (_ || _) eqn:Hm; [apply moves_none|]. apply orb_false_iff in Hm as [_ Hm%bool_decide_eq_false].
  apply eq_None_not_Some in Hm. simpl. by apply (moves_put_obligation _ ref j o); [..|constructor].
Qed.

Lemma bind_fulfillment_moves ref f stamp j :
  keyed j → ∀ ref', cell_moves (BindFulfillment ref f stamp) ref' j (perform (BindFulfillment ref f stamp) j).
Proof.
  intros Hj ref'. simpl. unfold bind_settlement_fulfillment.
  destruct (obligations j !! ref) as [o|] eqn:Ho; [|apply moves_none].
  destruct (fulfillment_ref o) eqn:Hf; [case_bool_decide; apply moves_none|].
  destruct (taken (reclaim_state o)) eqn:Ht; [apply moves_none|].
  by apply (moves_put_obligation _ ref j o); [..|constructor].
Qed.

Lemma reserve_moves ref k hash worker now until stamp j :
  keyed j → ∀ ref', cell_moves (Reserve ref k hash worker now until stamp) ref' j
                      (perform (Reserve ref k hash worker now until stamp) j).
Proof.
  intros Hj ref'. simpl. unfold reserve_settlement_operation.
  destruct (SFleb until now); [apply moves_none|].
  destruct (obligations j !! ref) as [o|] eqn:Ho; [|apply moves_none].
  destruct (reservation_excluded o k now (rows ref j)) eqn:Hx; [apply moves_none|].
  case_bool_decide; [|apply moves_none]. simpl negb. cbv iota.
  destruct (terminal _) eqn:Ht; [apply moves_none|]. destruct (held_by_other _ _ _) eqn:Hh; [apply moves_none|].
  destruct (mark_reserved o k stamp (rows ref j)) as [o'|] eqn:Hm; [|apply moves_none]. simpl.
  eapply moves_put; [done..|by econstructor|done].
Qed.

Lemma write_moves ref k worker key x u j :
  keyed j → ∀ ref', cell_moves (WriteField ref k worker key x u) ref' j (perform (WriteField ref k worker key x u) j).
Proof.
  intros Hj ref'. simpl. unfold write_operation_receipt_field.
  destruct (held_operation ref k worker j) as [op|] eqn:Hh; [|apply moves_none].
  apply held_operation_Some in Hh as [Hop Hh]. destruct (held_has_obligation ref k op j Hj Hop) as [o Ho].
  destruct (dict_has key (default [] (op_receipt op))) eqn:Hk.
  { destruct (canonical_json (dict_get key _)), (canonical_json x); apply moves_none. }
  destruct (canonical_json _); [simpl|apply moves_none].
  eapply moves_put_row; [done..|by econstructor|done].
Qed.

Lemma clear_moves ref k worker key unless j :
  keyed j → ∀ ref', cell_moves (ClearField ref k worker key unless) ref' j
                      (perform (ClearField ref k worker key unless) j).
Proof.
  intros Hj ref'. simpl. unfold clear_operation_receipt_field.
  destruct (held_operation ref k worker j) as [op|] eqn:Hh; [|apply moves_none].
  apply held_operation_Some in Hh as [Hop Hh]. destruct (held_has_obligation ref k op j Hj Hop) as [o Ho].
  destruct (dict_has unless (default [] (op_receipt op))) eqn:Hk; [apply moves_none|].
  destruct (canonical_json _); [simpl|apply moves_none].
  eapply moves_put_row; [done..|by econstructor|done].
Qed.

Lemma finish_moves ref k worker v stamp j :
  keyed j → ∀ ref', cell_moves (FinishOperation ref k worker v stamp) ref' j
                      (perform (FinishOperation ref k worker v stamp) j).
Proof.
  intros Hj ref'. simpl. unfold finish_settlement_operation.
  case_bool_decide as Hs; [apply moves_none|].
  destruct (encodable (fn_receipt v)), (encodable (fn_mechanism_state v)), (encodable (fn_buyer_action v));
    try apply moves_none; simpl.
  destruct (held_operation ref k worker j) as [op|] eqn:Hh; [|apply moves_none].
  apply held_operation_Some in Hh as [Hop Hh]. destruct (held_has_obligation ref k op j Hj Hop) as [o Ho].
  destruct (mechanism_ref_conflicts k v ref j); [apply moves_none|]. simpl. rewrite Ho.
  change (put_obligation ?o' (put_operation ref k ?op' j)) with (put_operation ref k op' (put_obligation o' j)).
  eapply moves_put; [done..|by econstructor|done].
Qed.

Lemma due_moves c j :
  keyed j →
  match c with AwaitDelivery _ _ _ | ScheduleRetry _ _ _ _ | Wake _ => True | _ => False end →
  ∀ ref', cell_moves c ref' j (perform c j).
Proof.
  intros Hj Hc ref'. destruct c as [| | | | | | |ref worker now|ref k next error|ref]; try done; simpl.
  - unfold mark_fulfillment_awaiting_delivery.
    destruct (held_operation ref fulfill_op worker j) as [op|] eqn:Hh; [|apply moves_none].
    apply held_operation_Some in Hh as [Hop Hh]. destruct (held_has_obligation ref _ op j Hj Hop) as [o Ho].
    eapply moves_put_row; [done..|by econstructor|done].
  - unfold schedule_settlement_retry. destruct (operations j !! (ref, k)) as [op|] eqn:Hop; [|apply moves_none].
    case_bool_decide; [|apply moves_none]. destruct (held_has_obligation ref k op j Hj Hop) as [o Ho].
    eapply moves_put_row; [done..|by econstructor|done].
  - unfold wake_settlement_obligation. destruct (obligations j !! ref) as [o|] eqn:Ho; [|apply moves_none].
    simpl. assert (∀ ref' k, rows ref' {| obligations := obligations j;
        operations := map_imap (λ key op, Some (if decide (key.1 = ref) then woken op else op)) (operations j) |} k
      = (λ op, if decide (ref' = ref) then woken op else op) <$> rows ref' j k) as Hrows.
    { intros r k. unfold rows. simpl. rewrite map_lookup_imap. by destruct (operations j !! (r, k)). }
    destruct (decide (ref' = ref)) as [->|Hne].
    + eapply cell_stepped; [done|exact Ho|done|constructor|]. intros k. rewrite Hrows.
      destruct (rows ref j k); simpl; [by rewrite decide_True by done|done].
    + apply cell_same; [done|]. intros k. rewrite Hrows.
      destruct (rows ref' j k); simpl; [by rewrite decide_False by done|done].
Qed.

Lemma perform_moves c j : keyed j → ∀ ref, cell_moves c ref j (perform c j).
Proof.
  destruct c; eauto using register_moves, bind_params_moves, bind_fulfillment_moves, reserve_moves, write_moves,
    clear_moves, finish_moves; intros; by apply due_moves.
Qed.

Lemma perform_keyed c j : keyed j → keyed (perform c j).
Proof.
  intros Hj. pose proof (perform_moves c j Hj) as Hm. destruct Hj as [Hk Hfk]. split.
  - intros ref o Ho. destruct (Hm ref) as [Hsame _|t stamp -> <- _ Hnew _|o1 o' ops' _ Ho1 Ho' Hs _].
    + apply (Hk ref). by rewrite <-Hsame.
    + rewrite Hnew in Ho. by injection Ho as <-.
    + rewrite Ho' in Ho. injection Ho as <-. rewrite (cell_step_terms _ _ _ _ _ Hs). by apply Hk.
  - intros ref k Hnone. destruct (Hm ref) as [Hsame Hrows|t stamp _ _ _ Hnew _|o1 o' ops' _ _ Ho' _ _]; [|congruence..].
    change (rows ref (perform c j) k = None). rewrite Hrows. apply Hfk. by rewrite <-Hsame.
Qed.

Lemma empty_keyed : keyed empty_journal.
Proof. split; [done|]. intros. apply lookup_empty. Qed.

Lemma perform_all_keyed l j : keyed j → keyed (perform_all l j).
Proof. revert j. induction l; simpl; eauto using perform_keyed. Qed.

(** ** Collection and reclaim exclude each other *)

Lemma upd_eq k op ops : upd k op ops k = Some op.
Proof. unfold upd. by rewrite decide_True. Qed.
Lemma upd_ne k k' op ops : k' ≠ k → upd k op ops k' = ops k'.
Proof. intros. unfold upd. by rewrite decide_False. Qed.

(** An operation in flight is marked on its obligation; a reclaim in flight
    meets no collection in flight, and no fulfillment but one cleaned up. *)
Definition cell_ok (o : Obligation) (ops : Rows) : Prop :=
  (in_progress (ops collect_op) = true → taken (collection_state o) = true) ∧
  (in_progress (ops reclaim_op) = true →
     taken (reclaim_state o) = true ∧ in_progress (ops collect_op) = false ∧
     (fulfillment_ref o = None ∨ succeeded (ops cleanup_op) = true)).

(** What [cell_ok] reads of the operations. *)
Definition same_states (ops ops' : Rows) : Prop :=
  ∀ k, in_progress (ops' k) = in_progress (ops k) ∧ succeeded (ops' k) = succeeded (ops k).

Lemma cell_ok_states o o' ops ops' :
  cell_ok o ops → same_states ops ops' → collection_state o' = collection_state o → reclaim_state o' = reclaim_state o →
  fulfillment_ref o' = fulfillment_ref o → cell_ok o' ops'.
Proof.
  unfold cell_ok. intros Hok Hs -> -> ->. destruct (Hs collect_op) as [-> _], (Hs reclaim_op) as [-> _].
  by destruct (Hs cleanup_op) as [_ ->].
Qed.

Lemma upd_same_states k op op' ops :
  ops k = Some op → op_state op' = op_state op → same_states ops (upd k op' ops).
Proof.
  intros Hop Hs k'. destruct (decide (k' = k)) as [->|Hne]; [|by rewrite upd_ne].
  rewrite upd_eq, Hop. simpl. by rewrite Hs.
Qed.

Lemma wake_same_states ops : same_states ops (λ k, woken <$> ops k).
Proof.
  intros k. cbv beta. destruct (ops k) as [op|]; [|done]. simpl. unfold woken.
  by destruct (bool_decide (op_state op = s_pending)).
Qed.

Lemma held_in_progress worker op : held_by worker op = true → in_progress op = true.
Proof. destruct op as [op|]; [|done]. simpl. rewrite !bool_decide_eq_true. by intros []. Qed.

Lemma in_progress_not_succeeded op : in_progress op = true → succeeded op = false.
Proof.
  destruct op as [op|]; [|done]. simpl. rewrite bool_decide_eq_true, bool_decide_eq_false. congruence.
Qed.

Lemma not_terminal_not_succeeded op : terminal (op_state op) = false → succeeded (Some op) = false.
Proof. unfold terminal. simpl. rewrite !bool_decide_eq_false. naive_solver. Qed.

Lemma reserve_ok o ops k hash worker until now stamp o' :
  let stored := default (new_operation hash) (ops k) in
  cell_ok o ops → reservation_excluded o k now ops = false → terminal (op_state stored) = false →
  mark_reserved o k stamp ops = Some o' → cell_ok o' (upd k (leased_to worker until stored) ops).
Proof.
  intros stored [Hc Hr] Hx Ht Hm. unfold cell_ok. unfold mark_reserved in Hm.
  assert (succeeded (ops cleanup_op) = true → k ≠ cleanup_op) as Hclean.
  { intros Hs ->. apply not_terminal_not_succeeded in Ht. unfold stored in Ht.
    destruct (ops cleanup_op) as [op|]; [|done]. simpl default in Ht. congruence. }
  destruct k; simpl in Hm; rewrite ?upd_ne by done; rewrite ?upd_eq.
  - case_match; injection Hm as <-; (split; [done|]); intros Hi; by destruct (Hr Hi) as (? & ? & ?).
  - injection Hm as <-. done.
  - injection Hm as <-. done.
  - injection Hm as <-. split; [done|]. intros Hi. destruct (Hr Hi) as (? & ? & [?|Hs]); [by eauto|]. by apply Hclean in Hs.
  - injection Hm as <-. done.
  - simpl in Hx. rewrite Hx in Hm. injection Hm as <-. simpl. split; [done|].
    intros Hi. destruct (Hr Hi) as (? & _). congruence.
  - destruct (taken (collection_state o)) eqn:Htc; [done|]. simpl in Hm.
    destruct (in_progress (ops collect_op)) eqn:Hic; [by specialize (Hc eq_refl)|].
    rewrite upd_ne by done. unfold returned_cleanup_complete in Hm.
    case_match eqn:E; [|done]. injection Hm as <-. simpl. split; [done|]. intros _. split_and!; [done..|].
    apply orb_true_iff in E as [[E%bool_decide_eq_true _]%andb_true_iff|[_ E]%andb_true_iff]; [by left|by right].
Qed.

Lemma finish_ok o ops k worker v stamp op :
  cell_ok o ops → held_by worker (ops k) = true → fn_state v ≠ s_in_progress →
  cell_ok (finished_obligation k v stamp o) (upd k (finished_operation v op) ops).
Proof.
  intros [Hc Hr] Hh Hv. apply held_in_progress in Hh. unfold cell_ok.
  assert (in_progress (Some (finished_operation v op)) = false) as Hdone by (by apply bool_decide_eq_false).
  assert (fulfillment_ref (finished_obligation k v stamp o) = fulfillment_ref o) as ->
    by (destruct k; simpl; repeat case_match; done).
  destruct k; rewrite ?upd_ne by done; rewrite ?upd_eq, ?Hdone; simpl.
  - done.
  - split; [intros Hi|intros Hi; destruct (Hr Hi) as (? & ? & ?); split_and!; try done]; case_bool_decide; auto.
  - by case_match.
  - split; [done|]. intros Hi. destruct (Hr Hi) as (? & ? & [?|Hs]); [by eauto|].
    apply in_progress_not_succeeded in Hh. congruence.
  - done.
  - split; [done|]. intros Hi. destruct (Hr Hi) as (_ & ? & _). congruence.
  - split; [|done]. intros H. destruct (Hr Hh) as (_ & ? & _). congruence.
Qed.

Lemma cell_step_ok o ops c o' ops' : cell_ok o ops → cell_step o ops c o' ops' → cell_ok o' ops'.
Proof.
  intros Hok Hs.
  destruct Hs as [| |ref k hash worker now until stamp o' stored Hx Ht Hh Hm| | |ref k worker v stamp op Hop Hh Hv| | |].
  - by apply (cell_ok_states o _ ops).
  - destruct Hok as [Hc Hr]. split; [done|]. intros Hi. destruct (Hr Hi) as (? & _). simpl. congruence.
  - by apply (reserve_ok o ops k hash worker until now stamp).
  - eapply cell_ok_states; [done|by eapply upd_same_states|done..].
  - eapply cell_ok_states; [done|by eapply upd_same_states|done..].
  - by eapply finish_ok.
  - destruct Hok as [Hc Hr]. split; rewrite ?upd_ne by done; done.
  - eapply cell_ok_states; [done|by eapply upd_same_states|done..].
  - eapply cell_ok_states; [done|by apply wake_same_states|done..].
Qed.

(** A journal whose rows are keyed and whose cells are sound. *)
Definition sound (j : Journal) : Prop :=
  keyed j ∧ ∀ ref o, obligations j !! ref = Some o → cell_ok o (rows ref j).

Lemma pointwise_states (ops ops' : Rows) : (∀ k, ops' k = ops k) → same_states ops ops'.
Proof. intros H k. by rewrite H. Qed.

Lemma perform_sound c j : sound j → sound (perform c j).
Proof.
  intros [Hj Hok]. split; [by apply perform_keyed|]. intros ref o Ho.
  destruct (perform_moves c j Hj ref) as [Hsame Hrows|t stamp _ _ _ Hnew Hrows|o1 o' ops' _ Ho1 Ho' Hs Hrows].
  - rewrite Hsame in Ho. eapply cell_ok_states; [by eapply Hok|by apply pointwise_states|done..].
  - rewrite Hnew in Ho. injection Ho as <-. unfold cell_ok. by rewrite !Hrows.
  - rewrite Ho' in Ho. injection Ho as <-.
    eapply cell_ok_states; [by eapply cell_step_ok; [apply Hok|]|by apply pointwise_states|done..].
Qed.

Lemma empty_sound : sound empty_journal.
Proof. split; [apply empty_keyed|done]. Qed.

Lemma perform_all_sound l j : sound j → sound (perform_all l j).
Proof. revert j. induction l; simpl; eauto using perform_sound. Qed.

(** ** Decisions are final and leases exclude other workers *)

(** How one row fares along a history, if no step of its cell changes it. *)
Lemma history_keeps_row (Q : JournalCall → Prop) ref k op l j :
  (∀ o ops c o' ops', Q c → target c = ref → cell_step o ops c o' ops' → ops k = Some op → ops' k = Some op) →
  keyed j → rows ref j k = Some op → Forall Q l → rows ref (perform_all l j) k = Some op.
Proof.
  intros Hstep. revert j. induction l as [|c l IH]; intros j Hj Hrow Hq; [done|]. apply Forall_cons in Hq as [Hc Hq].
  simpl. apply IH; [by apply perform_keyed| |done].
  destruct (perform_moves c j Hj ref) as [_ Hrows|t stamp _ _ Hnone _ _|o1 o' ops' Ht Ho1 Ho' Hs Hrows].
  - by rewrite Hrows.
  - destruct Hj as [_ Hfk]. unfold rows in Hrow. by rewrite (Hfk _ k Hnone) in Hrow.
  - rewrite Hrows. by eapply Hstep.
Qed.

Lemma terminal_not_held worker op : terminal (op_state op) = true → held_by worker (Some op) = false.
Proof. unfold terminal. simpl. rewrite bool_decide_eq_true, bool_decide_eq_false. intros [->| ->] [? _]; done. Qed.

Lemma woken_in_state op : op_state op ≠ s_pending → woken op = op.
Proof. intros H. unfold woken. by rewrite bool_decide_eq_false_2. Qed.

Lemma terminal_step o ops c o' ops' k op :
  terminal (op_state op) = true → cell_step o ops c o' ops' → ops k = Some op → ops' k = Some op.
Proof.
  intros Ht Hs Hop.
  destruct Hs as [| |ref k' hash worker now until stamp o' stored _ Hnt _ _|ref k' worker key x u op' _ Hh' _
    |ref k' worker key unless op' _ Hh' _ receipt|ref k' worker v stamp op' _ Hh' _|ref worker now op' _ Hh'
    |ref k' next err op' Hop' Hp|ref]; try done.
  1-6: match goal with |- upd ?k' _ _ _ = _ => destruct (decide (k = k')) as [Hk|Hne]; [subst|by rewrite upd_ne by done] end.
  - unfold stored in Hnt. rewrite Hop in Hnt. simpl in Hnt. congruence.
  - by rewrite Hop, (terminal_not_held _ _ Ht) in Hh'.
  - by rewrite Hop, (terminal_not_held _ _ Ht) in Hh'.
  - by rewrite Hop, (terminal_not_held _ _ Ht) in Hh'.
  - by rewrite Hop, (terminal_not_held _ _ Ht) in Hh'.
  - rewrite Hop in Hop'. injection Hop' as <-. by rewrite Hp in Ht.
  - rewrite Hop. simpl. rewrite woken_in_state; [done|]. intros He. by rewrite He in Ht.
Qed.

Lemma decided_operation_is_final_row l j ref k op :
  keyed j → rows ref j k = Some op → terminal (op_state op) = true → rows ref (perform_all l j) k = Some op.
Proof.
  intros Hj Hop Ht. apply (history_keeps_row (λ _, True) ref k op l j); [|done|done|by apply Forall_true].
  intros o ops c o' ops' _ _ Hs Hrow. by eapply terminal_step.
Qed.

(** C17: An operation that succeeded, or was parked for an operator, is never
    reserved, rewritten or finished again: its row stays as it is, receipt and
    all, through any history of transactions. *)
Theorem decided_operation_is_final l j ref k op :
  keyed j → operations j !! (ref, k) = Some op → terminal (op_state op) = true →
  operations (perform_all l j) !! (ref, k) = Some op.
Proof. apply decided_operation_is_final_row. Qed.

(** A transaction on [ref] that is not [worker]'s, and does not reserve after
    its lease ended. *)
Definition outside_lease (ref worker : string) (until : float) (c : JournalCall) : Prop :=
  target c = ref →
  match c with
  | Reserve _ _ _ w now _ _ => w ≠ worker ∧ SFleb now until = true
  | WriteField _ _ w _ _ _ | ClearField _ _ w _ _ | FinishOperation _ _ w _ _ | AwaitDelivery _ w _ => w ≠ worker
  | _ => True
  end.

Lemma held_by_one worker worker' op :
  held_by worker' (Some op) = true → op_lease_owner op = Some worker → worker' = worker.
Proof. simpl. rewrite bool_decide_eq_true. intros [_ ->]. congruence. Qed.

Lemma leased_step o ops c o' ops' ref k op worker until :
  op_state op = s_in_progress → op_lease_owner op = Some worker → op_lease_until op = Some until →
  outside_lease ref worker until c → target c = ref → cell_step o ops c o' ops' → ops k = Some op → ops' k = Some op.
Proof.
  intros Hst Hown Huntil Hout Ht Hs Hop. specialize (Hout Ht). clear Ht.
  assert (∀ w, w ≠ worker → ops k = Some op → held_by w (ops k) = true → False) as Hother.
  { intros w Hw -> Hh. apply Hw. by eapply held_by_one. }
  destruct Hs as [| |r k' hash w now u stamp o' stored _ _ Hbusy _|r k' w key x u op' _ Hh' _
    |r k' w key unless op' _ Hh' _ receipt|r k' w v stamp op' _ Hh' _|r w now op' _ Hh'
    |r k' next err op' Hop' Hp|r]; try done.
  1-6: match goal with |- upd ?k' _ _ _ = _ => destruct (decide (k = k')) as [Hk|Hne]; [subst|by rewrite upd_ne by done] end.
  - exfalso. unfold stored in Hbusy. rewrite Hop in Hbusy. destruct Hout as [Hw Hlive].
    unfold held_by_other in Hbusy. simpl in Hbusy. rewrite Huntil, Hlive, Hst, Hown in Hbusy.
    rewrite (bool_decide_eq_false_2 (Some worker = Some w)) in Hbusy by congruence. done.
  - by destruct (Hother w).
  - by destruct (Hother w).
  - by destruct (Hother w).
  - by destruct (Hother w).
  - rewrite Hop in Hop'. injection Hop' as <-. by rewrite Hp in Hst.
  - rewrite Hop. simpl. rewrite woken_in_state; [done|]. by rewrite Hst.
Qed.

(** C16: While a worker's lease on an operation lasts, no other worker's transactions
    change its row, and none of them is given the operation. *)
Theorem lease_excludes_others l j ref k op worker until :
  keyed j → operations j !! (ref, k) = Some op →
  op_state op = s_in_progress → op_lease_owner op = Some worker → op_lease_until op = Some until →
  Forall (outside_lease ref worker until) l →
  operations (perform_all l j) !! (ref, k) = Some op ∧
  (∀ hash w now until' stamp r j', w ≠ worker → SFleb now until = true →
     reserve_settlement_operation ref k hash w now until' stamp (perform_all l j) = Ok (r, j') → r = None).
Proof.
  intros Hj Hop Hst Hown Huntil Hl.
  assert (rows ref (perform_all l j) k = Some op) as Hrow.
  { apply (history_keeps_row (outside_lease ref worker until) ref k op l j); [|done..].
    intros o ops c o' ops' Hc Ht Hs Hr. by eapply leased_step. }
  split; [done|]. intros hash w now until' stamp r j' Hw Hlive. unfold reserve_settlement_operation.
  destruct (SFleb until' now); [done|]. destruct (obligations _ !! ref); [|done].
  destruct (reservation_excluded _ _ _ _); [by intros [= <- _]|]. rewrite Hrow. simpl.
  destruct (negb _); [done|]. unfold terminal. rewrite Hst. simpl. unfold held_by_other.
  rewrite Huntil, Hlive, Hst, Hown. rewrite (bool_decide_eq_false_2 (Some worker = Some w)) by congruence.
  by intros [= <- _].
Qed.

(** ** Publications and bindings are written once *)

(** A fulfillment is finished with a receipt only when it succeeded, and its
    fields are cleared only before a publication is recorded. *)
Definition fulfillment_discipline (c : JournalCall) : Prop :=
  match c with
  | FinishOperation _ fulfill_op _ v _ => fn_receipt v = None ∨ fn_state v = s_succeeded
  | ClearField _ fulfill_op _ _ unless => unless = FULFILLMENT_REFERENCE_KEY
  | _ => True
  end.

(** Everything a receipt says, another says too. *)
Definition says_as_much (r r' : option dict) : Prop :=
  ∀ key, dict_has key (default [] r) = true →
    dict_has key (default [] r') = true ∧ dict_get key (default [] r') = dict_get key (default [] r).

Definition publication_recorded (op : Operation) : Prop :=
  dict_has FULFILLMENT_REFERENCE_KEY (default [] (op_receipt op)) = true.

(** Of an operation: succeeded, or its receipt only grown. *)
Definition receipt_grown (r : option dict) (op : option Operation) : Prop :=
  ∃ op', op = Some op' ∧ (op_state op' = s_succeeded ∨ says_as_much r (op_receipt op')).

Lemma succeeded_terminal op : op_state op = s_succeeded → terminal (op_state op) = true.
Proof. by intros ->. Qed.

Lemma says_as_much_trans r1 r2 r3 : says_as_much r1 r2 → says_as_much r2 r3 → says_as_much r1 r3.
Proof. intros H12 H23 key Hk. destruct (H12 key Hk) as [H1 <-]. by apply H23. Qed.

Lemma says_as_much_refl r : says_as_much r r.
Proof. done. Qed.

Lemma says_as_much_set r key x :
  dict_has key (default [] r) = false → says_as_much r (Some (dict_set key x (default [] r))).
Proof.
  intros Hno key' Hk. simpl. assert (key' ≠ key) as Hne by (intros ->; congruence).
  rewrite dict_has_set, dict_get_set_ne by done. by rewrite Hk, orb_true_r.
Qed.

Lemma receipt_step o ops c o' ops' op :
  fulfillment_discipline c → cell_step o ops c o' ops' → ops fulfill_op = Some op → publication_recorded op →
  ∃ op', ops' fulfill_op = Some op' ∧ (op_state op' = s_succeeded ∨ says_as_much (op_receipt op) (op_receipt op')).
Proof.
  intros Hd Hs Hop Hpub.
  destruct Hs as [| |r k hash w now u stamp o' stored _ _ _ _|r k w key x u op' Hop' _ Hno
    |r k w key unless op' Hop' _ Hno receipt|r k w v stamp op' Hop' _ _|r w now op' Hop' _
    |r k next err op' Hop' _|r]; [by eauto 6 using says_as_much_refl..| | | | | | |].
  1-6: match goal with |- context [upd ?k _ _ _] =>
         destruct (decide (fulfill_op = k)) as [Hk|Hne]; [subst|rewrite upd_ne by done; eauto using says_as_much_refl] end.
  all: try (rewrite upd_eq; eexists; split; [done|]).
  all: try (assert (op' = op) as -> by congruence).
  - right. unfold stored. by rewrite Hop.
  - right. by apply says_as_much_set.
  - simpl in Hd. subst unless. unfold publication_recorded in Hpub. congruence.
  - destruct Hd as [Hr|Hr]; [right|by left]. simpl. by rewrite Hr.
  - by right.
  - by right.
  - rewrite Hop. simpl. eexists. split; [done|]. right. unfold woken. by case_bool_decide.
Qed.

(** C18: A publication recorded on a fulfillment is kept: until the operation
    succeeds, no transaction of the runtime loses or changes what its receipt
    says, so no later attempt can take the publication for one never made. *)
Theorem recorded_publication_is_kept l j ref op :
  keyed j → operations j !! (ref, fulfill_op) = Some op → publication_recorded op →
  Forall fulfillment_discipline l →
  receipt_grown (op_receipt op) (operations (perform_all l j) !! (ref, fulfill_op)).
Proof.
  intros Hj Hop Hpub Hl. change (receipt_grown (op_receipt op) (rows ref (perform_all l j) fulfill_op)).
  change (rows ref j fulfill_op = Some op) in Hop. revert j op Hj Hop Hpub. induction Hl as [|c l Hc Hl IH]; intros j op Hj Hop Hpub.
  { exists op. split; [done|by right]. }
  simpl. destruct (decide (op_state op = s_succeeded)) as [Hs|Hns].
  { exists op. split; [|by left]. apply (decided_operation_is_final_row (c :: l) j); [done..|].
    by apply succeeded_terminal. }
  assert (∃ op', rows ref (perform c j) fulfill_op = Some op' ∧
            (op_state op' = s_succeeded ∨ says_as_much (op_receipt op) (op_receipt op'))) as (op' & Hop' & Hgrown).
  { destruct (perform_moves c j Hj ref) as [_ Hrows|t stamp _ _ Hnone _ _|o1 o' ops' _ _ _ Hst Hrows].
    - exists op. rewrite Hrows. split; [done|by right].
    - destruct Hj as [_ Hfk]. unfold rows in Hop. by rewrite (Hfk _ _ Hnone) in Hop.
    - rewrite Hrows. by eapply receipt_step. }
  destruct Hgrown as [Hs|Hm].
  - exists op'. split; [|by left]. apply decided_operation_is_final_row; [by apply perform_keyed|done|].
    by apply succeeded_terminal.
  - destruct (IH (perform c j) op') as (op'' & H1 & H2); [by apply perform_keyed|done| |].
    { by apply Hm. }
    exists op''. split; [done|]. destruct H2 as [?|H2]; [by left|right]. by eapply says_as_much_trans.
Qed.

(** What a history keeps of an obligation. *)
Definition bindings_kept (o o' : Obligation) (materializing : Prop) : Prop :=
  ob_terms o' = ob_terms o ∧ ob_version o <= ob_version o' ∧
  (∀ f, fulfillment_ref o = Some f → fulfillment_ref o' = Some f) ∧
  (mechanism_params o ≠ [] ∨ materializing → mechanism_params o' = mechanism_params o).

Lemma version_finished k v stamp (o : Obligation) : ob_version o <= ob_version (finished_obligation k v stamp o).
Proof. destruct k; simpl; repeat case_match; simpl; lia. Qed.

Lemma finished_bindings k v stamp (o : Obligation) :
  fulfillment_ref (finished_obligation k v stamp o) = fulfillment_ref o ∧
  mechanism_params (finished_obligation k v stamp o) = mechanism_params o.
Proof. destruct k; simpl; repeat case_match; done. Qed.

Lemma marked_bindings k stamp ops (o o' : Obligation) :
  mark_reserved o k stamp ops = Some o' →
  fulfillment_ref o' = fulfillment_ref o ∧ mechanism_params o' = mechanism_params o ∧ ob_version o <= ob_version o'.
Proof.
  unfold mark_reserved. destruct k; intros H; repeat case_match; simplify_eq; split_and!; try done; simpl; lia.
Qed.

Lemma bindings_step o ops c o' ops' :
  cell_step o ops c o' ops' →
  bindings_kept o o' (is_Some (ops materialize_op)) ∧ (is_Some (ops materialize_op) → is_Some (ops' materialize_op)).
Proof.
  intros Hs. pose proof (cell_step_terms _ _ _ _ _ Hs) as Hterms.
  assert (is_Some (ops materialize_op) → is_Some (ops' materialize_op)) as Hrows.
  { destruct Hs; try done; unfold upd; try case_decide; try done.
    intros [op ->]. by eexists. }
  split; [|done]. clear Hrows. destruct Hs as [ref p stamp Hp Hm|ref f stamp Hf _|? ? ? ? ? ? ? ? stored _ _ _ Hm| | |? ? ? v stamp| | |];
    try by (split_and!; [done|lia|done..]).
  - split_and!; [done|simpl; lia|done|]. intros [?|[op Hop]]; congruence.
  - split_and!; [done|simpl; lia| |done]. intros f' Hf'. congruence.
  - apply marked_bindings in Hm as (Hf & Hp & Hv). split_and!; [done|done|by rewrite Hf|by rewrite Hp].
  - destruct (finished_bindings k v stamp o) as [Hf Hp].
    split_and!; [done|apply version_finished|by rewrite Hf|by rewrite Hp].
Qed.

Lemma bindings_are_kept l j ref o :
  keyed j → obligations j !! ref = Some o →
  ∃ o', obligations (perform_all l j) !! ref = Some o' ∧
        bindings_kept o o' (is_Some (operations j !! (ref, materialize_op))).
Proof.
  revert j o. induction l as [|c l IH]; intros j o Hj Ho.
  { exists o. by split_and!. }
  simpl. assert (∃ o1, obligations (perform c j) !! ref = Some o1 ∧
      bindings_kept o o1 (is_Some (rows ref j materialize_op)) ∧
      (is_Some (rows ref j materialize_op) → is_Some (rows ref (perform c j) materialize_op))) as (o1 & Ho1 & Hb & Hm).
  { destruct (perform_moves c j Hj ref) as [Hsame Hrows|t stamp _ _ Hnone _ _|o2 o1 ops' _ Ho2 Ho1 Hs Hrows].
    - exists o. rewrite Hsame, Hrows. by split_and!.
    - congruence.
    - exists o1. rewrite Hrows. assert (o2 = o) as -> by congruence. by apply bindings_step in Hs. }
  destruct (IH (perform c j) o1) as (o' & Ho' & Hb'); [by apply perform_keyed|done|]. exists o'. split; [done|].
  destruct Hb as (Ht & Hv & Hf & Hp), Hb' as (Ht' & Hv' & Hf' & Hp'). split_and!; [congruence|lia|by eauto|].
  intros Hor. rewrite <-Hp by done. apply Hp'. destruct Hor as [Hne|Hs]; [left|right; by apply Hm].
  rewrite Hp; [done|by left].
Qed.

(** C19: Through any history an obligation keeps the terms, the principals and the
    agreement it was registered with; its version never goes back; and the
    fulfillment it is bound to, and the mechanism parameters once bound or once
    materialization was reserved, are never replaced. *)
Theorem bindings_are_written_once l j ref o :
  keyed j → obligations j !! ref = Some o →
  ∃ o', obligations (perform_all l j) !! ref = Some o' ∧
        bindings_kept o o' (is_Some (operations j !! (ref, materialize_op))).
Proof. apply bindings_are_kept. Qed.

(** A reservation does not exclude the worker that already holds it: asked again
    under its own live lease, it is handed the operation again, one attempt
    further, and not told that it is busy. *)
Theorem same_worker_is_not_busy ref k worker now until stamp (j : Journal) (o : Obligation) op :
  obligations j !! ref = Some o → operations j !! (ref, k) = Some op → held_by worker (Some op) = true →
  reservation_excluded o k now (rows ref j) = false → k ≠ reclaim_op → SFleb until now = false →
  ∃ j', reserve_settlement_operation ref k (op_request_hash op) worker now until stamp j
        = Ok (Some (leased_to worker until op), j').
Proof.
  intros Ho Hop Hh Hx Hk Hu. unfold reserve_settlement_operation. rewrite Hu, Ho, Hx.
  change (rows ref j k) with (operations j !! (ref, k)). rewrite Hop. simpl.
  rewrite bool_decide_eq_true_2 by done. apply bool_decide_eq_true in Hh as [Hst Hown].
  unfold terminal, held_by_other. rewrite Hst, Hown. simpl.
  rewrite (bool_decide_eq_true_2 (Some worker = Some worker)), ?andb_false_r by done. simpl.
  destruct k; try done; simpl; by eexists.
Qed.

(** ** Histories from an empty journal *)

(** C15: Every transaction of the repository, on any journal a history leads to, is a
    step of the machine: it registers a new obligation, or moves the cell of the
    one it names by the step its call stands for, or changes nothing; and it
    leaves every other obligation's cell alone. *)
Theorem transaction_is_a_cell_step l c ref :
  let j := perform_all l empty_journal in cell_moves c ref j (perform c j).
Proof. apply perform_moves, perform_all_keyed, empty_keyed. Qed.

(** C14: In any history an obligation is never being collected and reclaimed at once;
    its collection and its reclaim in flight are marked on it; and its funding is
    being reclaimed only while no fulfillment is bound to it, or its domain
    cleanup has succeeded. *)
Theorem effects_exclude_each_other l ref o :
  let j := perform_all l empty_journal in
  obligations j !! ref = Some o →
  ¬ (in_progress (operations j !! (ref, collect_op)) = true ∧ in_progress (operations j !! (ref, reclaim_op)) = true) ∧
  (in_progress (operations j !! (ref, collect_op)) = true → taken (collection_state o) = true) ∧
  (in_progress (operations j !! (ref, reclaim_op)) = true →
     taken (reclaim_state o) = true ∧
     (fulfillment_ref o = None ∨ succeeded (operations j !! (ref, cleanup_op)) = true)).
Proof.
  intros j Ho. destruct (perform_all_sound l _ empty_sound) as [_ Hok].
  destruct (Hok ref o Ho) as [Hc Hr]. unfold rows in Hc, Hr. fold j in Hc, Hr. split_and!; [|done|].
  - intros [H1 H2]. destruct (Hr H2) as (_ & H3 & _). congruence.
  - intros H. by destruct (Hr H) as (? & _ & ?).
Qed.
End journal.
Arguments JournalCall Identity : clear implicits.

(** * The runtime *)

Section runtime.
Context {Identity : Type} `{!EqDecision Identity}.
Context (dump_identity : Identity → dict) (read_identity : value → result Identity) (sha256 : string → string).
Context (py_str : value → string) (error_text error_message : py_error → string).

Local Abbreviation World := (World (Identity := Identity)).

(** ** Runs that only perform transactions *)

Definition history_of (w w' : World) : Prop :=
  ∃ l, Forall fulfillment_discipline l ∧ w_journal w' = perform_all l (w_journal w).

(** Whatever it returns, [m] leaves the journal by transactions of the runtime. *)
Definition commits {A} (m : M World A) : Prop := ∀ w, history_of w (m w).2.

Lemma history_refl w : history_of w w.
Proof. by exists []. Qed.

Lemma history_trans w1 w2 w3 : history_of w1 w2 → history_of w2 w3 → history_of w1 w3.
Proof.
  intros (l1 & H1 & E1) (l2 & H2 & E2). exists (l1 ++ l2). split; [by apply Forall_app|].
  rewrite E2, E1. unfold perform_all. by rewrite fold_left_app.
Qed.

Lemma history_perform (w : World) (j : Journal Identity) c :
  fulfillment_discipline c → j = perform c (w_journal w) → history_of w (with_journal j w).
Proof. intros Hc ->. exists [c]. by repeat constructor. Qed.

Lemma commits_ret {A} (a : A) : commits (mret a).
Proof. intros w. apply history_refl. Qed.
Lemma commits_raise {A} e : commits (raise (A := A) e).
Proof. intros w. apply history_refl. Qed.
Lemma commits_lift {A} (r : result A) : commits (lift r).
Proof. intros w. apply history_refl. Qed.
Lemma commits_gets {A} (f : World → A) : commits (gets f).
Proof. intros w. apply history_refl. Qed.

Lemma commits_then {A B} (m : M World A) (f : A → M World B) : commits m → (∀ a, commits (f a)) → commits (m ≫= f).
Proof.
  intros Hm Hf w. specialize (Hm w). unfold mbind, M_bind. destruct (m w) as [[a|e] w1]; [|done].
  eapply history_trans; [done|apply Hf].
Qed.

Lemma commits_catch {A} (m : M World A) h : commits m → (∀ e, commits (h e)) → commits (catch m h).
Proof.
  intros Hm Hh w. specialize (Hm w). unfold catch. destruct (m w) as [[a|e] w1]; [done|].
  eapply history_trans; [done|apply Hh].
Qed.

Lemma commits_for_each {A} (l : list A) (body : A → M World ()) :
  (∀ x, commits (body x)) → commits (for_each l body).
Proof. intros Hb. induction l as [|x l IH]; simpl; [apply commits_ret|by apply commits_then]. Qed.

Context (others : World → World) (others_commit : ∀ w, history_of w (others w)).

Lemma commits_transact {A} (t : string → Journal Identity → result (A * Journal Identity)) :
  (∀ stamp, ∃ c, fulfillment_discipline c ∧ ∀ j, after (t stamp j) j = perform c j) → commits (transact others t).
Proof.
  intros Ht w. eapply history_trans; [apply others_commit|]. unfold transact.
  destruct (Ht (w_stamp (others w))) as (c & Hc & Hp). specialize (Hp (w_journal (others w))).
  destruct (t _ _) as [[a j]|e]; simpl in Hp |- *; [|apply history_refl]. by eapply history_perform.
Qed.

Lemma commits_query {A} (f : Journal Identity → A) : commits (query others f).
Proof.
  intros w. eapply history_trans; [apply others_commit|]. unfold query, transact. simpl.
  exists []. by split.
Qed.

Ltac by_call c := apply commits_transact; intros stamp; exists (c stamp); split; [done|intros j; reflexivity].

Lemma commits_reserve ref k hash worker now until :
  commits (transact others (reserve_settlement_operation ref k hash worker now until)).
Proof. by_call (λ stamp : string, Reserve (Identity := Identity) ref k hash worker now until stamp). Qed.

Lemma commits_finish_call ref k worker v :
  (k = fulfill_op → fn_receipt v = None ∨ fn_state v = s_succeeded) →
  commits (transact others (finish_settlement_operation ref k worker v)).
Proof.
  intros Hd. apply commits_transact. intros stamp.
  exists (FinishOperation (Identity := Identity) ref k worker v stamp). split; [|done]. destruct k; simpl; auto.
Qed.

Lemma commits_bind_params ref params : commits (transact others (bind_settlement_mechanism_params ref params)).
Proof. by_call (λ stamp : string, BindParams (Identity := Identity) ref params stamp). Qed.
Lemma commits_bind_fulfillment ref f : commits (transact others (bind_settlement_fulfillment ref f)).
Proof. by_call (λ stamp : string, BindFulfillment (Identity := Identity) ref f stamp). Qed.
Lemma commits_await ref worker now :
  commits (transact others (λ _, mark_fulfillment_awaiting_delivery ref worker now)).
Proof. by_call (λ stamp : string, AwaitDelivery (Identity := Identity) ref worker now). Qed.
Lemma commits_retry ref k next e : commits (transact others (λ _, schedule_settlement_retry ref k next e)).
Proof. by_call (λ stamp : string, ScheduleRetry (Identity := Identity) ref k next e). Qed.
Lemma commits_write ref k worker key x u :
  commits (transact others (λ _, write_operation_receipt_field ref k worker key x u)).
Proof. by_call (λ stamp : string, WriteField (Identity := Identity) ref k worker key x u). Qed.
Lemma commits_clear ref worker key :
  commits (transact others (λ _, clear_operation_receipt_field ref fulfill_op worker key FULFILLMENT_REFERENCE_KEY)).
Proof. by_call (λ stamp : string, ClearField (Identity := Identity) ref fulfill_op worker key FULFILLMENT_REFERENCE_KEY). Qed.
Lemma commits_wake ref : commits (transact others (λ _, wake_settlement_obligation ref)).
Proof. by_call (λ stamp : string, Wake (Identity := Identity) ref). Qed.

(** One primitive of a handler at a time. *)
Ltac commits_step :=
  match goal with
  | |- commits (mret _) => apply commits_ret
  | |- commits (raise _) => apply commits_raise
  | |- commits (lift _) => apply commits_lift
  | |- commits (gets _) => apply commits_gets
  | |- commits (query _ _) => apply commits_query
  | |- commits (mbind _ _) => apply commits_then; [|intros]
  | |- commits (catch _ _) => apply commits_catch; [|intros]
  | |- commits (if ?b then _ else _) => destruct b
  | |- commits (match ?x with _ => _ end) => destruct x
  | |- commits (transact _ _) =>
      first [apply commits_reserve|apply commits_bind_params|apply commits_bind_fulfillment|apply commits_await
            |apply commits_retry|apply commits_write|apply commits_clear|apply commits_wake]
  end.

Context (clients : string → option (EscrowClient (Identity := Identity))).
Context (lease_seconds fulfillment_lease_seconds : float).

(** A mechanism's calls may let other tasks commit while they last. *)
Definition client_commits (c : EscrowClient (Identity := Identity)) : Prop :=
  (∀ a b, commits (cl_materialize c a b)) ∧ (∀ a b d e, commits (cl_get_status c a b d e)) ∧
  (∀ a b d e f, commits (cl_check c a b d e f)) ∧ (∀ a b d e f, commits (cl_collect c a b d e f)) ∧
  (∀ a b d e f, commits (cl_reclaim_expired c a b d e f)).

Context (clients_commit : ∀ m c, clients m = Some c → client_commits c).

Lemma commits_load ref : commits (_load others ref).
Proof. unfold _load. repeat commits_step. Qed.

Lemma commits_client {A} o (f : EscrowClient → M World A) :
  (∀ c, client_commits c → commits (f c)) → commits (_client py_str clients o ≫= f).
Proof.
  intros Hf w. unfold _client, mbind, M_bind.
  match goal with |- context [clients ?m] => destruct (clients m) as [c|] eqn:Hc end; [|apply history_refl].
  by eapply Hf, clients_commit.
Qed.

Lemma commits_reserving o k worker p request :
  commits (_reserve dump_identity sha256 others lease_seconds fulfillment_lease_seconds o k worker p request).
Proof. unfold _reserve. repeat commits_step. Qed.

Lemma commits_bind_map {A B C} (m : M World A) (f : A → B) (k : B → M World C) :
  commits m → (∀ a, commits (k (f a))) → commits ((m ≫= λ a, mret (f a)) ≫= k).
Proof.
  intros Hm Hk w. specialize (Hm w). unfold mbind, M_bind, mret, M_ret. destruct (m w) as [[a|e] w1]; [|done].
  eapply history_trans; [done|apply Hk].
Qed.

Lemma commits_ret_bind {A B} (a : A) (f : A → M World B) : commits (f a) → commits (mret a ≫= f).
Proof. done. Qed.

Lemma commits_finish o k worker v :
  (k = fulfill_op → fn_receipt v = None ∨ fn_state v = s_succeeded) → commits (_finish others o k worker v).
Proof.
  intros Hd. unfold _finish. destruct (fn_mechanism_state v) as [state|].
  - apply commits_bind_map; [repeat commits_step|]. intros b.
    apply commits_then; [by apply commits_finish_call|intros []; repeat commits_step].
  - apply commits_ret_bind, commits_then; [by apply commits_finish_call|intros []; repeat commits_step].
Qed.

Lemma commits_finish_retry o k worker e u : commits (_finish_retry error_text others o k worker e u).
Proof. apply commits_finish. by left. Qed.
Lemma commits_finish_manual o k worker e : commits (_finish_manual error_message others o k worker e).
Proof. unfold _finish_manual. apply commits_then; [apply commits_finish; by left|intros; apply commits_ret]. Qed.

Lemma commits_attempt {A} o k worker u (call : M World A) next :
  commits call → (∀ a, commits (next a)) → commits (attempt error_text error_message others o k worker u call next).
Proof.
  intros Hc Hn w. specialize (Hc w). unfold attempt. destruct (call w) as [[a|e] w1].
  - eapply history_trans; [done|apply Hn].
  - eapply history_trans; [exact Hc|]. simpl.
    destruct e; first [apply commits_finish_manual
      |apply commits_then; [apply commits_finish_retry|intros; apply commits_raise]].
Qed.

Lemma commits_if_reserved o k r held : (∀ op, commits (held op)) → commits (if_reserved o k r held).
Proof. intros Hh. unfold if_reserved. repeat (commits_step || apply Hh). Qed.

Ltac commits_handler :=
  repeat first
    [ apply commits_client; intros ? (? & ? & ? & ? & ?)
    | commits_step
    | lazymatch goal with
      | |- commits (_load _ _) => apply commits_load
      | |- commits (_reserve _ _ _ _ _ _ _ _ _ _) => apply commits_reserving
      | |- commits (_finish_retry _ _ _ _ _ _ _) => apply commits_finish_retry
      | |- commits (_finish_manual _ _ _ _ _ _) => apply commits_finish_manual
      | |- commits (_finish _ _ _ _ _) => apply commits_finish; first [intros _; by right | intros _; by left | by intros]
      | |- commits (if_reserved _ _ _ _) => apply commits_if_reserved; intros
      | |- commits (attempt _ _ _ _ _ _ _ _ _) => apply commits_attempt; [|intros]
      end
    | progress auto ].

Lemma commits_register agreement l : commits (register_plan dump_identity read_identity sha256 others agreement l).
Proof.
  unfold register_plan. generalize 0. induction l as [|o l IH]; intros i; simpl; [apply commits_ret|].
  apply commits_then; [|intros r; apply commits_then; [apply IH|intros; apply commits_ret]].
  unfold register_obligation. intros w. unfold mbind, M_bind, lift.
  destruct (from_obligation dump_identity read_identity sha256 agreement i o) as [r|e] eqn:Hr; [|apply history_refl].
  assert (∃ t, r = new_obligation t) as [t ->].
  { unfold from_obligation in Hr. apply result_bind_Ok in Hr as ([[s p] c] & _ & Hr).
    apply result_bind_Ok in Hr as (ref & _ & Hr). apply result_bind_Ok in Hr as (h & _ & [= <-]). by eexists. }
  apply (commits_transact (λ stamp, upsert_settlement_obligation (registered t stamp))).
  intros stamp. by exists (Register t stamp).
Qed.

(** ** The runtime's operations *)

(** What the runtime and its servicing worker are asked to do: every public
    operation of theirs but the worker's endless loop, which sweeps. *)
Inductive RuntimeRequest : Type :=
  | RegisterPlan (agreement : string) (l : list dict)
  | Adopt (ref : string) (p : Identity) (mechanism : string) (receipt : option dict) (anchor : option string)
      (state : option dict) (worker : string)
  | BindMechanismParams (ref : string) (params : dict) (p : Identity)
  | BindFulfillmentRef (ref f : string) (p : Identity)
  | GetStatus (agreement : string)
  | ManualRequiredCount
  | ReserveFulfillment (ref : string) (p : Identity) (worker : string)
  | CompleteFulfillment (ref f : string) (p : Identity) (worker : string)
  | DeferFulfillment (ref : string) (p : Identity) (worker : string)
  | RetryFulfillment (ref : string) (e : py_error) (p : Identity) (worker : string)
  | RecordSubmission (ref : string) (submission : dict) (p : Identity) (worker : string)
  | RecordPublication (ref reference : string) (p : Identity) (worker : string)
  | ClearSubmission (ref : string) (p : Identity) (worker : string)
  | ParkFulfillment (ref : string) (e : py_error) (p : Identity) (worker : string)
  | ReserveCleanup (ref : string) (p : Identity) (worker : string)
  | CompleteCleanup (ref : string) (p : Identity) (worker : string)
  | RetryCleanup (ref : string) (e : py_error) (p : Identity) (worker : string)
  | Materialize (ref : string) (p : Identity) (worker : string)
  | ReconcileStatus (ref : string) (p : Identity) (worker : string)
  | CheckConditions (ref : string) (p : Identity) (worker : string)
  | Collect (ref : string) (p : Identity) (worker : string)
  | Reclaim (ref : string) (p : Identity) (worker : string) (options : dict)
  | Sweep (wk : Worker (Identity := Identity)) (limit : Z)
  | ServiceObligation (wk : Worker (Identity := Identity)) (ref : string)
  | WakeObligation (ref : string).

Local Abbreviation load := (_load others).

Definition serve (r : RuntimeRequest) : M World () :=
  let done {A} (m : M World A) : M World () := _ ← m; mret tt in
  match r with
  | RegisterPlan agreement l => done (register_plan dump_identity read_identity sha256 others agreement l)
  | Adopt ref p m receipt anchor state worker =>
      done (adopt dump_identity sha256 others lease_seconds fulfillment_lease_seconds ref p m receipt anchor state worker)
  | BindMechanismParams ref params p => done (bind_mechanism_params others ref params p)
  | BindFulfillmentRef ref f p => done (bind_fulfillment others ref f p)
  | GetStatus agreement => done (get_status (Identity := Identity) others agreement)
  | ManualRequiredCount => done (manual_required_count (Identity := Identity) others)
  | ReserveFulfillment ref p worker =>
      done (reserve_fulfillment dump_identity sha256 others lease_seconds fulfillment_lease_seconds ref p worker)
  | CompleteFulfillment ref f p worker => done (complete_fulfillment others ref f p worker)
  | DeferFulfillment ref p worker => defer_fulfillment others ref p worker
  | RetryFulfillment ref e p worker => retry_fulfillment error_text others ref e p worker
  | RecordSubmission ref s p worker => record_fulfillment_submission others ref s p worker
  | RecordPublication ref reference p worker => record_fulfillment_publication others ref reference p worker
  | ClearSubmission ref p worker => clear_fulfillment_submission others ref p worker
  | ParkFulfillment ref e p worker => done (park_fulfillment error_message others ref e p worker)
  | ReserveCleanup ref p worker =>
      done (reserve_cleanup dump_identity sha256 others lease_seconds fulfillment_lease_seconds ref p worker)
  | CompleteCleanup ref p worker => done (complete_cleanup others ref p worker)
  | RetryCleanup ref e p worker => retry_cleanup error_text others ref e p worker
  | Materialize ref p worker =>
      done (materialize dump_identity sha256 py_str error_text error_message others clients lease_seconds
              fulfillment_lease_seconds ref p worker)
  | ReconcileStatus ref p worker =>
      done (reconcile_status dump_identity sha256 py_str error_text error_message others clients lease_seconds
              fulfillment_lease_seconds ref p worker)
  | CheckConditions ref p worker =>
      done (check dump_identity sha256 py_str error_text error_message others clients lease_seconds
              fulfillment_lease_seconds ref p worker)
  | Collect ref p worker =>
      done (collect dump_identity sha256 py_str error_text error_message others clients lease_seconds
              fulfillment_lease_seconds ref p worker)
  | Reclaim ref p worker options =>
      done (reclaim dump_identity sha256 py_str error_text error_message others clients lease_seconds
              fulfillment_lease_seconds ref p worker options)
  | Sweep wk limit =>
      done (run_once dump_identity sha256 py_str error_text error_message others clients lease_seconds
              fulfillment_lease_seconds wk limit)
  | ServiceObligation wk ref =>
      service_obligation dump_identity sha256 py_str error_text error_message others clients lease_seconds
        fulfillment_lease_seconds wk ref
  | WakeObligation ref => wake others ref
  end.

(** A worker whose hooks only perform transactions of the runtime. *)
Definition worker_commits (wk : Worker (Identity := Identity)) : Prop :=
  (∀ f, wk_on_terminal wk = Some f → ∀ o outcome reason, commits (f o outcome reason)) ∧
  (∀ f, wk_on_ready wk = Some f → ∀ o worker, commits (f o worker)).
Definition hooks_commit (r : RuntimeRequest) : Prop :=
  match r with Sweep wk _ | ServiceObligation wk _ => worker_commits wk | _ => True end.


Lemma commits_status ref p worker :
  commits (reconcile_status dump_identity sha256 py_str error_text error_message others clients lease_seconds
             fulfillment_lease_seconds ref p worker).
Proof. unfold reconcile_status, _require_participant, _require_mechanism_ref. commits_handler. Qed.

Lemma commits_materialize ref p worker :
  commits (materialize dump_identity sha256 py_str error_text error_message others clients lease_seconds
             fulfillment_lease_seconds ref p worker).
Proof. unfold materialize, _require_payer. commits_handler. Qed.

Lemma commits_check ref p worker :
  commits (check dump_identity sha256 py_str error_text error_message others clients lease_seconds
             fulfillment_lease_seconds ref p worker).
Proof. unfold check, _require_claimant, _require_materialized, _require_fulfillment. commits_handler. Qed.

Lemma commits_collect ref p worker :
  commits (collect dump_identity sha256 py_str error_text error_message others clients lease_seconds
             fulfillment_lease_seconds ref p worker).
Proof.
  unfold collect, _require_claimant, _require_materialized, _require_fulfillment, effect_done. commits_handler.
Qed.

Lemma commits_reclaim ref p worker options :
  commits (reclaim dump_identity sha256 py_str error_text error_message others clients lease_seconds
             fulfillment_lease_seconds ref p worker options).
Proof. unfold reclaim, _require_payer, _require_materialized, effect_done. commits_handler. Qed.

Lemma commits_adopt ref p mechanism receipt anchor state worker :
  commits (adopt dump_identity sha256 others lease_seconds fulfillment_lease_seconds ref p mechanism receipt anchor
             state worker).
Proof. unfold adopt, _require_participant. commits_handler. Qed.

Lemma commits_reserve_fulfillment ref p worker :
  commits (reserve_fulfillment dump_identity sha256 others lease_seconds fulfillment_lease_seconds ref p worker).
Proof. unfold reserve_fulfillment, _require_claimant. commits_handler. Qed.

Lemma commits_complete_fulfillment ref f p worker : commits (complete_fulfillment others ref f p worker).
Proof. unfold complete_fulfillment, bind_fulfillment, _require_claimant. commits_handler. Qed.

Lemma commits_write_field ref key x p worker : commits (_write_fulfillment_field others ref key x p worker).
Proof. unfold _write_fulfillment_field, _require_claimant, lease_lost. commits_handler. Qed.

Lemma commits_reserve_cleanup ref p worker :
  commits (reserve_cleanup dump_identity sha256 others lease_seconds fulfillment_lease_seconds ref p worker).
Proof. unfold reserve_cleanup, _require_claimant, _require_fulfillment. commits_handler. Qed.

Lemma commits_complete_cleanup ref p worker : commits (complete_cleanup others ref p worker).
Proof. unfold complete_cleanup, _require_claimant. commits_handler. Qed.

Lemma commits_retry_cleanup ref e p worker : commits (retry_cleanup error_text others ref e p worker).
Proof. unfold retry_cleanup, _require_claimant. commits_handler. Qed.

(** *** Servicing *)

Lemma commits_schedule ref k now e : commits (_schedule (Identity := Identity) others ref k now e).
Proof. unfold _schedule. commits_handler. Qed.

Lemma commits_service_step {A} k (m : M World A) next :
  commits m → (∀ a, commits (next a)) → commits (step k m next).
Proof.
  intros Hm Hn w. specialize (Hm w). unfold step. destruct (m w) as [[a|e] w1]; [|done].
  eapply history_trans; [done|apply Hn].
Qed.

Section worker.
Context (wk : Worker (Identity := Identity)) (Hwk : worker_commits wk).

Lemma commits_terminal o outcome reason : commits (_terminal wk o outcome reason).
Proof.
  unfold _terminal. destruct (wk_on_terminal wk) as [f|] eqn:Hf; [|apply commits_ret].
  apply commits_catch; [by apply Hwk|intros; apply commits_ret].
Qed.

Lemma commits_cleanup o reason :
  commits (_cleanup dump_identity sha256 error_text others lease_seconds fulfillment_lease_seconds wk o reason).
Proof.
  unfold _cleanup. apply commits_then; [apply commits_reserve_cleanup|]. intros r.
  case_bool_decide; [apply commits_ret|]. intros w.
  match goal with |- context [match ?m w with _ => _ end] => assert (commits m) as Hm end.
  { apply commits_then; [|intros; apply commits_then; [apply commits_complete_cleanup|intros; apply commits_ret]].
    destruct (wk_on_terminal wk) as [f|] eqn:Hf; [by apply Hwk|apply commits_ret]. }
  specialize (Hm w).
  match goal with |- context [match ?m w with _ => _ end] => destruct (m w) as [[a|e] w1] end; [done|].
  eapply history_trans; [done|]. apply commits_then; [apply commits_retry_cleanup|intros; apply commits_ret].
Qed.

Ltac commits_service :=
  repeat first
    [ apply commits_service_step; [|intros]
    | commits_step | progress auto
    | apply commits_load | apply commits_schedule | apply commits_terminal | apply commits_cleanup
    | apply commits_status | apply commits_check | apply commits_collect ].

Lemma commits_collect_step o :
  commits (_collect_step dump_identity sha256 py_str error_text error_message others clients lease_seconds
             fulfillment_lease_seconds wk o).
Proof. unfold _collect_step. commits_service. Qed.

Lemma commits_check_step o now :
  commits (_check_step dump_identity sha256 py_str error_text error_message others clients lease_seconds
             fulfillment_lease_seconds wk o now).
Proof. unfold _check_step. commits_service; apply commits_collect_step. Qed.

Lemma commits_ready_step o now :
  commits (_ready_step dump_identity sha256 py_str error_text error_message others clients lease_seconds
             fulfillment_lease_seconds wk o now).
Proof.
  unfold _ready_step, _after_ready_step. destruct (fulfillment_ref o); [apply commits_check_step|].
  destruct (wk_on_ready wk) as [f|] eqn:Hf; [|commits_service].
  apply commits_service_step; [by apply Hwk|]. intros _. commits_service; apply commits_check_step.
Qed.

Lemma commits_service_record o now :
  commits (_service_record dump_identity sha256 py_str error_text error_message others clients lease_seconds
             fulfillment_lease_seconds wk o now).
Proof.
  intros w. unfold _service_record.
  assert (commits (_service dump_identity sha256 py_str error_text error_message others clients lease_seconds
             fulfillment_lease_seconds wk o now)) as Hs.
  { unfold _service. commits_service; apply commits_ready_step. }
  specialize (Hs w). destruct (_service _ _ _ _ _ _ _ _ _ _ _ _ _) as [[[e|]|e] w1]; [|done|].
  - eapply history_trans; [done|]. apply commits_catch; [apply commits_schedule|intros; apply commits_ret].
  - eapply history_trans; [done|]. apply commits_terminal.
Qed.
End worker.

(** C24: whichever of its public operations is asked of it, and whatever
    mechanisms and hooks do meanwhile so long as they too only ask it, the
    runtime changes its journal by a history of transactions that keeps
    recorded publications: so no operation, failed or not, ever undoes what the
    properties of histories promise. *)
Theorem runtime_performs_histories r w :
  hooks_commit r →
  ∃ l, Forall fulfillment_discipline l ∧ w_journal (serve r w).2 = perform_all l (w_journal w).
Proof.
  intros Hh. change (history_of w (serve r w).2). revert w. change (commits (serve r)).
  destruct r; simpl; try (apply commits_then; [|intros; apply commits_ret]).
  - apply commits_register.
  - apply commits_adopt.
  - unfold bind_mechanism_params, _require_payer. commits_handler.
  - unfold bind_fulfillment, _require_claimant. commits_handler.
  - unfold get_status. commits_handler.
  - unfold manual_required_count. commits_handler.
  - apply commits_reserve_fulfillment.
  - apply commits_complete_fulfillment.
  - unfold defer_fulfillment, _require_claimant, lease_lost. commits_handler.
  - unfold retry_fulfillment, _require_claimant. commits_handler.
  - apply commits_write_field.
  - unfold record_fulfillment_publication. case_bool_decide; [apply commits_raise|apply commits_write_field].
  - unfold clear_fulfillment_submission, _require_claimant, lease_lost. commits_handler.
  - unfold park_fulfillment, _require_claimant. commits_handler.
  - apply commits_reserve_cleanup.
  - apply commits_complete_cleanup.
  - apply commits_retry_cleanup.
  - apply commits_materialize.
  - apply commits_status.
  - apply commits_check.
  - apply commits_collect.
  - apply commits_reclaim.
  - unfold run_once. commits_step; [commits_step|]. commits_step; [commits_step|].
    commits_step; [|commits_step]. apply commits_for_each. intros o. by apply commits_service_record.
  - unfold service_obligation. commits_step; [apply commits_load|]. commits_step; [commits_step|].
    by apply commits_service_record.
  - apply commits_wake.
Qed.

(** ** What a mechanism is asked for *)

Lemma history_sound w w' : history_of w w' → sound (w_journal w) → sound (w_journal w').
Proof. intros (l & _ & ->). apply perform_all_sound. Qed.

Lemma history_terms w w' ref o :
  history_of w w' → sound (w_journal w) → obligations (w_journal w) !! ref = Some o →
  ∃ o', obligations (w_journal w') !! ref = Some o' ∧ bindings_kept o o' (is_Some (rows ref (w_journal w) materialize_op)).
Proof. intros (l & _ & ->) [Hk _] Ho. by apply bindings_are_kept. Qed.

Lemma load_gives ref w o w1 :
  _load others ref w = (Ok o, w1) → history_of w w1 ∧ obligations (w_journal w1) !! ref = Some o.
Proof.
  intros Hl. split; [by pose proof (commits_load ref w) as H; rewrite Hl in H|]. revert Hl.
  unfold _load, query, transact, mbind, M_bind. simpl. unfold load_settlement_obligation.
  destruct (obligations (w_journal (others w)) !! ref) as [o'|] eqn:Ho; [|done]. by intros [= <- <-].
Qed.

(** Where a reservation leaves an operation it hands out. *)
Lemma reserve_gives ref k hash worker now until w op w1 :
  transact others (reserve_settlement_operation ref k hash worker now until) w = (Ok (Some op), w1) →
  terminal (op_state op) = false → history_of w w1 ∧ held_by worker (rows ref (w_journal w1) k) = true.
Proof.
  intros Hr Ht. split; [by pose proof (commits_reserve ref k hash worker now until w) as H; rewrite Hr in H|].
  revert Hr. unfold transact, reserve_settlement_operation.
  destruct (SFleb until now); [done|]. destruct (obligations _ !! ref); [|done].
  destruct (reservation_excluded _ _ _ _); [done|]. destruct (negb _); [done|].
  destruct (terminal (op_state (default _ _))) eqn:E; [intros [= <- <-]; congruence|].
  destruct (held_by_other _ _ _); [done|]. destruct (mark_reserved _ _ _ _); [|done]. intros [= <- <-].
  unfold with_journal. cbn [w_journal]. rewrite rows_put, upd_eq. simpl. by apply bool_decide_eq_true.
Qed.

(** At the time of a call on [k], [worker] holds the operation, [p] has [role] in
    the obligation, and its cell is sound. *)
Definition asked_while_held (ref : string) (k : OperationKind) (role : Terms Identity → Identity) (p : Identity)
    (worker : string) (w : World) : Prop :=
  ∃ o, obligations (w_journal w) !! ref = Some o ∧ role (ob_terms o) = p ∧
       held_by worker (rows ref (w_journal w) k) = true ∧ cell_ok o (rows ref (w_journal w)).

Lemma reserved_is_held ref k role p worker o w w1 w2 hash now until op :
  sound (w_journal w) → history_of w w1 → obligations (w_journal w1) !! ref = Some o → role (ob_terms o) = p →
  transact others (reserve_settlement_operation ref k hash worker now until) w1 = (Ok (Some op), w2) →
  terminal (op_state op) = false → asked_while_held ref k role p worker w2.
Proof.
  intros Hs Hh Ho Hp Hr Ht. destruct (reserve_gives _ _ _ _ _ _ _ _ _ Hr Ht) as [Hh2 Hheld].
  pose proof (history_sound _ _ Hh Hs) as Hs1. destruct (history_terms _ _ _ _ Hh2 Hs1 Ho) as (o' & Ho' & Hb & _).
  exists o'. split_and!; [done|by rewrite Hb|done|]. by apply (history_sound _ _ Hh2 Hs1).
Qed.

(** Two clients that answer alike where [P] holds. *)
Definition collects_alike (P : World → Prop) (c c' : EscrowClient (Identity := Identity)) : Prop :=
  ∀ a b d e f w, P w → cl_collect c a b d e f w = cl_collect c' a b d e f w.
Definition reclaims_alike (P : World → Prop) (c c' : EscrowClient (Identity := Identity)) : Prop :=
  ∀ a b d e f w, P w → cl_reclaim_expired c a b d e f w = cl_reclaim_expired c' a b d e f w.
Definition tables_alike (R : EscrowClient → EscrowClient → Prop)
    (t t' : string → option (EscrowClient (Identity := Identity))) : Prop :=
  ∀ m, match t m, t' m with Some c, Some c' => R c c' | None, None => True | _, _ => False end.

Lemma bind_alike {A B} (m m' : M World A) (f f' : A → M World B) w :
  m w = m' w → (∀ a w1, m w = (Ok a, w1) → f a w1 = f' a w1) → (m ≫= f) w = (m' ≫= f') w.
Proof. unfold mbind, M_bind. intros <- Hf. destruct (m w) as [[a|e] w1]; [by apply Hf|done]. Qed.

Lemma client_alike {A} R clients' o (f : EscrowClient → M World A) w :
  tables_alike R clients clients' → (∀ c c', R c c' → f c w = f c' w) →
  (_client py_str clients o ≫= f) w = (_client py_str clients' o ≫= f) w.
Proof.
  intros Ht Hf. unfold _client, mbind, M_bind. match goal with |- context [clients ?m] => specialize (Ht m) end.
  destruct (clients _), (clients' _); [by apply Hf|done..].
Qed.

Lemma attempt_alike {A} o k worker u (call call' : M World A) next w :
  call w = call' w →
  attempt error_text error_message others o k worker u call next w
  = attempt error_text error_message others o k worker u call' next w.
Proof. intros H. unfold attempt. by rewrite H. Qed.

Lemma reserve_run o k worker p request w r w1 :
  _reserve dump_identity sha256 others lease_seconds fulfillment_lease_seconds o k worker p request w = (Ok r, w1) →
  ∃ hash now until,
    transact others (reserve_settlement_operation (ob_ref (ob_terms o)) k hash worker now until) w = (Ok r, w1).
Proof.
  unfold _reserve, mbind, M_bind, gets, lift. destruct (_request_hash _ _ _ _ _ _) as [hash|]; [|done]. eauto.
Qed.

Lemma reserved_alike o k r held held' (w : World) :
  (∀ op, r = Some op → terminal (op_state op) = false → held op w = held' op w) →
  if_reserved o k r held w = if_reserved o k r held' w.
Proof.
  intros Hh. unfold if_reserved. destruct r as [op|]; [|done]. unfold _terminal_outcome.
  specialize (Hh op eq_refl). destruct (op_state op); try done; by apply Hh.
Qed.

(** C25: Collecting is a step of the mechanism asked only where the worker holds the
    collection, of an obligation whose claimant it acts for, in a sound cell: what
    the mechanism would answer elsewhere makes no difference. *)
Theorem collect_asked_while_held clients' ref p worker w :
  sound (w_journal w) →
  tables_alike (collects_alike (asked_while_held ref collect_op ob_claimant p worker)) clients clients' →
  collect dump_identity sha256 py_str error_text error_message others clients lease_seconds fulfillment_lease_seconds
    ref p worker w
  = collect dump_identity sha256 py_str error_text error_message others clients' lease_seconds
      fulfillment_lease_seconds ref p worker w.
Proof.
  intros Hs Halike. unfold collect. apply bind_alike; [done|]. intros o w1 Hl. apply load_gives in Hl as [Hh Ho].
  assert (ob_ref (ob_terms o) = ref) as Href by (by apply (history_sound _ _ Hh Hs)).
  apply bind_alike; [done|]. intros [] w2 Hp. unfold _require_claimant in Hp. case_bool_decide as Hrole; [|done].
  injection Hp as <-. apply bind_alike; [done|]. intros m w2 Hm.
  assert (w2 = w1) as -> by (revert Hm; unfold _require_materialized; repeat case_match; by intros [= _ <-]).
  case_match; [done|]. apply bind_alike; [done|]. intros f w2 Hf.
  assert (w2 = w1) as -> by (revert Hf; unfold _require_fulfillment; repeat case_match; by intros [= _ <-]).
  eapply client_alike; [exact Halike|]. intros c c' Hc. apply bind_alike; [done|]. intros r w2 Hr.
  apply reserve_run in Hr as (hash & now & until & Hr). rewrite Href in Hr. apply reserved_alike. intros op -> Ht.
  apply attempt_alike. apply bind_alike; [done|]. intros snapshot w3 Hsn. apply Hc.
  assert (w3 = w2) as -> by (revert Hsn; unfold lift; by intros [= _ <-]).
  eapply (reserved_is_held ref collect_op ob_claimant p worker o w w1); [done..|exact Hr|done].
Qed.

(** C26: And reclaiming only where the worker holds the reclaim, of an obligation whose
    payer it acts for, in a sound cell: with nothing being collected, and no
    fulfillment but one cleaned up. *)
Theorem reclaim_asked_while_held clients' ref p worker options w :
  sound (w_journal w) →
  tables_alike (reclaims_alike (asked_while_held ref reclaim_op ob_payer p worker)) clients clients' →
  reclaim dump_identity sha256 py_str error_text error_message others clients lease_seconds fulfillment_lease_seconds
    ref p worker options w
  = reclaim dump_identity sha256 py_str error_text error_message others clients' lease_seconds
      fulfillment_lease_seconds ref p worker options w.
Proof.
  intros Hs Halike. unfold reclaim. apply bind_alike; [done|]. intros o w1 Hl. apply load_gives in Hl as [Hh Ho].
  assert (ob_ref (ob_terms o) = ref) as Href by (by apply (history_sound _ _ Hh Hs)).
  apply bind_alike; [done|]. intros [] w2 Hp. unfold _require_payer in Hp. case_bool_decide as Hrole; [|done].
  injection Hp as <-. apply bind_alike; [done|]. intros m w2 Hm.
  assert (w2 = w1) as -> by (revert Hm; unfold _require_materialized; repeat case_match; by intros [= _ <-]).
  apply bind_alike; [done|]. intros now w2 [= <- <-]. apply bind_alike; [done|]. intros expires w2 He.
  assert (w2 = w1) as -> by (revert He; unfold lift, raise; repeat case_match; by intros [= _ <-]).
  destruct (SFltb (w_now w1) expires); [done|]. apply bind_alike; [done|]. intros [] w2 Hq.
  assert (history_of w1 w2 ∧ ∃ o', obligations (w_journal w2) !! ref = Some o' ∧ ob_terms o' = ob_terms o)
    as (Hh2 & o' & Ho' & Hterms).
  { assert (history_of w1 w2) as Hh2.
    { match type of Hq with ?m w1 = _ => assert (commits m) as Hm2 by commits_handler end.
      specialize (Hm2 w1). by rewrite Hq in Hm2. }
    split; [done|]. destruct (history_terms _ _ _ _ Hh2 (history_sound _ _ Hh Hs) Ho) as (o' & ? & Hb & _). by exists o'. }
  eapply client_alike; [exact Halike|]. intros c c' Hc. apply bind_alike; [done|]. intros r w3 Hr.
  apply reserve_run in Hr as (hash & now' & until & Hr). rewrite Href in Hr. apply reserved_alike. intros op -> Ht.
  apply attempt_alike. apply bind_alike; [done|]. intros snapshot w4 Hsn. apply Hc.
  assert (w4 = w3) as -> by (revert Hsn; unfold lift; by intros [= _ <-]).
  eapply (reserved_is_held ref reclaim_op ob_payer p worker o' w w2);
    [done|by eapply history_trans|done|by rewrite Hterms|exact Hr|done].
Qed.

(** ** What an outcome says is what the journal says *)

Lemma finish_records o k worker v w w1 :
  _finish others o k worker v w = (Ok tt, w1) →
  ∃ op, rows (ob_ref (ob_terms o)) (w_journal w1) k = Some op ∧ op_state op = fn_state v ∧
        (∀ r, fn_receipt v = Some r → op_receipt op = Some r).
Proof.
  unfold _finish. intros Hrun.
  assert (∃ v' w0, fn_state v' = fn_state v ∧ fn_receipt v' = fn_receipt v ∧
    (saved ← transact others (finish_settlement_operation (ob_ref (ob_terms o)) k worker v');
     if (saved : bool) then mret tt else raise (RuntimeError "settlement operation lease was lost")) w0 = (Ok tt, w1))
    as (v' & w0 & <- & Hr & Hrun').
  { apply bind_run_Ok in Hrun as (v' & w0 & Hv & Hrun). exists v', w0. split_and!; [..|done].
    all: destruct (fn_mechanism_state v); [|by injection Hv as <- _].
    all: apply bind_run_Ok in Hv as (b & w2 & _ & [= <- _]); done. }
  apply bind_run_Ok in Hrun' as (saved & w2 & Ht & Hlast). destruct saved; [|done].
  cbv [mret M_ret] in Hlast. injection Hlast as <-.
  revert Ht. unfold transact, finish_settlement_operation.
  destruct (bool_decide (fn_state v' = s_in_progress)); [by intros|].
  destruct (encodable (fn_receipt v')), (encodable (fn_mechanism_state v')), (encodable (fn_buyer_action v')); try done.
  simpl. destruct (held_operation _ _ _ _) as [op|]; [|done]. destruct (mechanism_ref_conflicts _ _ _ _); [done|].
  intros [= <-]. exists (finished_operation v' op). split_and!; [|done|].
  - unfold with_journal. cbn [w_journal]. unfold rows.
    destruct (obligations (w_journal (others w0)) !! ob_ref (ob_terms o)); apply lookup_insert_eq.
  - intros r Hrec. simpl. rewrite Hr, Hrec. done.
Qed.

Definition recorded (ref : string) (k : OperationKind) (receipt : option dict) (w : World) : Prop :=
  ∃ op, operations (w_journal w) !! (ref, k) = Some op ∧ op_state op = s_succeeded ∧ op_receipt op = receipt.

Lemma reserved_outcome_recorded o k worker hash now until r w w1 held out w2 :
  transact others (reserve_settlement_operation (ob_ref (ob_terms o)) k hash worker now until) w = (Ok r, w1) →
  (∀ op, held op w1 = (Ok out, w2) → recorded (ob_ref (ob_terms o)) k (oc_receipt out) w2) →
  if_reserved o k r held w1 = (Ok out, w2) → oc_status out = o_succeeded →
  recorded (ob_ref (ob_terms o)) k (oc_receipt out) w2.
Proof.
  intros Hr Hheld. unfold if_reserved. destruct r as [op|]; [|by intros [= <- _]].
  unfold _terminal_outcome. destruct (op_state op) eqn:Hs; try (intros H _; by eapply Hheld); [|by intros [= <- _]].
  intros [= <- <-] _. simpl. exists op. split_and!; [|done..]. revert Hr. unfold transact, reserve_settlement_operation.
  destruct (SFleb until now); [done|]. destruct (obligations _ !! _); [|done].
  destruct (reservation_excluded _ _ _ _); [done|]. destruct (negb _); [done|].
  destruct (terminal (op_state (default _ _))) eqn:Ht.
  - intros [= Hop <-]. cbn [w_journal with_journal]. unfold rows in Hop.
    destruct (operations _ !! _) as [op'|]; simpl in Hop; [by subst|]. subst op. done.
  - destruct (held_by_other _ _ _); [done|]. destruct (mark_reserved _ _ _ _); [|done].
    intros [= Hop _]. subst op. done.
Qed.

Lemma effect_outcome_recorded o k worker u (call : M World EffectOutcome) w out w1 :
  attempt error_text error_message others o k worker u call (effect_done others o k worker) w = (Ok out, w1) →
  oc_status out = o_succeeded → recorded (ob_ref (ob_terms o)) k (oc_receipt out) w1.
Proof.
  unfold attempt. destruct (call w) as [[r|e] w0]; intros Hrun Hst.
  - unfold effect_done in Hrun. apply bind_run_Ok in Hrun as ([] & w2 & Hf & [= <- <-]).
    apply finish_records in Hf as (op & Hop & Hs & Hr). exists op. split_and!; [done|done|by apply Hr].
  - exfalso. destruct e; try (apply bind_run_Ok in Hrun as (? & ? & _ & [=])).
    by subst.
Qed.

(** C27: A collection or a reclaim reported as succeeded is recorded: the journal
    then holds the operation as succeeded, with the receipt reported. *)
Theorem reported_success_is_recorded ref p worker options w out w1 :
  sound (w_journal w) → oc_status out = o_succeeded →
  (collect dump_identity sha256 py_str error_text error_message others clients lease_seconds
     fulfillment_lease_seconds ref p worker w = (Ok out, w1) → recorded ref collect_op (oc_receipt out) w1) ∧
  (reclaim dump_identity sha256 py_str error_text error_message others clients lease_seconds
     fulfillment_lease_seconds ref p worker options w = (Ok out, w1) → recorded ref reclaim_op (oc_receipt out) w1).
Proof.
  intros Hs Hst. split; intros Hrun.
  - apply bind_run_Ok in Hrun as (o & w2 & Hl & Hrun). apply load_gives in Hl as [Hh Ho].
    assert (ob_ref (ob_terms o) = ref) as <- by (by apply (history_sound _ _ Hh Hs)).
    apply bind_run_Ok in Hrun as (_ & w3 & _ & Hrun). apply bind_run_Ok in Hrun as (m & w4 & _ & Hrun).
    destruct (negb _); [done|]. apply bind_run_Ok in Hrun as (f & w5 & _ & Hrun).
    apply bind_run_Ok in Hrun as (c & w6 & _ & Hrun). apply bind_run_Ok in Hrun as (r & w7 & Hr & Hrun).
    apply reserve_run in Hr as (hash & now & until & Hr).
    refine (reserved_outcome_recorded _ _ _ _ _ _ _ _ _ _ _ _ Hr _ Hrun Hst).
    intros op Ha. by eapply effect_outcome_recorded.
  - apply bind_run_Ok in Hrun as (o & w2 & Hl & Hrun). apply load_gives in Hl as [Hh Ho].
    assert (ob_ref (ob_terms o) = ref) as <- by (by apply (history_sound _ _ Hh Hs)).
    apply bind_run_Ok in Hrun as (_ & w3 & _ & Hrun). apply bind_run_Ok in Hrun as (m & w4 & _ & Hrun).
    apply bind_run_Ok in Hrun as (n & w5 & _ & Hrun). apply bind_run_Ok in Hrun as (x & w6 & _ & Hrun).
    destruct (SFltb _ _); [done|]. apply bind_run_Ok in Hrun as (_ & w7 & _ & Hrun).
    apply bind_run_Ok in Hrun as (c & w8 & _ & Hrun). apply bind_run_Ok in Hrun as (r & w9 & Hr & Hrun).
    apply reserve_run in Hr as (hash & now & until & Hr).
    refine (reserved_outcome_recorded _ _ _ _ _ _ _ _ _ _ _ _ Hr _ Hrun Hst).
    intros op Ha. by eapply effect_outcome_recorded.
Qed.
End runtime.

(** * Servicing's backoff *)

Definition backoff_in_bounds (attempts : Z) : bool :=
  match retry_backoff attempts with
  | Ok f => SFleb (float_of_int 30) f && SFleb f (float_of_int 1800)
  | Err _ => false
  end.

Lemma backoff_sampled : forallb (λ n, backoff_in_bounds (Z.of_nat n)) (seq 1 1024) = true.
Proof. vm_compute. reflexivity. Qed.

(** *** Powers of two as floats *)

Definition exact_record (m : Z) : shr_record := {| shr_m := m; shr_r := false; shr_s := false |}.

Lemma shr_1_double x : 0 < x → shr_1 (exact_record (2 * x)) = exact_record x.
Proof. by destruct x. Qed.

Lemma iter_shr_power n x :
  0 < x → iter_pos shr_1 n (exact_record (2 ^ Zpos n * x)) = exact_record x.
Proof.
  revert x. induction n as [n IH|n IH|]; intros x Hx; cbn [iter_pos].
  - assert (2 ^ Zpos n~1 * x = 2 * (2 ^ Zpos n * (2 ^ Zpos n * x))) as ->.
    { replace (Zpos n~1) with (1 + (Zpos n + Zpos n)) by lia.
      rewrite (Z.pow_add_r 2 1), (Z.pow_add_r 2 (Zpos n)) by lia. lia. }
    rewrite shr_1_double by lia. by rewrite !IH by lia.
  - assert (2 ^ Zpos n~0 * x = 2 ^ Zpos n * (2 ^ Zpos n * x)) as ->.
    { replace (Zpos n~0) with (Zpos n + Zpos n) by lia. rewrite (Z.pow_add_r 2 (Zpos n)) by lia. lia. }
    by rewrite !IH by lia.
  - apply (shr_1_double x Hx).
Qed.

Lemma Zdigits2_power k : 0 <= k → Zdigits2 (2 ^ k) = k + 1.
Proof.
  intros Hk. destruct (2 ^ k) as [|p|p] eqn:Hp; [lia| |lia]. cbn [Zdigits2].
  rewrite digits2_log2, <- Hp. by rewrite Z.log2_pow2.
Qed.

Lemma shr_fexp_power k :
  53 <= k → shr_fexp f_prec f_emax (2 ^ k) 0 loc_Exact = (exact_record (2 ^ 52), k - 52).
Proof.
  intros Hk. unfold shr_fexp, shr. rewrite Zdigits2_power by lia.
  replace (fexp f_prec f_emax (k + 1 + 0) - 0) with (k - 52) by (unfold fexp, emin, f_prec, f_emax; lia).
  destruct (k - 52) as [|n|n] eqn:Hn; [lia| |lia]. cbn [shr_record_of_loc].
  replace (2 ^ k) with (2 ^ Zpos n * 2 ^ 52) by (rewrite <- Z.pow_add_r by lia; f_equal; lia).
  fold (exact_record (2 ^ Zpos n * 2 ^ 52)). by rewrite iter_shr_power by lia.
Qed.

Lemma rounded_power k :
  1024 <= k → binary_round_aux f_prec f_emax false (2 ^ k) 0 loc_Exact = S754_infinity false.
Proof.
  intros Hk. unfold binary_round_aux. rewrite shr_fexp_power by lia.
  cbn [exact_record loc_of_shr_record shr_m shr_r shr_s round_nearest_even].
  unfold shr_fexp, shr. rewrite Zdigits2_power by lia.
  replace (fexp f_prec f_emax (52 + 1 + (k - 52)) - (k - 52)) with 0
    by (unfold fexp, emin, f_prec, f_emax; lia).
  cbn [shr_record_of_loc shr_m]. change (2 ^ 52) with 4503599627370496. cbv iota.
  by rewrite (proj2 (Z.leb_gt _ _)) by (unfold f_emax, f_prec; lia).
Qed.

(** [float(2**k)] overflows from the largest exponent on. *)
Lemma float_of_power k : 1024 <= k → float_of_Z (2 ^ k) = Err OverflowError.
Proof.
  intros Hk. unfold float_of_Z. replace (float_of_ratio (2 ^ k) 1) with (S754_infinity false); [done|].
  destruct (2 ^ k) as [|p|p] eqn:Hp; [lia| |lia].
  unfold float_of_ratio, SFdiv, SFdiv_core_binary. rewrite <- Hp, Zdigits2_power by lia.
  replace (Z.min _ _) with 0 by (unfold fexp, emin, f_prec, f_emax; simpl; lia).
  change (0 - 0 - 0) with 0. cbv iota.
  destruct (Z.div_eucl (2 ^ k) 1) as [q r] eqn:Hq.
  assert (q = 2 ^ k ∧ r = 0) as [-> ->].
  { pose proof (Z.div_1_r (2 ^ k)) as H1. pose proof (Z.mod_1_r (2 ^ k)) as H2.
    unfold Z.div, Z.modulo in *. rewrite Hq in *. done. }
  symmetry. by apply rounded_power.
Qed.

(** The wait is between half a minute and half an hour for up to 1024 attempts;
    from the next one on its power overflows a float. *)
Lemma retry_backoff_bounds attempts :
  1 <= attempts →
  (attempts <= 1024 → ∃ f, retry_backoff attempts = Ok f ∧
     SFleb (float_of_int 30) f = true ∧ SFleb f (float_of_int 1800) = true) ∧
  (1024 < attempts → retry_backoff attempts = Err OverflowError).
Proof.
  intros Ha. split; intros Hb; [|unfold retry_backoff; by rewrite float_of_power by lia].
  assert (backoff_in_bounds (Z.of_nat (Z.to_nat attempts)) = true) as Hin.
  { pose proof backoff_sampled as Hall. rewrite forallb_forall in Hall. apply Hall, in_seq. lia. }
  rewrite Z2Nat.id in Hin by lia. unfold backoff_in_bounds in Hin.
  destruct (retry_backoff attempts) as [f|]; [|done]. apply andb_prop in Hin. by exists f.
Qed.

(** ** A pass over an obligation that still waits *)

Section waiting.
Context {Identity : Type} `{!EqDecision Identity}.
Context (dump_identity : Identity → dict) (sha256 : string → string) (py_str : value → string).
Context (error_text error_message : py_error → string) (others : World (Identity := Identity) → World (Identity := Identity)).
Context (clients : string → option (EscrowClient (Identity := Identity))).
Context (lease_seconds fulfillment_lease_seconds : float) (wk : Worker (Identity := Identity)).

Local Abbreviation ask_status :=
  (reconcile_status dump_identity sha256 py_str error_text error_message others clients lease_seconds
     fulfillment_lease_seconds).
Local Abbreviation pass :=
  (_service_record dump_identity sha256 py_str error_text error_message others clients lease_seconds
     fulfillment_lease_seconds wk).

(** Neither ready, nor ended, nor collected. *)
Definition still_waits (o : Obligation Identity) : Prop :=
  (∀ s, mechanism_status o = Some s → s ∉ [es_ready; es_reclaimed; es_expired; es_failed; es_manual_required]) ∧
  collection_state o ≠ s_succeeded.

Lemma still_waits_schedules o now w status w1 o' w2 :
  let ref := ob_ref (ob_terms o) in
  ask_status ref (ob_claimant (ob_terms o)) (wk_id wk) w = (Ok status, w1) →
  oc_status status ≠ o_busy → oc_status status ≠ o_terminal →
  _load others ref w1 = (Ok o', w2) → still_waits o' →
  _service dump_identity sha256 py_str error_text error_message others clients lease_seconds
    fulfillment_lease_seconds wk o now w =
  (_schedule others ref status_op now None;; mret None) w2.
Proof.
  intros ref Hs Hbusy Hterm Hl [Hm Hc]. unfold _service, step. fold ref. rewrite Hs.
  rewrite bool_decide_eq_false_2 by done. unfold mbind at 1, M_bind at 1. rewrite Hl.
  assert (∀ s, s ∈ [es_ready; es_reclaimed; es_expired; es_failed; es_manual_required] →
    status_is o' s = false) as Hno.
  { intros s Hin. apply bool_decide_eq_false_2. intros He. by apply (Hm s He). }
  cbn [existsb]. rewrite !Hno by set_solver. cbn [orb andb negb].
  by rewrite !bool_decide_eq_false_2 by done.
Qed.

(** C28: a pass over an obligation whose mechanism still waits.  When the status
    was asked and is neither ready nor final, nothing was collected, and the
    status operation stays pending, then for up to 1024 attempts of it the pass
    records the next one between half a minute and half an hour ahead; from the
    1025th on that wait overflows, and instead the pass tells the domain's
    terminal hook that an operator is needed and ends: no wait is recorded and
    nothing is parked. *)
Theorem waiting_obligation_pass o now w status w1 o' w2 op :
  let ref := ob_ref (ob_terms o) in
  ask_status ref (ob_claimant (ob_terms o)) (wk_id wk) w = (Ok status, w1) →
  oc_status status ≠ o_busy → oc_status status ≠ o_terminal →
  _load others ref w1 = (Ok o', w2) → still_waits o' →
  load_settlement_operation ref status_op (w_journal (others w2)) = Some op → op_state op = s_pending →
  (op_attempts op <= 1024 → ∃ f,
     SFleb (float_of_int 30) f = true ∧ SFleb f (float_of_int 1800) = true ∧
     pass o now w =
       match transact others (λ _, schedule_settlement_retry ref status_op (float_add now f) None) (others w2) with
       | (Ok _, w3) => (Ok tt, w3)
       | (Err e, w3) => _terminal wk o "manual_required" (Some (error_text e)) w3
       end) ∧
  (1024 < op_attempts op →
     pass o now w = _terminal wk o "manual_required" (Some (error_text OverflowError)) (others w2)).
Proof.
  intros ref Hs Hbusy Hterm Hl Hw Hop Hpending. unfold _service_record.
  rewrite (still_waits_schedules o now w status w1 o' w2 Hs Hbusy Hterm Hl Hw). fold ref.
  unfold _schedule, query, transact, mbind, M_bind, mret, M_ret, lift. cbn [with_journal w_journal w_stamp].
  rewrite Hop, Hpending, bool_decide_eq_true_2 by done.
  replace (Z.max 1 (if op_attempts op =? 0 then 1 else op_attempts op)) with (Z.max 1 (op_attempts op))
    by (destruct (Z.eqb_spec (op_attempts op) 0); lia).
  destruct (retry_backoff_bounds (Z.max 1 (op_attempts op))) as [Hlow Hhigh]; [lia|].
  assert (with_journal (w_journal (others w2)) (others w2) = others w2) as Hsame by by destruct (others w2).
  split; intros Ha.
  - destruct (Hlow ltac:(lia)) as (f & Hf & H30 & H1800). exists f. split_and!; [done..|].
    rewrite Hf, Hsame. by destruct (schedule_settlement_retry _ _ _ _ _) as [[[] j]|e].
  - by rewrite (Hhigh ltac:(lia)), Hsame.
Qed.
End waiting.

(** * An obligation from registration to collection *)

Module SettlementDemo.

Definition terms : Terms string :=
  {| ob_ref := "o"; ob_agreement_ref := "agreement"; ob_index := 0; ob_hash := "terms";
     ob_obligation := [("mechanism", VStr "escrow"); ("expiration_unix", VInt 1000)]; ob_payer := "buyer";
     ob_claimant := "seller" |}.

Definition t (z : Z) : float := float_of_int z.

Definition materialized : Finish :=
  {| fn_state := s_succeeded; fn_receipt := Some [("tx", VStr "1")]; fn_last_error := None; fn_uncertain := false;
     fn_mechanism_ref := Some "escrow-1"; fn_mechanism_status := Some es_ready; fn_mechanism_state := Some [];
     fn_buyer_action := None; fn_condition_anchor := None; fn_condition_state := None; fn_next_attempt := None |}.

(** Registered, funded, and its fulfillment published. *)
Definition opening : list (JournalCall string) :=
  [Register terms "t0"; Reserve "o" materialize_op "m" "w" (t 100) (t 200) "t1";
   FinishOperation "o" materialize_op "w" materialized "t2"; Reserve "o" fulfill_op "f" "w" (t 110) (t 1000) "t3";
   WriteField "o" fulfill_op "w" "reference" (VStr "pub-1") true].
(** Its fulfillment bound, and its conditions found ready. *)
Definition checking : list (JournalCall string) :=
  [BindFulfillment "o" "pub-1" "t4";
   FinishOperation "o" fulfill_op "w" (with_receipt [("fulfillment_ref", VStr "pub-1")]) "t5";
   Reserve "o" check_op "c" "w" (t 120) (t 200) "t6";
   FinishOperation "o" check_op "w" (effect_finish s_succeeded None None [] (Some c_ready)) "t7"].
Definition intruding : list (JournalCall string) :=
  [Reserve "o" fulfill_op "f" "thief" (t 120) (t 300) "t4";
   FinishOperation "o" fulfill_op "thief" (no_finish s_pending) "t4"; Wake "o"].

Definition opened : Journal string := perform_all opening empty_journal.
Definition checked : Journal string := perform_all checking opened.

Definition row (j : Journal string) (k : OperationKind) : Operation := default (new_operation "") (operations j !! ("o", k)).
Definition obligation (j : Journal string) : Obligation string := default (new_obligation terms) (obligations j !! "o").

Lemma opened_keyed : keyed opened.
Proof. apply perform_all_keyed, empty_keyed. Qed.
Lemma checked_sound : sound checked.
Proof. apply perform_all_sound, perform_all_sound, empty_sound. Qed.

Lemma decided_operation_is_final_witness :
  terminal (op_state (row opened materialize_op)) = true ∧
  operations (perform_all (checking ++ opening) opened) !! ("o", materialize_op) = Some (row opened materialize_op).
Proof.
  split; [by vm_compute|]. apply decided_operation_is_final; [apply opened_keyed|by vm_compute..].
Defined.

Lemma lease_excludes_others_witness :
  operations (perform_all intruding opened) !! ("o", fulfill_op) = Some (row opened fulfill_op) ∧
  (∀ hash w now until' stamp r j', w ≠ "w" → SFleb now (t 1000) = true →
     reserve_settlement_operation "o" fulfill_op hash w now until' stamp (perform_all intruding opened) = Ok (r, j') →
     r = None).
Proof.
  apply (lease_excludes_others intruding opened "o" fulfill_op (row opened fulfill_op) "w" (t 1000));
    [apply opened_keyed|by vm_compute..|]. by repeat constructor.
Defined.

Lemma recorded_publication_is_kept_witness :
  op_receipt (row opened fulfill_op) = Some [("reference", VStr "pub-1")] ∧
  receipt_grown (op_receipt (row opened fulfill_op)) (operations (perform_all intruding opened) !! ("o", fulfill_op)).
Proof.
  split; [by vm_compute|]. apply recorded_publication_is_kept; [apply opened_keyed|by vm_compute..|].
  repeat constructor.
Defined.

Lemma bindings_are_written_once_witness :
  fulfillment_ref (obligation checked) = Some "pub-1" ∧
  ∃ o', obligations (perform_all intruding checked) !! "o" = Some o' ∧
        bindings_kept (obligation checked) o' (is_Some (operations checked !! ("o", materialize_op))).
Proof.
  split; [by vm_compute|]. apply bindings_are_written_once; [apply checked_sound|by vm_compute].
Defined.

Definition collecting : list (JournalCall string) :=
  opening ++ checking ++ [Reserve "o" collect_op "k" "w" (t 130) (t 200) "t8"].

Lemma effects_exclude_each_other_witness :
  let j := perform_all collecting empty_journal in
  in_progress (operations j !! ("o", collect_op)) = true ∧
  ¬ (in_progress (operations j !! ("o", collect_op)) = true ∧ in_progress (operations j !! ("o", reclaim_op)) = true) ∧
  (in_progress (operations j !! ("o", collect_op)) = true → taken (collection_state (obligation j)) = true) ∧
  (in_progress (operations j !! ("o", reclaim_op)) = true →
     taken (reclaim_state (obligation j)) = true ∧
     (fulfillment_ref (obligation j) = None ∨ succeeded (operations j !! ("o", cleanup_op)) = true)).
Proof. split; [by vm_compute|]. apply effects_exclude_each_other. by vm_compute. Defined.

(** ** The runtime on it *)

Local Abbreviation World := (World (Identity := string)).

Definition answer {A} (a : A) : M World A := mret a.
Definition funded (s : EscrowStatus) (state : dict) : StatusOutcome :=
  {| so_status := s; so_mechanism_ref := "escrow-1"; so_buyer_action := None; so_condition_anchor := None;
     so_receipt := None; so_mechanism_state := state; so_last_error := None |}.
(** A mechanism that reports [status]. *)
Definition mechanism (status : StatusOutcome) : EscrowClient (Identity := string) :=
  {| cl_materialize := λ _ _, raise (RuntimeError "funded already"); cl_get_status := λ _ _ _ _, answer status;
     cl_check := λ _ _ _ _ _,
       answer {| co_decision := c_ready; co_receipt := None; co_mechanism_state := []; co_last_error := None |};
     cl_collect := λ _ _ _ _ _, answer {| eo_receipt := [("tx", VStr "2")]; eo_mechanism_state := [] |};
     cl_reclaim_expired := λ _ _ _ _ _, answer {| eo_receipt := [("tx", VStr "3")]; eo_mechanism_state := [] |} |}.
(** One that answers a collection or a reclaim only of what the worker holds. *)
Definition cautious (c : EscrowClient (Identity := string)) : EscrowClient :=
  let held k (m : M World EffectOutcome) : M World EffectOutcome := λ w,
    if held_by "w" (operations (w_journal w) !! ("o", k)) then m w else (Err (RuntimeError "not held"), w) in
  {| cl_materialize := cl_materialize c; cl_get_status := cl_get_status c; cl_check := cl_check c;
     cl_collect := λ a b d e f, held collect_op (cl_collect c a b d e f);
     cl_reclaim_expired := λ a b d e f, held reclaim_op (cl_reclaim_expired c a b d e f) |}.

Definition table (c : EscrowClient (Identity := string)) (m : string) : option EscrowClient :=
  if bool_decide (m = "escrow") then Some c else None.
Definition ready : EscrowClient := mechanism (funded es_ready []).

Definition world (j : Journal string) (now : Z) : World := {| w_journal := j; w_now := t now; w_stamp := "t9" |}.
Definition dump (p : string) : dict := [("id", VStr p)].
Definition read (v : value) : result string := match v with VStr s => Ok s | _ => Err (ValueError "identity") end.
Definition digest (s : string) : string := s.
Definition text (v : value) : string := "".
Definition reason (e : py_error) : string := "error".

Lemma ready_commits m c : table ready m = Some c → client_commits c.
Proof.
  unfold table. case_bool_decide; [intros [= <-]|done].
  split_and!; intros; [apply commits_raise|apply commits_ret..].
Qed.

Lemma id_commits (w : World) : history_of w (id w).
Proof. apply history_refl. Qed.

Local Abbreviation service := (serve dump read digest text reason reason id (table ready) (t 30) (t 900)).
Definition hooks : Worker (Identity := string) := {| wk_id := "w"; wk_on_terminal := None; wk_on_ready := None |}.

Lemma hooks_commit_nothing : hooks_commit (ServiceObligation hooks "o").
Proof. by split. Qed.

Lemma runtime_performs_histories_witness :
  ∃ l, Forall fulfillment_discipline l ∧
       w_journal (service (ServiceObligation hooks "o") (world checked 150)).2
       = perform_all l (w_journal (world checked 150)).
Proof.
  exact (runtime_performs_histories dump read digest text reason reason id id_commits (table ready) (t 30) (t 900)
           ready_commits (ServiceObligation hooks "o") (world checked 150) hooks_commit_nothing).
Defined.

Lemma collect_asked_while_held_witness :
  collect dump digest text reason reason id (table ready) (t 30) (t 900) "o" "seller" "w" (world checked 150)
  = collect dump digest text reason reason id (table (cautious ready)) (t 30) (t 900) "o" "seller" "w"
      (world checked 150).
Proof.
  apply (collect_asked_while_held dump digest text reason reason id id_commits (table ready) (t 30) (t 900)); [apply checked_sound|].
  intros m. unfold table. case_bool_decide; [|done]. intros a b d e f w (o & _ & _ & Hh & _).
  simpl. unfold rows in Hh. by rewrite Hh.
Defined.

Definition unfulfilled : Journal string := perform_all (firstn 3 opening) empty_journal.

Lemma reclaim_asked_while_held_witness :
  reclaim dump digest text reason reason id (table ready) (t 30) (t 900) "o" "buyer" "w" [] (world unfulfilled 1500)
  = reclaim dump digest text reason reason id (table (cautious ready)) (t 30) (t 900) "o" "buyer" "w" []
      (world unfulfilled 1500).
Proof.
  apply (reclaim_asked_while_held dump digest text reason reason id id_commits (table ready) (t 30) (t 900)); [apply perform_all_sound, empty_sound|].
  intros m. unfold table. case_bool_decide; [|done]. intros a b d e f w (o & _ & _ & Hh & _).
  simpl. unfold rows in Hh. by rewrite Hh.
Defined.

Local Abbreviation collected := (collect dump digest text reason reason id (table ready) (t 30) (t 900) "o" "seller" "w").
Local Abbreviation reclaimed := (reclaim dump digest text reason reason id (table ready) (t 30) (t 900) "o" "buyer" "w" []).
Definition outcome (k : OperationKind) (tx : string) : SettlementOperationOutcome :=
  {| oc_obligation_ref := "o"; oc_operation := k; oc_status := o_succeeded; oc_action := None;
     oc_receipt := Some [("tx", VStr tx)]; oc_attempts := None |}.

Lemma world_sound : sound (w_journal (world checked 150)).
Proof. apply checked_sound. Qed.

Definition settled_world : World := (collected (world checked 150)).2.

Lemma reported_success_is_recorded_witness :
  collected (world checked 150) = (Ok (outcome collect_op "2"), settled_world) ∧
  recorded "o" collect_op (oc_receipt (outcome collect_op "2")) settled_world.
Proof.
  assert (collected (world checked 150) = (Ok (outcome collect_op "2"), settled_world)) as He
    by (vm_compute; reflexivity).
  split; [exact He|].
  exact (proj1 (reported_success_is_recorded dump digest text reason reason id id_commits (table ready) (t 30) (t 900)
                  "o" "seller" "w" [] (world checked 150) (outcome collect_op "2") settled_world
                  world_sound eq_refl) He).
Defined.

Example reclaim_of_unfulfilled : (reclaimed (world unfulfilled 1500)).1 = Ok (outcome reclaim_op "3").
Proof. vm_compute. reflexivity. Qed.
Example reclaim_before_expiry : (reclaimed (world unfulfilled 999)).1 = Err (ValueError "obligation has not expired").
Proof. vm_compute. reflexivity. Qed.
Example reclaim_of_checked_is_busy :
  (reclaimed (world checked 1500)).1
  = Ok {| oc_obligation_ref := "o"; oc_operation := reclaim_op; oc_status := o_busy; oc_action := None;
          oc_receipt := None; oc_attempts := None |}.
Proof. vm_compute. reflexivity. Qed.
(** A sweep checks nothing again, and collects. *)
Example sweep_collects :
  let w := (service (Sweep hooks 50) (world checked 150)).2 in
  collection_state (obligation (w_journal w)) = s_succeeded ∧
  collection_receipt (obligation (w_journal w)) = Some [("tx", VStr "2")].
Proof. vm_compute. by split. Qed.

(** ** What the code does not exclude *)

Definition in_flight : Journal string := perform_all collecting empty_journal.

Lemma same_worker_is_not_busy_witness :
  op_request_hash (row in_flight collect_op) = "k" ∧
  ∃ j', reserve_settlement_operation "o" collect_op (op_request_hash (row in_flight collect_op)) "w" (t 140) (t 210)
          "t9" in_flight
        = Ok (Some (leased_to "w" (t 210) (row in_flight collect_op)), j').
Proof.
  split; [by vm_compute|].
  apply (same_worker_is_not_busy "o" collect_op "w" (t 140) (t 210) "t9" in_flight (obligation in_flight)); by vm_compute.
Defined.

Definition monitored : dict := [("terminal_risk_monitoring", VBool true)].
Definition risky (status : EscrowStatus) : EscrowClient (Identity := string) :=
  let c := mechanism (funded status monitored) in
  {| cl_materialize := cl_materialize c; cl_get_status := cl_get_status c; cl_check := cl_check c;
     cl_collect := λ _ _ _ _ _, answer {| eo_receipt := [("tx", VStr "2")]; eo_mechanism_state := monitored |};
     cl_reclaim_expired := cl_reclaim_expired c |}.

(** A collected obligation whose mechanism is still monitored, and reports its
    funding reclaimed, is recorded as collected and as reclaimed. *)
Theorem collected_and_reclaimed :
  let w1 := (collect dump digest text reason reason id (table (risky es_ready)) (t 30) (t 900) "o" "seller" "w"
               (world checked 150)).2 in
  let w2 := (reconcile_status dump digest text reason reason id (table (risky es_reclaimed)) (t 30) (t 900)
               "o" "seller" "w" w1).2 in
  collection_state (obligation (w_journal w2)) = s_succeeded ∧ reclaim_state (obligation (w_journal w2)) = s_succeeded.
Proof. vm_compute. by split. Qed.

(** A status polled [n] times, still pending. *)
Fixpoint polls (hash : string) (n : nat) : list (JournalCall string) :=
  match n with
  | O => []
  | S n => Reserve "o" status_op hash "w" (t 120) (t 130) "t4" :: FinishOperation "o" status_op "w" (no_finish s_pending) "t4"
           :: polls hash n
  end.
Definition status_hash : string :=
  match _request_hash dump digest (obligation unfulfilled) status_op "seller" [] with Ok h => h | Err _ => "" end.
(** A terminal hook that leaves what it was told as the stamp. *)
Definition told : Worker (Identity := string) :=
  {| wk_id := "w"; wk_on_ready := None;
     wk_on_terminal := Some (λ _ outcome _ w, (Ok tt, {| w_journal := w_journal w; w_now := w_now w; w_stamp := outcome |})) |}.

(** The status was asked 1024 times before this pass. *)
Definition waiting_world : World := world (perform_all (polls status_hash 1024) unfulfilled) 5000.
Definition waiting_table : string → option (EscrowClient (Identity := string)) :=
  table (mechanism (funded es_pending [])).
Definition waiting_obligation : Obligation string := obligation (w_journal waiting_world).
Definition asked_status : result SettlementOperationOutcome * World :=
  reconcile_status dump digest text reason reason id waiting_table (t 30) (t 900) "o" "seller" "w" waiting_world.
Definition asked_outcome : SettlementOperationOutcome :=
  match asked_status.1 with Ok s => s | Err _ => outcome status_op "" end.
Definition waiting_pass : result () * World :=
  _service_record dump digest text reason reason id waiting_table (t 30) (t 900) told waiting_obligation (t 5000)
    waiting_world.

Lemma waiting_obligation_pass_witness :
  op_attempts (row (w_journal asked_status.2) status_op) = 1025 ∧
  waiting_pass =
    _terminal told waiting_obligation "manual_required" (Some (reason OverflowError)) (id asked_status.2) ∧
  w_stamp waiting_pass.2 = "manual_required" ∧
  op_next_attempt (row (w_journal waiting_pass.2) status_op) = None.
Proof.
  split; [vm_compute; reflexivity|]. split; [|split; vm_compute; reflexivity].
  unfold waiting_pass.
  refine (proj2 (waiting_obligation_pass dump digest text reason reason id waiting_table (t 30) (t 900) told
           waiting_obligation (t 5000) waiting_world asked_outcome asked_status.2
           (obligation (w_journal asked_status.2)) asked_status.2
           (row (w_journal asked_status.2) status_op) _ _ _ _ _ _ _) _).
  - vm_compute. reflexivity.
  - vm_compute. discriminate.
  - vm_compute. discriminate.
  - vm_compute. reflexivity.
  - split; [|vm_compute; discriminate].
    assert (mechanism_status (obligation (w_journal asked_status.2)) = Some es_pending) as ->
      by (vm_compute; reflexivity).
    intros s [= <-]. by apply (bool_decide_unpack _).
  - vm_compute. reflexivity.
  - vm_compute. reflexivity.
  - vm_compute. reflexivity.
Defined.

End SettlementDemo.
