(* ===== verification/Settlement.v ===== *)
(** The settlement/fulfillment aggregate: its rows ([market_fulfillment/db.py]),
    the transition table ([transitions.py]), the request shapes
    ([settlement_types.py]) and the repository ([settlement_repository.py]).

    The repository's methods run in a caller's session and never commit, so
    they are state-passing functions on the tables; [claim_pending] commits
    its own transaction.  pydantic's coercion of a JSON value to a finite
    [Decimal] is a parameter. *)
From S2P Require Import Prelude PyNum PyValue PyTime PoolDeclarations LedgerTypes.
From S2P Require Import LedgerMatching.
From S2P Require Import LedgerLifecycle.

Local Open Scope Z_scope.

(** ** States and transitions *)

Inductive SettlementRecordState : Type :=
  | assigned | dispatch_pending | dispatching | active | failed
  | teardown_dispatch_pending | tearing_down | torn_down | teardown_failed | abandoned.

#[export] Instance SettlementRecordState_eq_dec : EqDecision SettlementRecordState.
Proof. solve_decision. Defined.

Definition settlement_states : list SettlementRecordState :=
  [assigned; dispatch_pending; dispatching; active; failed; teardown_dispatch_pending;
   tearing_down; torn_down; teardown_failed; abandoned].

Definition settlement_state_value (s : SettlementRecordState) : string :=
  match s with
  | assigned => "assigned"
  | dispatch_pending => "dispatch_pending"
  | dispatching => "dispatching"
  | active => "active"
  | failed => "failed"
  | teardown_dispatch_pending => "teardown_dispatch_pending"
  | tearing_down => "tearing_down"
  | torn_down => "torn_down"
  | teardown_failed => "teardown_failed"
  | abandoned => "abandoned"
  end.

(** [SettlementRecordState(text)]. *)
Definition parse_settlement_state (text : string) : option SettlementRecordState :=
  find_by settlement_state_value text settlement_states.

Definition _ALLOWED_TRANSITIONS (s : SettlementRecordState) : list SettlementRecordState :=
  match s with
  | assigned => [dispatch_pending; abandoned]
  | dispatch_pending => [dispatching; failed]
  | dispatching => [active; failed]
  | active => [teardown_dispatch_pending]
  | teardown_dispatch_pending => [tearing_down; teardown_failed]
  | tearing_down => [torn_down; teardown_failed]
  | teardown_failed => [teardown_dispatch_pending]
  | failed => [teardown_dispatch_pending]
  | torn_down => []
  | abandoned => []
  end.

Definition validate_transition (current target : string) : result SettlementRecordState :=
  match parse_settlement_state current, parse_settlement_state target with
  | Some c, Some t =>
      if bool_decide (t ∈ _ALLOWED_TRANSITIONS c) then Ok t
      else Err (InvalidSettlementTransitionError current target)
  | _, _ => Err (InvalidSettlementTransitionError current target)
  end.

(** ** Request shapes *)

Record SettlementRequirement : Type := {
  rq_offering_mode : string;
  rq_resource_kind : string;
  rq_dimensions : amounts;
  rq_attributes : dict;
}.

(** [SettlementRequirement(...)]: at least one positive finite quantity. *)
Definition make_requirement (coerce : value → option decimal) (mode kind_ : string)
    (dims attrs : dict) : result SettlementRequirement :=
  let positive v label :=
    match coerce v with
    | Some a => if dec_leb a dec0 then Err (ValueError label) else Ok a
    | None => Err (ValueError label)
    end in
  if bool_decide (mode = ""%string) then Err (ValueError "offering_mode")
  else if bool_decide (dims = []) then Err (ValueError "dimensions")
  else
    m ← amounts_of positive dims;
    Ok {| rq_offering_mode := mode; rq_resource_kind := kind_; rq_dimensions := m;
          rq_attributes := attrs |}.

(** Equality of the serialized forms: a [Decimal] is serialized as its text,
    so quantities compare digit for digit. *)
Definition requirement_eqb (a b : SettlementRequirement) : bool :=
  bool_decide (rq_offering_mode a = rq_offering_mode b) &&
  bool_decide (rq_resource_kind a = rq_resource_kind b) &&
  bool_decide (rq_dimensions a = rq_dimensions b) &&
  py_eq (VDict (rq_attributes a)) (VDict (rq_attributes b)).

Record SettlementResource : Type := {
  sres_offering_mode : string;
  sres_settlement_resource_id : string;
  sres_pool_id : string;
  sres_resource_kind : string;
  sres_provider : string;
  sres_attributes : dict;
  sres_host_id : option string;
  sres_dimensions : amounts;
}.

(** ** Rows *)

Record SettlementRecord : Type := {
  sr_reservation_id : string;
  sr_fulfillment_id : option string;
  sr_market : string;
  sr_requirements : SettlementRequirement;
  sr_resource_id_constraint : option string;
  sr_settlement_resource_id : string;
  sr_pool_id : string;
  sr_provider : string;
  sr_resource_attributes : dict;
  sr_resource_host_id : option string;
  sr_fulfillment_request : option value;
  sr_prepared_create_operation : value;
  sr_prepared_teardown_operation : value;
  sr_provider_metadata : value;
  sr_teardown_provider_metadata : value;
  sr_failure_reason : value;
  sr_failure_message : value;
  sr_state : SettlementRecordState;
  sr_claimed_by : option string;
  sr_claim_expires_at : option datetime;
  sr_attempt_count : Z;
  sr_created_at : Z;
}.

Record SchedulingCursor : Type := {
  last_pool_id : option string;
  last_resource_by_pool : gmap string string;
}.

Definition fresh_cursor : SchedulingCursor :=
  {| last_pool_id := None; last_resource_by_pool := ∅ |}.

Record ProvisionedResource : Type := {
  pr_id : string;
  pr_reservation_id : string;
  pr_fulfillment_id : string;
  pr_status : string;
  pr_created_at : Z;
}.

Record FDB : Type := {
  records : list SettlementRecord;
  cursors : gmap string SchedulingCursor;
  provisioned : list ProvisionedResource;
}.

Section assignments.
Implicit Types r : SettlementRecord.

Definition set_sr_fulfillment_id (x : option string) r : SettlementRecord :=
  {| sr_reservation_id := sr_reservation_id r; sr_fulfillment_id := x; sr_market := sr_market
     r; sr_requirements := sr_requirements r; sr_resource_id_constraint :=
     sr_resource_id_constraint r; sr_settlement_resource_id := sr_settlement_resource_id r;
     sr_pool_id := sr_pool_id r; sr_provider := sr_provider r; sr_resource_attributes :=
     sr_resource_attributes r; sr_resource_host_id := sr_resource_host_id r;
     sr_fulfillment_request := sr_fulfillment_request r; sr_prepared_create_operation :=
     sr_prepared_create_operation r; sr_prepared_teardown_operation :=
     sr_prepared_teardown_operation r; sr_provider_metadata := sr_provider_metadata r;
     sr_teardown_provider_metadata := sr_teardown_provider_metadata r; sr_failure_reason :=
     sr_failure_reason r; sr_failure_message := sr_failure_message r; sr_state := sr_state r;
     sr_claimed_by := sr_claimed_by r; sr_claim_expires_at := sr_claim_expires_at r;
     sr_attempt_count := sr_attempt_count r; sr_created_at := sr_created_at r |}.

Definition set_sr_fulfillment_request (x : option value) r : SettlementRecord :=
  {| sr_reservation_id := sr_reservation_id r; sr_fulfillment_id := sr_fulfillment_id r;
     sr_market := sr_market r; sr_requirements := sr_requirements r; sr_resource_id_constraint
     := sr_resource_id_constraint r; sr_settlement_resource_id := sr_settlement_resource_id r;
     sr_pool_id := sr_pool_id r; sr_provider := sr_provider r; sr_resource_attributes :=
     sr_resource_attributes r; sr_resource_host_id := sr_resource_host_id r;
     sr_fulfillment_request := x; sr_prepared_create_operation := sr_prepared_create_operation
     r; sr_prepared_teardown_operation := sr_prepared_teardown_operation r;
     sr_provider_metadata := sr_provider_metadata r; sr_teardown_provider_metadata :=
     sr_teardown_provider_metadata r; sr_failure_reason := sr_failure_reason r;
     sr_failure_message := sr_failure_message r; sr_state := sr_state r; sr_claimed_by :=
     sr_claimed_by r; sr_claim_expires_at := sr_claim_expires_at r; sr_attempt_count :=
     sr_attempt_count r; sr_created_at := sr_created_at r |}.

Definition set_sr_prepared_create_operation (x : value) r : SettlementRecord :=
  {| sr_reservation_id := sr_reservation_id r; sr_fulfillment_id := sr_fulfillment_id r;
     sr_market := sr_market r; sr_requirements := sr_requirements r; sr_resource_id_constraint
     := sr_resource_id_constraint r; sr_settlement_resource_id := sr_settlement_resource_id r;
     sr_pool_id := sr_pool_id r; sr_provider := sr_provider r; sr_resource_attributes :=
     sr_resource_attributes r; sr_resource_host_id := sr_resource_host_id r;
     sr_fulfillment_request := sr_fulfillment_request r; sr_prepared_create_operation := x;
     sr_prepared_teardown_operation := sr_prepared_teardown_operation r; sr_provider_metadata
     := sr_provider_metadata r; sr_teardown_provider_metadata := sr_teardown_provider_metadata
     r; sr_failure_reason := sr_failure_reason r; sr_failure_message := sr_failure_message r;
     sr_state := sr_state r; sr_claimed_by := sr_claimed_by r; sr_claim_expires_at :=
     sr_claim_expires_at r; sr_attempt_count := sr_attempt_count r; sr_created_at :=
     sr_created_at r |}.

Definition set_sr_prepared_teardown_operation (x : value) r : SettlementRecord :=
  {| sr_reservation_id := sr_reservation_id r; sr_fulfillment_id := sr_fulfillment_id r;
     sr_market := sr_market r; sr_requirements := sr_requirements r; sr_resource_id_constraint
     := sr_resource_id_constraint r; sr_settlement_resource_id := sr_settlement_resource_id r;
     sr_pool_id := sr_pool_id r; sr_provider := sr_provider r; sr_resource_attributes :=
     sr_resource_attributes r; sr_resource_host_id := sr_resource_host_id r;
     sr_fulfillment_request := sr_fulfillment_request r; sr_prepared_create_operation :=
     sr_prepared_create_operation r; sr_prepared_teardown_operation := x; sr_provider_metadata
     := sr_provider_metadata r; sr_teardown_provider_metadata := sr_teardown_provider_metadata
     r; sr_failure_reason := sr_failure_reason r; sr_failure_message := sr_failure_message r;
     sr_state := sr_state r; sr_claimed_by := sr_claimed_by r; sr_claim_expires_at :=
     sr_claim_expires_at r; sr_attempt_count := sr_attempt_count r; sr_created_at :=
     sr_created_at r |}.

Definition set_sr_provider_metadata (x : value) r : SettlementRecord :=
  {| sr_reservation_id := sr_reservation_id r; sr_fulfillment_id := sr_fulfillment_id r;
     sr_market := sr_market r; sr_requirements := sr_requirements r; sr_resource_id_constraint
     := sr_resource_id_constraint r; sr_settlement_resource_id := sr_settlement_resource_id r;
     sr_pool_id := sr_pool_id r; sr_provider := sr_provider r; sr_resource_attributes :=
     sr_resource_attributes r; sr_resource_host_id := sr_resource_host_id r;
     sr_fulfillment_request := sr_fulfillment_request r; sr_prepared_create_operation :=
     sr_prepared_create_operation r; sr_prepared_teardown_operation :=
     sr_prepared_teardown_operation r; sr_provider_metadata := x;
     sr_teardown_provider_metadata := sr_teardown_provider_metadata r; sr_failure_reason :=
     sr_failure_reason r; sr_failure_message := sr_failure_message r; sr_state := sr_state r;
     sr_claimed_by := sr_claimed_by r; sr_claim_expires_at := sr_claim_expires_at r;
     sr_attempt_count := sr_attempt_count r; sr_created_at := sr_created_at r |}.

Definition set_sr_teardown_provider_metadata (x : value) r : SettlementRecord :=
  {| sr_reservation_id := sr_reservation_id r; sr_fulfillment_id := sr_fulfillment_id r;
     sr_market := sr_market r; sr_requirements := sr_requirements r; sr_resource_id_constraint
     := sr_resource_id_constraint r; sr_settlement_resource_id := sr_settlement_resource_id r;
     sr_pool_id := sr_pool_id r; sr_provider := sr_provider r; sr_resource_attributes :=
     sr_resource_attributes r; sr_resource_host_id := sr_resource_host_id r;
     sr_fulfillment_request := sr_fulfillment_request r; sr_prepared_create_operation :=
     sr_prepared_create_operation r; sr_prepared_teardown_operation :=
     sr_prepared_teardown_operation r; sr_provider_metadata := sr_provider_metadata r;
     sr_teardown_provider_metadata := x; sr_failure_reason := sr_failure_reason r;
     sr_failure_message := sr_failure_message r; sr_state := sr_state r; sr_claimed_by :=
     sr_claimed_by r; sr_claim_expires_at := sr_claim_expires_at r; sr_attempt_count :=
     sr_attempt_count r; sr_created_at := sr_created_at r |}.

Definition set_sr_failure_reason (x : value) r : SettlementRecord :=
  {| sr_reservation_id := sr_reservation_id r; sr_fulfillment_id := sr_fulfillment_id r;
     sr_market := sr_market r; sr_requirements := sr_requirements r; sr_resource_id_constraint
     := sr_resource_id_constraint r; sr_settlement_resource_id := sr_settlement_resource_id r;
     sr_pool_id := sr_pool_id r; sr_provider := sr_provider r; sr_resource_attributes :=
     sr_resource_attributes r; sr_resource_host_id := sr_resource_host_id r;
     sr_fulfillment_request := sr_fulfillment_request r; sr_prepared_create_operation :=
     sr_prepared_create_operation r; sr_prepared_teardown_operation :=
     sr_prepared_teardown_operation r; sr_provider_metadata := sr_provider_metadata r;
     sr_teardown_provider_metadata := sr_teardown_provider_metadata r; sr_failure_reason := x;
     sr_failure_message := sr_failure_message r; sr_state := sr_state r; sr_claimed_by :=
     sr_claimed_by r; sr_claim_expires_at := sr_claim_expires_at r; sr_attempt_count :=
     sr_attempt_count r; sr_created_at := sr_created_at r |}.

Definition set_sr_failure_message (x : value) r : SettlementRecord :=
  {| sr_reservation_id := sr_reservation_id r; sr_fulfillment_id := sr_fulfillment_id r;
     sr_market := sr_market r; sr_requirements := sr_requirements r; sr_resource_id_constraint
     := sr_resource_id_constraint r; sr_settlement_resource_id := sr_settlement_resource_id r;
     sr_pool_id := sr_pool_id r; sr_provider := sr_provider r; sr_resource_attributes :=
     sr_resource_attributes r; sr_resource_host_id := sr_resource_host_id r;
     sr_fulfillment_request := sr_fulfillment_request r; sr_prepared_create_operation :=
     sr_prepared_create_operation r; sr_prepared_teardown_operation :=
     sr_prepared_teardown_operation r; sr_provider_metadata := sr_provider_metadata r;
     sr_teardown_provider_metadata := sr_teardown_provider_metadata r; sr_failure_reason :=
     sr_failure_reason r; sr_failure_message := x; sr_state := sr_state r; sr_claimed_by :=
     sr_claimed_by r; sr_claim_expires_at := sr_claim_expires_at r; sr_attempt_count :=
     sr_attempt_count r; sr_created_at := sr_created_at r |}.

Definition set_sr_state (x : SettlementRecordState) r : SettlementRecord :=
  {| sr_reservation_id := sr_reservation_id r; sr_fulfillment_id := sr_fulfillment_id r;
     sr_market := sr_market r; sr_requirements := sr_requirements r; sr_resource_id_constraint
     := sr_resource_id_constraint r; sr_settlement_resource_id := sr_settlement_resource_id r;
     sr_pool_id := sr_pool_id r; sr_provider := sr_provider r; sr_resource_attributes :=
     sr_resource_attributes r; sr_resource_host_id := sr_resource_host_id r;
     sr_fulfillment_request := sr_fulfillment_request r; sr_prepared_create_operation :=
     sr_prepared_create_operation r; sr_prepared_teardown_operation :=
     sr_prepared_teardown_operation r; sr_provider_metadata := sr_provider_metadata r;
     sr_teardown_provider_metadata := sr_teardown_provider_metadata r; sr_failure_reason :=
     sr_failure_reason r; sr_failure_message := sr_failure_message r; sr_state := x;
     sr_claimed_by := sr_claimed_by r; sr_claim_expires_at := sr_claim_expires_at r;
     sr_attempt_count := sr_attempt_count r; sr_created_at := sr_created_at r |}.

Definition set_sr_claimed_by (x : option string) r : SettlementRecord :=
  {| sr_reservation_id := sr_reservation_id r; sr_fulfillment_id := sr_fulfillment_id r;
     sr_market := sr_market r; sr_requirements := sr_requirements r; sr_resource_id_constraint
     := sr_resource_id_constraint r; sr_settlement_resource_id := sr_settlement_resource_id r;
     sr_pool_id := sr_pool_id r; sr_provider := sr_provider r; sr_resource_attributes :=
     sr_resource_attributes r; sr_resource_host_id := sr_resource_host_id r;
     sr_fulfillment_request := sr_fulfillment_request r; sr_prepared_create_operation :=
     sr_prepared_create_operation r; sr_prepared_teardown_operation :=
     sr_prepared_teardown_operation r; sr_provider_metadata := sr_provider_metadata r;
     sr_teardown_provider_metadata := sr_teardown_provider_metadata r; sr_failure_reason :=
     sr_failure_reason r; sr_failure_message := sr_failure_message r; sr_state := sr_state r;
     sr_claimed_by := x; sr_claim_expires_at := sr_claim_expires_at r; sr_attempt_count :=
     sr_attempt_count r; sr_created_at := sr_created_at r |}.

Definition set_sr_claim_expires_at (x : option datetime) r : SettlementRecord :=
  {| sr_reservation_id := sr_reservation_id r; sr_fulfillment_id := sr_fulfillment_id r;
     sr_market := sr_market r; sr_requirements := sr_requirements r; sr_resource_id_constraint
     := sr_resource_id_constraint r; sr_settlement_resource_id := sr_settlement_resource_id r;
     sr_pool_id := sr_pool_id r; sr_provider := sr_provider r; sr_resource_attributes :=
     sr_resource_attributes r; sr_resource_host_id := sr_resource_host_id r;
     sr_fulfillment_request := sr_fulfillment_request r; sr_prepared_create_operation :=
     sr_prepared_create_operation r; sr_prepared_teardown_operation :=
     sr_prepared_teardown_operation r; sr_provider_metadata := sr_provider_metadata r;
     sr_teardown_provider_metadata := sr_teardown_provider_metadata r; sr_failure_reason :=
     sr_failure_reason r; sr_failure_message := sr_failure_message r; sr_state := sr_state r;
     sr_claimed_by := sr_claimed_by r; sr_claim_expires_at := x; sr_attempt_count :=
     sr_attempt_count r; sr_created_at := sr_created_at r |}.

Definition set_sr_attempt_count (x : Z) r : SettlementRecord :=
  {| sr_reservation_id := sr_reservation_id r; sr_fulfillment_id := sr_fulfillment_id r;
     sr_market := sr_market r; sr_requirements := sr_requirements r; sr_resource_id_constraint
     := sr_resource_id_constraint r; sr_settlement_resource_id := sr_settlement_resource_id r;
     sr_pool_id := sr_pool_id r; sr_provider := sr_provider r; sr_resource_attributes :=
     sr_resource_attributes r; sr_resource_host_id := sr_resource_host_id r;
     sr_fulfillment_request := sr_fulfillment_request r; sr_prepared_create_operation :=
     sr_prepared_create_operation r; sr_prepared_teardown_operation :=
     sr_prepared_teardown_operation r; sr_provider_metadata := sr_provider_metadata r;
     sr_teardown_provider_metadata := sr_teardown_provider_metadata r; sr_failure_reason :=
     sr_failure_reason r; sr_failure_message := sr_failure_message r; sr_state := sr_state r;
     sr_claimed_by := sr_claimed_by r; sr_claim_expires_at := sr_claim_expires_at r;
     sr_attempt_count := x; sr_created_at := sr_created_at r |}.
End assignments.

(** ** Table access *)

Definition set_records (f : list SettlementRecord → list SettlementRecord) (d : FDB) : FDB :=
  {| records := f (records d); cursors := cursors d; provisioned := provisioned d |}.
Definition set_cursors (f : gmap string SchedulingCursor → gmap string SchedulingCursor)
    (d : FDB) : FDB :=
  {| records := records d; cursors := f (cursors d); provisioned := provisioned d |}.
Definition set_provisioned (f : list ProvisionedResource → list ProvisionedResource)
    (d : FDB) : FDB :=
  {| records := records d; cursors := cursors d; provisioned := f (provisioned d) |}.

Definition save_record (r : SettlementRecord) : FDB → FDB :=
  set_records (replace_by sr_reservation_id r).

Abbreviation F := (M FDB).

(** ** Reads *)

Definition get (d : FDB) (i : string) : option SettlementRecord :=
  find_by sr_reservation_id i (records d).

Definition get_by_fulfillment_id (d : FDB) (f : string) : option SettlementRecord :=
  find_by sr_fulfillment_id (Some f) (records d).

Definition list_provisioned_resources (d : FDB) (i : string) : list ProvisionedResource :=
  sort_by (λ a b, pr_created_at a <=? pr_created_at b)
    (filter (λ p, pr_reservation_id p = i) (provisioned d)).

(** ** Scheduling *)

Definition _scheduling_matches (r : SettlementRecord) (market : string)
    (requirements : SettlementRequirement) (constraint : option string) : bool :=
  bool_decide (sr_market r = market) && requirement_eqb (sr_requirements r) requirements &&
  match constraint with
  | None => true
  | Some c => bool_decide (c = sr_settlement_resource_id r)
  end.

Definition assigned_record (i market : string) (requirements : SettlementRequirement)
    (resource : SettlementResource) (constraint : option string) (created : Z)
    : SettlementRecord :=
  {| sr_reservation_id := i; sr_fulfillment_id := None; sr_market := market;
     sr_requirements := requirements; sr_resource_id_constraint := constraint;
     sr_settlement_resource_id := sres_settlement_resource_id resource;
     sr_pool_id := sres_pool_id resource; sr_provider := sres_provider resource;
     sr_resource_attributes := sres_attributes resource;
     sr_resource_host_id := sres_host_id resource; sr_fulfillment_request := None;
     sr_prepared_create_operation := VNone; sr_prepared_teardown_operation := VNone;
     sr_provider_metadata := VDict []; sr_teardown_provider_metadata := VNone;
     sr_failure_reason := VNone; sr_failure_message := VNone; sr_state := assigned;
     sr_claimed_by := None; sr_claim_expires_at := None; sr_attempt_count := 0;
     sr_created_at := created |}.

(** [raced] is the row of a concurrent creator that commits between the read
    and the insert, when there is one: the insert then fails on the primary
    key, and the re-read finds that row. *)
Definition schedule (i market : string) (requirements : SettlementRequirement)
    (resource : SettlementResource) (constraint : option string)
    (raced : option SettlementRecord) (created : Z) : F SettlementRecord :=
  d ← gets id;
  match get d i with
  | Some existing =>
      if _scheduling_matches existing market requirements constraint then mret existing
      else raise (SettlementRequestMismatchError "already has an assignment")
  | None =>
      match raced with
      | None =>
          let r := assigned_record i market requirements resource constraint created in
          modify (set_records (λ l, l ++ [r]));; mret r
      | Some other =>
          modify (set_records (λ l, l ++ [other]));;
          if _scheduling_matches other market requirements constraint then mret other
          else raise (SettlementRequestMismatchError "was concurrently scheduled")
      end
  end.

(** ** Fulfillment acceptance *)

Definition accept_fulfillment (i market : string) (request : value) (new_id : string)
    : F SettlementRecord :=
  d ← gets id;
  match get d i with
  | None => raise (SettlementEntityNotFoundError "no settlement assignment")
  | Some r =>
      if negb (bool_decide (sr_market r = market))
      then raise (FulfillmentConflictError "market") else
      match sr_fulfillment_id r with
      | Some _ =>
          if match sr_fulfillment_request r with
             | Some stored => py_eq stored request
             | None => false
             end
          then mret r else raise (FulfillmentConflictError "fulfillment request")
      | None =>
          s ← lift (validate_transition (settlement_state_value (sr_state r))
                      (settlement_state_value dispatch_pending));
          let r := set_sr_state s
                     (set_sr_fulfillment_request (Some request)
                        (set_sr_fulfillment_id (Some new_id) r)) in
          modify (save_record r);; mret r
      end
  end.

(** ** State transitions *)

Definition _LIFECYCLE_UPDATE_FIELDS : list string :=
  ["prepared_create_operation"; "prepared_teardown_operation"; "provider_metadata";
   "teardown_provider_metadata"; "failure_reason"; "failure_message"]%string.

(** [setattr(record, field, value)] for a permitted field. *)
Definition set_lifecycle_field (r : SettlementRecord) (kv : string * value) : SettlementRecord :=
  let (k, v) := kv in
  if bool_decide (k = "prepared_create_operation"%string) then set_sr_prepared_create_operation v r
  else if bool_decide (k = "prepared_teardown_operation"%string)
  then set_sr_prepared_teardown_operation v r
  else if bool_decide (k = "provider_metadata"%string) then set_sr_provider_metadata v r
  else if bool_decide (k = "teardown_provider_metadata"%string)
  then set_sr_teardown_provider_metadata v r
  else if bool_decide (k = "failure_reason"%string) then set_sr_failure_reason v r
  else if bool_decide (k = "failure_message"%string) then set_sr_failure_message v r
  else r.

Definition transition (i target : string) (updates : dict) : F SettlementRecord :=
  match filter (λ k, k ∉ _LIFECYCLE_UPDATE_FIELDS) (fst <$> updates) with
  | (_ :: _) as unsupported => raise (ValueError (join ", " (sort_by string_leb unsupported)))
  | [] =>
      d ← gets id;
      match get d i with
      | None => raise (SettlementEntityNotFoundError "no settlement assignment")
      | Some r =>
          r ← (if bool_decide (settlement_state_value (sr_state r) = target) then mret r
               else s ← lift (validate_transition (settlement_state_value (sr_state r)) target);
                    mret (set_sr_state s r));
          let r := fold_left set_lifecycle_field updates r in
          modify (save_record r);; mret r
      end
  end.

(** ** Provisioned resources *)

Definition get_provisioned (d : FDB) (p : string) : option ProvisionedResource :=
  find_by pr_id p (provisioned d).

(** [raced] is a row a concurrent writer inserts under the same identity. *)
Definition add_provisioned_resource (i p status : string)
    (raced : option ProvisionedResource) (created : Z) : F ProvisionedResource :=
  d ← gets id;
  match get d i ≫= sr_fulfillment_id with
  | None => raise (SettlementEntityNotFoundError "no accepted fulfillment")
  | Some f =>
      match get_provisioned d p with
      | Some existing =>
          if bool_decide (pr_reservation_id existing = i) then mret existing
          else raise (FulfillmentConflictError "belongs to another fulfillment")
      | None =>
          match raced with
          | None =>
              let x := {| pr_id := p; pr_reservation_id := i; pr_fulfillment_id := f;
                          pr_status := status; pr_created_at := created |} in
              modify (set_provisioned (λ l, l ++ [x]));; mret x
          | Some other =>
              modify (set_provisioned (λ l, l ++ [other]));;
              if bool_decide (pr_reservation_id other = i) then mret other
              else raise IntegrityError
          end
      end
  end.

Definition set_status (status : string) (p : ProvisionedResource) : ProvisionedResource :=
  {| pr_id := pr_id p; pr_reservation_id := pr_reservation_id p;
     pr_fulfillment_id := pr_fulfillment_id p; pr_status := status;
     pr_created_at := pr_created_at p |}.

Definition mark_provisioned_resources_torn_down (i status : string) : F unit :=
  modify (set_provisioned (map (λ p, if bool_decide (pr_reservation_id p = i)
                                     then set_status status p else p))).

(** ** Fairness cursor *)

Definition get_cursor_in_session (kind_ : string) : F SchedulingCursor :=
  d ← gets id;
  match cursors d !! kind_ with
  | Some c => mret c
  | None => modify (set_cursors <[kind_ := fresh_cursor]>);; mret fresh_cursor
  end.

Definition save_cursor_in_session (kind_ : string) (pool : option string)
    (by_pool : gmap string string) : F SchedulingCursor :=
  get_cursor_in_session kind_;;
  let c := {| last_pool_id := pool; last_resource_by_pool := by_pool |} in
  modify (set_cursors <[kind_ := c]>);; mret c.

(** ** Abandonment *)

(** A conditional [UPDATE]: it reports whether a row matched. *)
Definition abandon_if_assigned (i : string) : F bool :=
  lift (validate_transition (settlement_state_value assigned) (settlement_state_value abandoned));;
  d ← gets id;
  let matches r := bool_decide (sr_reservation_id r = i ∧ sr_state r = assigned) in
  modify (set_records (map (λ r, if matches r then set_sr_state abandoned r else r)));;
  mret (existsb matches (records d)).

(** ** Recovery claims *)

Inductive lease_length : Type :=
  | Flat (seconds : Z)
  | PerAttempt (seconds : nat → Z → result float).

(** The lease of one row; the callable may draw randomness, so its value
    depends on how many times it was called. *)
Definition lease_us (lease : lease_length) (calls : nat) (attempt : Z) : result Z :=
  match lease with
  | Flat n => timedelta_of_seconds n
  | PerAttempt f => seconds ← f calls attempt; timedelta_of_float seconds
  end.

Definition claimable (states : list string) (now : datetime) (r : SettlementRecord) : bool :=
  bool_decide (settlement_state_value (sr_state r) ∈ states) &&
  (bool_decide (sr_claimed_by r = None) ||
   match sr_claim_expires_at r with Some e => dt_leb e now | None => false end).

Definition claim_candidates (d : FDB) (states : list string) (limit : Z) (now : datetime)
    : list SettlementRecord :=
  sql_limit limit
    (sort_by (λ r r', sr_created_at r <=? sr_created_at r')
       (filter (λ r, claimable states now r = true) (records d))).

Definition claimed_row (worker : string) (expires : datetime) (r : SettlementRecord)
    : SettlementRecord :=
  set_sr_claim_expires_at (Some expires)
    (set_sr_attempt_count (sr_attempt_count r + 1) (set_sr_claimed_by (Some worker) r)).

Definition claim_row (worker : string) (lease : lease_length) (now : datetime) (calls : nat)
    (r : SettlementRecord) : F SettlementRecord :=
  us ← lift (lease_us lease calls (sr_attempt_count r + 1));
  e ← lift (dt_add_us now us);
  let r := claimed_row worker e r in
  modify (save_record r);; mret r.

Fixpoint claim_rows (worker : string) (lease : lease_length) (now : datetime) (calls : nat)
    (rows : list SettlementRecord) : F (list SettlementRecord) :=
  match rows with
  | [] => mret []
  | r :: rows => x ← claim_row worker lease now calls r;
                 xs ← claim_rows worker lease now (S calls) rows;
                 mret (x :: xs)
  end.

(** A transaction of its own: an exception commits nothing. *)
Definition own_transaction {A} (m : F A) : F A := λ d,
  match m d with
  | (Ok a, d') => (Ok a, d')
  | (Err e, _) => (Err e, d)
  end.

Definition claim_pending (states : list string) (limit : Z) (lease : lease_length)
    (worker : string) (now : datetime) : F (list SettlementRecord) :=
  own_transaction (
    d ← gets id;
    claim_rows worker lease now 0 (claim_candidates d states limit now)).

Definition released_claim (r : SettlementRecord) : SettlementRecord :=
  set_sr_claim_expires_at None (set_sr_claimed_by None r).

Definition held_by (worker : string) (r : SettlementRecord) : bool :=
  bool_decide (sr_claimed_by r = Some worker).

Definition release_worker_claims (worker : string) : F nat :=
  d ← gets id;
  modify (set_records (map (λ r, if held_by worker r then released_claim r else r)));;
  mret (length (filter (λ r, held_by worker r = true) (records d))).

Definition clear_claim (i worker : string) : F unit :=
  d ← gets id;
  match get d i with
  | Some r => if held_by worker r then modify (save_record (released_claim r)) else mret tt
  | None => mret tt
  end.

Definition record_progress (i worker : string) (lease_seconds : option float) (now : datetime)
    : F bool :=
  d ← gets id;
  match get d i with
  | Some r =>
      if held_by worker r then
        let r := set_sr_attempt_count 0 r in
        r ← match lease_seconds with
            | None => mret (released_claim r)
            | Some s =>
                us ← lift (timedelta_of_float s);
                e ← lift (dt_add_us now us);
                mret (set_sr_claim_expires_at (Some e) r)
            end;
        modify (save_record r);; mret true
      else mret false
  | None => mret false
  end.

(** ** Recovery diagnostics *)

Record RecoveryStateDiagnostics : Type := {
  rd_total : Z;
  rd_actively_claimed : Z;
  rd_expired_claims : Z;
  rd_oldest_row_age_us : option Z;
  rd_max_attempt_count : Z;
}.

Definition _RECOVERY_STATES : list SettlementRecordState :=
  [dispatch_pending; dispatching; teardown_dispatch_pending; tearing_down].

Definition count_rows (p : SettlementRecord → bool) (l : list SettlementRecord) : Z :=
  Z.of_nat (length (filter (λ r, p r = true) l)).

Definition active_claim (now : datetime) (r : SettlementRecord) : bool :=
  bool_decide (is_Some (sr_claimed_by r)) &&
  match sr_claim_expires_at r with Some e => dt_ltb now e | None => false end.

Definition expired_claim (now : datetime) (r : SettlementRecord) : bool :=
  bool_decide (is_Some (sr_claimed_by r)) &&
  match sr_claim_expires_at r with Some e => dt_leb e now | None => false end.

Definition min_created (l : list SettlementRecord) : option Z :=
  foldr (λ r acc, Some (match acc with Some m => Z.min (sr_created_at r) m
                                     | None => sr_created_at r end)) None l.

(** The age in microseconds; the code divides it into seconds.  Both times are
    read as wall-clock times. *)
Definition _row_age_us (now : datetime) (created_at : option Z) : option Z :=
  (λ c, local_us now - c * us_per_second) <$> created_at.

(** The rows of one state, summarized. *)
Definition state_diagnostics (d : FDB) (now : datetime) (s : SettlementRecordState)
    : RecoveryStateDiagnostics :=
  let rows := filter (λ r, sr_state r = s) (records d) in
  {| rd_total := count_rows (λ _, true) rows;
     rd_actively_claimed := count_rows (active_claim now) rows;
     rd_expired_claims := count_rows (expired_claim now) rows;
     rd_oldest_row_age_us := _row_age_us now (min_created rows);
     rd_max_attempt_count := foldr (λ r m, Z.max (sr_attempt_count r) m) 0 rows |}.

Record RecoveryDiagnostics : Type := {
  rd_per_state : list (SettlementRecordState * RecoveryStateDiagnostics);
  rd_failed_count : Z;
  rd_teardown_failed_count : Z;
}.

Definition recovery_diagnostics (d : FDB) (now : datetime) : RecoveryDiagnostics :=
  {| rd_per_state := (λ s, (s, state_diagnostics d now s)) <$> _RECOVERY_STATES;
     rd_failed_count := count_rows (λ r, bool_decide (sr_state r = failed)) (records d);
     rd_teardown_failed_count :=
       count_rows (λ r, bool_decide (sr_state r = teardown_failed)) (records d) |}.
