(* ===== verification/SettlementFacts.v ===== *)
(** What the ledger's composition promises the fulfillment side: that its own
    tables hold the settlement tables.  The scheduler and the release guard
    are written against this interface. *)
From S2P Require Import Prelude LedgerTypes Settlement PyNum PyValue PyTime PoolDeclarations.
From S2P Require Import LedgerMatching LedgerLifecycle.
From stdpp Require Import relations.

(** A place for the settlement tables in the composition's tables, as a lens. *)
Class SettlementTables (Ext : Type) := {
  settlement : Ext → FDB;
  put_settlement : FDB → Ext → Ext;
  settlement_put : ∀ f x, settlement (put_settlement f x) = f;
  put_settlement_put : ∀ f g x, put_settlement f (put_settlement g x) = put_settlement f x;
  put_settlement_same : ∀ x, put_settlement (settlement x) x = x;
}.

(** The settlement tables alone. *)
#[export] Instance FDB_tables : SettlementTables FDB.
Proof. by refine {| settlement x := x; put_settlement f _ := f |}. Defined.

Lemma set_ext_same {Ext} (d : DB Ext) : set_ext (ext d) d = d.
Proof. by destruct d. Qed.

Section in_ext.
Context {Ext : Type} `{!SettlementTables Ext}.

(** A repository method run in the session of a transaction. *)
Definition in_ext {A} (m : F A) : M (world Ext) A := λ w,
  let '(r, f) := m (settlement (ext (working w))) in
  (r, with_working (set_ext (put_settlement f (ext (working w)))) w).

Lemma wp_in_ext {A} (m : F A) (Q : result A → world Ext → Prop) w :
  wp m (λ r f, Q r (with_working (set_ext (put_settlement f (ext (working w)))) w))
     (settlement (ext (working w))) →
  wp (in_ext m) Q w.
Proof. unfold wp, in_ext. by destruct (m _). Qed.
End in_ext.

(** * What the settlement repository guarantees over any sequence of calls, and
    its idempotency and claim boundaries. *)

Local Open Scope Z_scope.

(** ** Row steps *)

Definition settlement_edge (s s' : SettlementRecordState) : Prop :=
  s' = s ∨ s' ∈ _ALLOWED_TRANSITIONS s.

(** One update of an aggregate: its identity, its scheduling facts and its
    assigned resource stay, the state moves along the table, and an accepted
    request is neither replaced nor dropped. *)
Record record_step (r r' : SettlementRecord) : Prop := {
  ss_id : sr_reservation_id r' = sr_reservation_id r;
  ss_market : sr_market r' = sr_market r;
  ss_requirements : sr_requirements r' = sr_requirements r;
  ss_resource : sr_settlement_resource_id r' = sr_settlement_resource_id r;
  ss_pool : sr_pool_id r' = sr_pool_id r;
  ss_provider : sr_provider r' = sr_provider r;
  ss_attributes : sr_resource_attributes r' = sr_resource_attributes r;
  ss_host : sr_resource_host_id r' = sr_resource_host_id r;
  ss_created : sr_created_at r' = sr_created_at r;
  ss_edge : settlement_edge (sr_state r) (sr_state r');
  ss_accepted : ∀ f, sr_fulfillment_id r = Some f →
    sr_fulfillment_id r' = Some f ∧ sr_fulfillment_request r' = sr_fulfillment_request r;
  ss_accepting : ∀ f, sr_fulfillment_id r = None → sr_fulfillment_id r' = Some f →
    sr_state r = assigned ∧ sr_state r' = dispatch_pending;
}.

(** An accepted fulfillment is past assignment and never abandoned. *)
Definition accepted_ok (r : SettlementRecord) : Prop :=
  is_Some (sr_fulfillment_id r) → sr_state r ≠ assigned ∧ sr_state r ≠ abandoned.

Record fdb_wf (d : FDB) : Prop := {
  fw_ids : NoDup (sr_reservation_id <$> records d);
  fw_accepted : ∀ r, r ∈ records d → accepted_ok r;
}.

(** What else every update of a row keeps, beside [record_step]: nothing, or a
    discipline of the callers.  Whatever leaves the failure reason alone is
    within any discipline. *)
Class RowDiscipline (extra : relation SettlementRecord) : Prop :=
  extra_keep : ∀ r r', record_step r r' → sr_failure_reason r' = sr_failure_reason r → extra r r'.

Definition any_row (r r' : SettlementRecord) : Prop := True.
#[export] Instance any_row_discipline : RowDiscipline any_row.
Proof. done. Qed.

(** One call's effect on the rows: updates in place, or one new assignment. *)
Inductive fstep_with (extra : relation SettlementRecord) : FDB → FDB → Prop :=
  | f_map d d' (g : SettlementRecord → SettlementRecord) :
      records d' = map g (records d) →
      (∀ r, r ∈ records d → record_step r (g r) ∧ extra r (g r)) →
      fstep_with extra d d'
  | f_new d d' r :
      records d' = records d ++ [r] →
      get d (sr_reservation_id r) = None →
      sr_state r = assigned → sr_fulfillment_id r = None → sr_failure_reason r = VNone →
      fstep_with extra d d'.

Abbreviation fstep := (fstep_with any_row).

Lemma fstep_weaken extra d d' : fstep_with extra d d' → fstep d d'.
Proof.
  destruct 1 as [d d' g Hg Hstep|d d' r Hr Hnew Hs Hf]; [|by eapply f_new].
  eapply f_map; [done|]. intros r Hr. split; [by apply Hstep|done].
Qed.

Lemma fsteps_weaken extra d d' : rtc (fstep_with extra) d d' → rtc fstep d d'.
Proof. induction 1; [apply rtc_refl|]. eapply rtc_l; [by eapply fstep_weaken|done]. Qed.

Lemma record_step_same r r' :
  sr_reservation_id r' = sr_reservation_id r → sr_market r' = sr_market r →
  sr_requirements r' = sr_requirements r →
  sr_settlement_resource_id r' = sr_settlement_resource_id r →
  sr_pool_id r' = sr_pool_id r → sr_provider r' = sr_provider r →
  sr_resource_attributes r' = sr_resource_attributes r →
  sr_resource_host_id r' = sr_resource_host_id r → sr_created_at r' = sr_created_at r →
  sr_fulfillment_id r' = sr_fulfillment_id r →
  sr_fulfillment_request r' = sr_fulfillment_request r →
  settlement_edge (sr_state r) (sr_state r') → record_step r r'.
Proof. intros. split; try done; intros; [split|]; congruence. Qed.

Lemma record_step_refl r : record_step r r.
Proof. apply record_step_same; try done. by left. Qed.

Lemma record_step_accepted r r' : record_step r r' → accepted_ok r → accepted_ok r'.
Proof.
  intros Hs Hok [f Hf]. destruct (sr_fulfillment_id r) as [f'|] eqn:E.
  - destruct (Hok ltac:(by rewrite E)) as [H1 H2].
    destruct (ss_edge _ _ Hs) as [-> |He]; [done|].
    destruct (sr_state r); try done; simpl in He;
      repeat (apply elem_of_cons in He as [-> |He]; [done|]); by apply not_elem_of_nil in He.
  - destruct (ss_accepting _ _ Hs f E Hf) as [_ ->]. done.
Qed.

Lemma fstep_wf {extra} d d' : fstep_with extra d d' → fdb_wf d → fdb_wf d'.
Proof.
  destruct 1 as [d d' g Hg Hstep|d d' r Hr Hnew Hs Hf _]; intros [Hids Hok].
  - split; rewrite Hg.
    + replace (sr_reservation_id <$> map g (records d)) with (sr_reservation_id <$> records d);
        [done|]. change (map g (records d)) with (g <$> records d).
      rewrite <- list_fmap_compose. apply list_fmap_ext.
      intros k r Hr%list_elem_of_lookup_2. simpl. by rewrite (ss_id _ _ (proj1 (Hstep r Hr))).
    + intros r' (r & -> & Hr)%list_elem_of_fmap.
      eapply record_step_accepted; [by apply Hstep|by apply Hok].
  - split; rewrite Hr.
    + rewrite fmap_app. apply NoDup_app. split; [done|]. split; [|apply NoDup_singleton].
      intros k (y & -> & Hy)%list_elem_of_fmap Heq%list_elem_of_singleton.
      unfold get in Hnew. rewrite find_by_None in Hnew. by apply (Hnew y).
    + intros y [Hy| ->%list_elem_of_singleton]%elem_of_app; [by apply Hok|].
      intros [f Hf']. congruence.
Qed.

Lemma fsteps_wf {extra} d d' : rtc (fstep_with extra) d d' → fdb_wf d → fdb_wf d'.
Proof. induction 1; eauto using fstep_wf. Qed.

(** A stored row follows its steps. *)
Definition row_change (extra : relation SettlementRecord) (r r' : SettlementRecord) : Prop :=
  record_step r r' ∧ extra r r'.

Lemma fsteps_row_with extra d d' i r :
  RowDiscipline extra → rtc (fstep_with extra) d d' → fdb_wf d → get d i = Some r →
  ∃ r', get d' i = Some r' ∧ rtc (row_change extra) r r'.
Proof.
  intros Hextra H. revert r. induction H as [d|d1 d2 d3 Hstep _ IH]; intros r Hwf Hget.
  { exists r. split; [done|apply rtc_refl]. }
  pose proof (fstep_wf _ _ Hstep Hwf) as Hwf2.
  assert (∃ r1, get d2 i = Some r1 ∧ rtc (row_change extra) r r1) as (r1 & Hr1 & Hs1).
  { destruct (find_by_Some _ _ _ _ Hget) as [Hin Hid].
    destruct Hstep as [d d' g Hg Hstep|d d' x Hx Hnew _ _ _].
    - exists (g r). split; [|by apply rtc_once, Hstep]. unfold get.
      apply find_by_unique; [apply Hwf2|]. split.
      + rewrite Hg. by apply list_elem_of_fmap_2.
      + by rewrite (ss_id _ _ (proj1 (Hstep r Hin))).
    - exists r. split; [|apply rtc_refl]. unfold get. rewrite Hx. by apply find_by_app_l. }
  destruct (IH r1 Hwf2 Hr1) as (r2 & ? & ?). exists r2. split; [done|by etrans].
Qed.

Lemma fsteps_row d d' i r :
  rtc fstep d d' → fdb_wf d → get d i = Some r →
  ∃ r', get d' i = Some r' ∧ rtc record_step r r'.
Proof.
  intros H Hwf Hget. destruct (fsteps_row_with any_row _ _ _ _ _ H Hwf Hget) as (r' & ? & Hs).
  exists r'. split; [done|]. clear -Hs. induction Hs as [|? ? ? [? _]]; [done|by eapply rtc_l].
Qed.

(** ** Operations *)

Definition moves_with (extra : relation SettlementRecord) {A} (m : F A) : Prop :=
  ∀ d, fdb_wf d → wp m (λ _ d', rtc (fstep_with extra) d d') d.
Abbreviation moves := (moves_with any_row).

Section moving.
Context {extra : relation SettlementRecord} `{!RowDiscipline extra}.

Lemma extra_refl r : extra r r.
Proof. by apply extra_keep; [apply record_step_refl|]. Qed.

Lemma fstep_save d r r' :
  fdb_wf d → get d (sr_reservation_id r) = Some r → record_step r r' → extra r r' →
  fstep_with extra d (save_record r' d).
Proof.
  intros [Hids _] [Hr _]%find_by_Some Hstep Hextra. eapply f_map; [done|].
  intros x Hx. simpl. case_decide as Hid; [|split; [apply record_step_refl|apply extra_refl]].
  assert (x = r) as ->; [|done]. eapply key_inj; [exact Hids|done..|].
  rewrite Hid. apply Hstep.
Qed.

(** The common case: the failure reason is not written. *)
Lemma fstep_kept d r r' :
  fdb_wf d → get d (sr_reservation_id r) = Some r → record_step r r' →
  sr_failure_reason r' = sr_failure_reason r → fstep_with extra d (save_record r' d).
Proof. intros. apply (fstep_save _ r); try done. by apply extra_keep. Qed.

Lemma fstep_each d d' (g : SettlementRecord → SettlementRecord) :
  records d' = map g (records d) →
  (∀ r, r ∈ records d → record_step r (g r) ∧ sr_failure_reason (g r) = sr_failure_reason r) →
  fstep_with extra d d'.
Proof.
  intros Hg Hr. eapply f_map; [done|]. intros r Hin. destruct (Hr r Hin).
  split; [done|by apply extra_keep].
Qed.

Lemma parse_settlement_state_value s : parse_settlement_state (settlement_state_value s) = Some s.
Proof. by destruct s. Qed.

Lemma parse_settlement_state_Some t s :
  parse_settlement_state t = Some s → t = settlement_state_value s.
Proof. by intros [_ <-]%find_by_Some. Qed.

Lemma validate_transition_Ok s t s' :
  validate_transition (settlement_state_value s) t = Ok s' ↔
  t = settlement_state_value s' ∧ s' ∈ _ALLOWED_TRANSITIONS s.
Proof.
  unfold validate_transition. rewrite parse_settlement_state_value. split.
  - destruct (parse_settlement_state t) as [t'|] eqn:Ht; [|done].
    case_bool_decide as Hin; [|done]. intros [= <-]. split; [|done].
    by apply parse_settlement_state_Some.
  - intros [-> Hin]. rewrite parse_settlement_state_value. by rewrite bool_decide_eq_true_2.
Qed.

Ltac f_simpl := simpl; repeat (first [apply wp_ret | apply wp_raise | apply wp_modify]; simpl).

Lemma moves_schedule i market req res constraint raced created :
  (∀ r, raced = Some r →
     sr_reservation_id r = i ∧ sr_state r = assigned ∧ sr_fulfillment_id r = None ∧
     sr_failure_reason r = VNone) →
  moves_with extra (schedule i market req res constraint raced created).
Proof.
  intros Hraced d Hwf. unfold schedule. do 2 wp_step. simpl.
  destruct (get d i) as [r|] eqn:Hget; [wp_step; f_simpl; apply rtc_refl|].
  destruct raced as [other|].
  - destruct (Hraced other eq_refl) as (<- & ? & ? & ?). do 2 wp_step.
    wp_step; f_simpl; apply rtc_once; by eapply f_new.
  - do 2 wp_step. f_simpl. apply rtc_once. by eapply f_new.
Qed.

Lemma moves_accept i market request new_id :
  moves_with extra (accept_fulfillment i market request new_id).
Proof.
  intros d Hwf. unfold accept_fulfillment. do 2 wp_step. simpl.
  destruct (get d i) as [r|] eqn:Hget; [|f_simpl; apply rtc_refl].
  destruct (find_by_Some _ _ _ _ Hget) as [_ Hid].
  wp_step; [f_simpl; apply rtc_refl|].
  destruct (sr_fulfillment_id r) as [f|] eqn:Hf; [wp_step; f_simpl; apply rtc_refl|].
  do 2 wp_step. destruct (validate_transition _ _) as [s|e] eqn:Hv; [|apply rtc_refl].
  apply (validate_transition_Ok (sr_state r)) in Hv as [Hs Hin].
  do 2 wp_step. f_simpl. apply rtc_once. apply (fstep_kept _ r); [done|by rewrite Hid| |done].
  assert (s = dispatch_pending) as -> by (by destruct s).
  split; simpl; try done; [by right|by intros; rewrite Hf in *|].
  intros f' _ _. split; [|done].
  destruct (sr_state r); [done|..]; vm_compute in Hin; exfalso; clear -Hin;
    repeat (apply elem_of_cons in Hin as [[=]|Hin]); by apply not_elem_of_nil in Hin.
Qed.

Lemma lifecycle_field_step r x kv : record_step r x → record_step r (set_lifecycle_field x kv).
Proof.
  destruct kv as [k v]. intros []. unfold set_lifecycle_field.
  repeat (case_bool_decide; [by split|]). by split.
Qed.

Lemma lifecycle_fields_step r x updates :
  record_step r x → record_step r (fold_left set_lifecycle_field updates x).
Proof.
  revert x. induction updates as [|kv updates IH]; intros x Hx; simpl; [done|].
  by apply IH, lifecycle_field_step.
Qed.

Lemma state_set_step r s : settlement_edge (sr_state r) s → record_step r (set_sr_state s r).
Proof. intros. by apply record_step_same. Qed.

(** The row a transition leaves, from a row it may leave from. *)
Definition transitioned (s : SettlementRecordState) (updates : dict) (r : SettlementRecord)
    : SettlementRecord := fold_left set_lifecycle_field updates (set_sr_state s r).

Lemma set_same_state r : set_sr_state (sr_state r) r = r.
Proof. by destruct r. Qed.

Lemma wp_transition_moves i target updates d :
  fdb_wf d →
  (∀ r s, get d i = Some r → settlement_edge (sr_state r) s → target = settlement_state_value s →
     extra r (transitioned s updates r)) →
  wp (transition i target updates) (λ _ d', rtc (fstep_with extra) d d') d.
Proof.
  intros Hwf Hextra. unfold transition.
  destruct (filter _ _) as [|k l]; [|f_simpl; apply rtc_refl]. do 2 wp_step. simpl.
  destruct (get d i) as [r|] eqn:Hget; [|f_simpl; apply rtc_refl].
  destruct (find_by_Some _ _ _ _ Hget) as [_ Hid].
  assert (∀ s, settlement_edge (sr_state r) s → target = settlement_state_value s →
    wp (modify (save_record (transitioned s updates r)) ≫= λ _,
        mret (transitioned s updates r) : F SettlementRecord)
       (λ _ d', rtc (fstep_with extra) d d') d) as Hsave.
  { intros s Hs Ht. do 2 wp_step. f_simpl.
    apply rtc_once, (fstep_save _ r); [done|by rewrite Hid| |by apply Hextra].
    by apply lifecycle_fields_step, state_set_step. }
  wp_step. wp_step.
  - wp_step. apply bool_decide_eq_true in Heqb.
    specialize (Hsave (sr_state r) (or_introl eq_refl) (eq_sym Heqb)).
    unfold transitioned in Hsave. by rewrite set_same_state in Hsave.
  - do 2 wp_step. destruct (validate_transition _ _) as [s|e] eqn:Hv; [|apply rtc_refl].
    apply (validate_transition_Ok (sr_state r)) in Hv as [Ht Hin].
    wp_step. apply Hsave; [by right|done].
Qed.

(** A transition that does not write the failure reason. *)
Lemma moves_transition_kept i target updates :
  "failure_reason"%string ∉ (fst <$> updates) → moves_with extra (transition i target updates).
Proof.
  intros Hno d Hwf. apply wp_transition_moves; [done|]. intros r s _ Hedge _.
  apply extra_keep; [by apply lifecycle_fields_step, state_set_step|]. unfold transitioned.
  assert (∀ x, sr_failure_reason (fold_left set_lifecycle_field updates x) = sr_failure_reason x)
    as Hkept; [|by rewrite Hkept].
  induction updates as [|[k v] updates IH]; intros x; [done|]. simpl.
  rewrite IH by (intros ?; apply Hno; by apply list_elem_of_further).
  repeat (case_bool_decide; [done|]). case_bool_decide as Hk; [|by case_bool_decide].
  destruct Hno. rewrite <- Hk. apply list_elem_of_here.
Qed.

(** Writes to the other tables. *)
Lemma same_records_fstep d d' : records d' = records d → rtc (fstep_with extra) d d'.
Proof.
  intros Heq. apply rtc_once. apply (fstep_each _ _ id); [by rewrite Heq, list_fmap_id|].
  intros. split; [apply record_step_refl|done].
Qed.

Lemma moves_add_provisioned i p status raced created :
  moves_with extra (add_provisioned_resource i p status raced created).
Proof.
  intros d Hwf. unfold add_provisioned_resource. do 2 wp_step. simpl.
  destruct (get d i ≫= sr_fulfillment_id); [|f_simpl; apply rtc_refl].
  destruct (get_provisioned d p); [wp_step; f_simpl; apply rtc_refl|].
  destruct raced; do 2 wp_step; [wp_step|]; f_simpl; by apply same_records_fstep.
Qed.

Lemma moves_mark_torn_down i status : moves_with extra (mark_provisioned_resources_torn_down i status).
Proof. intros d Hwf. unfold mark_provisioned_resources_torn_down. f_simpl. by apply same_records_fstep. Qed.

Lemma moves_get_cursor kind_ : moves_with extra (get_cursor_in_session kind_).
Proof.
  intros d Hwf. unfold get_cursor_in_session. do 2 wp_step. simpl.
  destruct (cursors d !! kind_); [f_simpl; apply rtc_refl|].
  do 2 wp_step. f_simpl. by apply same_records_fstep.
Qed.

Lemma moves_save_cursor kind_ pool by_pool : moves_with extra (save_cursor_in_session kind_ pool by_pool).
Proof.
  intros d Hwf. unfold save_cursor_in_session. apply wp_bind.
  eapply wp_mono; [by apply moves_get_cursor|]. intros [c|e] d1 H1; [|done].
  do 2 wp_step. f_simpl. etrans; [done|]. by apply same_records_fstep.
Qed.

Lemma moves_abandon i : moves_with extra (abandon_if_assigned i).
Proof.
  intros d Hwf. unfold abandon_if_assigned. repeat (wp_step; simpl).
  apply rtc_once. eapply fstep_each; [done|]. intros r Hr. simpl.
  case_bool_decide as H; [|by split; [apply record_step_refl|]]. destruct H as [_ Hs].
  split; [|done]. apply state_set_step. right. rewrite Hs. apply list_elem_of_further, list_elem_of_here.
Qed.

(** Claims touch nothing but the claim. *)
Lemma claim_step r r' :
  r' = set_sr_claimed_by (sr_claimed_by r')
         (set_sr_claim_expires_at (sr_claim_expires_at r')
            (set_sr_attempt_count (sr_attempt_count r') r)) →
  record_step r r'.
Proof. intros ->. apply record_step_same; try done. by left. Qed.

Lemma claim_rows_moves worker lease now calls rows d :
  fdb_wf d → NoDup (sr_reservation_id <$> rows) →
  (∀ r, r ∈ rows → get d (sr_reservation_id r) = Some r) →
  wp (claim_rows worker lease now calls rows) (λ _ d', rtc (fstep_with extra) d d') d.
Proof.
  revert d calls. induction rows as [|r rows IH]; intros d calls Hwf Hnd Hrows; simpl; [f_simpl; apply rtc_refl|].
  rewrite fmap_cons, NoDup_cons in Hnd. destruct Hnd as [Hr Hnd].
  wp_step. unfold claim_row. do 2 wp_step.
  destruct (lease_us _ _ _) as [us|e]; [|apply rtc_refl]. do 2 wp_step.
  destruct (dt_add_us _ _) as [e|e]; [|apply rtc_refl]. do 2 wp_step. wp_step. f_simpl.
  set (r' := claimed_row worker e r).
  assert (fstep_with extra d (save_record r' d)) as Hstep.
  { apply (fstep_kept _ r); [done| |by apply claim_step|done].
    apply Hrows, list_elem_of_here. }
  apply wp_bind. eapply wp_mono; [apply IH; [by eapply fstep_wf|done|]|].
  - intros x Hx. unfold get, save_record, set_records. simpl.
    rewrite find_by_replace_ne; [by apply Hrows, list_elem_of_further|].
    intros Heq. apply Hr. rewrite list_elem_of_fmap. exists x. split; [by rewrite Heq|done].
  - intros [xs|e'] d2 H2; f_simpl; by eapply rtc_l.
Qed.

Lemma sql_limit_elem {A} n (l : list A) x : x ∈ sql_limit n l → x ∈ l.
Proof.
  unfold sql_limit. destruct (n <? 0); [done|]. intros H.
  rewrite <- (take_drop (Z.to_nat n) l), elem_of_app. by left.
Qed.

Lemma sql_limit_keys {A K} (f : A → K) n (l : list A) :
  NoDup (f <$> l) → NoDup (f <$> sql_limit n l).
Proof.
  unfold sql_limit. destruct (n <? 0); [done|].
  rewrite <- (take_drop (Z.to_nat n) l) at 1. rewrite fmap_app. by intros [? _]%NoDup_app.
Qed.

Lemma claim_candidates_elem d states limit now r :
  r ∈ claim_candidates d states limit now →
  r ∈ records d ∧ claimable states now r = true.
Proof.
  intros H%sql_limit_elem. rewrite elem_of_sort_by, list_elem_of_filter in H. tauto.
Qed.

Lemma claim_candidates_keys d states limit now :
  fdb_wf d → NoDup (sr_reservation_id <$> claim_candidates d states limit now).
Proof.
  intros [Hids _]. apply sql_limit_keys. rewrite sort_by_perm. by apply filter_keys_NoDup.
Qed.

Lemma moves_claim_pending states limit lease worker now :
  moves_with extra (claim_pending states limit lease worker now).
Proof.
  intros d Hwf. unfold claim_pending, own_transaction, wp.
  assert (wp (claim_rows worker lease now 0 (claim_candidates d states limit now))
             (λ _ d', rtc (fstep_with extra) d d') d) as H.
  { apply claim_rows_moves; [done|by apply claim_candidates_keys|].
    intros r [Hin _]%claim_candidates_elem. by apply find_by_elem; [apply fw_ids|]. }
  simpl. unfold mbind, M_bind, gets, wp in *.
  destruct (claim_rows _ _ _ _ _ _) as [[xs|e] d']; simpl in *; [done|apply rtc_refl].
Qed.

Lemma moves_release_worker_claims worker : moves_with extra (release_worker_claims worker).
Proof.
  intros d Hwf. unfold release_worker_claims. repeat (wp_step; simpl).
  apply rtc_once. eapply fstep_each; [done|]. intros r Hr. simpl.
  destruct (held_by worker r); (split; [|done]); [by apply claim_step|apply record_step_refl].
Qed.

Lemma moves_clear_claim i worker : moves_with extra (clear_claim i worker).
Proof.
  intros d Hwf. unfold clear_claim. do 2 wp_step. simpl.
  destruct (get d i) as [r|] eqn:Hget; [|f_simpl; apply rtc_refl].
  destruct (find_by_Some _ _ _ _ Hget) as [_ Hid].
  destruct (held_by worker r); f_simpl; [|apply rtc_refl].
  apply rtc_once, (fstep_kept _ r); [done|by rewrite Hid|by apply claim_step|done].
Qed.

Lemma moves_record_progress i worker lease now : moves_with extra (record_progress i worker lease now).
Proof.
  intros d Hwf. unfold record_progress. do 2 wp_step. simpl.
  destruct (get d i) as [r|] eqn:Hget; [|f_simpl; apply rtc_refl].
  destruct (find_by_Some _ _ _ _ Hget) as [_ Hid].
  destruct (held_by worker r); [|f_simpl; apply rtc_refl].
  assert (∀ x, record_step r x → sr_failure_reason x = sr_failure_reason r →
    rtc (fstep_with extra) d (save_record x d)) as Hsave.
  { intros x Hx Hreason. by apply rtc_once, (fstep_kept _ r); [|rewrite Hid| |]. }
  wp_step. destruct lease as [s|].
  - do 2 wp_step. destruct (timedelta_of_float s); [|apply rtc_refl].
    do 2 wp_step. destruct (dt_add_us _ _); [|apply rtc_refl].
    wp_step. do 2 wp_step. f_simpl. apply Hsave; [by apply claim_step|done].
  - wp_step. do 2 wp_step. f_simpl. apply Hsave; [by apply claim_step|done].
Qed.
End moving.

Lemma moves_transition i target updates : moves (transition i target updates).
Proof. intros d Hwf. by apply wp_transition_moves. Qed.
