(* ===== verification/SettlementClaims.v ===== *)
(** The compensation marker: only a compensating teardown writes the failure
    reason [create_compensation], as it moves a [failed] aggregate into
    teardown, and nothing overwrites it while that teardown runs.  A finished
    teardown's reason therefore tells a compensated create from a delivered
    fulfillment ([transitions.py]). *)
From S2P Require Import Prelude PyNum PyValue PyTime PoolDeclarations LedgerTypes.
From S2P Require Import LedgerMatching.
From S2P Require Import LedgerLifecycle Settlement SettlementFacts.
From stdpp Require Import relations.
From stdpp Require Import sorting.

Definition CREATE_COMPENSATION : string := "create_compensation".

(** States reached only after a teardown has begun. *)
Definition _TEARDOWN_INITIATED_STATES : list SettlementRecordState :=
  [teardown_dispatch_pending; tearing_down; torn_down; teardown_failed].

Implicit Types (r : SettlementRecord) (d : FDB).

Definition marked r : Prop := sr_failure_reason r = VStr CREATE_COMPENSATION.
Definition in_teardown r : Prop := sr_state r ∈ _TEARDOWN_INITIATED_STATES.

(** What the callers of the repository keep of every row. *)
Record marker r r' : Prop := {
  mk_written : marked r' → marked r ∨ (sr_state r = failed ∧
    sr_state r' = teardown_dispatch_pending);
  mk_kept : marked r → in_teardown r → marked r';
}.

#[export] Instance marker_discipline : RowDiscipline marker.
Proof. intros r r' _ Hr. split; unfold marked; rewrite Hr; [by left|done]. Qed.

Abbreviation dstep := (fstep_with marker).

(** ** What the marker says *)

(** The marker is only on aggregates in teardown. *)
Definition marker_sound d : Prop := ∀ r, r ∈ records d → marked r → in_teardown r.

Lemma teardown_edge s s' :
  settlement_edge s s' → s ∈ _TEARDOWN_INITIATED_STATES → s' ∈ _TEARDOWN_INITIATED_STATES.
Proof.
  intros [->|H]; [done|]. destruct s; set_solver.
Qed.

Lemma delivered_edge s s' :
  settlement_edge s s' → s ∈ active :: _TEARDOWN_INITIATED_STATES →
  s' ∈ active :: _TEARDOWN_INITIATED_STATES.
Proof. intros [->|H]; [done|]. destruct s; set_solver. Qed.

Lemma dstep_marker_sound d d' : dstep d d' → marker_sound d → marker_sound d'.
Proof.
  unfold marker_sound. destruct 1 as [d d' g Hg Hstep|d d' x Hx _ Hs _ Hreason]; intros Hd r'.
  - rewrite Hg. intros (r & -> & Hr)%list_elem_of_fmap Hm. destruct (Hstep r Hr) as [Hrow [Hw _]].
    destruct (Hw Hm) as [Hold|[_ Hnew]].
    + eapply teardown_edge; [apply Hrow|]. by apply Hd.
    + unfold in_teardown. rewrite Hnew. apply list_elem_of_here.
  - rewrite Hx. intros [Hr|Hr%list_elem_of_singleton]%elem_of_app; [by apply Hd|]. subst r'.
    unfold marked. by rewrite Hreason.
Qed.

Lemma dsteps_marker_sound d d' : rtc dstep d d' → marker_sound d → marker_sound d'.
Proof. induction 1; eauto using dstep_marker_sound. Qed.

(** A compensated teardown stays one, and a delivered fulfillment never
    becomes one. *)
Lemma dsteps_compensated d d' i r :
  rtc dstep d d' → fdb_wf d → get d i = Some r → marked r → in_teardown r →
  ∃ r', get d' i = Some r' ∧ marked r' ∧ in_teardown r'.
Proof.
  intros Hd Hwf Hget Hm Ht. destruct (fsteps_row_with marker _ _ _ _ _ Hd Hwf Hget) as (r' & Hr' & Hs).
  exists r'. split; [done|]. clear -Hs Hm Ht. induction Hs as [|r r1 r2 [Hrow Hmk] _ IH]; [done|].
  apply IH; [by apply Hmk|]. by eapply teardown_edge; [apply Hrow|].
Qed.

Lemma dsteps_delivered d d' i r :
  rtc dstep d d' → fdb_wf d → get d i = Some r → ¬ marked r →
  sr_state r ∈ active :: _TEARDOWN_INITIATED_STATES →
  ∃ r', get d' i = Some r' ∧ ¬ marked r' ∧ sr_state r' ∈ active :: _TEARDOWN_INITIATED_STATES.
Proof.
  intros Hd Hwf Hget Hm Ht. destruct (fsteps_row_with marker _ _ _ _ _ Hd Hwf Hget) as (r' & Hr' & Hs).
  exists r'. split; [done|]. clear -Hs Hm Ht. induction Hs as [|r r1 r2 [Hrow Hmk] _ IH]; [done|].
  apply IH; [|by eapply delivered_edge; [apply Hrow|]].
  intros [?|[Hf _]]%Hmk; [done|]. rewrite Hf in Ht. set_solver.
Qed.

(** * Recovery claims of the settlement repository: what one claiming
    transaction takes and leaves. *)

Local Open Scope Z_scope.

Lemma get_save_record_ne d r i : i ≠ sr_reservation_id r → get (save_record r d) i = get d i.
Proof. intros. by apply find_by_replace_ne. Qed.

Lemma get_save_record_eq d r r0 :
  get d (sr_reservation_id r) = Some r0 → get (save_record r d) (sr_reservation_id r) = Some r.
Proof. intros. by eapply find_by_replace_eq. Qed.

(** Each row as claimed, in order; nothing else is written. *)
Lemma claim_rows_spec worker lease now calls rows d :
  NoDup (sr_reservation_id <$> rows) →
  (∀ r, r ∈ rows → get d (sr_reservation_id r) = Some r) →
  wp (claim_rows worker lease now calls rows)
    (λ res d', match res with
     | Ok xs =>
         Forall2 (λ r x, ∃ e, x = claimed_row worker e r) rows xs ∧
         (∀ x, x ∈ xs → get d' (sr_reservation_id x) = Some x) ∧
         (∀ i, i ∉ sr_reservation_id <$> rows → get d' i = get d i)
     | Err _ => True
     end) d.
Proof.
  revert d calls. induction rows as [|r rows IH]; intros d calls Hnd Hrows; simpl.
  { apply wp_ret. split_and!; [constructor| |done]. by intros x ?%not_elem_of_nil. }
  rewrite fmap_cons, NoDup_cons in Hnd. destruct Hnd as [Hr Hnd].
  wp_step. unfold claim_row. do 2 wp_step. destruct (lease_us _ _ _); [|done].
  do 2 wp_step. destruct (dt_add_us _ _) as [e|?]; [|done]. do 2 wp_step. wp_step. simpl.
  set (r' := claimed_row worker e r).
  assert (get d (sr_reservation_id r') = Some r) as Hget by (apply (Hrows r), list_elem_of_here).
  apply wp_bind. eapply wp_mono; [apply (IH (save_record r' d)); [done|]|].
  - intros x Hx. rewrite get_save_record_ne; [by apply Hrows, list_elem_of_further|].
    intros Heq. apply Hr. rewrite list_elem_of_fmap. exists x. by split; [rewrite Heq|].
  - intros [xs|e'] d2; [|done]. intros (Hxs & Hin & Hout). apply wp_ret. split_and!.
    + constructor; [by exists e|done].
    + intros x [->|Hx]%elem_of_cons; [|by apply Hin]. rewrite Hout by done.
      by apply get_save_record_eq with r.
    + intros i [Hi1 Hi2]%not_elem_of_cons. rewrite Hout by done. by apply get_save_record_ne.
Qed.

Lemma claim_pending_Ok states limit lease worker now d xs d' :
  fdb_wf d → claim_pending states limit lease worker now d = (Ok xs, d') →
  Forall2 (λ r x, ∃ e, x = claimed_row worker e r) (claim_candidates d states limit now) xs ∧
  (∀ x, x ∈ xs → get d' (sr_reservation_id x) = Some x) ∧
  (∀ i, i ∉ sr_reservation_id <$> claim_candidates d states limit now → get d' i = get d i).
Proof.
  intros Hwf. unfold claim_pending, own_transaction, mbind, M_bind, gets. simpl.
  destruct (claim_rows _ _ _ _ _ d) as [[ys|e] d1] eqn:E; [|done]. intros [= -> ->].
  refine (wp_run _ _ d (Ok xs) d' (claim_rows_spec _ _ _ _ _ _ _ _) E).
  - by apply claim_candidates_keys.
  - intros r [Hin _]%claim_candidates_elem. apply find_by_elem; [apply Hwf|done].
Qed.

Lemma claimed_keys worker rows xs :
  Forall2 (λ r x, ∃ e, x = claimed_row worker e r) rows xs →
  sr_reservation_id <$> xs = sr_reservation_id <$> rows.
Proof. induction 1 as [|r x rows xs [e ->] _ IH]; [done|]. simpl. by f_equal. Qed.

Lemma sql_limit_length {A} n (l : list A) : 0 ≤ n → Z.of_nat (length (sql_limit n l)) ≤ n.
Proof.
  intros. unfold sql_limit. rewrite (proj2 (Z.ltb_ge n 0)) by done. rewrite length_take. lia.
Qed.

(** What a limit leaves out comes later, and is only left out at the limit. *)
Lemma sql_limit_rest {A} (R : A → A → Prop) n (l : list A) x :
  StronglySorted R l → x ∈ l → x ∉ sql_limit n l →
  Z.of_nat (length (sql_limit n l)) = n ∧ ∀ y, y ∈ sql_limit n l → R y x.
Proof.
  unfold sql_limit. destruct (n <? 0) eqn:E; [done|]. apply Z.ltb_ge in E.
  rewrite <- (take_drop (Z.to_nat n) l) at 1 2. intros Hs Hx Hout.
  apply elem_of_app in Hx as [Hx|Hx]; [done|]. split.
  - rewrite length_take. apply list_elem_of_lookup_1 in Hx as [i Hi].
    apply lookup_lt_Some in Hi. rewrite length_drop in Hi. lia.
  - intros y Hy. by eapply StronglySorted_app_1_elem_of.
Qed.

Lemma oldest_first_sorted rows :
  StronglySorted (λ r r', (sr_created_at r <=? sr_created_at r') = true)
    (sort_by (λ r r', sr_created_at r <=? sr_created_at r') rows).
Proof. apply sort_by_sorted; intros; repeat rewrite Z.leb_le in *; lia. Qed.

(** A row claimed under a lease that has not lapsed is no candidate. *)
Lemma live_claim_not_claimable states now r owner e :
  sr_claimed_by r = Some owner → sr_claim_expires_at r = Some e → dt_ltb now e = true →
  claimable states now r = false.
Proof.
  unfold claimable. intros -> -> H. rewrite (bool_decide_eq_false_2 (Some _ = None)) by done.
  simpl. unfold dt_ltb, dt_leb in *. apply Z.ltb_lt in H.
  rewrite (proj2 (Z.leb_gt _ _)) by done. apply andb_false_r.
Qed.
