(* ===== verification/SettlementProperties.v ===== *)
(** The settlement repository's contract: lifecycle, immutability, idempotent
    scheduling and acceptance, exclusive recovery claims. *)
From S2P Require Import Prelude PyNum PyValue PyTime PoolDeclarations LedgerTypes.
From S2P Require Import LedgerMatching.
From S2P Require Import LedgerLifecycle Settlement SettlementFacts SettlementClaims.
From stdpp Require Import relations.

Local Open Scope Z_scope.

(** ** Histories of repository calls *)

Inductive repo_call : Type :=
  | RSchedule (i market : string) (req : SettlementRequirement) (res : SettlementResource)
      (constraint : option string) (raced : option (SettlementRequirement * SettlementResource))
      (created : Z)
  | RAccept (i market : string) (request : value) (new_id : string)
  | RTransition (i target : string) (updates : dict)
  | RProvision (i p status : string) (raced : option ProvisionedResource) (created : Z)
  | RSaveCursor (kind_ : string) (pool : option string) (by_pool : gmap string string)
  | RAbandon (i : string)
  | RClaim (states : list string) (limit : Z) (lease : lease_length) (worker : string)
      (now : datetime)
  | RReleaseClaims (worker : string)
  | RClear (i worker : string)
  | RProgress (i worker : string) (lease : option float) (now : datetime)
  | RTornDown (i status : string).

(** The row a concurrent [schedule] of the same reservation committed. *)
Definition raced_record (i market : string) (created : Z)
    (raced : option (SettlementRequirement * SettlementResource)) : option SettlementRecord :=
  (λ p, assigned_record i market p.1 p.2 None created) <$> raced.

Definition repo_perform (c : repo_call) : F unit :=
  match c with
  | RSchedule i market req res con raced created =>
      schedule i market req res con (raced_record i market created raced) created ≫= λ _, mret tt
  | RAccept i market request new_id => accept_fulfillment i market request new_id ≫= λ _, mret tt
  | RTransition i target updates => transition i target updates ≫= λ _, mret tt
  | RProvision i p status raced created =>
      add_provisioned_resource i p status raced created ≫= λ _, mret tt
  | RSaveCursor k pool by_pool => save_cursor_in_session k pool by_pool ≫= λ _, mret tt
  | RAbandon i => abandon_if_assigned i ≫= λ _, mret tt
  | RClaim states limit lease worker now =>
      claim_pending states limit lease worker now ≫= λ _, mret tt
  | RReleaseClaims worker => release_worker_claims worker ≫= λ _, mret tt
  | RClear i worker => clear_claim i worker
  | RProgress i worker lease now => record_progress i worker lease now ≫= λ _, mret tt
  | RTornDown i status => mark_provisioned_resources_torn_down i status
  end.

Definition repo_after (c : repo_call) (d : FDB) : FDB := (repo_perform c d).2.
Definition repo_history (cs : list repo_call) (d : FDB) : FDB := fold_left (λ d c, repo_after c d) cs d.

Lemma moves_ignore {A} (m : F A) : moves m → moves (m ≫= λ _, mret tt).
Proof.
  intros Hm d Hwf. apply wp_bind. eapply wp_mono; [by apply Hm|]. intros [a|e] d' ?; [by apply wp_ret|done].
Qed.

Lemma repo_after_steps c d : fdb_wf d → rtc fstep d (repo_after c d).
Proof.
  intros Hwf. assert (moves (repo_perform c)) as H; [|by apply (H d Hwf)].
  destruct c; simpl; try apply moves_ignore.
  - apply moves_schedule. intros r. unfold raced_record. destruct raced; [|done].
    by intros [= <-].
  - apply moves_accept.
  - apply moves_transition.
  - apply moves_add_provisioned.
  - apply moves_save_cursor.
  - apply moves_abandon.
  - apply moves_claim_pending.
  - apply moves_release_worker_claims.
  - apply moves_clear_claim.
  - apply moves_record_progress.
  - apply moves_mark_torn_down.
Qed.

Lemma repo_history_steps cs d : fdb_wf d → rtc fstep d (repo_history cs d).
Proof.
  revert d. induction cs as [|c cs IH]; intros d Hwf; simpl; [apply rtc_refl|].
  pose proof (repo_after_steps c d Hwf) as Hc. etrans; [done|]. apply IH. by eapply fsteps_wf.
Qed.

(** ** Lifecycle *)

Definition settlement_terminal (s : SettlementRecordState) : bool :=
  match s with torn_down | abandoned => true | _ => false end.

(** What is fixed when a reservation is scheduled. *)
Record same_assignment (r r' : SettlementRecord) : Prop := {
  sa_market : sr_market r' = sr_market r;
  sa_requirements : sr_requirements r' = sr_requirements r;
  sa_resource : sr_settlement_resource_id r' = sr_settlement_resource_id r;
  sa_pool : sr_pool_id r' = sr_pool_id r;
  sa_provider : sr_provider r' = sr_provider r;
  sa_attributes : sr_resource_attributes r' = sr_resource_attributes r;
  sa_host : sr_resource_host_id r' = sr_resource_host_id r;
}.

Lemma record_steps_assignment r r' : rtc record_step r r' → same_assignment r r'.
Proof.
  induction 1 as [|r r1 r2 [] _ []]; [done|]. split; congruence.
Qed.

Lemma record_steps_edges r r' :
  rtc record_step r r' → rtc settlement_edge (sr_state r) (sr_state r').
Proof. induction 1 as [|r r1 r2 H]; [done|]. eapply rtc_l; [apply H|done]. Qed.

Lemma terminal_edges s s' : rtc settlement_edge s s' → settlement_terminal s = true → s' = s.
Proof.
  induction 1 as [|s s1 s2 [-> |H] _ IH]; [done|done|]. intros Hs.
  destruct s; try done; by apply not_elem_of_nil in H.
Qed.

Lemma record_steps_accepted r r' f :
  rtc record_step r r' → sr_fulfillment_id r = Some f →
  sr_fulfillment_id r' = Some f ∧ sr_fulfillment_request r' = sr_fulfillment_request r.
Proof.
  induction 1 as [|r r1 r2 Hs _ IH]; [done|]. intros Hf.
  destruct (ss_accepted _ _ Hs f Hf) as [Hf1 Hq1]. destruct (IH Hf1). split; congruence.
Qed.

(** C13: a settlement record's life.  Over any sequence of repository calls a
    record stays, its market, requirements and assigned resource never change,
    its state follows the transition table, [torn_down] and [abandoned] are
    final, and once a fulfillment is accepted its identity and its request
    never change. *)
Theorem settlement_record_lifecycle cs d i r :
  fdb_wf d → get d i = Some r →
  ∃ r', get (repo_history cs d) i = Some r' ∧ same_assignment r r' ∧
    rtc settlement_edge (sr_state r) (sr_state r') ∧
    (settlement_terminal (sr_state r) = true → sr_state r' = sr_state r) ∧
    (∀ f, sr_fulfillment_id r = Some f →
       sr_fulfillment_id r' = Some f ∧ sr_fulfillment_request r' = sr_fulfillment_request r).
Proof.
  intros Hwf Hget.
  destruct (fsteps_row _ _ i r (repo_history_steps cs d Hwf) Hwf Hget) as (r' & ? & Hs).
  pose proof (record_steps_edges _ _ Hs). exists r'. split_and!; [done| |done| |].
  - by apply record_steps_assignment.
  - by apply terminal_edges.
  - intros f. by apply record_steps_accepted.
Qed.

(** Once abandoned, nothing can dispatch.  Over any sequence of calls an
    abandoned record stays abandoned and without a fulfillment, and accepting
    a fulfillment for it raises and changes nothing. *)
Theorem abandoned_never_dispatched cs d i r :
  fdb_wf d → get d i = Some r → sr_state r = abandoned →
  let d' := repo_history cs d in
  ∃ r', get d' i = Some r' ∧ sr_state r' = abandoned ∧ sr_fulfillment_id r' = None ∧
    ∀ market request new_id, ∃ e, accept_fulfillment i market request new_id d' = (Err e, d').
Proof.
  intros Hwf Hget Hs. cbv zeta. pose proof (repo_history_steps cs d Hwf) as Hsteps.
  destruct (fsteps_row _ _ i r Hsteps Hwf Hget) as (r' & Hget' & Hrows).
  assert (sr_state r' = abandoned) as Hs'.
  { rewrite <- Hs. apply terminal_edges; [by apply record_steps_edges|by rewrite Hs]. }
  assert (sr_fulfillment_id r' = None) as Hf'.
  { destruct (sr_fulfillment_id r') eqn:E; [|done].
    destruct (find_by_Some _ _ _ _ Hget') as [Hin _].
    destruct (fw_accepted _ (fsteps_wf _ _ Hsteps Hwf) r' Hin) as [_ []]; [by rewrite E|done]. }
  exists r'. split_and!; [done..|]. intros market request new_id.
  unfold accept_fulfillment, mbind, M_bind, gets. simpl. rewrite Hget'.
  destruct (negb _); [by eexists|]. rewrite Hf', Hs'. simpl. by eexists.
Qed.

(** The transition rule.  A transition is accepted exactly when both texts
    name states and the target is an allowed successor; final states have no
    successors, no state is its own successor, and every other state reaches a
    final one through allowed transitions. *)
Theorem transition_table current target :
  (∀ t, validate_transition current target = Ok t ↔
     ∃ c, current = settlement_state_value c ∧ target = settlement_state_value t ∧
          t ∈ _ALLOWED_TRANSITIONS c ∧ t ≠ c ∧ settlement_terminal c = false) ∧
  (∀ e, validate_transition current target = Err e →
     e = InvalidSettlementTransitionError current target) ∧
  (∀ c, ∃ t, settlement_terminal t = true ∧ rtc settlement_edge c t).
Proof.
  split_and!.
  - intros t. split.
    + unfold validate_transition. destruct (parse_settlement_state current) as [c|] eqn:Hc; [|done].
      destruct (parse_settlement_state target) as [t'|] eqn:Ht; [|done].
      case_bool_decide as Hin; [|done]. intros [= <-]. exists c.
      apply parse_settlement_state_Some in Hc, Ht. split_and!; [done..| |].
      * intros ->. destruct c; vm_compute in Hin; by repeat (apply elem_of_cons in Hin as [[=]|Hin]); apply not_elem_of_nil in Hin.
      * destruct c; try done; by apply not_elem_of_nil in Hin.
    + intros (c & -> & -> & Hin & _). by apply validate_transition_Ok.
  - intros e. unfold validate_transition.
    destruct (parse_settlement_state current), (parse_settlement_state target);
      [case_bool_decide|..]; congruence.
  - assert (∀ s t l, t ∈ _ALLOWED_TRANSITIONS s → rtc settlement_edge t l → rtc settlement_edge s l)
      as Hgo by (intros s t l Hin; apply rtc_l; by right).
    assert (rtc settlement_edge tearing_down torn_down) as H1 by (apply (Hgo _ torn_down); [set_solver|done]).
    assert (rtc settlement_edge teardown_dispatch_pending torn_down) as H2
      by (apply (Hgo _ tearing_down); [set_solver|done]).
    assert (rtc settlement_edge failed torn_down) as H3
      by (apply (Hgo _ teardown_dispatch_pending); [set_solver|done]).
    assert (rtc settlement_edge dispatch_pending torn_down) as H4
      by (apply (Hgo _ failed); [set_solver|done]).
    intros []; try (by exists abandoned); exists torn_down; (split; [done|]); try done.
    + apply (Hgo _ dispatch_pending); [set_solver|done].
    + apply (Hgo _ failed); [set_solver|done].
    + apply (Hgo _ teardown_dispatch_pending); [set_solver|done].
    + apply (Hgo _ teardown_dispatch_pending); [set_solver|done].
Qed.

(** ** Idempotency boundaries *)

Lemma schedule_result i market req res con raced created d r d1 :
  requirement_eqb req req = true → raced = None →
  schedule i market req res con raced created d = (Ok r, d1) →
  get d1 i = Some r ∧ sr_market r = market ∧ requirement_eqb (sr_requirements r) req = true.
Proof.
  intros Hreq -> H. unfold schedule, mbind, M_bind, gets in H. simpl in H.
  destruct (get d i) as [x|] eqn:Hget.
  - unfold _scheduling_matches in H. case_bool_decide as Hm; [|done].
    destruct (requirement_eqb (sr_requirements x) req) eqn:Hq; [|done]. simpl in H.
    destruct con; [case_bool_decide; [|done]|]; injection H as <- <-; by split_and!.
  - injection H as <- <-. split_and!; [|done..]. unfold get, set_records. simpl.
    unfold get in Hget. unfold find_by in *. rewrite bind_None in Hget.
    destruct Hget as [Hget|([? ?] & ? & ?)]; [|done].
    induction (records d) as [|y l IH]; simpl in *; [by rewrite decide_True|].
    case_decide; [done|]. destruct (list_find _ l) eqn:E; [done|].
    specialize (IH eq_refl). by destruct (list_find _ (l ++ _)) as [[]|].
Qed.

(** Scheduling is idempotent.  Once a reservation is scheduled, at any
    later time an equivalent request (same market and requirement, and no
    resource constraint or one naming the assigned resource) returns the
    row with the original assignment and writes nothing, whatever resource
    the retry proposes; any other market raises and writes nothing. *)
Theorem schedule_retry_returns_assignment i market req res con created d r d1 cs :
  fdb_wf d → requirement_eqb req req = true →
  schedule i market req res con None created d = (Ok r, d1) →
  let d2 := repo_history cs d1 in
  ∃ r', get d2 i = Some r' ∧ same_assignment r r' ∧
    ∀ res' con' raced' created',
      (con' = None ∨ con' = Some (sr_settlement_resource_id r) →
       schedule i market req res' con' raced' created' d2 = (Ok r', d2)) ∧
      (∀ market', market' ≠ market →
       ∃ e, schedule i market' req res' con' raced' created' d2 = (Err e, d2)).
Proof.
  intros Hwf Hreq Hs. cbv zeta.
  assert (fdb_wf d1) as Hwf1.
  { assert (moves (schedule i market req res con None created)) as H by by apply moves_schedule.
    eapply fsteps_wf; [|done]. specialize (H d Hwf). unfold wp in H. by rewrite Hs in H. }
  destruct (schedule_result _ _ _ _ _ _ _ _ _ _ Hreq eq_refl Hs) as (Hget & Hm & Hq).
  destruct (fsteps_row _ _ i r (repo_history_steps cs d1 Hwf1) Hwf1 Hget) as (r' & Hget' & Hrows).
  pose proof (record_steps_assignment _ _ Hrows) as Hsame. destruct Hsame as [Em Er Ei].
  exists r'. split; [done|]. split; [by apply record_steps_assignment|].
  intros res' con' raced' created'. unfold schedule, mbind, M_bind, gets. simpl. rewrite Hget'.
  unfold _scheduling_matches. rewrite Em, Er, Ei, Hq. split.
  - intros Hcon. rewrite bool_decide_eq_true_2 by done. simpl.
    destruct Hcon as [-> | ->]; [done|]. by rewrite bool_decide_eq_true_2.
  - intros market' Hne. rewrite bool_decide_eq_false_2 by congruence. simpl. by eexists.
Qed.

(** Fulfillment acceptance is idempotent.  Once a request is accepted, at
    any later time the same market and request return the row under the same
    fulfillment id and write nothing; another market or a different request
    raises and writes nothing. *)
Theorem accepted_fulfillment_is_stable i market request new_id d r d1 cs :
  fdb_wf d → py_eq request request = true →
  accept_fulfillment i market request new_id d = (Ok r, d1) →
  let d2 := repo_history cs d1 in
  ∃ r' f stored, get d2 i = Some r' ∧ sr_fulfillment_id r = Some f ∧
    sr_fulfillment_id r' = Some f ∧ sr_fulfillment_request r = Some stored ∧
    py_eq stored request = true ∧
    ∀ market' request' new_id',
      accept_fulfillment i market' request' new_id' d2 =
        (if bool_decide (market' = market)
         then if py_eq stored request' then Ok r'
              else Err (FulfillmentConflictError "fulfillment request")
         else Err (FulfillmentConflictError "market"), d2).
Proof.
  intros Hwf Hq Hs. cbv zeta.
  assert (fdb_wf d1) as Hwf1.
  { eapply fsteps_wf; [|done]. pose proof (moves_accept i market request new_id d Hwf) as H.
    unfold wp in H. by rewrite Hs in H. }
  assert (get d1 i = Some r ∧ sr_market r = market ∧ is_Some (sr_fulfillment_id r) ∧
          ∃ stored, sr_fulfillment_request r = Some stored ∧ py_eq stored request = true)
    as (Hget & Hm & [f Hf] & stored & Hst & Heq).
  { unfold accept_fulfillment, mbind, M_bind, gets in Hs. simpl in Hs.
    destruct (get d i) as [x|] eqn:Hget; [|done]. case_bool_decide as Hm; [|done]. simpl in Hs.
    destruct (sr_fulfillment_id x) as [f|] eqn:Hf.
    - destruct (sr_fulfillment_request x) as [v|] eqn:Hx; [|done]. destruct (py_eq v request) eqn:?; [|done].
      injection Hs as <- <-. rewrite Hf, Hx. split_and!; eauto.
    - unfold lift in Hs. destruct (validate_transition _ _); [|done]. injection Hs as <- <-.
      destruct (find_by_Some _ _ _ _ Hget) as [_ Hid]. rewrite <- Hid. split_and!; [|done|done|by eexists].
      match goal with |- get (save_record ?y _) _ = _ => apply (get_save_record_eq d y x) end.
      simpl. by rewrite Hid. }
  destruct (fsteps_row _ _ i r (repo_history_steps cs d1 Hwf1) Hwf1 Hget) as (r' & Hget' & Hrows).
  destruct (record_steps_accepted _ _ f Hrows Hf) as [Hf' Hr'].
  destruct (record_steps_assignment _ _ Hrows) as [Em _ _ _ _ _ _].
  exists r', f, stored. split_and!; try done. intros market' request' new_id'.
  unfold accept_fulfillment, mbind, M_bind, gets. simpl. rewrite Hget', Em, Hm, Hf', Hr', Hst.
  destruct (decide (market' = market)) as [-> |].
  - rewrite !bool_decide_eq_true_2 by done. simpl. by destruct (py_eq stored request').
  - rewrite !bool_decide_eq_false_2 by congruence. done.
Qed.

(** ** Recovery claims *)

(** One claiming transaction.  It takes at most [limit] rows, each in a
    requested state and unclaimed or with a lapsed lease, stamps them with the
    worker and one more attempt, leaves every other row as it was, and leaves a
    claimable row out only at the limit, and then only for older rows. *)
Theorem claim_pending_takes_oldest states limit lease worker now d xs d' :
  fdb_wf d → 0 ≤ limit →
  claim_pending states limit lease worker now d = (Ok xs, d') →
  Z.of_nat (length xs) ≤ limit ∧
  (∀ x, x ∈ xs → get d' (sr_reservation_id x) = Some x ∧
     ∃ r e, r ∈ records d ∧ claimable states now r = true ∧ x = claimed_row worker e r) ∧
  (∀ r, r ∈ records d → sr_reservation_id r ∉ sr_reservation_id <$> xs →
     get d' (sr_reservation_id r) = Some r ∧
     (claimable states now r = true →
      Z.of_nat (length xs) = limit ∧ ∀ x, x ∈ xs → sr_created_at x ≤ sr_created_at r)).
Proof.
  intros Hwf Hlim H. destruct (claim_pending_Ok _ _ _ _ _ _ _ _ Hwf H) as (Hxs & Hin & Hout).
  rewrite (claimed_keys _ _ _ Hxs), <- (Forall2_length _ _ _ Hxs).
  assert (∀ x, x ∈ xs → ∃ r e, r ∈ claim_candidates d states limit now ∧ x = claimed_row worker e r)
    as Hof.
  { intros x [k Hk]%list_elem_of_lookup_1.
    destruct (Forall2_lookup_r _ _ _ _ _ Hxs Hk) as (r & Hr & e & ->). exists r, e.
    split; [by eapply list_elem_of_lookup_2|done]. }
  split_and!.
  - by apply sql_limit_length.
  - intros x Hx. split; [by apply Hin|]. destruct (Hof x Hx) as (r & e & Hr & ->).
    destruct (claim_candidates_elem _ _ _ _ _ Hr). by exists r, e.
  - intros r Hr Hnot. split.
    { rewrite Hout by done. apply find_by_elem; [apply Hwf|done]. }
    intros Hc. destruct (sql_limit_rest _ limit _ r (oldest_first_sorted
      (filter (λ r, claimable states now r = true) (records d)))) as [Hlen Hle].
    + by rewrite elem_of_sort_by, list_elem_of_filter.
    + intros Hc'. apply Hnot. by apply list_elem_of_fmap_2.
    + split; [done|]. intros x Hx. destruct (Hof x Hx) as (r0 & e & Hr0 & ->).
      apply Z.leb_le. exact (Hle r0 Hr0).
Qed.

(** C33: claims are exclusive.  While the lease of a claimed row runs, no call
    of another worker touches the row: a claiming transaction does not take
    it, and the other worker's release, clear and progress calls leave it as
    it is. *)
Theorem live_claim_is_exclusive d i r owner e worker :
  fdb_wf d → get d i = Some r → sr_claimed_by r = Some owner →
  sr_claim_expires_at r = Some e → worker ≠ owner →
  (∀ states limit lease now, dt_ltb now e = true →
     get (repo_after (RClaim states limit lease worker now) d) i = Some r) ∧
  get (repo_after (RReleaseClaims worker) d) i = Some r ∧
  repo_after (RClear i worker) d = d ∧
  (∀ lease now, record_progress i worker lease now d = (Ok false, d)).
Proof.
  intros Hwf Hget Hby He Hne. destruct (find_by_Some _ _ _ _ Hget) as [Hin Hid].
  assert (held_by worker r = false) as Hheld.
  { unfold held_by. apply bool_decide_eq_false_2. rewrite Hby. congruence. }
  split_and!.
  - intros states limit lease now Hnow. unfold repo_after. simpl. unfold mbind, M_bind.
    destruct (claim_pending _ _ _ _ _ d) as [[xs|err] d'] eqn:E.
    + destruct (claim_pending_Ok _ _ _ _ _ _ _ _ Hwf E) as (_ & _ & Hout). simpl.
      rewrite Hout; [done|]. intros (r0 & Heq & [Hr0 Hc]%claim_candidates_elem)%list_elem_of_fmap.
      assert (r0 = r) as -> by (eapply key_inj; [apply Hwf|done|done|by rewrite <- Heq]).
      by rewrite (live_claim_not_claimable _ _ _ _ _ Hby He Hnow) in Hc.
    + unfold claim_pending, own_transaction in E. simpl.
      repeat (case_match; simplify_eq); done.

  - unfold repo_after. simpl. rewrite <- Hid. unfold get. apply find_by_unique.
    { simpl. replace (sr_reservation_id <$> map _ _) with (sr_reservation_id <$> records d);
        [apply Hwf|]. change (map ?g ?l) with (g <$> l). rewrite <- list_fmap_compose.
      apply list_fmap_ext. intros k x _. simpl. by destruct (held_by worker x). }
    split; [|done]. simpl. apply list_elem_of_fmap. exists r. by rewrite Hheld.
  - unfold repo_after. simpl. unfold clear_claim, mbind, M_bind, gets. simpl.
    rewrite Hget, Hheld. done.
  - intros lease now. unfold record_progress, mbind, M_bind, gets. simpl.
    by rewrite Hget, Hheld.
Qed.

(** Abandonment is conditional.  It reports whether the reservation's
    aggregate was [assigned]; if so only that row's state changes, to
    [abandoned], and otherwise nothing changes. *)
Theorem abandon_if_assigned_spec d i :
  fdb_wf d →
  let (res, d') := abandon_if_assigned i d in
  res = Ok (match get d i with
            | Some r => bool_decide (sr_state r = assigned) | None => false end) ∧
  cursors d' = cursors d ∧ provisioned d' = provisioned d ∧
  (∀ j, get d' j = match get d j with
     | Some r => Some (if bool_decide (j = i ∧ sr_state r = assigned)
                       then set_sr_state abandoned r else r)
     | None => None end).
Proof.
  intros Hwf. unfold abandon_if_assigned, mbind, M_bind, gets, lift, modify, mret, M_ret. simpl.
  split_and!; [|done|done|].
  - f_equal. destruct (get d i) as [r|] eqn:Hget.
    + destruct (find_by_Some _ _ _ _ Hget) as [Hin Hid].
      destruct (decide (sr_state r = assigned)) as [Hs|Hs].
      * rewrite (bool_decide_eq_true_2 _ Hs). apply existsb_exists. exists r.
        split; [by apply list_elem_of_In|]. by apply bool_decide_eq_true_2.
      * rewrite (bool_decide_eq_false_2 _ Hs). apply not_true_is_false. rewrite existsb_exists.
        intros (x & Hx & [Hi Hs']%bool_decide_eq_true). apply list_elem_of_In in Hx. apply Hs.
        rewrite (key_inj sr_reservation_id _ r x (fw_ids _ Hwf) Hin Hx); congruence.
    + unfold get in Hget. rewrite find_by_None in Hget.
      apply not_true_is_false. rewrite existsb_exists.
      intros (x & Hx & [Hi _]%bool_decide_eq_true). apply list_elem_of_In in Hx. by apply (Hget x).
  - intros j. unfold get, find_by. simpl. induction (records d) as [|x l IH]; simpl; [done|].
    assert (sr_reservation_id (if bool_decide (sr_reservation_id x = i ∧ sr_state x = assigned)
      then set_sr_state abandoned x else x) = sr_reservation_id x) as -> by by case_bool_decide.
    destruct (decide (sr_reservation_id x = j)) as [<-|Hne]; [done|].
    destruct (list_find _ (map _ l)) as [[]|], (list_find _ l) as [[]|]; done.
Qed.

Lemma count_rows_cons p r l : count_rows p (r :: l) = (if p r then 1 else 0) + count_rows p l.
Proof.
  unfold count_rows. rewrite filter_cons. destruct (p r) eqn:E.
  - rewrite decide_True by done. simpl. lia.
  - by rewrite decide_False.
Qed.

(** The recovery diagnostics measure the claims.  When every claim carries
    its expiry, the rows of a state that a claiming transaction could take now
    are exactly those the diagnostics do not report as actively claimed, and
    the expired claims are among them. *)
Theorem diagnostics_match_claims d now s :
  (∀ r, r ∈ records d → is_Some (sr_claimed_by r) → is_Some (sr_claim_expires_at r)) →
  let report := state_diagnostics d now s in
  count_rows (claimable [settlement_state_value s] now) (records d) =
    rd_total report - rd_actively_claimed report ∧
  0 ≤ rd_expired_claims report ≤ rd_total report - rd_actively_claimed report.
Proof.
  intros Hclaims. simpl.
  assert (∀ r, bool_decide (settlement_state_value (sr_state r) ∈ [settlement_state_value s]) =
               bool_decide (sr_state r = s)) as Hstate.
  { intros r. apply bool_decide_ext. rewrite list_elem_of_singleton. split; [|by intros ->].
    intros H%(f_equal parse_settlement_state). rewrite !parse_settlement_state_value in H.
    by injection H. }
  induction (records d) as [|r l IH]; [unfold count_rows; simpl; lia|].
  assert (∀ x, x ∈ l → is_Some (sr_claimed_by x) → is_Some (sr_claim_expires_at x)) as Hl.
  { intros x Hx. apply Hclaims. by apply list_elem_of_further. }
  specialize (IH Hl). specialize (Hclaims r (list_elem_of_here _ _)).
  rewrite count_rows_cons, filter_cons.
  destruct (decide (sr_state r = s)) as [Hs|Hs].
  - rewrite !count_rows_cons.
    assert (claimable [settlement_state_value s] now r = negb (active_claim now r) ∧
            (expired_claim now r = true → active_claim now r = false)) as [-> He].
    { unfold claimable, active_claim, expired_claim. rewrite Hstate, bool_decide_eq_true_2 by done.
      destruct (sr_claimed_by r) as [owner|]; [|done].
      destruct Hclaims as [e ->]; [by eexists|]. simpl. unfold dt_leb, dt_ltb.
      destruct (Z.leb_spec (instant e) (instant now)), (Z.ltb_spec (instant now) (instant e));
        split; try done; lia. }
    destruct (active_claim now r), (expired_claim now r); simpl; try lia; by discriminate He.
  - unfold claimable at 1. rewrite Hstate, bool_decide_eq_false_2 by done. simpl. lia.
Qed.

(** ** Instances *)

Definition empty_fdb : FDB := {| records := []; cursors := ∅; provisioned := [] |}.
Definition demo_req : SettlementRequirement :=
  {| rq_offering_mode := "vm"; rq_resource_kind := "compute"; rq_dimensions := {["gpu" := Dec 1 0]};
     rq_attributes := [] |}.
Definition demo_sres : SettlementResource :=
  {| sres_offering_mode := "vm"; sres_settlement_resource_id := "gpu0"; sres_pool_id := "p0";
     sres_resource_kind := "compute"; sres_provider := "kvm"; sres_attributes := [];
     sres_host_id := None; sres_dimensions := {["gpu" := Dec 1 0]} |}.
Definition demo_record : SettlementRecord := assigned_record "r1" "m" demo_req demo_sres None 0.
Definition scheduled_fdb : FDB :=
  repo_after (RSchedule "r1" "m" demo_req demo_sres None None 0) empty_fdb.
Definition abandoned_fdb : FDB := repo_after (RAbandon "r1") scheduled_fdb.
Definition demo_clock_time : datetime := DT 1700000000000000 0.
Definition demo_lapse : datetime := DT 1700000060000000 0.
Definition demo_repo_calls : list repo_call :=
  [RAccept "r1" "m" (VStr "deploy") "f1"; RTransition "r1" "dispatching" [];
   RClaim ["dispatching"%string] 10 (Flat 60) "w1" demo_clock_time;
   RTransition "r1" "active" [("provider_metadata"%string, VInt 1)]; RProvision "r1" "vm-1" "active" None 0;
   RTransition "r1" "assigned" []; RReleaseClaims "w1"].
Definition claimed_fdb : FDB := repo_history (take 3 demo_repo_calls) scheduled_fdb.

Lemma empty_fdb_wf : fdb_wf empty_fdb.
Proof. split; [apply NoDup_nil_2|by intros r ?%not_elem_of_nil]. Qed.
Lemma repo_history_wf cs d : fdb_wf d → fdb_wf (repo_history cs d).
Proof. intros Hwf. by eapply fsteps_wf; [apply repo_history_steps|]. Qed.
Lemma scheduled_fdb_wf : fdb_wf scheduled_fdb.
Proof. eapply fsteps_wf; [apply repo_after_steps|]; apply empty_fdb_wf. Qed.

Lemma settlement_record_lifecycle_witness :
  ∃ r', get (repo_history demo_repo_calls scheduled_fdb) "r1" = Some r' ∧
    same_assignment demo_record r' ∧ rtc settlement_edge assigned (sr_state r').
Proof.
  destruct (settlement_record_lifecycle demo_repo_calls scheduled_fdb "r1" demo_record)
    as (r' & ? & ? & ? & _); [apply scheduled_fdb_wf|vm_compute; reflexivity|].
  exists r'. split; [|split]; assumption.
Defined.

Lemma abandoned_never_dispatched_witness :
  let d' := repo_history demo_repo_calls abandoned_fdb in
  ∃ r', get d' "r1" = Some r' ∧ sr_state r' = abandoned ∧ sr_fulfillment_id r' = None ∧
    ∀ market request new_id, ∃ e, accept_fulfillment "r1" market request new_id d' = (Err e, d').
Proof.
  apply (abandoned_never_dispatched demo_repo_calls abandoned_fdb "r1"
           (set_sr_state abandoned demo_record)).
  - apply (repo_history_wf [RAbandon "r1"]), scheduled_fdb_wf.
  - vm_compute. reflexivity.
  - reflexivity.
Defined.

Lemma schedule_retry_returns_assignment_witness :
  let d2 := repo_history demo_repo_calls scheduled_fdb in
  ∃ r', get d2 "r1" = Some r' ∧ same_assignment demo_record r' ∧
    ∀ res' con' raced' created',
      (con' = None ∨ con' = Some "gpu0"%string →
       schedule "r1" "m" demo_req res' con' raced' created' d2 = (Ok r', d2)) ∧
      (∀ market', market' ≠ "m"%string →
       ∃ e, schedule "r1" market' demo_req res' con' raced' created' d2 = (Err e, d2)).
Proof.
  apply (schedule_retry_returns_assignment "r1" "m" demo_req demo_sres None 0 empty_fdb
           demo_record scheduled_fdb demo_repo_calls).
  - apply empty_fdb_wf.
  - vm_compute. reflexivity.
  - reflexivity.
Defined.

Definition accepted_record : SettlementRecord :=
  set_sr_state dispatch_pending
    (set_sr_fulfillment_request (Some (VStr "deploy")) (set_sr_fulfillment_id (Some "f1"%string) demo_record)).

Lemma accepted_fulfillment_is_stable_witness :
  let d2 := repo_history (drop 1 demo_repo_calls) (repo_history (take 1 demo_repo_calls) scheduled_fdb) in
  ∃ r' f stored, get d2 "r1" = Some r' ∧ Some "f1"%string = Some f ∧
    sr_fulfillment_id r' = Some f ∧ Some (VStr "deploy") = Some stored ∧
    py_eq stored (VStr "deploy") = true ∧
    ∀ market' request' new_id',
      accept_fulfillment "r1" market' request' new_id' d2 =
        (if bool_decide (market' = "m"%string)
         then if py_eq stored request' then Ok r'
              else Err (FulfillmentConflictError "fulfillment request")
         else Err (FulfillmentConflictError "market"), d2).
Proof.
  apply (accepted_fulfillment_is_stable "r1" "m" (VStr "deploy") "f1" scheduled_fdb
           accepted_record (repo_history (take 1 demo_repo_calls) scheduled_fdb)
           (drop 1 demo_repo_calls)).
  - apply scheduled_fdb_wf.
  - vm_compute. reflexivity.
  - vm_compute. reflexivity.
Defined.

Lemma claim_pending_takes_oldest_witness :
  let xs := [claimed_row "w1" demo_lapse demo_record] in
  (length xs <= 1)%nat ∧
  Z.of_nat (length xs) ≤ 1 ∧
  (∀ x, x ∈ xs → get (repo_after (RClaim ["assigned"%string] 1 (Flat 60) "w1" demo_clock_time)
                        scheduled_fdb) (sr_reservation_id x) = Some x).
Proof.
  split; [simpl; lia|].
  destruct (claim_pending_takes_oldest ["assigned"%string] 1 (Flat 60) "w1" demo_clock_time
    scheduled_fdb [claimed_row "w1" demo_lapse demo_record]
    (repo_after (RClaim ["assigned"%string] 1 (Flat 60) "w1" demo_clock_time) scheduled_fdb))
    as (H1 & H2 & _); [apply scheduled_fdb_wf|lia|vm_compute; reflexivity|].
  split; [exact H1|]. intros x Hx. destruct (H2 x Hx) as [H _]. exact H.
Defined.

Definition held_record : SettlementRecord :=
  claimed_row "w1" demo_lapse (set_sr_state dispatching accepted_record).

Lemma live_claim_is_exclusive_witness :
  dt_ltb demo_clock_time demo_lapse = true ∧
  (∀ states limit lease now, dt_ltb now demo_lapse = true →
     get (repo_after (RClaim states limit lease "w2" now) claimed_fdb) "r1" = Some held_record) ∧
  get (repo_after (RReleaseClaims "w2") claimed_fdb) "r1" = Some held_record ∧
  repo_after (RClear "r1" "w2") claimed_fdb = claimed_fdb ∧
  (∀ lease now, record_progress "r1" "w2" lease now claimed_fdb = (Ok false, claimed_fdb)).
Proof.
  split; [vm_compute; reflexivity|].
  apply (live_claim_is_exclusive claimed_fdb "r1" held_record "w1" demo_lapse "w2").
  - apply repo_history_wf, scheduled_fdb_wf.
  - vm_compute. reflexivity.
  - reflexivity.
  - reflexivity.
  - discriminate.
Defined.

Lemma abandon_if_assigned_spec_witness :
  (abandon_if_assigned "r1" scheduled_fdb).1 = Ok true ∧
  let (res, d') := abandon_if_assigned "r1" scheduled_fdb in
  res = Ok (match get scheduled_fdb "r1" with
            | Some r => bool_decide (sr_state r = assigned) | None => false end) ∧
  cursors d' = cursors scheduled_fdb ∧ provisioned d' = provisioned scheduled_fdb ∧
  (∀ j, get d' j = match get scheduled_fdb j with
     | Some r => Some (if bool_decide (j = "r1"%string ∧ sr_state r = assigned)
                       then set_sr_state abandoned r else r)
     | None => None end).
Proof.
  split; [vm_compute; reflexivity|].
  apply (abandon_if_assigned_spec scheduled_fdb "r1"). apply scheduled_fdb_wf.
Defined.

Lemma diagnostics_match_claims_witness :
  let report := state_diagnostics claimed_fdb demo_clock_time dispatching in
  rd_actively_claimed report = 1 ∧
  count_rows (claimable ["dispatching"%string] demo_clock_time) (records claimed_fdb) =
    rd_total report - rd_actively_claimed report ∧
  0 ≤ rd_expired_claims report ≤ rd_total report - rd_actively_claimed report.
Proof.
  split; [vm_compute; reflexivity|].
  apply (diagnostics_match_claims claimed_fdb demo_clock_time dispatching).
  intros r Hr _. assert (records claimed_fdb = [held_record]) as Heq by (vm_compute; reflexivity).
  rewrite Heq in Hr. apply list_elem_of_singleton in Hr as ->. by eexists.
Defined.
