(* ===== verification/Sessions.v ===== *)
(** Transactions over both databases: what code inside an open session may do
    to the site ledger's and the settlement tables, and what a transaction
    therefore commits. *)
From S2P Require Import Prelude PyNum PyValue PyTime PoolDeclarations LedgerTypes.
From S2P Require Import LedgerMatching.
From S2P Require Import Ledger LedgerLifecycle LedgerSpec LedgerTrack.
From S2P Require Import LedgerRefinement.
From S2P Require Import LedgerCapacity Settlement SettlementFacts.
From S2P Require Export SettlementClaims.
From S2P Require Import SettlementFacts.
From stdpp Require Import relations.

Local Open Scope Z_scope.

Lemma wp_and {S A} (m : M S A) (Q Q' : result A → S → Prop) s :
  wp m Q s → wp m Q' s → wp m (λ r s', Q r s' ∧ Q' r s') s.
Proof. by split. Qed.

Section sessions.
Context {Ext : Type} `{!SettlementTables Ext} (cfg : ledger_config Ext).

Implicit Types (w : world Ext) (d : DB Ext).

(** Both databases well formed. *)
Record good d : Prop := {
  gd_ledger : db_wf d;
  gd_settlement : fdb_wf (settlement (ext d));
}.

(** From [d] to [d']: steps of the ledger's specification that keep every
    window and declared quantity, and steps of the settlement repository that
    keep the compensation marker. *)
Record advance d d' : Prop := {
  ad_ledger : steps cfg (narrow cfg) d d';
  ad_settlement : rtc dstep (settlement (ext d)) (settlement (ext d'));
}.

#[export] Instance advance_preorder : PreOrder advance.
Proof.
  split.
  - intros d. by split.
  - intros d1 d2 d3 [] []. split; by etrans.
Qed.

Lemma advance_good d d' : advance d d' → good d → good d'.
Proof. intros [Hs Hf] [Hwf Hfwf]. split; [by eapply steps_wf|by eapply fsteps_wf]. Qed.

Lemma advance_safe d d' : advance d d' → db_wf d → safe cfg d → safe cfg d'.
Proof. intros [Hs _] ??. by eapply steps_safe. Qed.

(** A write to the composition's tables. *)
Lemma advance_ext d x :
  rtc dstep (settlement (ext d)) (settlement x) → advance d (set_ext x d).
Proof. intros Hx. split; [|done]. apply rtc_once. exists LExt. split; [done|apply st_ext]. Qed.

(** One update of a reservation row. *)
Lemma advance_row d (r r' : CapacityReservation) :
  get_reservation_row (capacity_reservation_id r) d = Some r → row_step r r' →
  window_kept r r' → advance d (update_reservation r' d).
Proof. intros. split; [|done]. apply rtc_once. exists (LRow r r'). by split; [|apply st_row]. Qed.

(** ** Whatever [m] does, what [view] sees stays *)

Definition unseen {X A} (view : world Ext → X) (m : M (world Ext) A) : Prop :=
  ∀ w, wp m (λ _ w', view w' = view w) w.

Lemma unseen_bind {X A B} (view : world Ext → X) (m : M (world Ext) A) (k : A → M (world Ext) B) :
  unseen view m → (∀ a, unseen view (k a)) → unseen view (m ≫= k).
Proof.
  intros Hm Hk w. apply wp_bind. eapply wp_mono; [apply Hm|]. intros [a|e] w1 H1; [|done].
  eapply wp_mono; [apply Hk|]. intros r w2 H2. congruence.
Qed.

Lemma unseen_catch {X A} (view : world Ext → X) (m : M (world Ext) A) h :
  unseen view m → (∀ e, unseen view (h e)) → unseen view (catch m h).
Proof.
  intros Hm Hh w. apply wp_catch. eapply wp_mono; [apply Hm|]. intros [a|e] w1 H1; [done|].
  eapply wp_mono; [apply Hh|]. intros r w2 H2. congruence.
Qed.

(** ** Inside a transaction *)

(** Code of an open session, whose transaction began from [committed] and has
    advanced to [working]: it commits nothing, and unless it raises it leaves
    an advance. *)
Definition in_txn {A} (m : M (world Ext) A) : Prop :=
  ∀ w, good (committed w) → advance (committed w) (working w) →
    wp m (λ r w', committed w' = committed w ∧
      match r with Ok _ => advance (committed w) (working w') | Err _ => True end) w.

(** The same whether or not it raises. *)
Definition in_txn_always {A} (m : M (world Ext) A) : Prop :=
  ∀ w, good (committed w) → advance (committed w) (working w) →
    wp m (λ _ w', committed w' = committed w ∧ advance (committed w) (working w')) w.

Definition reads_only {A} (m : M (world Ext) A) : Prop :=
  ∀ w, wp m (λ _ w', working w' = working w ∧ committed w' = committed w) w.

Lemma in_txn_of_always {A} (m : M (world Ext) A) : in_txn_always m → in_txn m.
Proof.
  intros Hm w ??. eapply wp_mono; [by eapply Hm|]. intros [a|e] w' [??]; by split.
Qed.

Lemma in_txn_of_reads {A} (m : M (world Ext) A) : reads_only m → in_txn m.
Proof.
  intros Hm w ? Ha. eapply wp_mono; [apply Hm|]. intros [a|e] w' [Hw ?]; (split; [done|]); [|done].
  by rewrite Hw.
Qed.

Lemma in_txn_bind {A B} (m : M (world Ext) A) (k : A → M (world Ext) B) :
  in_txn m → (∀ a, in_txn (k a)) → in_txn (m ≫= k).
Proof.
  intros Hm Hk w Hd Ha. apply wp_bind. eapply wp_mono; [by apply Hm|].
  intros [a|e] w1 [Hc Ha1]; [|done]. eapply wp_mono; [apply Hk; by rewrite Hc|].
  intros r w2. by rewrite Hc.
Qed.

(** Binding a pure result keeps what it is known to be. *)
Lemma in_txn_lift_bind {A B} (x : result A) (k : A → M (world Ext) B) :
  (∀ a, x = Ok a → in_txn (k a)) → in_txn (lift x ≫= k).
Proof. intros Hk w Hd Ha. apply wp_bind, wp_lift. destruct x as [a|e]; [|done]. by apply Hk. Qed.

Lemma in_txn_same {A} (m : M (world Ext) A) :
  (∀ w, working (m w).2 = working w ∧ committed (m w).2 = committed w) → in_txn m.
Proof. intros Hm. by apply in_txn_of_reads. Qed.

Lemma in_txn_in_ext {A} (m : F A) : moves_with marker m → in_txn_always (in_ext m : M (world Ext) A).
Proof.
  intros Hm w Hd Ha. apply wp_in_ext. split; [done|]. etrans; [exact Ha|].
  simpl. apply advance_ext. rewrite settlement_put. apply Hm.
  by apply (advance_good _ _ Ha).
Qed.

Lemma always_of_reads {A} (m : M (world Ext) A) : reads_only m → in_txn_always m.
Proof.
  intros Hm w ? Ha. eapply wp_mono; [apply Hm|]. intros x w' [Hw ?]. split; [done|]. by rewrite Hw.
Qed.

Lemma always_bind {A B} (m : M (world Ext) A) (k : A → M (world Ext) B) :
  in_txn_always m → (∀ a, in_txn_always (k a)) → in_txn_always (m ≫= k).
Proof.
  intros Hm Hk w Hd Ha. apply wp_bind. eapply wp_mono; [by apply Hm|].
  intros [a|e] w1 [Hc Ha1]; [|done]. eapply wp_mono; [apply Hk; by rewrite Hc|].
  intros r w2. by rewrite Hc.
Qed.

(** A handler goes on from what the session did before the exception. *)
Lemma in_txn_catch {A} (m : M (world Ext) A) h :
  in_txn_always m → (∀ e, in_txn (h e)) → in_txn (catch m h).
Proof.
  intros Hm Hh w Hd Ha. apply wp_catch. eapply wp_mono; [by apply Hm|].
  intros [a|e] w1 [Hc Ha1]; [done|]. eapply wp_mono; [apply Hh; by rewrite Hc|].
  intros r w2. by rewrite Hc.
Qed.

Lemma reads_bind {A B} (m : M (world Ext) A) (k : A → M (world Ext) B) :
  reads_only m → (∀ a, reads_only (k a)) → reads_only (m ≫= k).
Proof.
  intros Hm Hk w. apply wp_bind. eapply wp_mono; [apply Hm|]. intros [a|e] w1 [??]; [|done].
  eapply wp_mono; [apply Hk|]. intros r w2 [??]. split; congruence.
Qed.

Lemma reads_catch {A} (m : M (world Ext) A) h :
  reads_only m → (∀ e, reads_only (h e)) → reads_only (catch m h).
Proof.
  intros Hm Hh w. apply wp_catch. eapply wp_mono; [apply Hm|]. intros [a|e] w1 [??]; [done|].
  eapply wp_mono; [apply Hh|]. intros r w2 [??]. split; congruence.
Qed.

Lemma reads_same {A} (m : M (world Ext) A) :
  (∀ w, working (m w).2 = working w ∧ committed (m w).2 = committed w) → reads_only m.
Proof. done. Qed.

(** ** Transactions *)

(** A procedure made of transactions, and of calls that let others run. *)
Definition advances {A} (m : M (world Ext) A) : Prop :=
  ∀ w, good (committed w) → wp m (λ _ w', advance (committed w) (committed w')) w.

Lemma advances_bind {A B} (m : M (world Ext) A) (k : A → M (world Ext) B) :
  advances m → (∀ a, advances (k a)) → advances (m ≫= k).
Proof.
  intros Hm Hk w Hw. apply wp_bind. eapply wp_mono; [by apply Hm|]. intros [a|e] w1 H1; [|done].
  eapply wp_mono; [apply Hk; by eapply advance_good|]. intros r w2 H2. by etrans.
Qed.

Lemma advances_catch {A} (m : M (world Ext) A) h :
  advances m → (∀ e, advances (h e)) → advances (catch m h).
Proof.
  intros Hm Hh w Hw. apply wp_catch. eapply wp_mono; [by apply Hm|]. intros [a|e] w1 H1; [done|].
  eapply wp_mono; [apply Hh; by eapply advance_good|]. intros r w2 H2. by etrans.
Qed.

Lemma advances_lift_bind {A B} (x : result A) (k : A → M (world Ext) B) :
  (∀ a, x = Ok a → advances (k a)) → advances (lift x ≫= k).
Proof. intros Hk w Hw. apply wp_bind, wp_lift. destruct x as [a|e]; [by apply Hk|reflexivity]. Qed.

Lemma advances_same {A} (m : M (world Ext) A) :
  (∀ w, committed (m w).2 = committed w) → advances m.
Proof. intros Hm w _. unfold wp. rewrite Hm. reflexivity. Qed.

Lemma advances_for_each {A} (l : list A) (body : A → M (world Ext) unit) :
  (∀ x, advances (body x)) → advances (for_each l body).
Proof.
  intros Hb. induction l as [|x l IH]; simpl; [by apply advances_same|]. by apply advances_bind.
Qed.

(** Code of an open session up to its end, its commit included. *)
Definition commits {A} (m : M (world Ext) A) : Prop :=
  ∀ w, good (committed w) → advance (committed w) (working w) →
    wp m (λ _ w', advance (committed w) (committed w')) w.

Lemma commits_bind {A B} (m : M (world Ext) A) (k : A → M (world Ext) B) :
  in_txn m → (∀ a, commits (k a)) → commits (m ≫= k).
Proof.
  intros Hm Hk w Hd Ha. apply wp_bind. eapply wp_mono; [by apply Hm|].
  intros [a|e] w1 [Hc Ha1]; [|rewrite Hc; reflexivity].
  eapply wp_mono; [apply Hk; by rewrite Hc|]. intros r w2. by rewrite Hc.
Qed.

Lemma commits_saved {A} (a : A) : commits (commit_session;; mret a).
Proof. intros w Hd Ha. done. Qed.

Lemma commits_same {A} (m : M (world Ext) A) :
  (∀ w, committed (m w).2 = committed w) → commits m.
Proof. intros Hm w _ _. unfold wp. rewrite Hm. reflexivity. Qed.

Lemma advances_in_session {A} (m : M (world Ext) A) : commits m → advances (in_session m).
Proof.
  intros Hm w Hw. pose proof (Hm (begin_session w) Hw (reflexivity _)) as H. unfold wp, in_session in *.
  by destruct (m (begin_session w)).
Qed.

(** A session that ends in its one commit. *)
Lemma advances_transaction {A} (m : M (world Ext) A) :
  in_txn m → advances (in_session (a ← m; commit_session;; mret a)).
Proof. intros Hm. apply advances_in_session, commits_bind; [done|]. intros a. apply commits_saved. Qed.

(** A raising transaction commits nothing. *)
Lemma transaction_atomic {A} (m : M (world Ext) A) w :
  unseen committed m →
  wp (in_session (a ← m; commit_session;; mret a))
    (λ r w', match r with Ok _ => True | Err _ => committed w' = committed w end) w.
Proof.
  intros Hm. specialize (Hm (begin_session w)). unfold wp, in_session, mbind, M_bind in *.
  by destruct (m (begin_session w)) as [[a|e] w1].
Qed.
End sessions.

Arguments unseen {Ext X A} view m.
Abbreviation sessional := (unseen committed).

(** Walking a session's code, [known] closing the calls it makes. *)
Ltac session known :=
  repeat first
    [ progress cbv zeta | known | apply unseen_bind; [|intros] | apply unseen_catch; [|intros]
    | done
    | match goal with
      | |- unseen _ (match ?x with _ => _ end) => destruct x
      | |- unseen _ (let '(_, _) := ?x in _) => destruct x
      end
    | by intros w; apply wp_in_ext ].

Ltac reading known :=
  repeat first
    [ progress cbv zeta | known | apply reads_bind; [|intros] | apply reads_catch; [|intros]
    | match goal with
      | |- reads_only (match ?x with _ => _ end) => destruct x
      | |- reads_only (let '(_, _) := ?x in _) => destruct x
      end
    | by apply reads_same ].

Ltac keeping known :=
  repeat first
    [ progress cbv zeta | known
    | apply in_txn_bind; [|intros]
    | match goal with
      | |- in_txn _ (match ?x with _ => _ end) => destruct x
      | |- in_txn _ (let '(_, _) := ?x in _) => destruct x
      end
    | by apply in_txn_same ].

Ltac committing known :=
  repeat first
    [ progress cbv zeta | known | apply commits_saved
    | apply commits_bind; [|intros]
    | match goal with
      | |- commits _ (match ?x with _ => _ end) => destruct x
      | |- commits _ (let '(_, _) := ?x in _) => destruct x
      end
    | by apply commits_same ].

Ltac advancing known :=
  repeat first
    [ progress cbv zeta | known
    | apply advances_bind; [|intros]
    | apply advances_catch; [|intros]
    | match goal with
      | |- advances _ (match ?x with _ => _ end) => destruct x
      | |- advances _ (let '(_, _) := ?x in _) => destruct x
      end
    | by apply advances_same ].
