(* ===== verification/RoundRobin.v ===== *)
(** The deterministic round-robin scheduling policy
    ([market_fulfillment/round_robin_policy.py]): pools in name order after
    the last one used, then the resources of that pool in name order after the
    last one used there. *)
From S2P Require Import Prelude PyNum PyValue PoolDeclarations.
From stdpp Require Import sorting.

(** ** Candidates and cursors *)

Record SettlementCandidate : Type := {
  cand_resource_id : string;
  cand_pool_id : string;
  cand_resource_kind : string;
  cand_available : gmap string num;
  cand_provider : string;
  cand_attributes : gmap string value;
  cand_host_id : option string;
}.

Record SchedulingCursorState : Type := {
  cs_last_pool_id : option string;
  cs_last_resource_by_pool : gmap string string;
}.

(** ** The policy *)

(** [values.index(previous)], when [previous in values]. *)
Definition index_of (values : list string) (previous : option string) : option nat :=
  p ← previous; fst <$> list_find (λ v, v = p) values.

Definition _next_after (values : list string) (previous : option string) : result string :=
  match values with
  | [] => Err (NoEligibleSettlementResourceError "no eligible values")
  | first :: _ =>
      match index_of values previous with
      | None => Ok first
      | Some i => Ok (nth ((i + 1) mod length values) values first)
      end
  end.

(** [sorted(by_pool)] and [by_pool[pool_id]]. *)
Definition candidate_pools (candidates : list SettlementCandidate) : list string :=
  sorted_names (list_to_set (cand_pool_id <$> candidates)).

Definition pool_resources (candidates : list SettlementCandidate) (pool_id : string)
    : list SettlementCandidate :=
  sort_by (λ c c', string_leb (cand_resource_id c) (cand_resource_id c'))
    (filter (λ c, cand_pool_id c = pool_id) candidates).

Definition select (candidates : list SettlementCandidate) (cursor : SchedulingCursorState)
    : result (SettlementCandidate * SchedulingCursorState) :=
  pool_id ← _next_after (candidate_pools candidates) (cs_last_pool_id cursor);
  let resources := pool_resources candidates pool_id in
  resource_id ← _next_after (cand_resource_id <$> resources)
                  (cs_last_resource_by_pool cursor !! pool_id);
  match find_by cand_resource_id resource_id resources with
  | Some selected =>
      Ok (selected,
          {| cs_last_pool_id := Some pool_id;
             cs_last_resource_by_pool :=
               <[pool_id := resource_id]> (cs_last_resource_by_pool cursor) |})
  | None => Err (RuntimeError "StopIteration")
  end.

(** ** Successors *)

(** The position the next value is read at. *)
Definition start_of (values : list string) (previous : option string) : nat :=
  match index_of values previous with
  | None => 0
  | Some i => (i + 1) mod length values
  end.

Lemma start_of_lt values previous : values ≠ [] → start_of values previous < length values.
Proof.
  intros H. unfold start_of. assert (length values ≠ 0) by by destruct values.
  destruct (index_of _ _); [by apply Nat.mod_upper_bound|lia].
Qed.

Lemma next_after_lookup values previous :
  values ≠ [] → ∃ v, _next_after values previous = Ok v ∧ values !! start_of values previous = Some v.
Proof.
  intros Hne. pose proof (start_of_lt values previous Hne) as Hlt. unfold start_of in *.
  destruct values as [|x l]; [done|]. unfold _next_after.
  destruct (index_of (x :: l) previous) as [i|]; [|by exists x].
  eexists. split; [done|]. destruct (nth_lookup_or_length (x :: l) ((i + 1) mod length (x :: l)) x);
    [done|lia].
Qed.

Lemma index_of_lookup values i v :
  NoDup values → values !! i = Some v → index_of values (Some v) = Some i.
Proof.
  intros Hnd Hi. unfold index_of. simpl.
  destruct (list_find _ values) as [[j w]|] eqn:E.
  - apply list_find_Some in E as (Hj & -> & _). simpl. f_equal. by eapply NoDup_lookup.
  - apply list_find_None in E. rewrite Forall_forall in E. destruct (E v); [|done].
    by eapply list_elem_of_lookup_2.
Qed.

(** ** Walking round a list of names *)

Fixpoint walk (values : list string) (previous : option string) (k : nat) : list string :=
  match k with
  | O => []
  | S k =>
      match _next_after values previous with
      | Ok v => v :: walk values (Some v) k
      | Err _ => []
      end
  end.

Definition walk_end (values : list string) (previous : option string) (k : nat) : option string :=
  match last (walk values previous k) with Some v => Some v | None => previous end.

Section walking.
Context (values : list string) (Hne : values ≠ []) (Hnd : NoDup values).

Lemma walk_length previous k : length (walk values previous k) = k.
Proof.
  revert previous. induction k as [|k IH]; intros previous; simpl; [done|].
  destruct (next_after_lookup values previous Hne) as (v & -> & _). simpl. by rewrite IH.
Qed.

Lemma walk_lookup previous k j :
  j < k → walk values previous k !! j = values !! ((start_of values previous + j) mod length values).
Proof.
  revert previous j. induction k as [|k IH]; intros previous j Hj; [lia|]. simpl.
  pose proof (start_of_lt values previous Hne) as Hlt.
  destruct (next_after_lookup values previous Hne) as (v & -> & Hv). destruct j as [|j]; simpl.
  - rewrite Nat.add_0_r, Nat.mod_small by done. done.
  - rewrite IH by lia. f_equal. unfold start_of at 1. rewrite (index_of_lookup _ _ _ Hnd Hv).
    rewrite Nat.Div0.add_mod_idemp_l. f_equal. lia.
Qed.

Lemma walk_round previous : walk values previous (length values) ≡ₚ values.
Proof.
  assert (walk values previous (length values) = rotate (start_of values previous) values) as ->.
  { apply list_eq_same_length with (length values); [by apply length_rotate|by apply walk_length|].
    intros i x y Hi Hx Hy. rewrite walk_lookup in Hx by done. rewrite lookup_rotate_r in Hy by done.
    unfold rotate_nat_add in Hy. rewrite <- Nat2Z.inj_add, <- Nat2Z.inj_mod, Nat2Z.id in Hy.
    congruence. }
  unfold rotate. rewrite Permutation_app_comm. by rewrite take_drop.
Qed.

Lemma walk_app previous a b :
  walk values previous (a + b) = walk values previous a ++ walk values (walk_end values previous a) b.
Proof.
  revert previous. induction a as [|a IH]; intros previous; simpl; [done|].
  destruct (next_after_lookup values previous Hne) as (v & E & _). rewrite E. simpl. f_equal.
  rewrite IH. do 2 f_equal. unfold walk_end. simpl. rewrite E, last_cons.
  by destruct (last (walk values (Some v) a)).
Qed.

(** Any whole number of rounds meets each name once per round. *)
Lemma walk_rounds previous m : walk values previous (m * length values) ≡ₚ mjoin (replicate m values).
Proof.
  revert previous. induction m as [|m IH]; intros previous; simpl; [done|].
  by rewrite walk_app, walk_round, IH.
Qed.
End walking.

(** ** Runs of the policy *)

(** The candidates chosen by [k] consecutive selections. *)
Fixpoint selections (candidates : list SettlementCandidate) (cursor : SchedulingCursorState)
    (k : nat) : list SettlementCandidate :=
  match k with
  | O => []
  | S k =>
      match select candidates cursor with
      | Ok (selected, cursor) => selected :: selections candidates cursor k
      | Err _ => []
      end
  end.

Lemma elem_of_candidate_pools candidates p :
  p ∈ candidate_pools candidates ↔ ∃ c, c ∈ candidates ∧ cand_pool_id c = p.
Proof.
  unfold candidate_pools, sorted_names.
  rewrite elem_of_sort_by, elem_of_elements, elem_of_list_to_set, list_elem_of_fmap. naive_solver.
Qed.

Lemma candidate_pools_NoDup candidates : NoDup (candidate_pools candidates).
Proof. unfold candidate_pools, sorted_names. rewrite sort_by_perm. apply NoDup_elements. Qed.

Lemma candidate_pools_nonempty candidates : candidates ≠ [] → candidate_pools candidates ≠ [].
Proof.
  intros Hne Hnil. destruct candidates as [|c l]; [done|].
  assert (cand_pool_id c ∈ candidate_pools (c :: l)) as H.
  { apply elem_of_candidate_pools. exists c. split; [apply list_elem_of_here|done]. }
  rewrite Hnil in H. by apply not_elem_of_nil in H.
Qed.

Lemma elem_of_pool_resources candidates p c :
  c ∈ pool_resources candidates p ↔ c ∈ candidates ∧ cand_pool_id c = p.
Proof. unfold pool_resources. rewrite elem_of_sort_by, list_elem_of_filter. tauto. Qed.

Lemma next_after_elem values previous v :
  _next_after values previous = Ok v → v ∈ values.
Proof.
  intros H. assert (values ≠ []) as Hne by by destruct values.
  destruct (next_after_lookup values previous Hne) as (w & Hw & Hl).
  rewrite H in Hw. injection Hw as ->. by eapply list_elem_of_lookup_2.
Qed.

(** Some candidate is always chosen, as the cursor prescribes. *)
Lemma select_Ok candidates cursor :
  candidates ≠ [] →
  ∃ c, select candidates cursor =
         Ok (c, {| cs_last_pool_id := Some (cand_pool_id c);
                   cs_last_resource_by_pool :=
                     <[cand_pool_id c := cand_resource_id c]> (cs_last_resource_by_pool cursor) |}) ∧
    c ∈ candidates ∧
    _next_after (candidate_pools candidates) (cs_last_pool_id cursor) = Ok (cand_pool_id c) ∧
    _next_after (cand_resource_id <$> pool_resources candidates (cand_pool_id c))
      (cs_last_resource_by_pool cursor !! cand_pool_id c) = Ok (cand_resource_id c).
Proof.
  intros Hne. unfold select.
  destruct (next_after_lookup _ (cs_last_pool_id cursor) (candidate_pools_nonempty _ Hne))
    as (p & Hp & _). rewrite Hp. simpl.
  destruct (proj1 (elem_of_candidate_pools _ _) (next_after_elem _ _ _ Hp)) as (c0 & Hc0 & Hcp).
  assert (cand_resource_id <$> pool_resources candidates p ≠ []) as Hres.
  { intros Hnil%fmap_nil_inv. assert (c0 ∈ pool_resources candidates p) as H
      by by apply elem_of_pool_resources. rewrite Hnil in H. by apply not_elem_of_nil in H. }
  destruct (next_after_lookup _ (cs_last_resource_by_pool cursor !! p) Hres) as (rid & Hr & _).
  rewrite Hr. simpl. pose proof (next_after_elem _ _ _ Hr) as Hin.
  destruct (find_by cand_resource_id rid (pool_resources candidates p)) as [c|] eqn:Hf.
  - destruct (find_by_Some _ _ _ _ Hf) as [Hc <-]. apply elem_of_pool_resources in Hc as [? <-].
    by exists c.
  - apply list_elem_of_fmap in Hin as (c & -> & Hc). rewrite find_by_None in Hf. by apply Hf in Hc.
Qed.

Lemma selections_pools candidates cursor k :
  candidates ≠ [] →
  cand_pool_id <$> selections candidates cursor k =
  walk (candidate_pools candidates) (cs_last_pool_id cursor) k.
Proof.
  intros Hne. revert cursor. induction k as [|k IH]; intros cursor; simpl; [done|].
  destruct (select_Ok candidates cursor Hne) as (c & -> & _ & Hp & _). rewrite Hp. simpl.
  by rewrite IH.
Qed.

Lemma selections_resources candidates cursor k p :
  candidates ≠ [] →
  let chosen := filter (λ c, cand_pool_id c = p) (selections candidates cursor k) in
  cand_resource_id <$> chosen =
  walk (cand_resource_id <$> pool_resources candidates p)
    (cs_last_resource_by_pool cursor !! p) (length chosen).
Proof.
  intros Hne. simpl. revert cursor. induction k as [|k IH]; intros cursor; simpl; [done|].
  destruct (select_Ok candidates cursor Hne) as (c & -> & _ & _ & Hr).
  destruct (decide (cand_pool_id c = p)) as [<-|Hp].
  - rewrite !filter_cons_True by done. simpl. rewrite Hr, IH. simpl. by rewrite lookup_insert_eq.
  - rewrite !filter_cons_False by done. rewrite IH. simpl. by rewrite lookup_insert_ne.
Qed.

Lemma count_in_rounds (l : list string) p m :
  NoDup l → p ∈ l → length (filter (λ x, x = p) (mjoin (replicate m l))) = m.
Proof.
  intros Hnd Hp. induction m as [|m IH]; simpl; [done|].
  rewrite filter_app, length_app, IH.
  assert (length (filter (λ x, x = p) l) = 1) as ->; [|done]. clear IH m.
  induction Hnd as [|x l Hx Hnd IH]; [by apply not_elem_of_nil in Hp|].
  apply elem_of_cons in Hp as [<-|Hp].
  - rewrite filter_cons_True by done. rewrite filter_none; [done|]. by intros y Hy ->.
  - rewrite filter_cons_False; [by apply IH|]. by intros ->.
Qed.

Lemma chosen_count candidates cursor m p :
  candidates ≠ [] → p ∈ candidate_pools candidates →
  length (filter (λ c, cand_pool_id c = p)
    (selections candidates cursor (m * length (candidate_pools candidates)))) = m.
Proof.
  intros Hne Hp.
  assert (∀ l, length (filter (λ c, cand_pool_id c = p) l) =
               length (filter (λ x, x = p) (cand_pool_id <$> l))) as ->.
  { induction l as [|c l IH]; [done|]. rewrite fmap_cons, !filter_cons.
    case_decide; simpl; by rewrite IH. }
  rewrite selections_pools by done.
  rewrite walk_rounds; [|by apply candidate_pools_nonempty|apply candidate_pools_NoDup].
  apply count_in_rounds; [apply candidate_pools_NoDup|done].
Qed.

Lemma selections_elem candidates cursor k c :
  c ∈ selections candidates cursor k → c ∈ candidates.
Proof.
  revert cursor. induction k as [|k IH]; intros cursor; simpl; [by intros ?%not_elem_of_nil|].
  destruct (decide (candidates = [])) as [->|Hne]; [by intros ?%not_elem_of_nil|].
  destruct (select_Ok candidates cursor Hne) as (c' & -> & Hin & _).
  intros [->|H]%elem_of_cons; [done|by eapply IH].
Qed.

(** Rows of a keyed table are determined by their keys. *)
Lemma keys_Permutation (l l1 l2 : list SettlementCandidate) :
  NoDup (cand_resource_id <$> l) → (∀ c, c ∈ l1 → c ∈ l) → (∀ c, c ∈ l2 → c ∈ l) →
  NoDup l2 → cand_resource_id <$> l1 ≡ₚ cand_resource_id <$> l2 → l1 ≡ₚ l2.
Proof.
  intros Hnd H1 H2 Hnd2 Hkeys.
  assert (∀ a b x, (∀ c, c ∈ a → c ∈ l) → (∀ c, c ∈ b → c ∈ l) →
    cand_resource_id <$> a ≡ₚ cand_resource_id <$> b → x ∈ a → x ∈ b) as Hsub.
  { intros a b x Ha Hb Hab Hx. assert (cand_resource_id x ∈ cand_resource_id <$> b) as Hk.
    { rewrite <- Hab. by apply list_elem_of_fmap_2. }
    apply list_elem_of_fmap in Hk as (y & Heq & Hy).
    by rewrite (key_inj cand_resource_id l x y) by auto. }
  apply NoDup_Permutation; [|done|].
  - apply (NoDup_fmap_1 cand_resource_id). rewrite Hkeys. apply NoDup_fmap_2_strong; [|done].
    intros x y Hx Hy Heq. by apply (key_inj cand_resource_id l); auto.
  - intros x. split; apply Hsub; auto. by rewrite Hkeys.
Qed.

(** ** The contract *)

(** The policy always chooses.  With no candidate it raises; with any, it
    returns one of them together with the cursor recording exactly that
    choice, whatever the cursor was. *)
Theorem select_is_sound candidates cursor :
  match candidates with
  | [] => ∃ what, select candidates cursor = Err (NoEligibleSettlementResourceError what)
  | _ => ∃ c, c ∈ candidates ∧
      select candidates cursor =
        Ok (c, {| cs_last_pool_id := Some (cand_pool_id c);
                  cs_last_resource_by_pool :=
                    <[cand_pool_id c := cand_resource_id c]> (cs_last_resource_by_pool cursor) |})
  end.
Proof.
  destruct candidates as [|c0 l]; [by eexists|].
  destruct (select_Ok (c0 :: l) cursor) as (c & ? & ? & _); [done|]. by exists c.
Qed.

(** C34: fairness.  From any cursor, [n] consecutive selections among fixed
    candidates of [n] pools use each pool exactly once; and over [m] such
    rounds a pool of [m] resources has each of them chosen exactly once. *)
Theorem round_robin_is_fair candidates cursor :
  candidates ≠ [] → NoDup (cand_resource_id <$> candidates) →
  let n := length (candidate_pools candidates) in
  cand_pool_id <$> selections candidates cursor n ≡ₚ candidate_pools candidates ∧
  ∀ p, p ∈ candidate_pools candidates →
    let m := length (pool_resources candidates p) in
    filter (λ c, cand_pool_id c = p) (selections candidates cursor (m * n))
      ≡ₚ filter (λ c, cand_pool_id c = p) candidates.
Proof.
  intros Hne Hnd. simpl. split.
  { rewrite selections_pools by done. apply walk_round; [by apply candidate_pools_nonempty|].
    apply candidate_pools_NoDup. }
  intros p Hp. apply (keys_Permutation candidates).
  - done.
  - intros c [_ Hc]%list_elem_of_filter. by eapply selections_elem.
  - intros c [_ Hc]%list_elem_of_filter. done.
  - apply NoDup_filter. by eapply NoDup_fmap_1.
  - rewrite selections_resources, chosen_count by done.
    set (rs := pool_resources candidates p).
    replace (length rs) with (length (cand_resource_id <$> rs)) by apply length_fmap.
    assert (rs ≡ₚ filter (λ c, cand_pool_id c = p) candidates) as Hrs by apply sort_by_perm.
    rewrite walk_round.
    + by rewrite Hrs.
    + apply elem_of_candidate_pools in Hp as (c & Hc & Hcp). intros Hnil%fmap_nil_inv.
      assert (c ∈ rs) as H by by apply elem_of_pool_resources.
      rewrite Hnil in H. by apply not_elem_of_nil in H.
    + rewrite Hrs. by apply filter_keys_NoDup.
Qed.

(** ** An instance *)

Definition demo_candidate (rid pool : string) : SettlementCandidate :=
  {| cand_resource_id := rid; cand_pool_id := pool; cand_resource_kind := "compute";
     cand_available := ∅; cand_provider := "kvm"; cand_attributes := ∅; cand_host_id := None |}.
Definition demo_candidates : list SettlementCandidate :=
  [demo_candidate "b2" "pb"; demo_candidate "a1" "pa"; demo_candidate "b1" "pb"].
Definition fresh_cursor_state : SchedulingCursorState :=
  {| cs_last_pool_id := None; cs_last_resource_by_pool := ∅ |}.

Example demo_selections :
  cand_resource_id <$> selections demo_candidates fresh_cursor_state 5 =
  ["a1"; "b1"; "a1"; "b2"; "a1"]%string.
Proof. vm_compute. reflexivity. Qed.

Lemma round_robin_is_fair_witness :
  filter (λ c, cand_pool_id c = "pb"%string) (selections demo_candidates fresh_cursor_state 4)
    ≡ₚ filter (λ c, cand_pool_id c = "pb"%string) demo_candidates.
Proof.
  apply (round_robin_is_fair demo_candidates fresh_cursor_state).
  - discriminate.
  - compute_done.
  - compute_done.
Defined.
