(* ===== verification/Scheduler.v ===== *)
(** Settlement-resource selection ([market_fulfillment/scheduler.py]) over the
    site ledger, the pools and the settlement tables, in the transaction of
    [scheduling_persistence.py].  The composition's own tables, the ledger
    model's [ext], hold the settlement tables.

    pydantic's coercion of a JSON value to a finite [Decimal] and the report
    of hosts taking delivery are parameters. *)
From S2P Require Import Prelude PyNum PyValue PyTime PoolDeclarations LedgerTypes.
From S2P Require Import LedgerMatching.
From S2P Require Import Ledger LedgerLifecycle Settlement SettlementFacts RoundRobin.

Local Open Scope Z_scope.

Record PhysicalSettlementRequest : Type := {
  psr_capacity_reservation_id : string;
  psr_market : string;
  psr_requirements : dict;
  psr_resource_id : option string;
}.

Definition _ACTIVE_STATES : list string := ["reserved"; "committed"; "leased"; "unmanaged"].

(** ** Python expressions of this file *)

(** [dict(v)] of a JSON value: a mapping, or pairs.  A pair whose key is not a
    string is refused here; the code refuses it where it compares or validates
    the mapping. *)
Definition dict_item (v : value) : result (string * value) :=
  match v with
  | VList [VStr k; x] => Ok (k, x)
  | VList _ | VStr _ => Err (ValueError "dictionary update sequence")
  | VDict [(k, _); (k', _)] => Ok (k, VStr k')
  | VDict _ => Err (ValueError "dictionary update sequence")
  | _ => Err (TypeError "dictionary update sequence")
  end.

Definition py_dict (v : value) : result dict :=
  match v with
  | VDict d => Ok d
  | VList l => items ← mapM_result dict_item l; Ok (dict_update [] items)
  | VStr s => if bool_decide (s = ""%string) then Ok [] else Err (ValueError "dictionary update sequence")
  | _ => Err (TypeError "object is not iterable")
  end.

(** [v or {}]. *)
Definition or_empty (v : value) : value := if truthy v then v else VDict [].

(** [v > n]: only numbers compare with a number. *)
Definition value_gt (v : value) (n : num) : result bool :=
  match as_num v with
  | Some m => Ok (num_lt n m)
  | None => Err (TypeError "'>' not supported")
  end.

Section scheduler.
Context {Ext : Type} `{!SettlementTables Ext}.
Context (env : environment) (cfg : ledger_config Ext).
Context (coerce : value → option decimal).
Context (default_resource_kind : option string).
Context (_host_requirement : option dict).
Context (_deliverable_hosts : option (Ext → gset string)).

Abbreviation L := (M (world Ext)).

(** ** Validation *)

(** [datetime.fromisoformat(str(expires).replace("Z", "+00:00"))], UTC when
    naive. *)
Definition hold_expiry_of (expires : string) : result datetime :=
  match fromisoformat_chars (zulu (to_chars expires)) with
  | Some p => Ok (aware p)
  | None => Err (ValueError "Invalid isoformat string")
  end.

(** [deal_ref.get("requirements", deal_ref.get("terms"))]. *)
Definition known_requirements (deal : dict) : value :=
  default (dict_get "terms" deal) (alist_get "requirements" deal).

Definition check_deal (deal : dict) (request : PhysicalSettlementRequest) : result unit :=
  let known_market := dict_get "market" deal in
  if negb (is_none known_market) && negb (py_eq known_market (VStr (psr_market request)))
  then Err (SettlementRequestMismatchError "market") else
  let known := known_requirements deal in
  if is_none known then Ok tt else
  known ← py_dict known;
  if py_eq (VDict known) (VDict (psr_requirements request)) then Ok tt
  else Err (SettlementRequestMismatchError "requirements").

Definition _require_valid_reservation_payload (reservation : reservation_payload)
    (request : PhysicalSettlementRequest) : L reservation_payload :=
  if negb (bool_decide (state_value (pl_state reservation) ∈ _ACTIVE_STATES))
  then raise (SettlementRequestMismatchError "not active") else
  match str_truthy (pl_hold_expires_at reservation) with
  | None => mret tt
  | Some expires =>
      expiry ← lift (hold_expiry_of expires);
      now ← now_utc env;
      if dt_leb expiry now then raise CapacityReservationExpiredError else mret tt
  end;;
  lift (check_deal (pl_deal_ref reservation) request);;
  mret reservation.

(** ** The requirement *)

(** [a or b or default]; a kind that is not a string is refused by the
    requirement's validation. *)
Definition requested_kind (deal requirements : dict) : result string :=
  let kind_of v := match v with VStr s => Ok s | _ => Err (ValueError "resource_kind") end in
  let v := dict_get "resource_kind" deal in
  let v' := dict_get "resource_kind" requirements in
  if truthy v then kind_of v
  else if truthy v' then kind_of v'
  else match default_resource_kind with
       | Some k => Ok k
       | None => Err MissingResourceKindError
       end.

Definition contradicts (reserved_ : dict) (kv : string * value) : bool :=
  match alist_get kv.1 reserved_ with
  | Some x => negb (py_eq x kv.2)
  | None => false
  end.

Definition merged_attributes (reserved_ : option dict) (requested : dict) : result dict :=
  match reserved_ with
  | None => Ok requested
  | Some attrs =>
      if existsb (contradicts attrs) requested
      then Err (SettlementRequestMismatchError "requested attributes contradict")
      else Ok (dict_update attrs requested)
  end.

(** Whether a requested quantity exceeds what the reservation governs. *)
Definition exceeds (reserved_ : num_map) (kv : string * value) : result bool :=
  match reserved_ !! kv.1 with
  | Some n => value_gt kv.2 n
  | None => Ok false
  end.

Definition requested_dimensions (reserved_ : num_map) (requested : value) : result dict :=
  if truthy requested then
    dims ← py_dict requested;
    flags ← mapM_result (exceeds reserved_) dims;
    if existsb id flags then Err (SettlementRequestMismatchError "requested dimensions exceed")
    else Ok dims
  else Ok (map_to_list (VNum <$> reserved_)).

Definition _requirement (reservation : reservation_payload) (request : PhysicalSettlementRequest)
    : result SettlementRequirement :=
  match str_truthy (pl_offering_mode reservation) with
  | None => Err MissingOfferingModeError
  | Some mode =>
      kind_ ← requested_kind (pl_deal_ref reservation) (psr_requirements request);
      requested_attributes ← py_dict (or_empty (dict_get "attributes" (psr_requirements request)));
      attrs ← merged_attributes (pl_claim_attributes reservation) requested_attributes;
      dims ← requested_dimensions (pl_dimensions reservation)
               (dict_get "dimensions" (psr_requirements request));
      make_requirement coerce mode kind_ dims attrs
  end.

(** ** Candidates *)

Definition enabled_pool (d : DB Ext) (pool_id : string) : option ResourcePool :=
  p ← pools d !! pool_id; if pool_enabled p then Some p else None.

Definition candidate_of (pool : ResourcePool) (payload : ResourceFeasibilityView)
    : SettlementCandidate :=
  {| cand_resource_id := fv_resource_id payload; cand_pool_id := fv_pool_id payload;
     cand_resource_kind := fv_resource_kind payload; cand_available := fv_available payload;
     cand_provider := pool_provider pool; cand_attributes := fv_attributes payload;
     cand_host_id := fv_host_id payload |}.

(** The loop's body for one payload. *)
Definition judge_payload (d : DB Ext) (deliverable : option (gset string))
    (requirement : SettlementRequirement) (payload : ResourceFeasibilityView)
    : result (option SettlementCandidate) :=
  match enabled_pool d (fv_pool_id payload) with
  | None => Ok None
  | Some pool =>
      delivers ← pool_delivers_offering_mode (pool_policy_tags pool) (rq_offering_mode requirement);
      if negb delivers then Ok None else
      usable ← declaration_has_usable_host (fv_host_id payload) (Some (pool_provider pool)) true
                 _host_requirement deliverable;
      if negb usable then Ok None else
      if negb (resource_satisfies_requirement payload (VStr (rq_resource_kind requirement))
                 (rq_dimensions requirement) (rq_attributes requirement))
      then Ok None
      else Ok (Some (candidate_of pool payload))
  end.

Definition keep_some {A} (l : list (option A)) : list A := omap id l.

Definition _eligible_candidates_in_transaction (requirement : SettlementRequirement)
    (capacity_reservation_id : string) : L (list SettlementCandidate) :=
  d ← db;
  let deliverable :=
    match _host_requirement with
    | Some _ => (λ f, f (ext d)) <$> _deliverable_hosts
    | None => None
    end in
  payloads ← iter_scheduling_candidates_in_session env cfg (rq_resource_kind requirement)
               capacity_reservation_id;
  judged ← lift (mapM_result (judge_payload d deliverable requirement) payloads);
  match keep_some judged with
  | [] => raise (NoEligibleSettlementResourceError "no eligible settlement resource exists")
  | candidates => mret candidates
  end.

(** ** Scheduling *)

Definition _resource_from_record (record : SettlementRecord) : SettlementResource :=
  {| sres_offering_mode := rq_offering_mode (sr_requirements record);
     sres_settlement_resource_id := sr_settlement_resource_id record;
     sres_pool_id := sr_pool_id record;
     sres_resource_kind := rq_resource_kind (sr_requirements record);
     sres_provider := sr_provider record;
     sres_attributes := sr_resource_attributes record;
     sres_host_id := sr_resource_host_id record;
     sres_dimensions := rq_dimensions (sr_requirements record) |}.

Definition schedule_assignment (request : PhysicalSettlementRequest)
    (requirement : SettlementRequirement) (resource : SettlementResource) : L SettlementRecord :=
  created ← db_now env;
  in_ext (schedule (psr_capacity_reservation_id request) (psr_market request) requirement resource
            (psr_resource_id request) None created).

(** The path of a reservation that already has an assignment. *)
Definition return_existing (request : PhysicalSettlementRequest)
    (requirement : SettlementRequirement) (existing : SettlementRecord) : L SettlementResource :=
  d ← db;
  match enabled_pool d (sr_pool_id existing) with
  | None => raise (NoEligibleSettlementResourceError "does not declare offering mode")
  | Some pool =>
      delivers ← lift (pool_delivers_offering_mode (pool_policy_tags pool)
                         (rq_offering_mode requirement));
      if negb delivers
      then raise (NoEligibleSettlementResourceError "does not declare offering mode") else
      match str_truthy (sr_resource_host_id existing) with
      | None =>
          needs ← lift (pool_needs_host (Some (pool_provider pool)) _host_requirement);
          if (needs : bool) then raise (NoEligibleSettlementResourceError "names no host")
          else mret tt
      | Some _ => mret tt
      end;;
      record ← schedule_assignment request requirement (_resource_from_record existing);
      mret (_resource_from_record record)
  end.

(** The explicitly constrained resource, or the policy's choice with the
    cursor saved. *)
Definition choose (request : PhysicalSettlementRequest) (requirement : SettlementRequirement)
    (candidates : list SettlementCandidate) : L SettlementCandidate :=
  match psr_resource_id request with
  | Some rid =>
      match find_by cand_resource_id rid candidates with
      | Some selected => mret selected
      | None => raise (NoEligibleSettlementResourceError "is not eligible for settlement")
      end
  | None =>
      row ← in_ext (get_cursor_in_session (rq_resource_kind requirement));
      '(selected, cursor) ← lift (select candidates
        {| cs_last_pool_id := last_pool_id row;
           cs_last_resource_by_pool := last_resource_by_pool row |});
      in_ext (save_cursor_in_session (rq_resource_kind requirement) (cs_last_pool_id cursor)
                (cs_last_resource_by_pool cursor));;
      mret selected
  end.

(** A [dict] is compared and stored as a mapping: its order carries nothing. *)
Definition resource_of (requirement : SettlementRequirement) (selected : SettlementCandidate)
    : SettlementResource :=
  {| sres_offering_mode := rq_offering_mode requirement;
     sres_settlement_resource_id := cand_resource_id selected;
     sres_pool_id := cand_pool_id selected;
     sres_resource_kind := cand_resource_kind selected;
     sres_provider := cand_provider selected;
     sres_attributes := map_to_list (cand_attributes selected);
     sres_host_id := cand_host_id selected;
     sres_dimensions := ∅ |}.

Definition place_new (request : PhysicalSettlementRequest) (requirement : SettlementRequirement)
    : L SettlementResource :=
  let i := psr_capacity_reservation_id request in
  candidates ← _eligible_candidates_in_transaction requirement i;
  selected ← choose request requirement candidates;
  d ← db;
  (if bool_decide (Some (cand_resource_id selected) = _backing_resource_id d i) then mret tt
   else assign_settlement_resource_in_session env cfg i (cand_resource_id selected);; mret tt);;
  record ← schedule_assignment request requirement (resource_of requirement selected);
  mret (_resource_from_record record).

Definition schedule_in_transaction (request : PhysicalSettlementRequest) : L SettlementResource :=
  d ← db;
  match get_reservation_row (psr_capacity_reservation_id request) d with
  | None => raise (SettlementEntityNotFoundError "capacity reservation does not exist")
  | Some row =>
      payload ← lift (_reservation_payload cfg row);
      reservation ← _require_valid_reservation_payload payload request;
      requirement ← lift (_requirement reservation request);
      match get (settlement (ext d)) (psr_capacity_reservation_id request) with
      | Some existing => return_existing request requirement existing
      | None => place_new request requirement
      end
  end.

(** The unit of work: the ledger's lock, one session, one commit; an exception
    rolls the session back. *)
Definition schedule_resource (request : PhysicalSettlementRequest) : L SettlementResource :=
  operation (
    resource ← schedule_in_transaction request;
    commit_session;;
    mret resource).
End scheduler.
