(* ===== verification/SchedulerFacts.v ===== *)
(** Facts about the scheduler's steps: what each reads, and what each leaves
    in the open session. *)
From S2P Require Import Prelude PyNum PyValue PyTime PoolDeclarations LedgerTypes.
From S2P Require Import LedgerMatching.
From S2P Require Import Ledger LedgerLifecycle LedgerSpec LedgerTrack.
From S2P Require Import LedgerRefinement.
From S2P Require Import Settlement SettlementFacts Sessions RoundRobin.
From S2P Require Import Scheduler.
From stdpp Require Import relations.

Local Open Scope Z_scope.

(** ** Lists of results *)

Lemma mapM_result_Forall2 {A B} (f : A → result B) l ys :
  mapM_result f l = Ok ys → Forall2 (λ x y, f x = Ok y) l ys.
Proof.
  revert ys. induction l as [|x l IH]; intros ys; simpl; [by intros [= <-]|].
  intros (y & Hy & (ys' & Hys & [= <-])%result_bind_Ok)%result_bind_Ok.
  constructor; [done|]. by apply IH.
Qed.

Lemma mapM_result_elem {A B} (f : A → result B) l ys y :
  mapM_result f l = Ok ys → y ∈ ys → ∃ x, x ∈ l ∧ f x = Ok y.
Proof.
  intros H%mapM_result_Forall2 [k Hk]%list_elem_of_lookup_1.
  destruct (Forall2_lookup_r _ _ _ _ _ H Hk) as (x & Hx & Hf). exists x.
  split; [by eapply list_elem_of_lookup_2|done].
Qed.

Lemma elem_of_keep_some {A} (l : list (option A)) x : x ∈ keep_some l ↔ Some x ∈ l.
Proof. unfold keep_some. rewrite list_elem_of_omap. naive_solver. Qed.

Lemma scheduling_views_elem view rows vs v :
  scheduling_views view rows = Ok vs → v ∈ vs → ∃ b, b ∈ rows ∧ view b = Ok (Some v).
Proof.
  revert vs. induction rows as [|b rows IH]; intros vs; simpl.
  { intros [= <-] ?%not_elem_of_nil. done. }
  intros (o & Ho & (vs' & Hvs & [= <-])%result_bind_Ok)%result_bind_Ok Hv.
  destruct o as [v'|].
  - apply elem_of_cons in Hv as [->|Hv].
    + exists b. split; [apply list_elem_of_here|done].
    + destruct (IH _ Hvs Hv) as (b' & ? & ?). exists b'. split; [by apply list_elem_of_further|done].
  - destruct (IH _ Hvs Hv) as (b' & ? & ?). exists b'. split; [by apply list_elem_of_further|done].
Qed.

Section facts.
Context {Ext : Type} `{!SettlementTables Ext}.
Context (env : environment) (cfg : ledger_config Ext).
Context (coerce : value → option decimal) (default_kind : option string).
Context (host_requirement : option dict) (hosts : option (Ext → gset string)).

Implicit Types (w : world Ext) (d : DB Ext).

(** ** Rebinding *)

Lemma wp_assign_binds i rid w :
  i ≠ ""%string → db_wf (working w) → is_Some (get_reservation_row i (working w)) →
  wp (assign_settlement_resource_in_session env cfg i rid)
    (λ r w', committed w' = committed w ∧
       match r with
       | Ok _ => ext (working w') = ext (working w) ∧
           _backing_resource_id (working w') i = Some rid
       | Err _ => True
       end) w.
Proof.
  intros Hi Hwf [r Hr]. unfold assign_settlement_resource_in_session.
  l_step. unfold _require_serialized. do 2 l_step. l_step; [by l_step|]. l_step. l_step. l_step.
  assert (_find_reservation (working w) (Some i) None None = Some r) as ->.
  { unfold _find_reservation, str_truthy. by destruct i. }
  destruct (find_by_Some _ _ _ _ Hr) as [_ Hid].
  l_step; [by l_step|]. do 2 l_step.
  destruct (check_destination _ _ _ _) as [dest|] eqn:Hdest; [|done]. rewrite Hid. l_step.
  { do 2 l_step. do 2 l_step. destruct (_reservation_payload _ _); [l_step|done].
    match goal with H : bool_decide _ = true |- _ => apply bool_decide_eq_true in H end.
    by split_and!. }
  do 2 l_step. destruct (_reservation_dimensions _ _) as [dims|]; [|done]. do 2 l_step.
  destruct (_held_dimensions _ _ _ _ _) as [held|]; [|done]. do 2 l_step.
  destruct (_resource_capacity _ _) as [cap|]; [|done]. l_step; [by l_step|].
  destruct (_debit_for_reservation _ _) as [debit|] eqn:Hdebit; [|by l_step].
  destruct (check_destination_Ok _ _ _ _ _ Hdest) as (Hfound & _).
  destruct (find_by_Some _ _ _ _ Hfound) as [Hin Hrid].
  do 4 l_step. do 2 (apply wp_bind, wp_capacity_event). do 2 l_step.
  destruct (_reservation_payload _ _); [l_step|done]. simpl. split_and!; [done..|].
  unfold _backing_resource_id, _bucket_for_reservation, _debit_for_reservation. simpl.
  rewrite lookup_insert_eq. simpl. unfold get_bucket_row. simpl.
  rewrite (find_by_elem _ _ _ (wf_bucket_ids _ Hwf) Hin). simpl. by rewrite Hrid.
Qed.

(** ** Candidates *)

(** The hosts taking delivery, read only under a host requirement. *)
Definition deliverable_now d : option (gset string) :=
  match host_requirement with Some _ => (λ f, f (ext d)) <$> hosts | None => None end.

(** What eligibility establishes of a candidate [c] for reservation [i]: an
    enabled row of the kind, in an enabled pool that delivers the mode, with a
    usable host, whose free capacity (the reservation's own hold credited back)
    satisfies the requirement. *)
Record eligible d (requirement : SettlementRequirement) (i : string) (c : SettlementCandidate)
    : Prop := {
  el_pool : ∃ pool, enabled_pool d (cand_pool_id c) = Some pool ∧
    pool_delivers_offering_mode (pool_policy_tags pool) (rq_offering_mode requirement) = Ok true ∧
    cand_provider c = pool_provider pool ∧
    declaration_has_usable_host (cand_host_id c) (Some (pool_provider pool)) true
      host_requirement (deliverable_now d) = Ok true;
  el_row : ∃ b own now now' view,
    b ∈ buckets d ∧ enabled b = true ∧ resource_type b = rq_resource_kind requirement ∧
    own_dimensions_of cfg d i = Ok own ∧
    scheduling_view cfg d now now' i (_backing_resource_id d i) own b = Ok (Some view) ∧
    cand_resource_id c = backing_resource_id b ∧ cand_host_id c = bucket_host_id b ∧
    resource_satisfies_requirement view (VStr (rq_resource_kind requirement))
      (rq_dimensions requirement) (rq_attributes requirement) = true;
}.

Lemma scheduling_view_facts d now now' i own_backing own b v :
  scheduling_view cfg d now now' i own_backing own b = Ok (Some v) →
  fv_resource_id v = backing_resource_id b ∧ fv_host_id v = bucket_host_id b.
Proof.
  unfold scheduling_view. destruct (str_truthy _); [|done].
  destruct (_has_physical_host_conflict _ _ _ _ _); [done|].
  intros (cap & _ & (held & _ & [= <-])%result_bind_Ok)%result_bind_Ok. done.
Qed.

Lemma judge_payload_Some d deliverable requirement v c :
  judge_payload host_requirement d deliverable requirement v = Ok (Some c) →
  ∃ pool, enabled_pool d (fv_pool_id v) = Some pool ∧ c = candidate_of pool v ∧
    pool_delivers_offering_mode (pool_policy_tags pool) (rq_offering_mode requirement) = Ok true ∧
    declaration_has_usable_host (fv_host_id v) (Some (pool_provider pool)) true
      host_requirement deliverable = Ok true ∧
    resource_satisfies_requirement v (VStr (rq_resource_kind requirement))
      (rq_dimensions requirement) (rq_attributes requirement) = true.
Proof.
  unfold judge_payload. destruct (enabled_pool d (fv_pool_id v)) as [pool|]; [|done].
  intros (delivers & Hd & H)%result_bind_Ok. destruct delivers; [|done].
  apply result_bind_Ok in H as (usable & Hu & H). destruct usable; [|done]. simpl in H.
  destruct (resource_satisfies_requirement _ _ _ _) eqn:Hs; [|done]. injection H as <-.
  by exists pool.
Qed.

Lemma wp_eligible_candidates requirement i w :
  wp (_eligible_candidates_in_transaction env cfg host_requirement hosts requirement i)
    (λ r w', working w' = working w ∧ committed w' = committed w ∧
       match r with
       | Ok cs => cs ≠ [] ∧ ∀ c, c ∈ cs → eligible (working w) requirement i c
       | Err _ => True
       end) w.
Proof.
  unfold _eligible_candidates_in_transaction, iter_scheduling_candidates_in_session.
  do 2 l_step. l_step. do 4 l_step. destruct (dt_add_us _ _) as [now'|]; [|by split_and!].
  do 4 l_step. simpl. destruct (own_dimensions_of _ _ _) as [own|] eqn:Hown; [|by split_and!].
  l_step. destruct (scheduling_views _ _) as [views|] eqn:Hviews; [|by split_and!].
  do 2 l_step. fold (deliverable_now (working w)).
  destruct (mapM_result _ views) as [judged|] eqn:Hjudged; [|by split_and!].
  destruct (keep_some judged) as [|c0 cs] eqn:Hk; [by l_step|]. l_step.
  split_and!; [done..|]. intros c. rewrite <- Hk, elem_of_keep_some. intros Hc.
  destruct (mapM_result_elem _ _ _ _ Hjudged Hc) as (v & Hv & Hj).
  destruct (scheduling_views_elem _ _ _ _ Hviews Hv) as (b & Hb & Hview).
  rewrite elem_of_sort_by, list_elem_of_filter in Hb. destruct Hb as [[Hen Hkind] Hb].
  destruct (judge_payload_Some _ _ _ _ _ Hj) as (pool & Hp & -> & Hd & Hu & Hs).
  destruct (scheduling_view_facts _ _ _ _ _ _ _ _ Hview) as [Hid Hhost].
  split; [by exists pool|]. by exists b, own, (clock env (clock_reads w)), now', v.
Qed.

(** ** The choice *)

Lemma with_working_id w f : f (working w) = working w → with_working f w = w.
Proof. intros H. destruct w. unfold with_working. simpl in *. by rewrite H. Qed.

(** Cursor writes leave the aggregates alone. *)
Definition only_cursors w w' : Prop :=
  committed w' = committed w ∧
  ∃ f, working w' = set_ext (put_settlement f (ext (working w))) (working w) ∧
       records f = records (settlement (ext (working w))).

Lemma only_cursors_refl w : only_cursors w w.
Proof.
  split; [done|]. exists (settlement (ext (working w))).
  by rewrite put_settlement_same, set_ext_same.
Qed.

Lemma only_cursors_trans w1 w2 w3 : only_cursors w1 w2 → only_cursors w2 w3 → only_cursors w1 w3.
Proof.
  intros [Hc1 (f & Hf & Hrf)] [Hc2 (g & Hg & Hrg)]. split; [congruence|].
  exists g. split.
  - rewrite Hg, Hf. unfold set_ext. simpl. by rewrite put_settlement_put.
  - rewrite Hrg, Hf. simpl. by rewrite settlement_put.
Qed.

Lemma wp_in_ext_cursors {A} (m : F A) w :
  (∀ f, records (m f).2 = records f) → wp (in_ext m) (λ _ w', only_cursors w w') w.
Proof.
  intros Hm. apply wp_in_ext. unfold wp. split; [done|]. eexists. split; [done|]. apply Hm.
Qed.

Lemma get_cursor_records k f : records (get_cursor_in_session k f).2 = records f.
Proof.
  unfold get_cursor_in_session, mbind, M_bind, gets. simpl. by destruct (cursors f !! k).
Qed.

Lemma save_cursor_records k p bp f : records (save_cursor_in_session k p bp f).2 = records f.
Proof.
  unfold save_cursor_in_session, mbind, M_bind.
  pose proof (get_cursor_records k f) as H. destruct (get_cursor_in_session k f) as [[c|e] f']; done.
Qed.

Lemma wp_choose request requirement candidates w :
  wp (choose request requirement candidates)
    (λ r w', only_cursors w w' ∧
       match r with
       | Ok c => c ∈ candidates ∧
           (∀ rid, psr_resource_id request = Some rid → cand_resource_id c = rid)
       | Err _ => True
       end) w.
Proof.
  unfold choose. destruct (psr_resource_id request) as [rid|].
  { destruct (find_by cand_resource_id rid candidates) as [c|] eqn:Hf; l_step;
      (split; [apply only_cursors_refl|]); [|done].
    destruct (find_by_Some _ _ _ _ Hf) as [? <-]. split; [done|]. by intros ? [= <-]. }
  apply wp_bind. eapply wp_mono; [apply wp_in_ext_cursors, get_cursor_records|].
  intros [row|e] w1 H1; [|done]. do 2 l_step.
  destruct (select candidates _) as [[c cursor]|e] eqn:Hsel; [|by split].
  assert (c ∈ candidates) as Hc.
  { destruct (decide (candidates = [])) as [->|Hne]; [done|].
    match type of Hsel with select _ ?cur = _ =>
      destruct (select_Ok candidates cur Hne) as (c' & Heq & ? & _) end.
    rewrite Heq in Hsel. by injection Hsel as <- <-. }
  apply wp_bind. eapply wp_mono; [apply wp_in_ext_cursors, save_cursor_records|].
  intros [?|e] w2 H2; [|by split; [by eapply only_cursors_trans|]]. l_step.
  split; [by eapply only_cursors_trans|done].
Qed.

(** ** Assignment rows *)

Lemma schedule_fresh i market requirement resource con created f :
  get f i = None →
  let record := assigned_record i market requirement resource con created in
  schedule i market requirement resource con None created f =
    (Ok record, set_records (λ l, l ++ [record]) f).
Proof. intros H. unfold schedule, mbind, M_bind, gets. simpl. by rewrite H. Qed.

Lemma get_appended f r :
  get f (sr_reservation_id r) = None →
  get (set_records (λ l, l ++ [r]) f) (sr_reservation_id r) = Some r.
Proof.
  unfold get. simpl. rewrite find_by_None. intros Hnone. unfold find_by.
  induction (records f) as [|y l IH]; simpl; [by rewrite decide_True|].
  rewrite decide_False by (apply Hnone, list_elem_of_here).
  specialize (IH (λ x Hx, Hnone x (list_elem_of_further _ _ _ Hx))).
  by destruct (list_find _ (l ++ _)) as [[]|].
Qed.

(** ** Placement *)

(** What a successful placement of a fresh reservation leaves, between the
    committed tables [d] and the tables [d'] about to be committed. *)
Record placed d (request : PhysicalSettlementRequest) (requirement : SettlementRequirement)
    (resource : SettlementResource) d' : Prop := {
  pc_candidate : ∃ c, eligible d requirement (psr_capacity_reservation_id request) c ∧
    sres_settlement_resource_id resource = cand_resource_id c ∧
    sres_pool_id resource = cand_pool_id c ∧ sres_provider resource = cand_provider c ∧
    sres_host_id resource = cand_host_id c;
  pc_constraint : ∀ rid, psr_resource_id request = Some rid →
    sres_settlement_resource_id resource = rid;
  pc_backing : _backing_resource_id d' (psr_capacity_reservation_id request) =
    Some (sres_settlement_resource_id resource);
  pc_record : ∃ record,
    get (settlement (ext d')) (psr_capacity_reservation_id request) = Some record ∧
    sr_state record = assigned ∧ sr_market record = psr_market request ∧
    sr_requirements record = requirement ∧ resource = _resource_from_record record;
}.

Lemma backing_ext d x i : _backing_resource_id (set_ext x d) i = _backing_resource_id d i.
Proof. done. Qed.
Lemma wp_place_new request requirement w :
  psr_capacity_reservation_id request ≠ ""%string → db_wf (working w) →
  is_Some (get_reservation_row (psr_capacity_reservation_id request) (working w)) →
  get (settlement (ext (working w))) (psr_capacity_reservation_id request) = None →
  wp (place_new env cfg host_requirement hosts request requirement)
    (λ r w', committed w' = committed w ∧
       match r with
       | Ok resource => placed (working w) request requirement resource (working w')
       | Err _ => True
       end) w.
Proof.
  intros Hi Hwf Hrow Hnone. unfold place_new. set (i := psr_capacity_reservation_id request) in *.
  apply wp_bind. eapply wp_mono; [apply wp_eligible_candidates|].
  intros [cs|e] w1 (Hw1 & Hc1 & Hcs); [|done]. destruct Hcs as [_ Hcs].
  apply wp_bind. eapply wp_mono; [apply wp_choose|]. intros [c|e] w2 [[Hc2 (f & Hf & Hrf)] Hc];
    [|split; [congruence|done]]. destruct Hc as [Hc Hcon]. rewrite Hw1 in Hf, Hrf.
  do 2 l_step. simpl. apply wp_bind.
  assert (wp (if bool_decide (Some (cand_resource_id c) = _backing_resource_id (working w2) i)
              then mret tt
              else assign_settlement_resource_in_session env cfg i (cand_resource_id c) ≫= λ _, mret tt)
    (λ r w3, committed w3 = committed w ∧
       match r with
       | Ok _ => ext (working w3) = ext (working w2) ∧
           _backing_resource_id (working w3) i = Some (cand_resource_id c)
       | Err _ => True
       end) w2) as Hbind.
  { case_bool_decide as Hb; [l_step; split; [congruence|done]|]. apply wp_bind.
    eapply wp_mono; [apply (wp_assign_binds i); [done|rewrite Hf; by apply wf_set_ext|by rewrite Hf]|].
    intros [?|e] w3 [? ?]; [l_step|]; split; try done; congruence. }
  eapply wp_mono; [exact Hbind|]. intros [?|e] w3 [Hc3 H3]; [|done]. destruct H3 as [Hext Hback].
  apply wp_bind. unfold schedule_assignment. do 2 l_step. apply wp_in_ext.
  assert (get (settlement (ext (working w3))) i = None) as Hn3.
  { rewrite Hext, Hf. simpl. rewrite settlement_put. unfold get. rewrite Hrf. exact Hnone. }
  unfold wp. fold i. rewrite (schedule_fresh _ _ _ _ _ _ _ Hn3). simpl.
  set (record := assigned_record _ _ _ _ _ _). split; [done|]. split.
  - exists c. by split; [apply Hcs|].
  - done.
  - done.
  - exists record. split_and!; try done. simpl. rewrite settlement_put.
    by apply (get_appended _ record).
Qed.
End facts.
