(* ===== verification/SchedulerProperties.v ===== *)
(** The scheduler's contract: sound placement, idempotent retries, atomic
    failure, and both databases' invariants kept. *)
From S2P Require Import Prelude PyNum PyValue PyNumFacts PyTime PoolDeclarations LedgerTypes.
From S2P Require Import LedgerMatching.
From S2P Require Import Ledger LedgerLifecycle LedgerSpec LedgerTrack.
From S2P Require Import LedgerRefinement.
From S2P Require Import LedgerCapacity Settlement SettlementFacts Sessions.
From S2P Require Import RoundRobin.
From S2P Require Import Scheduler SchedulerFacts.
From stdpp Require Import relations.

Local Open Scope Z_scope.

(** ** The reservation a request names *)

(** The states a reservation can be scheduled in. *)
Definition schedulable (s : ReservationState) : bool :=
  match s with reserved | leased | unmanaged => true | _ => false end.

Lemma active_state s : bool_decide (state_value s ∈ _ACTIVE_STATES) = schedulable s.
Proof. by destruct s. Qed.

Section scheduling.
Context {Ext : Type} `{!SettlementTables Ext}.
Context (env : environment) (cfg : ledger_config Ext).
Context (coerce : value → option decimal) (default_kind : option string).
Context (host_requirement : option dict) (hosts : option (Ext → gset string)).

Implicit Types (w : world Ext) (d : DB Ext).

Abbreviation schedule_in_txn := (schedule_in_transaction env cfg coerce default_kind host_requirement hosts).
Abbreviation schedule_op := (schedule_resource env cfg coerce default_kind host_requirement hosts).

(** The requirement scheduled for a stored reservation. *)
Definition requirement_of (row : CapacityReservation) (request : PhysicalSettlementRequest)
    (requirement : SettlementRequirement) : Prop :=
  ∃ payload, _reservation_payload cfg row = Ok payload ∧
    _requirement coerce default_kind payload request = Ok requirement ∧
    check_deal (deal_ref row) request = Ok tt.

Lemma payload_fields row payload :
  _reservation_payload cfg row = Ok payload →
  pl_state payload = res_state row ∧ pl_deal_ref payload = deal_ref row ∧
  pl_hold_expires_at payload = hold_expires_at row ∧ pl_offering_mode payload = offering_mode row ∧
  pl_claim_attributes payload = claim_attributes row.
Proof. unfold _reservation_payload. by intros (dims & _ & [= <-])%result_bind_Ok. Qed.

Lemma wp_valid_payload payload request w :
  wp (_require_valid_reservation_payload env payload request)
    (λ r w', working w' = working w ∧ committed w' = committed w ∧
       match r with
       | Ok p => p = payload ∧ schedulable (pl_state payload) = true ∧
           check_deal (pl_deal_ref payload) request = Ok tt
       | Err _ => True
       end) w.
Proof.
  unfold _require_valid_reservation_payload. rewrite active_state.
  destruct (schedulable (pl_state payload)) eqn:Hs; simpl; [|by l_step].
  apply wp_bind. eapply (wp_mono _ (λ _ w', working w' = working w ∧ committed w' = committed w)).
  { destruct (str_truthy _) as [expires|]; [|by l_step]. do 2 l_step.
    destruct (hold_expiry_of expires); [|done]. do 2 l_step. by l_step; l_step. }
  intros [[]|e] w' [Hw Hc]; [|done]. do 2 l_step.
  destruct (check_deal (pl_deal_ref payload) request) as [[]|]; [l_step|]; by split_and!.
Qed.

(** Up to the choice between the two paths. *)
Lemma wp_schedule_in_txn request (Q : result SettlementResource → world Ext → Prop) w :
  (∀ e w', committed w' = committed w → Q (Err e) w') →
  (∀ row requirement w',
     working w' = working w → committed w' = committed w →
     get_reservation_row (psr_capacity_reservation_id request) (working w) = Some row →
     schedulable (res_state row) = true → requirement_of row request requirement →
     wp (match get (settlement (ext (working w))) (psr_capacity_reservation_id request) with
         | Some existing => return_existing env host_requirement request requirement existing
         | None => place_new env cfg host_requirement hosts request requirement
         end) Q w') →
  wp (schedule_in_txn request) Q w.
Proof.
  intros Herr Hok. unfold schedule_in_transaction. do 2 l_step.
  destruct (get_reservation_row _ _) as [row|] eqn:Hrow; [|l_step; by apply Herr].
  do 2 l_step. destruct (_reservation_payload cfg row) as [payload|] eqn:Hp; [|by apply Herr].
  destruct (payload_fields _ _ Hp) as (Hs & Hd & _).
  apply wp_bind. eapply wp_mono; [apply wp_valid_payload|].
  intros [p|e] w' (Hw & Hc & Hv); [|by apply Herr]. destruct Hv as (-> & Hv & Hdeal).
  do 2 l_step. destruct (_requirement _ _ payload request) as [requirement|] eqn:Hreq; [|by apply Herr].
  apply (Hok row); [done..|by rewrite <- Hs|]. exists payload. by rewrite <- Hd.
Qed.

(** An existing assignment is returned as it is stored. *)
Lemma wp_return_existing request requirement existing w :
  get (settlement (ext (working w))) (psr_capacity_reservation_id request) = Some existing →
  wp (return_existing env host_requirement request requirement existing)
    (λ r w', working w' = working w ∧ committed w' = committed w ∧
       match r with
       | Ok resource => resource = _resource_from_record existing ∧
           sr_market existing = psr_market request ∧
           (∀ rid, psr_resource_id request = Some rid → sr_settlement_resource_id existing = rid) ∧
           ∃ pool, enabled_pool (working w) (sr_pool_id existing) = Some pool ∧
             pool_delivers_offering_mode (pool_policy_tags pool) (rq_offering_mode requirement)
               = Ok true
       | Err _ => True
       end) w.
Proof.
  intros Hget. unfold return_existing. do 2 l_step.
  destruct (enabled_pool _ _) as [pool|] eqn:Hp; [|by l_step]. do 2 l_step.
  destruct (pool_delivers_offering_mode _ _) as [delivers|] eqn:Hd; [|by split_and!].
  destruct delivers; simpl; [|by l_step].
  apply wp_bind. eapply (wp_mono _ (λ _ w', w' = w)).
  { destruct (str_truthy _); [by l_step|]. do 2 l_step. destruct (pool_needs_host _ _); [|done].
    by l_step; l_step. }
  intros [[]|e] w' ->; [|by split_and!]. apply wp_bind.
  unfold schedule_assignment. do 2 l_step. apply wp_in_ext. unfold wp, schedule, mbind, M_bind, gets.
  simpl. rewrite Hget.
  destruct (_scheduling_matches existing _ _ _) eqn:Hm; simpl;
    rewrite put_settlement_same, set_ext_same; [|by split_and!].
  split_and!; try done; [| |by exists pool].
  - unfold _scheduling_matches in Hm. by repeat (apply andb_true_iff in Hm as [Hm ?]);
      apply bool_decide_eq_true in Hm.
  - intros rid Hrid. unfold _scheduling_matches in Hm. rewrite Hrid in Hm.
    apply andb_true_iff in Hm as [_ Hm]. by apply bool_decide_eq_true in Hm.
Qed.

(** The operation from the transaction: one commit at the end. *)
Lemma wp_schedule_op request (Q : result SettlementResource → DB Ext → Prop) w :
  wp (schedule_in_txn request)
    (λ r w', match r with
     | Ok _ => Q r (working w')
     | Err _ => committed w' = committed w ∧ Q r (committed w)
     end) (opened w) →
  wp (schedule_op request) (λ r w', Q r (committed w')) w.
Proof.
  intros H. unfold schedule_resource. apply wp_operation, wp_bind. eapply wp_mono; [exact H|].
  intros [res|e] w'; simpl; [|by intros [-> ?]]. intros ?. by do 3 l_step.
Qed.

(** ** The transaction commits nothing itself *)

Lemma sessional_assign i rid : sessional (assign_settlement_resource_in_session env cfg i rid).
Proof. unfold assign_settlement_resource_in_session, _require_serialized, add_capacity_event. session fail. Qed.

Lemma wp_assign_ext i rid :
  unseen (λ w, ext (working w)) (assign_settlement_resource_in_session env cfg i rid).
Proof. unfold assign_settlement_resource_in_session, _require_serialized, add_capacity_event. session fail. Qed.

Lemma sessional_schedule request : sessional (schedule_in_txn request).
Proof.
  unfold schedule_in_transaction, _require_valid_reservation_payload, return_existing, place_new,
    _eligible_candidates_in_transaction, iter_scheduling_candidates_in_session, choose,
    schedule_assignment.
  session ltac:(apply sessional_assign).
Qed.

(** ** Theorems *)

(** C31: scheduling is atomic.  Whatever raises, at whatever point (an
    ineligible resource, a lapsed hold, a contradiction with the reservation,
    a refused rebind after the cursor moved), nothing is committed: capacity,
    cursor and assignments are as they were. *)
Theorem failed_schedule_changes_nothing request w :
  match schedule_resource env cfg coerce default_kind host_requirement hosts request w with
  | (Err _, w') => committed w' = committed w ∧ depth w' = depth w
  | (Ok _, w') => depth w' = depth w
  end.
Proof.
  assert (wp (schedule_op request) (λ r w', depth w' = depth w ∧
    match r with Err _ => committed w' = committed w | Ok _ => True end) w) as H.
  { unfold schedule_resource. apply wp_operation, wp_bind.
    eapply wp_mono; [apply sessional_schedule|].
    intros [res|e] w' Hc; simpl; [by do 3 l_step|done]. }
  unfold wp in H. destruct (schedule_op request w) as [[res|e] w']; naive_solver.
Qed.

(** C9: placement is sound.  When a reservation without an assignment is
    scheduled, the reservation was active and its requirement validated; the
    resource chosen is an enabled one of the requested kind whose pool is
    enabled and delivers the mode, with a usable host, and whose free capacity
    satisfies the requirement with the reservation's own hold credited back; an
    explicit constraint is honoured; and what is committed is both the
    assignment, in state [assigned], and the capacity debit, on that same
    resource. *)
Theorem fresh_schedule_is_sound request w res w' :
  db_wf (committed w) → psr_capacity_reservation_id request ≠ ""%string →
  get (settlement (ext (committed w))) (psr_capacity_reservation_id request) = None →
  schedule_resource env cfg coerce default_kind host_requirement hosts request w = (Ok res, w') →
  ∃ row requirement,
    get_reservation_row (psr_capacity_reservation_id request) (committed w) = Some row ∧
    schedulable (res_state row) = true ∧ requirement_of row request requirement ∧
    placed cfg host_requirement hosts (committed w) request requirement res (committed w').
Proof.
  intros Hwf Hi Hnone Hrun.
  refine (wp_run _ (λ r w', match r with Ok res => ∃ row requirement, _ ∧ _ ∧ _ ∧
    placed cfg host_requirement hosts (committed w) request requirement res (committed w')
    | Err _ => True end) w (Ok res) w' _ Hrun).
  apply (wp_schedule_op request (λ r d', match r with Ok res => ∃ row requirement,
    get_reservation_row (psr_capacity_reservation_id request) (committed w) = Some row ∧
    schedulable (res_state row) = true ∧ requirement_of row request requirement ∧
    placed cfg host_requirement hosts (committed w) request requirement res d' | Err _ => True end)).
  apply wp_schedule_in_txn; [by split|].
  intros row requirement w1 Hw Hc Hrow Hs Hreq. simpl in *. rewrite Hnone.
  eapply wp_mono; [apply wp_place_new; [done|by rewrite Hw| |by rewrite Hw]|].
  - rewrite Hw. by eexists.
  - intros [r|e] w2 [Hc2 Hpl]; [|split; [congruence|done]]. rewrite Hw in Hpl.
    by exists row, requirement.
Qed.

(** A scheduled reservation keeps its assignment.  When a reservation has
    an assignment, scheduling it again returns exactly the stored assignment,
    only for the market and resource it was made with and only while its pool
    is enabled and delivers the mode, and leaves every table as it was. *)
Theorem repeated_schedule_returns_assignment request existing w res w' :
  get (settlement (ext (committed w))) (psr_capacity_reservation_id request) = Some existing →
  schedule_resource env cfg coerce default_kind host_requirement hosts request w = (Ok res, w') →
  res = _resource_from_record existing ∧ committed w' = committed w ∧
  sr_market existing = psr_market request ∧
  (∀ rid, psr_resource_id request = Some rid → sr_settlement_resource_id existing = rid) ∧
  ∃ pool, enabled_pool (committed w) (sr_pool_id existing) = Some pool.
Proof.
  intros Hget Hrun.
  set (P := λ (res : SettlementResource) (d' : DB Ext),
    res = _resource_from_record existing ∧ d' = committed w ∧
    sr_market existing = psr_market request ∧
    (∀ rid, psr_resource_id request = Some rid → sr_settlement_resource_id existing = rid) ∧
    ∃ pool, enabled_pool (committed w) (sr_pool_id existing) = Some pool).
  refine (wp_run _ (λ r w', match r with Ok res => P res (committed w') | Err _ => True end)
            w (Ok res) w' _ Hrun).
  apply (wp_schedule_op request (λ r d', match r with Ok res => P res d' | Err _ => True end)).
  apply wp_schedule_in_txn; [by split|].
  intros row requirement w1 Hw Hc Hrow Hs Hreq. simpl in *. rewrite Hget.
  eapply wp_mono; [apply wp_return_existing; by rewrite Hw|].
  intros [r|e] w2 (Hw2 & Hc2 & Hr); [|split; [congruence|done]].
  destruct Hr as (-> & ? & ? & pool & Hp & _). unfold P. split_and!; try done.
  - by rewrite Hw2, Hw.
  - exists pool. by rewrite <- Hp, Hw.
Qed.

(** ** Both databases *)

Lemma in_txn_assign i rid :
  in_txn cfg (assign_settlement_resource_in_session env cfg i rid).
Proof.
  intros w Hd [Hs He]. apply wp_and; [apply sessional_assign|].
  eapply wp_mono.
  - apply (wp_and _ (tracked cfg (narrow cfg) (committed w))); [|apply wp_assign_ext].
    apply wp_assign_in_session; try done. apply Hd.
  - intros [r|e] w'; simpl; [|done]. intros [[? ?] Hx]. split; [done|]. by rewrite Hx.
Qed.

Lemma in_txn_schedule request : in_txn cfg (schedule_in_txn request).
Proof.
  unfold schedule_in_transaction, _require_valid_reservation_payload, return_existing, place_new,
    _eligible_candidates_in_transaction, iter_scheduling_candidates_in_session, choose,
    schedule_assignment.
  keeping ltac:(first [ apply in_txn_assign
    | apply in_txn_of_always, in_txn_in_ext;
      first [ by apply moves_schedule | apply moves_get_cursor | apply moves_save_cursor ] ]).
Qed.

Lemma advances_schedule request : advances cfg (schedule_op request).
Proof.
  intros w Hw. apply (wp_schedule_op request (λ _ d', advance cfg (committed w) d')).
  eapply wp_mono; [apply (in_txn_schedule request (opened w)); [done|reflexivity]|].
  intros [r|e] w' [??]; [done|]. by split.
Qed.

Lemma schedule_keeps request w :
  db_wf (committed w) → fdb_wf (settlement (ext (committed w))) →
  let d' := committed (schedule_op request w).2 in
  steps cfg (narrow cfg) (committed w) d' ∧ db_wf d' ∧
  rtc fstep (settlement (ext (committed w))) (settlement (ext d')) ∧
  fdb_wf (settlement (ext d')) ∧
  (safe cfg (committed w) → safe cfg d').
Proof.
  intros Hwf Hf. cbv zeta.
  assert (good (committed w)) as Hgood by by split.
  pose proof (advances_schedule request w Hgood) as Ha. unfold wp in Ha.
  destruct (advance_good _ _ _ Ha) as [??]; [done|]. destruct Ha as [Hs He%fsteps_weaken].
  split_and!; [done..|]. intros Hsafe. by eapply steps_safe.
Qed.

(** Scheduling respects both components' contracts.  Whatever the request,
    what is committed is reached by steps of the ledger's specification that
    keep every window and declared quantity, so well-formedness and the
    capacity bound survive, and the settlement tables change only by the
    repository's own steps. *)
Theorem scheduling_keeps_both_tables request w :
  db_wf (committed w) → fdb_wf (settlement (ext (committed w))) →
  let d' := committed (schedule_resource env cfg coerce default_kind host_requirement hosts request w).2 in
  steps cfg (narrow cfg) (committed w) d' ∧ db_wf d' ∧
  rtc fstep (settlement (ext (committed w))) (settlement (ext d')) ∧
  fdb_wf (settlement (ext d')) ∧
  (safe cfg (committed w) → safe cfg d').
Proof. apply schedule_keeps. Qed.
End scheduling.

(** ** The requirement *)

Lemma amounts_of_elem f d m k a :
  amounts_of f d = Ok m → m !! k = Some a → ∃ v, (k, v) ∈ d ∧ f v k = Ok a.
Proof.
  revert m. induction d as [|[j v] d IH]; intros m; simpl; [by intros [= <-]|].
  intros (b & Hb & (m' & Hm & [= <-])%result_bind_Ok)%result_bind_Ok.
  destruct (decide (k = j)) as [->|Hne].
  - rewrite lookup_insert_eq. intros [= <-]. exists v. split; [apply list_elem_of_here|done].
  - rewrite lookup_insert_ne by done. intros Hk. destruct (IH _ Hm Hk) as (v' & ? & ?).
    exists v'. split; [by apply list_elem_of_further|done].
Qed.

Lemma amounts_of_nonempty f d m : amounts_of f d = Ok m → d ≠ [] → m ≠ ∅.
Proof.
  destruct d as [|[j v] d]; [done|]. simpl.
  intros (b & _ & (m' & _ & [= <-])%result_bind_Ok)%result_bind_Ok _. apply insert_non_empty.
Qed.

Lemma merged_attributes_keep attrs requested merged k v :
  merged_attributes (Some attrs) requested = Ok merged → alist_get k attrs = Some v →
  ∃ v', alist_get k merged = Some v' ∧ (v' = v ∨ py_eq v v' = true).
Proof.
  unfold merged_attributes. destruct (existsb _ _) eqn:Hc; [done|]. intros [= <-] Hk.
  destruct (alist_get_dict_update k v attrs requested Hk) as (v' & Hv' & [->|Hin]).
  - exists v. by split; [|left].
  - exists v'. split; [done|]. right. apply not_true_iff_false in Hc. rewrite existsb_exists in Hc.
    destruct (py_eq v v') eqn:E; [done|]. destruct Hc. exists (k, v').
    split; [by apply list_elem_of_In|]. unfold contradicts. simpl. by rewrite Hk, E.
Qed.

(** Every quantity asked for, where the reservation governs it, is within it. *)
Lemma requested_dimensions_within reserved_ requested dims k v n :
  requested_dimensions reserved_ requested = Ok dims → (k, v) ∈ dims → reserved_ !! k = Some n →
  v = VNum n ∨ value_gt v n = Ok false.
Proof.
  unfold requested_dimensions. destruct (truthy requested).
  - intros (ds & _ & (flags & Hf & H)%result_bind_Ok)%result_bind_Ok Hin Hn.
    destruct (existsb id flags) eqn:Hany; [done|]. injection H as <-. right.
    apply mapM_result_Forall2 in Hf. apply list_elem_of_lookup_1 in Hin as [i Hi].
    destruct (Forall2_lookup_l _ _ _ _ _ Hf Hi) as (b & Hb & Hx). unfold exceeds in Hx. simpl in Hx.
    rewrite Hn in Hx. rewrite Hx. f_equal. destruct b; [|done].
    apply not_true_iff_false in Hany. destruct Hany. apply existsb_exists. exists true.
    split; [|done]. apply list_elem_of_In. by eapply list_elem_of_lookup_2.
  - intros [= <-] Hin%elem_of_map_to_list Hn. left. rewrite lookup_fmap, Hn in Hin. by injection Hin.
Qed.

(** What admission accepted governs what scheduling may place.  An
    accepted requirement has the reservation's own mode; keeps every attribute
    the reservation recorded, at an equal value; and asks only for positive
    quantities, each of which, where the reservation governs the dimension, is
    the reserved amount or does not exceed it. *)
Theorem requirement_only_narrows coerce default_kind payload request requirement :
  _requirement coerce default_kind payload request = Ok requirement →
  pl_offering_mode payload = Some (rq_offering_mode requirement) ∧
  rq_offering_mode requirement ≠ ""%string ∧
  (∀ attrs k v, pl_claim_attributes payload = Some attrs → alist_get k attrs = Some v →
     ∃ v', alist_get k (rq_attributes requirement) = Some v' ∧ (v' = v ∨ py_eq v v' = true)) ∧
  rq_dimensions requirement ≠ ∅ ∧
  (∀ k a, rq_dimensions requirement !! k = Some a →
     dec_leb a dec0 = false ∧
     ∃ v, coerce v = Some a ∧
       ∀ n, pl_dimensions payload !! k = Some n → v = VNum n ∨ value_gt v n = Ok false).
Proof.
  unfold _requirement. destruct (str_truthy (pl_offering_mode payload)) as [mode|] eqn:Hm; [|done].
  intros (kind_ & _ & H)%result_bind_Ok. apply result_bind_Ok in H as (wanted & _ & H).
  apply result_bind_Ok in H as (attrs & Ha & H). apply result_bind_Ok in H as (dims & Hd & H).
  unfold make_requirement in H. case_bool_decide as Hmode; [done|].
  case_bool_decide as Hdims; [done|]. apply result_bind_Ok in H as (m & Hamounts & H).
  injection H as <-. simpl. split_and!.
  - unfold str_truthy in Hm. destruct (pl_offering_mode payload) as [[|]|]; congruence.
  - done.
  - intros attrs0 k v H0 Hk. rewrite H0 in Ha. by eapply merged_attributes_keep.
  - by eapply amounts_of_nonempty.
  - intros k a Hk. destruct (amounts_of_elem _ _ _ _ _ Hamounts Hk) as (v & Hv & Hf).
    destruct (coerce v) as [b|] eqn:Hb; [|done]. destruct (dec_leb b dec0) eqn:Hpos; [done|].
    injection Hf as ->. split; [done|]. exists v. split; [done|]. intros n Hn.
    by eapply requested_dimensions_within.
Qed.
