(* ===== verification/Release.v ===== *)
(** Release by what a reservation's fulfillment proves
    ([compute_provisioning/release.py]): the guard the site ledger consults
    inside the transaction that frees capacity, the release decision, and the
    progress of a releasing lease.

    The job table is read only through [job_bound_to_reservation]. *)
From S2P Require Import Prelude PyNum PyValue JobMetadata PyTime PoolDeclarations LedgerTypes.
From S2P Require Import Settlement.
From S2P Require Import SettlementFacts.

Definition _UNDELIVERED_STATES : list SettlementRecordState := [assigned; abandoned].
Definition _TEARDOWN_STATES : list SettlementRecordState :=
  [active; teardown_dispatch_pending; tearing_down; teardown_failed].
Definition _CREATE_IN_FLIGHT_STATES : list SettlementRecordState := [dispatch_pending; dispatching].
Definition PROVIDER_REPORTED_FAILURE : string := "provider_reported_failure".

Inductive ReleaseAction : Type := TEARDOWN | FREE | CREATE_IN_FLIGHT | UNRELEASABLE.
#[export] Instance ReleaseAction_eq_dec : EqDecision ReleaseAction.
Proof. solve_decision. Defined.

Record ReleaseDecision : Type := {
  rd_action : ReleaseAction;
  rd_fulfillment_id : option string;
  rd_reason : option string;
  rd_message : option string;
}.

Inductive ReleaseProgress : Type :=
  | P_TORN_DOWN | P_FAILED | P_READY_FOR_TEARDOWN | P_CREATE_IN_FLIGHT | P_TEARING_DOWN.
#[export] Instance ReleaseProgress_eq_dec : EqDecision ReleaseProgress.
Proof. solve_decision. Defined.

Record ReleaseStatus : Type := {
  rs_progress : ReleaseProgress;
  rs_reason : option string;
  rs_error : option string;
}.

Section release.
Context {Ext : Type} `{!SettlementTables Ext}.
Context (job_bound_to_reservation : Ext → string → bool).

Implicit Types d : DB Ext.

(** ** The guard *)

Definition _dispatched d (i : string) : bool :=
  match get_reservation_row i d ≫= λ r, str_truthy (create_job_id r) with
  | Some _ => true
  | None => job_bound_to_reservation (ext d) i
  end.

(** [FulfillmentReleaseGuard.__call__]: whether the release is permitted, and
    the tables after it. *)
Definition FulfillmentReleaseGuard d (i : string) : bool * Ext :=
  let state := sr_state <$> get (settlement (ext d)) i in
  if bool_decide (state = Some torn_down) then (true, ext d)
  else if match state with Some s => negb (bool_decide (s ∈ _UNDELIVERED_STATES)) | None => false end
  then (false, ext d)
  else if _dispatched d i then (false, ext d)
  else if bool_decide (state = Some assigned) then
    let '(changed, f) := abandon_if_assigned i (settlement (ext d)) in
    (match changed with Ok b => b | Err _ => false end, put_settlement f (ext d))
  else (true, ext d).

(** ** The decision *)

Definition text_of (v : value) : option string :=
  match v with VStr s => str_truthy (Some s) | _ => None end.

(** [record.failure_message or record.failure_reason]; columns of text. *)
Definition failure_detail (r : SettlementRecord) : option string :=
  match text_of (sr_failure_message r) with
  | Some s => Some s
  | None => match sr_failure_reason r with VStr s => Some s | _ => None end
  end.

Definition compensable (state : SettlementRecordState) (failure_reason provider_metadata : value)
    : bool :=
  bool_decide (state = failed) &&
  py_eq failure_reason (VStr PROVIDER_REPORTED_FAILURE) &&
  match provider_metadata with
  | VDict m => bool_decide (jm_operation <$> validate_metadata m = Some op_create)
  | _ => false
  end.

Definition record_compensable (r : SettlementRecord) : bool :=
  compensable (sr_state r) (sr_failure_reason r) (sr_provider_metadata r).

Definition decision (action : ReleaseAction) (fulfillment : option string) : ReleaseDecision :=
  {| rd_action := action; rd_fulfillment_id := fulfillment; rd_reason := None; rd_message := None |}.

(** [submit_release]: it only reads. *)
Definition submit_release (f : FDB) (i : string) : ReleaseDecision :=
  match get f i with
  | None => decision FREE None
  | Some r =>
      let fulfillment := str_truthy (sr_fulfillment_id r) in
      if bool_decide (sr_state r ∈ _UNDELIVERED_STATES) || bool_decide (sr_state r = torn_down)
      then decision FREE fulfillment
      else if bool_decide (sr_state r ∈ _TEARDOWN_STATES) || record_compensable r
      then decision TEARDOWN fulfillment
      else if bool_decide (sr_state r ∈ _CREATE_IN_FLIGHT_STATES)
      then decision CREATE_IN_FLIGHT fulfillment
      else {| rd_action := UNRELEASABLE; rd_fulfillment_id := fulfillment;
              rd_reason := Some "fulfillment_failed"%string;
              rd_message := Some (match failure_detail r with
                                  | Some (String _ _ as s) => s
                                  | _ => "fulfillment " +:+ default "None" fulfillment +:+ " is " +:+
                                         settlement_state_value (sr_state r)
                                  end) |}
  end.

(** ** Progress *)

(** [detail or fallback]. *)
Definition detail_or (r : SettlementRecord) (fallback : string) : option string :=
  match failure_detail r with Some (String _ _ as s) => Some s | _ => Some fallback end.

Definition progress (p : ReleaseProgress) : ReleaseStatus :=
  {| rs_progress := p; rs_reason := None; rs_error := None |}.

Definition failed_progress (reason : string) (error : option string) : ReleaseStatus :=
  {| rs_progress := P_FAILED; rs_reason := Some reason; rs_error := error |}.

(** [FulfillmentReleaseStatusPort.get_status]. *)
Definition get_status (f : FDB) (fulfillment : string) : ReleaseStatus :=
  match get_by_fulfillment_id f fulfillment with
  | None => failed_progress "teardown_failed" (Some ("no fulfillment '" +:+ fulfillment +:+ "'"))
  | Some r =>
      match sr_state r with
      | torn_down => progress P_TORN_DOWN
      | teardown_failed => failed_progress "teardown_failed" (detail_or r "teardown failed")
      | failed =>
          if record_compensable r then progress P_READY_FOR_TEARDOWN
          else failed_progress "fulfillment_failed" (detail_or r "fulfillment failed")
      | active => progress P_READY_FOR_TEARDOWN
      | dispatch_pending | dispatching => progress P_CREATE_IN_FLIGHT
      | _ => progress P_TEARING_DOWN
      end
  end.
End release.
