(* ===== verification/ReleaseProperties.v ===== *)
(** Capacity returns only on fulfillment's proof: the release guard's
    contract, the guarded release of the site ledger, and the release
    decision. *)
From S2P Require Import Prelude PyNum PyValue PyTime PoolDeclarations LedgerTypes.
From S2P Require Import LedgerMatching.
From S2P Require Import Ledger LedgerSpec LedgerTrack Settlement SettlementFacts.
From S2P Require Import SettlementFacts Sessions.
From S2P Require Import Release.
From stdpp Require Import relations.

Local Open Scope Z_scope.

Section guard.
Context {Ext : Type} `{!SettlementTables Ext}.
Context (job_bound : Ext → string → bool).

Implicit Types (d : DB Ext) (w : world Ext).

(** Nothing remains delivered for a reservation: its aggregate is torn down,
    or nothing was ever dispatched and nothing can be any more. *)
Definition nothing_delivered d (i : string) : Prop :=
  match sr_state <$> get (settlement (ext d)) i with
  | Some torn_down => True
  | None | Some abandoned => _dispatched job_bound d i = false
  | Some _ => False
  end.

(** The settlement tables are not the job table. *)
Context (jobs_apart : ∀ f x i, job_bound (put_settlement f x) i = job_bound x i).

Lemma abandon_assigned f i r :
  fdb_wf f → get f i = Some r → sr_state r = assigned →
  ∃ f', abandon_if_assigned i f = (Ok true, f') ∧ get f' i = Some (set_sr_state abandoned r).
Proof.
  intros Hwf Hget Hs. destruct (find_by_Some _ _ _ _ Hget) as [Hin Hid].
  unfold abandon_if_assigned, mbind, M_bind, gets, lift, modify, mret, M_ret. simpl.
  eexists. split.
  - do 2 f_equal. apply existsb_exists. exists r. split; [by apply list_elem_of_In|].
    by apply bool_decide_eq_true_2.
  - unfold get. simpl. apply find_by_unique.
    + replace (sr_reservation_id <$> map _ _) with (sr_reservation_id <$> records f); [apply Hwf|].
      change (map ?g ?l) with (g <$> l). rewrite <- list_fmap_compose.
      apply list_fmap_ext. intros k x _. simpl. by case_bool_decide.
    + split; [|done]. apply list_elem_of_fmap. exists r. by rewrite bool_decide_eq_true_2.
Qed.

Lemma guard_permits d i x :
  fdb_wf (settlement (ext d)) → FulfillmentReleaseGuard job_bound d i = (true, x) →
  nothing_delivered (set_ext x d) i ∧ ∀ j, job_bound x j = job_bound (ext d) j.
Proof.
  intros Hwf. unfold FulfillmentReleaseGuard, nothing_delivered.
  case_bool_decide as Ht; [intros [= <-]; by rewrite set_ext_same, Ht|].
  destruct (get (settlement (ext d)) i) as [r|] eqn:Hget; cbn [fmap option_fmap option_map] in *.
  - case_bool_decide as Hu; cbn [negb]; [|done].
    destruct (_dispatched job_bound d i) eqn:Hd; [done|].
    case_bool_decide as Ha.
    + destruct (abandon_assigned _ _ _ Hwf Hget) as (f' & Hf & Hget'); [congruence|].
      rewrite Hf. intros [= <-]. simpl. rewrite settlement_put, Hget'. simpl.
      split; [|intros j; apply jobs_apart]. unfold _dispatched in *. simpl. by rewrite jobs_apart.
    + intros [= <-]. rewrite set_ext_same, Hget. simpl. split; [|done].
      unfold _UNDELIVERED_STATES in Hu. apply elem_of_cons in Hu as [Hu|Hu]; [congruence|].
      apply elem_of_cons in Hu as [->|Hu]; [done|by apply not_elem_of_nil in Hu].
  - destruct (_dispatched job_bound d i) eqn:Hd; [done|]. intros [= <-].
    by rewrite set_ext_same, Hget.
Qed.

(** The guard's contract.  It permits a release only when nothing remains
    delivered in the tables it leaves (an [assigned] aggregate being abandoned
    on the way, so that it can no longer be dispatched), and a refusal writes
    nothing. *)
Theorem release_guard_contract d i :
  fdb_wf (settlement (ext d)) →
  match FulfillmentReleaseGuard job_bound d i with
  | (true, x) => nothing_delivered (set_ext x d) i ∧
      (∀ s, sr_state <$> get (settlement (ext d)) i = Some s →
         s ∈ [torn_down; assigned; abandoned])
  | (false, x) => x = ext d ∧
      (_dispatched job_bound d i = true ∨
       ∃ s, sr_state <$> get (settlement (ext d)) i = Some s ∧ s ∉ [torn_down; assigned; abandoned])
  end.
Proof.
  intros Hwf. destruct (FulfillmentReleaseGuard job_bound d i) as [[|] x] eqn:Hg.
  - split; [by apply guard_permits|]. unfold FulfillmentReleaseGuard in Hg.
    intros s Hs. rewrite Hs in Hg. destruct s; try done; set_solver.
  - unfold FulfillmentReleaseGuard in Hg. case_bool_decide as Ht; [done|].
    destruct (get (settlement (ext d)) i) as [r|] eqn:Hget; cbn [fmap option_fmap option_map] in *.
    + case_bool_decide as Hu; cbn [negb] in Hg.
      * destruct (_dispatched job_bound d i) eqn:Hd; [injection Hg as <-; by split; [|left]|].
        case_bool_decide as Ha; [|done].
        destruct (abandon_assigned _ _ _ Hwf Hget) as (f' & Hf & _); [congruence|].
        by rewrite Hf in Hg.
      * injection Hg as <-. split; [done|]. right. exists (sr_state r). split; [done|].
        intros [Heq|Hin]%elem_of_cons; [congruence|]. by apply Hu.
    + destruct (_dispatched job_bound d i) eqn:Hd; [|done]. injection Hg as <-. by split; [|left].
Qed.
End guard.

(** ** The guarded release *)

Section guarded.
Context {Ext : Type} `{!SettlementTables Ext}.
Context (env : environment) (cfg : ledger_config Ext).
Context (job_bound : Ext → string → bool).

Implicit Types (d : DB Ext) (w : world Ext) (r : CapacityReservation).

(** How the composition wires the ledger: the guard is the fulfillment's, and
    neither effect writes the settlement tables or the job table. *)
Record wired : Prop := {
  wi_guard : cfg_release_guard cfg = Some (FulfillmentReleaseGuard job_bound);
  wi_jobs : ∀ f x i, job_bound (put_settlement f x) i = job_bound x i;
  wi_release : ∀ effect x i s x', cfg_release_effect cfg = Some effect → effect x i s = Ok x' →
    settlement x' = settlement x ∧ ∀ j, job_bound x' j = job_bound x j;
  wi_end : ∀ effect x p x', cfg_lease_end_effect cfg = Some effect → effect x p = Ok x' →
    settlement x' = settlement x ∧ ∀ j, job_bound x' j = job_bound x j;
}.

(** The facts the proof of a release rests on are untouched. *)
Record same_facts d d' : Prop := {
  sf_rows : reservations d' = reservations d;
  sf_settlement : settlement (ext d') = settlement (ext d);
  sf_jobs : ∀ j, job_bound (ext d') j = job_bound (ext d) j;
}.

Lemma same_facts_delivered d d' i :
  same_facts d d' → nothing_delivered job_bound d i → nothing_delivered job_bound d' i.
Proof.
  intros [Hr Hs Hj]. unfold nothing_delivered, _dispatched, get_reservation_row.
  by rewrite Hr, Hs, Hj.
Qed.

Context (Hwired : wired).

Lemma wp_end_facts r key context cause reason w :
  wp (_record_lease_end env cfg r key context cause reason)
    (λ x w', committed w' = committed w ∧
       match x with Ok _ => same_facts (working w) (working w') | Err _ => True end) w.
Proof.
  apply wp_and.
  { assert (unseen committed (_record_lease_end env cfg r key context cause reason)) as H
      by (unfold _record_lease_end; session fail). apply H. }
  unfold _record_lease_end. l_step. l_step. l_step; [by l_step|]. do 4 l_step.
  do 2 l_step. destruct (cfg_lease_end_effect cfg) as [effect|] eqn:He; [|by l_step].
  do 4 l_step. simpl. destruct (effect _ _) as [x|] eqn:Hx; [|done]. l_step.
  destruct (wi_end Hwired _ _ _ _ He Hx). by split.
Qed.

Lemma wp_effect_facts i s w :
  wp (_run_release_effect cfg i s)
    (λ x w', committed w' = committed w ∧
       match x with Ok _ => same_facts (working w) (working w') | Err _ => True end) w.
Proof.
  apply wp_and.
  { assert (unseen committed (_run_release_effect cfg i s)) as H
      by (unfold _run_release_effect; session fail). apply H. }
  unfold _run_release_effect. destruct (cfg_release_effect cfg) as [effect|] eqn:He; [|by l_step].
  do 4 l_step. simpl. destruct (effect _ _ _) as [x|] eqn:Hx; [|done]. l_step.
  destruct (wi_release Hwired _ _ _ _ _ He Hx). by split.
Qed.

(** A released row records no new dispatch. *)
Lemma nothing_delivered_row d r r' i :
  NoDup (capacity_reservation_id <$> reservations d) →
  capacity_reservation_id r' = capacity_reservation_id r → create_job_id r' = create_job_id r →
  get_reservation_row (capacity_reservation_id r) d = Some r →
  nothing_delivered job_bound d i → nothing_delivered job_bound (update_reservation r' d) i.
Proof.
  intros Hnd Hid Hjob Hget. unfold nothing_delivered, _dispatched. simpl.
  assert (get_reservation_row i (update_reservation r' d) ≫= (λ r, str_truthy (create_job_id r)) =
          get_reservation_row i d ≫= (λ r, str_truthy (create_job_id r))) as ->; [|done].
  unfold get_reservation_row, update_reservation. simpl.
  destruct (decide (i = capacity_reservation_id r')) as [->|Hne].
  - rewrite <- Hid in Hget. unfold get_reservation_row in Hget.
    rewrite (find_by_replace_eq _ _ _ _ Hget), Hget. simpl. by rewrite Hjob.
  - by rewrite find_by_replace_ne.
Qed.

(** The reservation is released, and nothing remains delivered for it. *)
Definition ended_on_proof d (i : string) : Prop :=
  nothing_delivered job_bound d i ∧
  ∃ r', get_reservation_row i d = Some r' ∧ res_state r' = released.

(** What a guarded release commits, and what a refusal leaves; one that raises
    has committed nothing, or the whole release. *)
Definition release_proven (w : world Ext) (i : string) (res : result (option reservation_payload))
    (w' : world Ext) : Prop :=
  match res with
  | Ok (Some _) => ended_on_proof (committed w') i
  | Ok None => committed w' = committed w
  | Err _ => committed w' = committed w ∨ ended_on_proof (committed w') i
  end ∧
  ((FulfillmentReleaseGuard job_bound (committed w) i).1 = false →
   res = Ok None ∧ committed w' = committed w) ∧
  (is_ok res = true → (FulfillmentReleaseGuard job_bound (committed w) i).1 = true →
   ∃ p, res = Ok (Some p)).

Lemma wp_guarded_release w i deal reason message context r :
  db_wf (committed w) → fdb_wf (settlement (ext (committed w))) →
  i ≠ ""%string → get_reservation_row i (committed w) = Some r →
  held_state (res_state r) = true → res_state r ≠ unmanaged →
  wp (release env cfg (Some i) deal false reason message context) (release_proven w i) w.
Proof.
  intros Hwf Hf Hi Hget Hheld Hun. unfold release_proven.
  apply wp_operation. l_step. l_step. change (working (opened w)) with (committed w). cbv zeta.
  assert (_find_reservation (committed w)
    (Some i) (match str_truthy (Some i) with Some _ => None | None => deal_escrow deal end) None
    = Some r) as Hfind.
  { unfold _find_reservation. by destruct i. }
  rewrite Hfind. destruct (find_by_Some _ _ _ _ Hget) as [Hin Hid]. rewrite Hid.
  destruct (is_released (res_state r)) eqn:Hrel; [by destruct (res_state r)|].
  rewrite Hheld. simpl. rewrite bool_decide_eq_false_2 by done.
  apply wp_bind. unfold _release_permitted. rewrite (wi_guard Hwired). do 2 l_step. simpl.
  destruct (FulfillmentReleaseGuard job_bound (committed w) i) as [permitted x] eqn:Hg.
  do 3 l_step. destruct permitted; simpl.
  2: { l_step. split; [done|]. by split. }
  destruct (guard_permits job_bound (wi_jobs Hwired) _ _ _ Hf Hg) as [Hnone Hjobs].
  match goal with |- wp _ _ ?w1 => set (w1' := w1) end.
  assert (reservations (working w1') = reservations (committed w) ∧
          nothing_delivered job_bound (working w1') i) as [Hrows Hn1] by done.
  assert (committed w1' = committed w) as Hc1 by done.
  clearbody w1'. apply wp_bind. eapply wp_mono; [apply wp_end_facts|].
  intros [[]|e] w2 [Hc2 H2]; [|split_and!; [left; congruence|done..]].
  do 4 l_step. match goal with |- context [update_reservation ?x] => set (r' := x) end.
  apply wp_bind. eapply wp_mono; [apply wp_effect_facts|].
  intros [[]|e] w3 [Hc3 H3]; [|split_and!; [left; simpl in *; congruence|done..]].
  do 3 l_step. destruct (_reservation_dimensions _ _) as [dims|];
    [|split_and!; [left; simpl in *; congruence|done..]].
  apply wp_bind, wp_capacity_event. do 3 l_step.
  match goal with |- context [_reservation_payload ?c ?x] =>
    set (payload := _reservation_payload c x) end.
  match goal with |- wp _ _ ?x => set (w4 := x) end.
  assert (ended_on_proof (committed w4) i) as Hend.
  { assert (reservations (working w2) = reservations (committed w)) as Hrows2.
    { rewrite <- Hrows. apply H2. }
    assert (get_reservation_row i (working w2) = Some r) as Hget2.
    { unfold get_reservation_row. by rewrite Hrows2. }
    split.
    - apply (same_facts_delivered (working w3)); [by split|].
      apply (same_facts_delivered _ _ _ H3). simpl.
      apply (nothing_delivered_row _ r); [rewrite Hrows2; apply Hwf|done|done|by rewrite Hid|].
      by apply (same_facts_delivered _ _ _ H2).
    - exists r'. split; [|done]. unfold get_reservation_row. simpl.
      rewrite (sf_rows _ _ H3). simpl. rewrite <- Hid.
      apply (find_by_replace_eq capacity_reservation_id r' _ r). simpl.
      change (get_reservation_row (capacity_reservation_id r) (working w2) = Some r).
      by rewrite Hid. }
  destruct payload; [l_step|]; (split; [|split; [done|]]); [done|by intros; eexists|by right|done].
Qed.

(** C8: capacity returns only on proof.  When the guarded ledger releases a
    holding reservation (not by force), then in the tables that same
    transaction commits the reservation is [released] and nothing remains
    delivered for it; when the guard refuses, the call returns nothing and
    nothing is committed. *)
Theorem release_only_on_proof w i deal reason message context r :
  db_wf (committed w) → fdb_wf (settlement (ext (committed w))) →
  i ≠ ""%string → get_reservation_row i (committed w) = Some r →
  held_state (res_state r) = true → res_state r ≠ unmanaged →
  (∀ p w', release env cfg (Some i) deal false reason message context w = (Ok (Some p), w') →
     nothing_delivered job_bound (committed w') i ∧
     ∃ r', get_reservation_row i (committed w') = Some r' ∧ res_state r' = released) ∧
  ((FulfillmentReleaseGuard job_bound (committed w) i).1 = false →
   ∃ w', release env cfg (Some i) deal false reason message context w = (Ok None, w') ∧
     committed w' = committed w).
Proof.
  intros Hwf Hf Hi Hget Hheld Hun.
  pose proof (wp_guarded_release w i deal reason message context r Hwf Hf Hi Hget Hheld Hun) as H.
  unfold wp in H. destruct (release _ _ _ _ _ _ _ _ w) as [res w']. destruct H as (H1 & H2 & _). split.
  - intros p w'' [= -> ->]. exact H1.
  - intros Hg. destruct (H2 Hg) as [Hres Hc]. simpl in Hres. subst res. by exists w'.
Qed.
End guarded.

(** ** The decision *)

Section decisions.
Context {Ext : Type} `{!SettlementTables Ext}.
Context (job_bound : Ext → string → bool).

(** The release decision agrees with the state machine and with the guard.
    Capacity is freed directly exactly when no teardown can be owed; a teardown
    is decided only where one has begun or the transition table lets one begin;
    a create in flight is waited for; only a failed create that cannot be
    compensated is left to an operator.  A release the guard permits was
    decided as freeing, and a freeing decision is permitted unless something
    was dispatched for an aggregate that is not torn down. *)
Theorem release_decision_agrees (d : DB Ext) i :
  fdb_wf (settlement (ext d)) →
  let action := rd_action (submit_release (settlement (ext d)) i) in
  let record := get (settlement (ext d)) i in
  action = match record with
           | None => FREE
           | Some r =>
               match sr_state r with
               | assigned | abandoned | torn_down => FREE
               | active | teardown_dispatch_pending | tearing_down | teardown_failed => TEARDOWN
               | dispatch_pending | dispatching => CREATE_IN_FLIGHT
               | failed => if record_compensable r then TEARDOWN
                           else UNRELEASABLE
               end
           end ∧
  (action = TEARDOWN → ∃ r, record = Some r ∧
     (sr_state r ∈ [teardown_dispatch_pending; tearing_down] ∨
      teardown_dispatch_pending ∈ _ALLOWED_TRANSITIONS (sr_state r))) ∧
  (FulfillmentReleaseGuard job_bound d i).1 =
    bool_decide (action = FREE) &&
    (bool_decide (sr_state <$> record = Some torn_down) || negb (_dispatched job_bound d i)).
Proof.
  intros Hwf. cbv zeta. unfold submit_release, FulfillmentReleaseGuard.
  destruct (get (settlement (ext d)) i) as [r|] eqn:Hget; cbn [fmap option_fmap option_map].
  2: by destruct (_dispatched job_bound d i).
  assert (sr_state r = assigned → (abandon_if_assigned i (settlement (ext d))).1 = Ok true) as Hab.
  { intros Hs. by destruct (abandon_assigned _ _ _ Hwf Hget Hs) as (f' & -> & _). }
  destruct (abandon_if_assigned i (settlement (ext d))) as [changed f'].
  assert (record_compensable r = true → sr_state r = failed) as Hc.
  { unfold record_compensable, compensable. by case_bool_decide. }
  destruct (record_compensable r), (sr_state r) eqn:Hs;
    try (specialize (Hc eq_refl); discriminate Hc); (split; [reflexivity|]);
    (split; [intros Ha; try discriminate Ha; exists r; rewrite Hs; (split; [done|])|]).
  all: try (destruct (_dispatched job_bound d i); try reflexivity; simpl in *; by rewrite Hab).
  all: vm_compute; first [by left; repeat constructor | by right; repeat constructor].
Qed.
End decisions.
