(* ===== verification/CompositionDemo.v ===== *)
(** A concrete composition: the site ledger guarded by fulfillment, the
    settlement tables beside it, and instances of the theorems about both. *)
From S2P Require Import Prelude PyNum PyValue PyNumFacts PyTime PyTimeFacts PoolDeclarations.
From S2P Require Import LedgerTypes LedgerMatching Ledger LedgerLifecycle LedgerRegistry.
From S2P Require Import LedgerSpec.
From S2P Require Import LedgerSpec LedgerCapacity LedgerHistory LedgerProperties.
From S2P Require Import Settlement SettlementFacts RoundRobin Scheduler.
From S2P Require Import SchedulerFacts SchedulerProperties Release ReleaseProperties.
From stdpp Require Import relations.

Local Open Scope Z_scope.
Local Open Scope string_scope.

(** No job is bound to any reservation here. *)
Definition no_jobs (x : FDB) (i : string) : bool := false.

Definition site_cfg : ledger_config FDB :=
  {| cfg_required_attributes := []; cfg_unit_claim_keys := _DEFAULT_UNIT_CLAIM_KEYS;
     cfg_mirror_dimension := _DEFAULT_MIRROR_DIMENSION;
     cfg_release_guard := Some (FulfillmentReleaseGuard no_jobs);
     cfg_release_effect := None; cfg_site_id := "site"; cfg_lease_end_effect := None;
     cfg_host_requirement := None; cfg_deliverable_hosts := None |}.

Definition empty_tables : FDB := {| records := []; cursors := ∅; provisioned := [] |}.

Definition site_db : DB FDB :=
  {| pools := <["p1" := demo_pool]> {["p0" := demo_pool]}; buckets := []; reservations := [];
     debits := ∅; events := []; lease_ends := []; ext := empty_tables |}.

Definition site_world : world FDB :=
  {| working := site_db; committed := site_db; clock_reads := 0; ids_drawn := 0; depth := 0 |}.

(** Two resources, and a hold of three units on the first, "id2". *)
Definition reserved_site : world FDB :=
  history demo_env site_cfg
    [demo_register "gpu0" "p0" 8; demo_register "gpu1" "p1" 4; demo_reserve 3 demo_deal] site_world.

Definition settle_request : PhysicalSettlementRequest :=
  {| psr_capacity_reservation_id := "id2"; psr_market := "vms"; psr_requirements := [];
     psr_resource_id := Some "gpu1" |}.

Definition schedule_at (w : world FDB) : result SettlementResource * world FDB :=
  schedule_resource demo_env site_cfg dec_of_value (Some "compute.gpu") None None settle_request w.

Definition scheduled_site : world FDB := (schedule_at reserved_site).2.

Definition settled : SettlementResource :=
  {| sres_offering_mode := "vm"; sres_settlement_resource_id := "gpu1"; sres_pool_id := "p1";
     sres_resource_kind := "compute.gpu"; sres_provider := "kvm";
     sres_attributes :=
       map_to_list (fv_attributes (_resource_feasibility_view
         (default (blank_bucket "" "" 0) (_bucket_by_backing_resource (committed reserved_site) "gpu1"))
         ∅ "units"));
     sres_host_id := None; sres_dimensions := {["units" := dec_of_Z 3]} |}.

(** The hold made on "gpu0" follows the assignment to "gpu1". *)
Example scheduling_rebinds :
  (_backing_resource_id (committed reserved_site) "id2",
   _backing_resource_id (committed scheduled_site) "id2") = (Some "gpu0", Some "gpu1").
Proof. vm_compute. reflexivity. Qed.

Lemma site_wf : db_wf (committed site_world).
Proof.
  split; simpl; try done; try (by apply NoDup_nil_2).
  - intros b b' Hb. by apply not_elem_of_nil in Hb.
  - intros b p Hb. by apply not_elem_of_nil in Hb.
  - intros r Hr. by apply not_elem_of_nil in Hr.
Qed.

Lemma reserved_site_wf : db_wf (committed reserved_site).
Proof.
  unfold reserved_site, history. simpl.
  do 3 (apply after_wf; [apply demo_clock|]). apply site_wf.
Qed.

Lemma empty_tables_wf : fdb_wf empty_tables.
Proof. split; [apply NoDup_nil_2|by intros r ?%not_elem_of_nil]. Qed.

Lemma reserved_site_tables : settlement (ext (committed reserved_site)) = empty_tables.
Proof. vm_compute. reflexivity. Qed.

(** ** The scheduler's theorems *)

Lemma fresh_schedule_is_sound_witness :
  ∃ row requirement,
    get_reservation_row "id2" (committed reserved_site) = Some row ∧
    schedulable (res_state row) = true ∧
    requirement_of site_cfg dec_of_value (Some "compute.gpu") row settle_request requirement ∧
    placed site_cfg None None (committed reserved_site) settle_request requirement settled
      (committed scheduled_site).
Proof.
  apply (fresh_schedule_is_sound demo_env site_cfg dec_of_value (Some "compute.gpu") None None
           settle_request reserved_site settled scheduled_site).
  - apply reserved_site_wf.
  - discriminate.
  - vm_compute. reflexivity.
  - vm_compute. reflexivity.
Defined.

Definition stored_assignment : SettlementRecord :=
  default (assigned_record "" "" {| rq_offering_mode := ""; rq_resource_kind := "";
      rq_dimensions := ∅; rq_attributes := [] |} settled None 0)
    (get (settlement (ext (committed scheduled_site))) "id2").

Lemma repeated_schedule_returns_assignment_witness :
  settled = _resource_from_record stored_assignment ∧
  committed (schedule_at scheduled_site).2 = committed scheduled_site ∧
  sr_market stored_assignment = "vms" ∧
  (∀ rid, Some "gpu1" = Some rid → sr_settlement_resource_id stored_assignment = rid) ∧
  ∃ pool, enabled_pool (committed scheduled_site) (sr_pool_id stored_assignment) = Some pool.
Proof.
  apply (repeated_schedule_returns_assignment demo_env site_cfg dec_of_value (Some "compute.gpu")
           None None settle_request stored_assignment scheduled_site settled
           (schedule_at scheduled_site).2).
  - vm_compute. reflexivity.
  - vm_compute. reflexivity.
Defined.

Lemma scheduling_keeps_both_tables_witness :
  db_wf (committed scheduled_site) ∧ fdb_wf (settlement (ext (committed scheduled_site))).
Proof.
  destruct (scheduling_keeps_both_tables demo_env site_cfg dec_of_value (Some "compute.gpu")
    None None settle_request reserved_site) as (_ & H1 & _ & H2 & _).
  - apply reserved_site_wf.
  - rewrite reserved_site_tables. apply empty_tables_wf.
  - split; [exact H1|exact H2].
Defined.

Definition demo_payload : reservation_payload :=
  {| pl_capacity_reservation_id := "id2"; pl_settlement_resource_id := None; pl_units := 3;
     pl_dimensions := {["units" := NInt 3]}; pl_state := reserved; pl_deal_ref := [];
     pl_escrow_uid := None; pl_hold_expires_at := None; pl_offering_mode := Some "vm";
     pl_executor_target := None; pl_release_job_id := None; pl_executor_ref := [];
     pl_host_id := VNone; pl_lease_start_utc := None; pl_lease_end_utc := None;
     pl_create_job_id := None; pl_claim_attributes := Some [("gpu_model", VStr "h100")];
     pl_failure_reason := None; pl_failure_message := None; pl_released_at := None;
     pl_release_requested_at := None; pl_activated_at_utc := None |}.

(** Two of the three reserved units, on a site of the caller's choosing. *)
Definition narrowing_request : PhysicalSettlementRequest :=
  {| psr_capacity_reservation_id := "id2"; psr_market := "vms";
     psr_requirements := [("dimensions", VDict [("units", VInt 2)]);
                          ("attributes", VDict [("region", VStr "eu")])];
     psr_resource_id := None |}.

Definition narrowed : SettlementRequirement :=
  {| rq_offering_mode := "vm"; rq_resource_kind := "compute.gpu";
     rq_dimensions := {["units" := dec_of_Z 2]};
     rq_attributes := [("gpu_model", VStr "h100"); ("region", VStr "eu")] |}.

Example widening_refused :
  _requirement dec_of_value (Some "compute.gpu") demo_payload
    {| psr_capacity_reservation_id := "id2"; psr_market := "vms";
       psr_requirements := [("dimensions", VDict [("units", VInt 4)])]; psr_resource_id := None |} =
  Err (SettlementRequestMismatchError "requested dimensions exceed").
Proof. vm_compute. reflexivity. Qed.

Lemma requirement_only_narrows_witness :
  ∃ v', alist_get "gpu_model" (rq_attributes narrowed) = Some v' ∧
    (v' = VStr "h100" ∨ py_eq (VStr "h100") v' = true).
Proof.
  destruct (requirement_only_narrows dec_of_value (Some "compute.gpu") demo_payload
    narrowing_request narrowed) as (_ & _ & H & _).
  - vm_compute. reflexivity.
  - apply (H [("gpu_model", VStr "h100")]); reflexivity.
Defined.

(** ** The release's theorems *)

Lemma scheduled_site_wf :
  db_wf (committed scheduled_site) ∧ fdb_wf (settlement (ext (committed scheduled_site))).
Proof.
  destruct (schedule_keeps demo_env site_cfg dec_of_value (Some "compute.gpu")
    None None settle_request reserved_site) as (_ & H1 & _ & H2 & _).
  - apply reserved_site_wf.
  - rewrite reserved_site_tables. apply empty_tables_wf.
  - split; [exact H1|exact H2].
Qed.

Lemma site_wired : wired site_cfg no_jobs.
Proof. by split. Qed.

Definition released_site : result (option reservation_payload) * world FDB :=
  release demo_env site_cfg (Some "id2") None false None None [] scheduled_site.

Definition settled_row : CapacityReservation :=
  default (hold_row site_cfg "" ∅ None None None None (blank_bucket "" "" 0) None None 0)
    (get_reservation_row "id2" (committed scheduled_site)).

(** Releasing a scheduled but undispatched reservation frees it and abandons
    its assignment in the same transaction. *)
Example release_abandons :
  (res_state <$> get_reservation_row "id2" (committed released_site.2),
   sr_state <$> get (settlement (ext (committed released_site.2))) "id2") =
  (Some released, Some abandoned).
Proof. vm_compute. reflexivity. Qed.

Lemma release_guard_contract_witness :
  (FulfillmentReleaseGuard no_jobs (committed scheduled_site) "id2").1 = true ∧
  match FulfillmentReleaseGuard no_jobs (committed scheduled_site) "id2" with
  | (true, x) => nothing_delivered no_jobs (set_ext x (committed scheduled_site)) "id2" ∧
      (∀ s, sr_state <$> get (settlement (ext (committed scheduled_site))) "id2" = Some s →
         s ∈ [torn_down; assigned; abandoned])
  | (false, x) => x = ext (committed scheduled_site) ∧
      (_dispatched no_jobs (committed scheduled_site) "id2" = true ∨
       ∃ s, sr_state <$> get (settlement (ext (committed scheduled_site))) "id2" = Some s ∧
         s ∉ [torn_down; assigned; abandoned])
  end.
Proof.
  split; [vm_compute; reflexivity|].
  apply (release_guard_contract no_jobs).
  - reflexivity.
  - apply scheduled_site_wf.
Defined.

Lemma release_only_on_proof_witness :
  nothing_delivered no_jobs (committed released_site.2) "id2".
Proof.
  destruct (release_only_on_proof demo_env site_cfg no_jobs site_wired scheduled_site "id2" None
    None None [] settled_row (proj1 scheduled_site_wf) (proj2 scheduled_site_wf)) as [H _].
  - discriminate.
  - vm_compute. reflexivity.
  - vm_compute. reflexivity.
  - vm_compute. discriminate.
  - apply (H (match released_site.1 with Ok (Some p) => p | _ => demo_payload end) released_site.2).
    vm_compute. reflexivity.
Defined.

Lemma release_decision_agrees_witness :
  rd_action (submit_release (settlement (ext (committed scheduled_site))) "id2") = FREE ∧
  (FulfillmentReleaseGuard no_jobs (committed scheduled_site) "id2").1 = true.
Proof.
  destruct (release_decision_agrees no_jobs (committed scheduled_site) "id2")
    as (H1 & _ & H2); [apply scheduled_site_wf|].
  split; [rewrite H1; vm_compute; reflexivity|rewrite H2; vm_compute; reflexivity].
Defined.
