(* ===== verification/Fulfillment.v ===== *)
(** Fulfillment acceptance, dispatch acknowledgement and teardown
    ([market_fulfillment/fulfillment.py] and
    [market_fulfillment/fulfillment_persistence.py]) over the settlement tables
    and, for the executor's job handle, the site ledger.

    A provider adapter is code of the composition, so it is a record of
    operations.  Its synchronous calls run in the caller's session and may
    write the composition's own tables; an asynchronous call is a step of the
    whole world, since other transactions may commit while it is awaited.  The
    pool configuration handler, the failures pydantic's envelope validation
    finds beyond a missing or ill-typed field, and the identifier source are
    parameters. *)
From S2P Require Import Prelude PyNum PyValue PyTime PoolDeclarations LedgerTypes.
From S2P Require Import LedgerMatching.
From S2P Require Import Ledger LedgerLifecycle Settlement SettlementClaims SettlementFacts.
From S2P Require Import Scheduler.

Local Open Scope Z_scope.

(** ** Envelopes ([market_core/envelopes.py]) *)

Record VersionedEnvelope : Type := {
  env_kind : string;
  schema_version : Z;
  payload : value;
}.

#[export] Instance VersionedEnvelope_inhabited : Inhabited VersionedEnvelope :=
  populate {| env_kind := "kind"; schema_version := 1; payload := VNone |}.

(** [VersionedEnvelope(...)]: what its fields' constraints admit. *)
Definition valid_envelope (e : VersionedEnvelope) : bool :=
  negb (bool_decide (env_kind e = ""%string)) && (1 <=? schema_version e).

(** [envelope.model_dump(mode="json")], of a payload that is JSON. *)
Definition model_dump (e : VersionedEnvelope) : value :=
  VDict [("kind"%string, VStr (env_kind e)); ("schema_version"%string, VInt (schema_version e));
         ("payload"%string, payload e)].

(** [VersionedEnvelope.model_validate(v)].  pydantic also converts a version
    written as a boolean, a float or text, which no stored dump holds: these
    are refused here. *)
Definition model_validate (v : value) : result VersionedEnvelope :=
  match v with
  | VDict d =>
      match alist_get "kind" d, alist_get "schema_version" d, alist_get "payload" d with
      | Some (VStr k), Some (VInt n), Some p =>
          let e := {| env_kind := k; schema_version := n; payload := p |} in
          if valid_envelope e then Ok e else Err (ValueError "VersionedEnvelope")
      | _, _, _ => Err (ValueError "VersionedEnvelope")
      end
  | _ => Err (ValueError "VersionedEnvelope")
  end.

(** ** Provider contracts ([market_fulfillment/provider.py]) *)

Inductive ProviderOperationState : Type := op_pending | op_succeeded | op_failed | op_unknown.
#[export] Instance ProviderOperationState_eq_dec : EqDecision ProviderOperationState.
Proof. solve_decision. Defined.

Record ProviderStatus : Type := {
  ps_state : ProviderOperationState;
  ps_detail : value;
}.

Record ProvisionedResourceDescriptor : Type := {
  prd_provisioned_resource_id : string;
  prd_status : string;
}.

Record SettlementResult : Type := {
  sres_capacity_reservation_id : string;
  sres_fulfillment_id : option string;
  sres_resource : SettlementResource;
  sres_provisioned_resources : list ProvisionedResourceDescriptor;
  sres_provider_metadata : dict;
}.

Record FulfillmentProvider (Ext : Type) : Type := {
  prepare_create : string → VersionedEnvelope → SettlementResource → dict → bool → Ext →
    result VersionedEnvelope * Ext;
  dispatch_create : VersionedEnvelope → M (world Ext) dict;
  prepare_teardown : SettlementResult → dict → result VersionedEnvelope;
  dispatch_teardown : VersionedEnvelope → M (world Ext) dict;
  resolve_provisioned_resources : dict → result (list string);
  resolve_executor_job_id : dict → result (option string);
  provider_status : string → SettlementResource → dict → M (world Ext) ProviderStatus;
  fetch_credentials : dict → list ProvisionedResourceDescriptor → M (world Ext) VersionedEnvelope;
}.
Arguments prepare_create {Ext}. Arguments dispatch_create {Ext}. Arguments prepare_teardown {Ext}.
Arguments dispatch_teardown {Ext}. Arguments resolve_provisioned_resources {Ext}.
Arguments resolve_executor_job_id {Ext}. Arguments provider_status {Ext}.
Arguments fetch_credentials {Ext}.

(** ** Views *)

Record FulfillmentAcceptance : Type := {
  fa_fulfillment_id : option string;
  fa_capacity_reservation_id : string;
  fa_state : SettlementRecordState;
}.

Record FulfillmentStatus : Type := {
  fs_fulfillment_id : option string;
  fs_capacity_reservation_id : string;
  fs_state : SettlementRecordState;
  fs_failure_reason : value;
  fs_failure_message : value;
}.

Record CompensationCandidate : Type := {
  cc_state : SettlementRecordState;
  cc_failure_reason : value;
  cc_provider_metadata : dict;
}.

Record FulfillmentAcceptanceDecision : Type := {
  fad_record : SettlementRecord;
  newly_accepted : bool;
  dispatch_required : bool;
}.

(** Beside the accepted view, what is dispatched once acceptance commits. *)
Record PreparedFulfillment (Ext : Type) : Type := {
  pf_provider : FulfillmentProvider Ext;
  pf_prepared : VersionedEnvelope;
}.
Arguments pf_provider {Ext}. Arguments pf_prepared {Ext}.

Record FulfillmentResultPayload : Type := {
  frp_fulfillment_id : option string;
  frp_capacity_reservation_id : string;
  frp_state : SettlementRecordState;
  frp_failure_reason : value;
  frp_failure_message : value;
  frp_provisioned_resources : list ProvisionedResourceDescriptor;
  frp_domain_result : option VersionedEnvelope;
}.

(** [dict(record.provider_metadata or {})]. *)
Definition metadata_dict (v : value) : result dict := py_dict (or_empty v).

(** ** The transaction's operations on the settlement tables
    ([SqlAlchemyFulfillmentTransaction]) *)

Definition accept (i market : string) (request : VersionedEnvelope) (new_id : string)
    : F FulfillmentAcceptanceDecision :=
  before ← gets id;
  let was_accepted :=
    match get before i with Some r => bool_decide (is_Some (str_truthy (sr_fulfillment_id r)))
                          | None => false end in
  record ← accept_fulfillment i market (model_dump request) new_id;
  metadata ← lift (metadata_dict (sr_provider_metadata record));
  mret {| fad_record := record; newly_accepted := negb was_accepted;
          dispatch_required := bool_decide (sr_state record = dispatch_pending) &&
                               bool_decide (metadata = []) |}.

Definition persist_prepared_create (i : string) (prepared : VersionedEnvelope)
    : F SettlementRecord :=
  f ← gets id;
  match get f i with
  | None => raise (LookupError i)
  | Some r =>
      let v := model_dump prepared in
      if negb (is_none (sr_prepared_create_operation r)) &&
         negb (py_eq (sr_prepared_create_operation r) v)
      then raise (FulfillmentConflictError "different prepared create operation")
      else
        let r := set_sr_prepared_create_operation v r in
        modify (save_record r);; mret r
  end.

Definition acknowledge_create (i : string) (provider_metadata : dict) : F SettlementRecord :=
  f ← gets id;
  match get f i with
  | None => raise (LookupError i)
  | Some r =>
      existing ← lift (metadata_dict (sr_provider_metadata r));
      let same := py_eq (VDict existing) (VDict provider_metadata) in
      if negb (bool_decide (existing = [])) && negb same
      then raise (FulfillmentConflictError "acknowledged with different metadata")
      else if same && bool_decide (sr_state r = dispatching) then mret r
      else transition i (settlement_state_value dispatching)
             [("provider_metadata"%string, VDict provider_metadata)]
  end.

Definition _queue_teardown (fulfillment_id : string) (prepared : VersionedEnvelope)
    (expected_state : option SettlementRecordState) (lifecycle_updates : dict)
    : F SettlementRecord :=
  f ← gets id;
  match get_by_fulfillment_id f fulfillment_id with
  | None => raise (LookupError fulfillment_id)
  | Some r =>
      if match expected_state with
         | Some s => negb (bool_decide (sr_state r = s))
         | None => false
         end
      then raise (FulfillmentConflictError "unexpected state") else
      let v := model_dump prepared in
      if negb (is_none (sr_prepared_teardown_operation r)) &&
         negb (py_eq (sr_prepared_teardown_operation r) v)
      then raise (FulfillmentConflictError "different prepared teardown operation")
      else transition (sr_reservation_id r)
             (settlement_state_value teardown_dispatch_pending)
             (("prepared_teardown_operation"%string, v) :: lifecycle_updates)
  end.

Definition begin_teardown (fulfillment_id : string) (prepared : VersionedEnvelope)
    : F SettlementRecord := _queue_teardown fulfillment_id prepared None [].

(** [tx.begin_compensating_teardown]. *)
Definition queue_compensating_teardown (fulfillment_id : string) (prepared : VersionedEnvelope)
    : F SettlementRecord :=
  _queue_teardown fulfillment_id prepared (Some failed)
    [("failure_reason"%string, VStr CREATE_COMPENSATION)].

Section fulfillment.
Context {Ext : Type} `{!SettlementTables Ext}.
Context (env : environment) (cfg : ledger_config Ext).
Context (providers : gmap string (FulfillmentProvider Ext)).
Context (read_config_for_execution : Ext → string → string → result dict).
Context (has_ledger : bool).

Abbreviation L := (M (world Ext)).

(** [ProviderRegistry.require]. *)
Definition require (provider : string) : result (FulfillmentProvider Ext) :=
  match providers !! provider with
  | Some p => Ok p
  | None => Err (ProviderNotFoundError provider)
  end.

(** ** The unit of work *)

(** A write-capable session: one commit, or a rollback and the exception. *)
Definition transaction {A} (m : L A) : L A := in_session (a ← m; commit_session;; mret a).
(** A session that is always rolled back. *)
Definition read_transaction {A} (m : L A) : L A := in_session m.

Definition settled : L FDB := d ← db; mret (settlement (ext d)).

(** [ResourcePoolService.get_pool_for_execution]: the pool's row and its
    configuration with secrets resolved. *)
Definition get_pool (pool_id : string) : L (option (ResourcePool * dict)) :=
  d ← db;
  match pools d !! pool_id with
  | None => mret None
  | Some pool =>
      config ← lift (read_config_for_execution (ext d) (pool_provider pool) pool_id);
      mret (Some (pool, config))
  end.

(** ** The transaction's ledger write *)

(** Best effort: an exception is logged and swallowed, and what was written
    before it stays in the session. *)
Definition attach_executor_job (i job_id : string) : L unit :=
  if has_ledger
  then catch (record_create_handle_in_session cfg i job_id;; mret tt) (λ _, mret tt)
  else mret tt.

(** ** The orchestrator *)

Definition _resource (record : SettlementRecord) : SettlementResource :=
  {| sres_offering_mode := rq_offering_mode (sr_requirements record);
     sres_settlement_resource_id := sr_settlement_resource_id record;
     sres_pool_id := sr_pool_id record;
     sres_resource_kind := rq_resource_kind (sr_requirements record);
     sres_provider := sr_provider record;
     sres_attributes := sr_resource_attributes record;
     sres_host_id := sr_resource_host_id record;
     sres_dimensions := rq_dimensions (sr_requirements record) |}.

Definition _view (record : SettlementRecord) : FulfillmentAcceptance :=
  {| fa_fulfillment_id := sr_fulfillment_id record;
     fa_capacity_reservation_id := sr_reservation_id record;
     fa_state := sr_state record |}.

Definition _require_pool_delivers_mode (record : SettlementRecord) : L (ResourcePool * dict) :=
  found ← get_pool (sr_pool_id record);
  match found with
  | None => raise (LookupError (sr_pool_id record))
  | Some (pool, config) =>
      let mode := rq_offering_mode (sr_requirements record) in
      if bool_decide (mode = ""%string)
      then raise (FulfillmentConflictError "no explicit offering_mode") else
      delivers ← lift (pool_delivers_offering_mode (pool_policy_tags pool) mode);
      if (delivers : bool) then mret (pool, config)
      else raise (FulfillmentConflictError "does not declare offering mode")
  end.

(** A provider's call in the session, on the composition's own tables.  The
    settlement tables are not among what an adapter may write. *)
Definition in_session_call {A} (call : Ext → result A * Ext) : L A := λ w,
  let '(r, x) := call (ext (working w)) in (r, with_working (set_ext x) w).

Definition _prepare_fulfillment (i market : string) (request : VersionedEnvelope)
    (record : option SettlementRecord) (acquire : bool) : L (PreparedFulfillment Ext) :=
  f ← settled;
  match (match record with Some r => Some r | None => get f i end) with
  | None => raise (LookupError i)
  | Some record =>
      if negb (bool_decide (sr_market record = market)) then raise (ValueError "market") else
      '(_, config) ← _require_pool_delivers_mode record;
      provider ← lift (require (sr_provider record));
      prepared ← in_session_call (prepare_create provider i request (_resource record) config acquire);
      mret {| pf_provider := provider; pf_prepared := prepared |}
  end.

(** The issue an invalid request is reported with, or none. *)
Definition validate_fulfillment (i market : string) (request : VersionedEnvelope)
    : L (option py_error) :=
  catch (read_transaction (_prepare_fulfillment i market request None false);; mret None)
    (λ e, mret (Some e)).

(** The transaction of [begin_fulfillment] before dispatch: the view to
    return, and what to dispatch, if anything. *)
Definition accept_and_prepare (i market : string) (request : VersionedEnvelope) (new_id : string)
    : L (FulfillmentAcceptance * option (PreparedFulfillment Ext)) :=
  decision ← in_ext (accept i market request new_id);
  let record := fad_record decision in
  if negb (dispatch_required decision) then mret (_view record, None) else
  provider ← lift (require (sr_provider record));
  plan ← (if truthy (sr_prepared_create_operation record) then
            _require_pool_delivers_mode record;;
            prepared ← lift (model_validate (sr_prepared_create_operation record));
            mret {| pf_provider := provider; pf_prepared := prepared |}
          else
            preparation ← _prepare_fulfillment i market request (Some record) true;
            in_ext (persist_prepared_create i (pf_prepared preparation));;
            mret preparation);
  mret (_view record, Some plan).

(** The transaction after a dispatch. *)
Definition acknowledge (i : string) (provider : FulfillmentProvider Ext) (metadata : dict)
    : L FulfillmentAcceptance :=
  record ← in_ext (acknowledge_create i metadata);
  job ← lift (resolve_executor_job_id provider metadata);
  match str_truthy job with
  | Some job_id => attach_executor_job i job_id
  | None => mret tt
  end;;
  mret (_view record).

(** [except FulfillmentCreateFailedError]: no metadata. *)
Definition dispatched (plan : PreparedFulfillment Ext) : L (option dict) :=
  catch (metadata ← dispatch_create (pf_provider plan) (pf_prepared plan); mret (Some metadata))
    (λ e, match e with FulfillmentCreateFailedError _ => mret None | _ => raise e end).

Definition begin_fulfillment (i market : string) (request : VersionedEnvelope) (new_id : string)
    : L FulfillmentAcceptance :=
  '(accepted, plan) ← transaction (accept_and_prepare i market request new_id);
  match plan with
  | None => mret accepted
  | Some plan =>
      outcome ← dispatched plan;
      match outcome with
      | None => mret {| fa_fulfillment_id := fa_fulfillment_id accepted;
                        fa_capacity_reservation_id := fa_capacity_reservation_id accepted;
                        fa_state := dispatch_pending |}
      | Some metadata => transaction (acknowledge i (pf_provider plan) metadata)
      end
  end.

(** ** Teardown *)

Definition descriptor (p : ProvisionedResource) : ProvisionedResourceDescriptor :=
  {| prd_provisioned_resource_id := pr_id p; prd_status := pr_status p |}.

Definition _settlement_result (record : SettlementRecord) : L SettlementResult :=
  f ← settled;
  metadata ← lift (metadata_dict (sr_provider_metadata record));
  mret {| sres_capacity_reservation_id := sr_reservation_id record;
          sres_fulfillment_id := sr_fulfillment_id record;
          sres_resource := _resource record;
          sres_provisioned_resources :=
            descriptor <$> list_provisioned_resources f (sr_reservation_id record);
          sres_provider_metadata := metadata |}.

Definition _prepared_teardown (record : SettlementRecord) : L VersionedEnvelope :=
  if truthy (sr_prepared_teardown_operation record)
  then lift (model_validate (sr_prepared_teardown_operation record))
  else
    found ← get_pool (sr_pool_id record);
    match found with
    | None => raise (LookupError (sr_pool_id record))
    | Some (_, config) =>
        provider ← lift (require (sr_provider record));
        result_ ← _settlement_result record;
        lift (prepare_teardown provider result_ config)
    end.

Definition begin_fulfillment_teardown (fulfillment_id : string) : L FulfillmentAcceptance :=
  transaction (
    f ← settled;
    match get_by_fulfillment_id f fulfillment_id with
    | None => raise (SettlementEntityNotFoundError "no fulfillment")
    | Some record =>
        if bool_decide (sr_state record ∈ _TEARDOWN_INITIATED_STATES) then mret (_view record)
        else if negb (bool_decide (sr_state record = active))
        then raise (FulfillmentConflictError "only an active fulfillment can begin teardown")
        else
          prepared ← _prepared_teardown record;
          updated ← in_ext (begin_teardown fulfillment_id prepared);
          mret (_view updated)
    end).

(** [authorize] judges a deep copy, so it can write nothing. *)
Definition begin_compensating_teardown (fulfillment_id : string)
    (authorize : CompensationCandidate → bool) : L FulfillmentAcceptance :=
  transaction (
    f ← settled;
    match get_by_fulfillment_id f fulfillment_id with
    | None => raise (SettlementEntityNotFoundError "no fulfillment")
    | Some record =>
        if bool_decide (sr_state record ∈ _TEARDOWN_INITIATED_STATES) then mret (_view record)
        else if negb (bool_decide (sr_state record = failed))
        then raise (FulfillmentConflictError "only a failed fulfillment can begin a compensating teardown")
        else
          metadata ← lift (metadata_dict (sr_provider_metadata record));
          if negb (authorize {| cc_state := sr_state record;
                                cc_failure_reason := sr_failure_reason record;
                                cc_provider_metadata := metadata |})
          then raise (CompensationRefusedError "not authorized") else
          prepared ← catch (_prepared_teardown record) (λ e,
            match e with
            | ProviderConfigInvalidError what => raise (CompensationRefusedError what)
            | _ => raise e
            end);
          updated ← in_ext (queue_compensating_teardown fulfillment_id prepared);
          mret (_view updated)
    end).

(** ** Reads *)

Definition get_fulfillment_status (fulfillment_id : string) : L FulfillmentStatus :=
  read_transaction (
    f ← settled;
    match get_by_fulfillment_id f fulfillment_id with
    | None => raise (SettlementEntityNotFoundError "no fulfillment")
    | Some r => mret {| fs_fulfillment_id := sr_fulfillment_id r;
                        fs_capacity_reservation_id := sr_reservation_id r;
                        fs_state := sr_state r;
                        fs_failure_reason := sr_failure_reason r;
                        fs_failure_message := sr_failure_message r |}
    end).

(** What the read transaction of [get_fulfillment_result] takes from the row:
    the row itself, the outputs and the metadata. *)
Definition read_result (fulfillment_id : string)
    : L (SettlementRecord * list ProvisionedResourceDescriptor * dict) :=
  read_transaction (
    f ← settled;
    match get_by_fulfillment_id f fulfillment_id with
    | None => raise (SettlementEntityNotFoundError "no fulfillment")
    | Some r =>
        let outputs :=
          if bool_decide (sr_state r = active)
          then descriptor <$> list_provisioned_resources f (sr_reservation_id r) else [] in
        metadata ← lift (metadata_dict (sr_provider_metadata r));
        mret (r, outputs, metadata)
    end).

(** Any failure of the fetch is reported as a failed credential fetch. *)
Definition fetched (provider : FulfillmentProvider Ext) (metadata : dict)
    (outputs : list ProvisionedResourceDescriptor) : L VersionedEnvelope :=
  catch (fetch_credentials provider metadata outputs) (λ e,
    match e with
    | CredentialFetchFailedError _ => raise e
    | _ => raise (CredentialFetchFailedError "the provider could not produce its result")
    end).

Definition get_fulfillment_result (fulfillment_id : string) : L FulfillmentResultPayload :=
  '(r, outputs, metadata) ← read_result fulfillment_id;
  domain ← (if bool_decide (sr_state r = active) then
              provider ← lift (require (sr_provider r));
              result_ ← fetched provider metadata outputs;
              mret (Some result_)
            else mret None);
  mret {| frp_fulfillment_id := sr_fulfillment_id r;
          frp_capacity_reservation_id := sr_reservation_id r;
          frp_state := sr_state r;
          frp_failure_reason := sr_failure_reason r;
          frp_failure_message := sr_failure_message r;
          frp_provisioned_resources := outputs;
          frp_domain_result := domain |}.
End fulfillment.
