(* ===== verification/FulfillmentFacts.v ===== *)
(** What each step of fulfillment does to the two databases, and the rules for
    running an orchestrator transaction. *)
From S2P Require Import Prelude PyNum PyValue PyTime PoolDeclarations LedgerTypes.
From S2P Require Import LedgerMatching.
From S2P Require Import Ledger LedgerLifecycle LedgerSpec LedgerTrack.
From S2P Require Import LedgerRefinement LedgerCapacity.
From S2P Require Import Settlement SettlementFacts Sessions Scheduler.
From S2P Require Import Fulfillment.
From stdpp Require Import relations.

Local Open Scope Z_scope.

(** ** Operations on the settlement tables *)

Section moving.
Context {extra : relation SettlementRecord} `{!RowDiscipline extra}.

Lemma moves_bind {A B} (m : F A) (k : A → F B) :
  moves_with extra m → (∀ a, moves_with extra (k a)) → moves_with extra (m ≫= k).
Proof.
  intros Hm Hk d Hd. apply wp_bind. eapply wp_mono; [by apply Hm|]. intros [a|e] d1 H1; [|done].
  eapply wp_mono; [apply Hk; by eapply fsteps_wf|]. intros r d2 H2. by etrans.
Qed.

Lemma moves_same {A} (m : F A) : (∀ d, (m d).2 = d) → moves_with extra m.
Proof. intros Hm d _. unfold wp. rewrite Hm. apply rtc_refl. Qed.

Lemma moves_for_each {A} (l : list A) (body : A → F unit) :
  (∀ x, moves_with extra (body x)) → moves_with extra (for_each l body).
Proof. intros Hb. induction l as [|x l IH]; simpl; [by apply moves_same|]. by apply moves_bind. Qed.
End moving.

Ltac moving known :=
  repeat first
    [ progress cbv zeta | known
    | apply moves_bind; [|intros]
    | match goal with |- moves_with _ (match ?x with _ => _ end) => destruct x end
    | by apply moves_same ].

Section operations.
Context {extra : relation SettlementRecord} `{!RowDiscipline extra}.

Lemma moves_accept_decision i market request new_id :
  moves_with extra (Fulfillment.accept i market request new_id).
Proof. unfold Fulfillment.accept. moving ltac:(apply moves_accept). Qed.

Lemma moves_persist i prepared : moves_with extra (persist_prepared_create i prepared).
Proof.
  intros d Hwf. unfold persist_prepared_create. do 2 wp_step. simpl.
  destruct (get d i) as [r|] eqn:Hget; [|wp_step; apply rtc_refl].
  destruct (find_by_Some _ _ _ _ Hget) as [_ Hid].
  wp_step; [wp_step; apply rtc_refl|]. do 2 wp_step. wp_step.
  apply rtc_once, (fstep_kept _ r); [done|by rewrite Hid| |done].
  apply record_step_same; try done. by left.
Qed.

Lemma moves_acknowledge_create i metadata : moves_with extra (acknowledge_create i metadata).
Proof.
  unfold acknowledge_create. moving ltac:(apply moves_transition_kept; set_solver).
Qed.

Lemma moves_begin_teardown f prepared : moves_with extra (begin_teardown f prepared).
Proof.
  unfold begin_teardown, _queue_teardown. moving ltac:(apply moves_transition_kept; set_solver).
Qed.
End operations.

(** A compensating teardown writes the marker, on a failed aggregate. *)
Lemma moves_compensate f prepared : moves_with marker (queue_compensating_teardown f prepared).
Proof.
  intros d Hwf. unfold queue_compensating_teardown, _queue_teardown. do 2 wp_step. simpl.
  destruct (get_by_fulfillment_id d f) as [r|] eqn:Hget; [|wp_step; apply rtc_refl].
  case_bool_decide as Hfail; simpl; [|wp_step; apply rtc_refl].
  wp_step; [wp_step; apply rtc_refl|]. apply wp_transition_moves; [done|].
  destruct (find_by_Some _ _ _ _ Hget) as [Hin _]. intros r' s Hr' _ Hs.
  unfold get in Hr'. rewrite (find_by_elem _ _ _ (fw_ids _ Hwf) Hin) in Hr'. injection Hr' as <-.
  assert (s = teardown_dispatch_pending) as -> by by destruct s.
  split; [by right|]. intros _ Ht. unfold in_teardown in Ht. rewrite Hfail in Ht. set_solver.
Qed.

(** ** What the rows are afterwards *)

Lemma get_saved d i r r' :
  get d i = Some r → sr_reservation_id r' = sr_reservation_id r →
  get (save_record r' d) (sr_reservation_id r) = Some r'.
Proof.
  intros Hget Hid. destruct (find_by_Some _ _ _ _ Hget) as [_ Hi]. rewrite <- Hid.
  apply (find_by_replace_eq sr_reservation_id r' _ r). by rewrite Hid, Hi.
Qed.

Lemma wp_accept_fulfillment_stored i market request new_id d :
  wp (accept_fulfillment i market request new_id)
    (λ r d', match r with
     | Ok record => get d' i = Some record ∧ sr_market record = market ∧
         is_Some (sr_fulfillment_id record)
     | Err _ => d' = d
     end) d.
Proof.
  unfold accept_fulfillment. do 2 wp_step. simpl.
  destruct (get d i) as [r|] eqn:Hget; [|by wp_step].
  destruct (find_by_Some _ _ _ _ Hget) as [_ Hid].
  wp_step; [by wp_step|]. apply negb_false_iff, bool_decide_eq_true in Heqb.
  destruct (sr_fulfillment_id r) as [f|] eqn:Hf.
  - wp_step; wp_step; [|done]. split_and!; [done..|by eexists].
  - do 2 wp_step. destruct (validate_transition _ _) as [s|e]; [|done]. do 3 wp_step. simpl.
    split_and!; [|done|by eexists]. rewrite <- Hid. by eapply get_saved.
Qed.

Lemma wp_accept_stored i market request new_id d :
  wp (Fulfillment.accept i market request new_id)
    (λ r d', match r with
     | Ok decision => get d' i = Some (fad_record decision) ∧
         sr_market (fad_record decision) = market ∧
         is_Some (sr_fulfillment_id (fad_record decision)) ∧
         (dispatch_required decision = true → sr_state (fad_record decision) = dispatch_pending)
     | Err _ => True
     end) d.
Proof.
  unfold Fulfillment.accept. do 2 wp_step. simpl. wp_step.
  eapply wp_mono; [apply wp_accept_fulfillment_stored|]. intros [r|e] d' H; [|done].
  destruct H as (? & ? & ?). do 2 wp_step. destruct (metadata_dict _); [|done]. wp_step. simpl.
  split_and!; [done..|]. intros [Hs _]%andb_true_iff. by apply bool_decide_eq_true in Hs.
Qed.

Lemma wp_persist_stored i prepared d r0 :
  get d i = Some r0 →
  wp (persist_prepared_create i prepared)
    (λ r d', match r with
     | Ok r => r = set_sr_prepared_create_operation (model_dump prepared) r0 ∧ get d' i = Some r
     | Err _ => True
     end) d.
Proof.
  intros Hget. unfold persist_prepared_create. do 2 wp_step. simpl. rewrite Hget.
  destruct (find_by_Some _ _ _ _ Hget) as [_ Hid]. wp_step; [by wp_step|]. do 3 wp_step.
  split; [done|]. rewrite <- Hid. by eapply get_saved.
Qed.

(** The aggregate a teardown is queued on. *)
Definition queued (prepared : VersionedEnvelope) (updates : dict) (r : SettlementRecord)
    : SettlementRecord :=
  fold_left set_lifecycle_field updates
    (set_sr_prepared_teardown_operation (model_dump prepared)
       (set_sr_state teardown_dispatch_pending r)).

Lemma wp_queue_teardown f prepared expected updates d r :
  fdb_wf d → get_by_fulfillment_id d f = Some r →
  teardown_dispatch_pending ∈ _ALLOWED_TRANSITIONS (sr_state r) →
  (∀ s, expected = Some s → sr_state r = s) →
  filter (λ k, k ∉ _LIFECYCLE_UPDATE_FIELDS) (fst <$> updates) = [] →
  wp (_queue_teardown f prepared expected updates)
    (λ x d', match x with
     | Ok r' => r' = queued prepared updates r ∧ d' = save_record r' d
     | Err e => d' = d ∧ ∃ what, e = FulfillmentConflictError what
     end) d.
Proof.
  intros Hwf Hget Hedge Hexp Hfields. unfold _queue_teardown. do 2 wp_step. simpl. rewrite Hget.
  assert (match expected with Some s => negb (bool_decide (sr_state r = s)) | None => false end
          = false) as ->.
  { destruct expected as [s|]; [|done]. by rewrite bool_decide_eq_true_2 by by apply Hexp. }
  wp_step; [wp_step; split; [done|by eexists]|]. unfold transition.
  assert (filter (λ k, k ∉ _LIFECYCLE_UPDATE_FIELDS)
    (("prepared_teardown_operation"%string, model_dump prepared).1 :: (fst <$> updates)) = []) as Hf.
  { by rewrite filter_cons_False by (intros H; apply H; set_solver). }
  rewrite fmap_cons. rewrite Hf. do 2 wp_step. simpl.
  destruct (find_by_Some _ _ _ _ Hget) as [Hin _].
  unfold get. rewrite (find_by_elem _ _ _ (fw_ids _ Hwf) Hin).
  assert (validate_transition (settlement_state_value (sr_state r))
    (settlement_state_value teardown_dispatch_pending) = Ok teardown_dispatch_pending) as Hv
    by by apply validate_transition_Ok.
  wp_step. rewrite bool_decide_eq_false_2.
  - change "teardown_dispatch_pending"%string with (settlement_state_value teardown_dispatch_pending).
    do 2 wp_step. rewrite Hv. wp_step. do 3 wp_step. done.
  - by destruct (sr_state r); set_solver.
Qed.

(** An envelope is read back as it was dumped. *)
Lemma model_validate_dump e : valid_envelope e = true → model_validate (model_dump e) = Ok e.
Proof. intros He. destruct e as [k n p]. unfold model_validate, model_dump. simpl in *. by rewrite He. Qed.

Section facts.
Context {Ext : Type} `{!SettlementTables Ext} (cfg : ledger_config Ext).
Context (providers : gmap string (FulfillmentProvider Ext)).
Context (read_config : Ext → string → string → result dict).
Context (has_ledger : bool).

Implicit Types (w : world Ext) (d : DB Ext).

(** What the kit asks of an adapter: preparing writes its own tables, never the
    settlement tables, and builds an envelope; and while an asynchronous call is awaited others commit
    only what the two specifications allow. *)
Record lawful (p : FulfillmentProvider Ext) : Prop := {
  law_prepare : ∀ i request resource config acquire x,
    settlement (prepare_create p i request resource config acquire x).2 = settlement x;
  law_envelope : ∀ i request resource config acquire x e,
    (prepare_create p i request resource config acquire x).1 = Ok e → valid_envelope e = true;
  law_create : ∀ prepared, advances cfg (dispatch_create p prepared);
  law_teardown : ∀ prepared, advances cfg (dispatch_teardown p prepared);
  law_status : ∀ i resource metadata, advances cfg (provider_status p i resource metadata);
  law_credentials : ∀ metadata outputs, advances cfg (fetch_credentials p metadata outputs);
}.

Definition lawful_registry : Prop := ∀ name p, providers !! name = Some p → lawful p.

(** ** Reads *)

Lemma reads_get_pool pool_id : reads_only (get_pool read_config pool_id : M (world Ext) _).
Proof. unfold get_pool. reading fail. Qed.

Lemma reads_require_mode record :
  reads_only (_require_pool_delivers_mode read_config record : M (world Ext) _).
Proof. unfold _require_pool_delivers_mode. reading ltac:(apply reads_get_pool). Qed.

Lemma reads_prepared_teardown record :
  reads_only (_prepared_teardown providers read_config record : M (world Ext) _).
Proof.
  unfold _prepared_teardown, _settlement_result, settled. reading ltac:(apply reads_get_pool).
Qed.

(** A captured teardown operation is the one that is queued. *)
Lemma wp_prepared_teardown_captured record w :
  wp (_prepared_teardown providers read_config record)
    (λ x _, ∀ prepared, x = Ok prepared → truthy (sr_prepared_teardown_operation record) = true →
       model_validate (sr_prepared_teardown_operation record) = Ok prepared) w.
Proof.
  unfold _prepared_teardown. destruct (truthy _) eqn:Ht; [l_step; by intros|].
  by apply wp_of_run.
Qed.

(** ** Writes in a session *)

Lemma sessional_record_create_handle i j :
  sessional (record_create_handle_in_session cfg i j).
Proof. unfold record_create_handle_in_session. session fail. Qed.

(** The job handle, whether or not the reservation's payload renders. *)
Lemma in_txn_record_create_handle i j :
  in_txn_always cfg (record_create_handle_in_session cfg i j).
Proof.
  intros w Hd Ha. apply wp_and; [apply sessional_record_create_handle|].
  unfold record_create_handle_in_session. do 2 l_step.
  destruct (get_reservation_row _ _) as [r|] eqn:Hget; [|by l_step]. l_step; [by l_step|].
  do 3 l_step. set (r' := match _ with Some _ => _ | None => _ end).
  assert (advance cfg (committed w) (update_reservation r' (working w))) as Ha'.
  { etrans; [exact Ha|]. destruct (find_by_Some _ _ _ _ Hget) as [_ Hid].
    assert (row_step r r' ∧ window_kept r r') as [??].
    { unfold r'. destruct (str_truthy (create_job_id r)) eqn:?; [|by apply create_handle_row_step].
      apply row_step_refl. by rewrite is_released_held, negb_false_iff in Heqb. }
    apply (advance_row _ _ r); [by rewrite Hid|done..]. }
  l_step. destruct (_reservation_payload cfg r'); [by l_step|done].
Qed.

Lemma in_txn_attach i j : in_txn cfg (attach_executor_job cfg has_ledger i j).
Proof.
  unfold attach_executor_job. destruct has_ledger; [|by apply in_txn_same].
  intros w Hd Ha. apply wp_catch, wp_bind.
  eapply wp_mono; [by apply in_txn_record_create_handle|]. intros [x|e] w' [??]; by l_step.
Qed.

Lemma in_txn_in_session_call {A} (call : Ext → result A * Ext) :
  (∀ x, settlement (call x).2 = settlement x) → in_txn cfg (in_session_call call).
Proof.
  intros Hcall w Hd Ha. unfold wp, in_session_call.
  specialize (Hcall (ext (working w))). destruct (call (ext (working w))) as [[a|e] x]; simpl in *;
    (split; [done|]); [|done].
  etrans; [exact Ha|]. apply advance_ext. by rewrite Hcall.
Qed.

Lemma require_lawful name p : lawful_registry → require providers name = Ok p → lawful p.
Proof.
  unfold require. destruct (providers !! name) eqn:E; [|done]. intros H [= <-]. by eapply H.
Qed.

Context (Hlaw : lawful_registry).

Lemma in_txn_prepare i market request record acquire :
  in_txn cfg (_prepare_fulfillment providers read_config i market request record acquire).
Proof.
  unfold _prepare_fulfillment, settled.
  keeping ltac:(first [ apply in_txn_of_reads, reads_require_mode
    | apply in_txn_lift_bind; intros p Hp; apply in_txn_bind; [|intros];
      [apply in_txn_in_session_call; intros; by eapply law_prepare, require_lawful|] ]).
Qed.

Lemma in_txn_accept_and_prepare i market request new_id :
  in_txn cfg (accept_and_prepare providers read_config i market request new_id).
Proof.
  unfold accept_and_prepare.
  keeping ltac:(first [ apply in_txn_prepare | apply in_txn_of_reads, reads_require_mode
    | apply in_txn_of_always, in_txn_in_ext;
      first [apply moves_accept_decision | apply moves_persist] ]).
Qed.

Lemma in_txn_acknowledge i p metadata :
  in_txn cfg (acknowledge cfg has_ledger i p metadata).
Proof.
  unfold acknowledge.
  keeping ltac:(first [ apply in_txn_attach
    | apply in_txn_of_always, in_txn_in_ext, moves_acknowledge_create ]).
Qed.

Lemma advances_dispatched plan : lawful (pf_provider plan) → advances cfg (dispatched plan).
Proof. intros Hp. unfold dispatched. advancing ltac:(apply (law_create _ Hp)). Qed.

(** A transaction's effect: its session's tables, or nothing. *)
Lemma wp_transaction {A} (m : M (world Ext) A) (P : result A → DB Ext → Prop) w :
  wp m (λ r w1, match r with Ok _ => P r (working w1) | Err _ => P r (committed w1) end)
    (begin_session w) →
  wp (transaction m) (λ r w', P r (committed w')) w.
Proof.
  unfold wp, transaction, in_session, mbind, M_bind.
  by destruct (m (begin_session w)) as [[a|e] w1].
Qed.

(** What is dispatched is dispatched by a registered adapter. *)
Lemma wp_prepared i market request record acquire w :
  wp (_prepare_fulfillment providers read_config i market request (Some record) acquire)
    (λ r w', match r with
     | Ok plan => settlement (ext (working w')) = settlement (ext (working w)) ∧
         valid_envelope (pf_prepared plan) = true ∧
         providers !! sr_provider record = Some (pf_provider plan)
     | Err _ => True
     end) w.
Proof.
  unfold _prepare_fulfillment, settled. do 4 l_step. l_step; [by l_step|]. l_step.
  eapply wp_mono; [apply reads_require_mode|]. intros [[pool config]|e] w2 [Hw _]; [|done].
  do 2 l_step. destruct (require _ _) as [p|e] eqn:Hp; [|done].
  assert (lawful p) as Hl by by eapply require_lawful.
  l_step. unfold in_session_call. unfold wp at 1.
  pose proof (law_prepare _ Hl i request (_resource record) config acquire (ext (working w2))) as Hs.
  pose proof (law_envelope _ Hl i request (_resource record) config acquire (ext (working w2))) as Hv.
  destruct (prepare_create _ _ _ _ _ _ _) as [[prepared|e] x]; [|done]. simpl in *. l_step. simpl.
  rewrite Hs, Hw. split_and!; [done|by apply Hv|].
  unfold require in Hp. destruct (providers !! _) eqn:E; [|done]. by injection Hp as <-.
Qed.

Lemma plan_lawful i market request new_id w :
  wp (accept_and_prepare providers read_config i market request new_id)
    (λ r _, match r with Ok (_, Some plan) => lawful (pf_provider plan) | _ => True end) w.
Proof.
  unfold accept_and_prepare. l_step. eapply wp_of_run. intros [decision|e] w1 _; [|done].
  l_step; [by l_step|]. do 2 l_step. destruct (require _ _) as [p|e] eqn:Hp; [|done].
  assert (lawful p) by by eapply require_lawful. l_step. l_step.
  - l_step. eapply wp_of_run. intros [x|e] w2 _; [|done]. do 2 l_step.
    destruct (model_validate _); [|done]. by do 2 l_step.
  - l_step. eapply wp_mono; [apply wp_prepared|]. intros [plan|e] w2 Hplan; [|done].
    destruct Hplan as (_ & _ & Hreg). l_step.
    eapply wp_of_run. intros [?|e] w3 _; [|done]. do 2 l_step. by eapply Hlaw.
Qed.
End facts.
