(* ===== verification/FulfillmentProperties.v ===== *)
(** The fulfillment orchestrator's contract: both databases' invariants under
    any sequence of calls, write-ahead acceptance, retries that reuse the
    captured operation, and the two teardown entrypoints. *)
From S2P Require Import Prelude PyNum PyValue PyTime PoolDeclarations LedgerTypes.
From S2P Require Import LedgerMatching Ledger.
From S2P Require Import LedgerLifecycle LedgerSpec LedgerTrack LedgerRefinement LedgerCapacity.
From S2P Require Import Settlement.
From S2P Require Import SettlementFacts Sessions Scheduler Fulfillment FulfillmentFacts.
From stdpp Require Import relations.


Local Open Scope Z_scope.

Section properties.
Context {Ext : Type} `{!SettlementTables Ext} (cfg : ledger_config Ext).
Context (providers : gmap string (FulfillmentProvider Ext)).
Context (read_config : Ext → string → string → result dict).
Context (has_ledger : bool).

Implicit Types (w : world Ext) (d : DB Ext).

(** ** Sequences of calls *)

Inductive fulfillment_call : Type :=
  | FcValidate (i market : string) (request : VersionedEnvelope)
  | FcBegin (i market : string) (request : VersionedEnvelope) (new_id : string)
  | FcTeardown (fulfillment_id : string)
  | FcCompensate (fulfillment_id : string) (authorize : CompensationCandidate → bool)
  | FcStatus (fulfillment_id : string)
  | FcResult (fulfillment_id : string).

Definition run_fulfillment (c : fulfillment_call) : M (world Ext) unit :=
  match c with
  | FcValidate i market request =>
      validate_fulfillment providers read_config i market request ≫= λ _, mret tt
  | FcBegin i market request new_id =>
      begin_fulfillment cfg providers read_config has_ledger i market request new_id
        ≫= λ _, mret tt
  | FcTeardown f => begin_fulfillment_teardown providers read_config f ≫= λ _, mret tt
  | FcCompensate f authorize =>
      begin_compensating_teardown providers read_config f authorize ≫= λ _, mret tt
  | FcStatus f => (get_fulfillment_status f : M (world Ext) _) ≫= λ _, mret tt
  | FcResult f => get_fulfillment_result providers f ≫= λ _, mret tt
  end.

Lemma advances_begin (Hlaw : lawful_registry cfg providers) i market request new_id :
  advances cfg (begin_fulfillment cfg providers read_config has_ledger i market request new_id).
Proof.
  intros w Hw. unfold begin_fulfillment. apply wp_bind.
  eapply wp_mono; [apply wp_and|].
  - apply (advances_transaction cfg); [|done].
    apply (in_txn_accept_and_prepare cfg providers read_config Hlaw i market request new_id).
  - apply (wp_transaction _ (λ r _, match r with Ok (_, Some plan) => lawful cfg (pf_provider plan)
                                         | _ => True end)).
    eapply wp_mono; [apply (plan_lawful cfg providers read_config Hlaw)|].
    by intros [[view [plan|]]|e] w1.
  - intros [[view [plan|]]|e] w1 [H1 Hplan]; [|by l_step|done].
    eapply wp_mono; [apply (advances_bind cfg)|intros r w2 H2; by etrans].
    + by apply advances_dispatched.
    + intros [metadata|]; [|by apply advances_same].
      apply advances_transaction, in_txn_acknowledge.
    + by eapply advance_good.
Qed.

Lemma sessional_prepare i market request record acquire :
  sessional (_prepare_fulfillment providers read_config i market request record acquire).
Proof.
  unfold _prepare_fulfillment, _require_pool_delivers_mode, get_pool, settled.
  session ltac:(intros w; unfold wp, in_session_call; by destruct (prepare_create _ _ _ _ _ _ _)).
Qed.

(** A read transaction commits nothing. *)
Lemma read_transaction_reads {A} (m : M (world Ext) A) w :
  sessional m → committed (read_transaction m w).2 = committed w.
Proof.
  intros Hm. unfold read_transaction, in_session. specialize (Hm (begin_session w)).
  unfold wp in Hm. by destruct (m (begin_session w)).
Qed.

Lemma advances_read {A} (m : M (world Ext) A) : sessional m → advances cfg (read_transaction m).
Proof. intros Hm. apply advances_same. intros w. by apply read_transaction_reads. Qed.

Lemma in_txn_teardown f :
  in_txn cfg (f' ← settled;
    match get_by_fulfillment_id f' f with
    | None => raise (SettlementEntityNotFoundError "no fulfillment")
    | Some record =>
        if bool_decide (sr_state record ∈ _TEARDOWN_INITIATED_STATES) then mret (_view record)
        else if negb (bool_decide (sr_state record = active))
        then raise (FulfillmentConflictError "only an active fulfillment can begin teardown")
        else
          prepared ← _prepared_teardown providers read_config record;
          updated ← in_ext (begin_teardown f prepared);
          mret (_view updated)
    end).
Proof.
  unfold settled.
  keeping ltac:(first [ apply in_txn_of_reads, reads_prepared_teardown
    | apply in_txn_of_always, in_txn_in_ext, moves_begin_teardown ]).
Qed.

Lemma advances_compensate f authorize :
  advances cfg (begin_compensating_teardown providers read_config f authorize).
Proof.
  apply advances_transaction. unfold settled.
  keeping ltac:(first
    [ apply in_txn_of_reads, reads_catch; [apply reads_prepared_teardown|];
      intros e; destruct e; by apply reads_same
    | apply in_txn_of_always, in_txn_in_ext, moves_compensate ]).
Qed.

Lemma advances_call (Hlaw : lawful_registry cfg providers) c : advances cfg (run_fulfillment c).
Proof.
  destruct c; simpl; (apply advances_bind; [|by intros; apply advances_same]).
  - unfold validate_fulfillment. advancing ltac:(apply advances_read, sessional_prepare).
  - by apply advances_begin.
  - apply advances_transaction, in_txn_teardown.
  - apply advances_compensate.
  - apply advances_read. unfold settled. session fail.
  - unfold get_fulfillment_result, fetched, read_result.
    advancing ltac:(first
      [ apply advances_read; unfold settled; session fail
      | apply advances_lift_bind; intros p Hp;
        apply (require_lawful cfg) in Hp; [|done]
      | by apply (law_credentials _ _ Hp) ]).
    all: destruct e; by apply advances_same.
Qed.

(** ** Acceptance *)

(** C5: nothing is dispatched that is not durable.  When the accepting
    transaction hands out an operation to dispatch, the committed aggregate is
    the accepted one: in state [dispatch_pending], for the caller's market, with
    a fulfillment identity, and its stored operation reads back as exactly the
    one handed out. *)
Theorem dispatch_is_durable i market request new_id w view plan w' :
  lawful_registry cfg providers →
  transaction (accept_and_prepare providers read_config i market request new_id) w =
    (Ok (view, Some plan), w') →
  ∃ r, get (settlement (ext (committed w'))) i = Some r ∧ view = _view r ∧
    sr_state r = dispatch_pending ∧ sr_market r = market ∧ is_Some (sr_fulfillment_id r) ∧
    model_validate (sr_prepared_create_operation r) = Ok (pf_prepared plan) ∧
    providers !! sr_provider r = Some (pf_provider plan).
Proof.
  intros Hlaw Hrun.
  set (stored := λ (x : result (FulfillmentAcceptance * option (PreparedFulfillment Ext))) d,
    match x with
    | Ok (view, Some plan) => ∃ r, get (settlement (ext d)) i = Some r ∧ view = _view r ∧
        sr_state r = dispatch_pending ∧ sr_market r = market ∧ is_Some (sr_fulfillment_id r) ∧
        model_validate (sr_prepared_create_operation r) = Ok (pf_prepared plan) ∧
        providers !! sr_provider r = Some (pf_provider plan)
    | _ => True
    end).
  refine (wp_run _ (λ x w', stored x (committed w')) w (Ok (view, Some plan)) w' _ Hrun).
  apply wp_transaction. unfold accept_and_prepare. apply wp_bind, wp_in_ext.
  eapply wp_mono; [apply wp_accept_stored|].
  intros [decision|e] f Hacc; [|done]. destruct Hacc as (Hget & Hm & Hf & Hs).
  set (r := fad_record decision) in *.
  l_step; [by l_step|]. apply negb_false_iff in Heqb. specialize (Hs Heqb).
  do 2 l_step. destruct (require _ _) as [p|e] eqn:Hp; [|done].
  assert (providers !! sr_provider r = Some p) as Hreg.
  { unfold require in Hp. destruct (providers !! _) eqn:E; [|done]. by injection Hp as <-. }
  l_step. l_step.
  - l_step. eapply wp_mono; [apply reads_require_mode|]. intros [x|e] w2 [Hw _]; [|done].
    do 2 l_step. destruct (model_validate _) as [prepared|] eqn:Hv; [|done]. do 2 l_step.
    exists r. rewrite Hw. simpl. by rewrite settlement_put.
  - l_step. eapply wp_mono; [apply (wp_prepared cfg providers read_config Hlaw)|].
    intros [plan'|e] w2 Hplan; [|done]. destruct Hplan as (Hset & Hvalid & Hreg').
    l_step. apply wp_in_ext. simpl in Hset. rewrite settlement_put in Hset. rewrite Hset.
    eapply wp_mono; [by apply (wp_persist_stored _ _ _ r)|]. intros [r'|e] f' H; [|done].
    destruct H as [-> Hget']. do 2 l_step. exists (set_sr_prepared_create_operation
      (model_dump (pf_prepared plan')) r). simpl. rewrite settlement_put.
    split_and!; try done. by apply model_validate_dump.
Qed.

(** ** Retries *)

(** A repeated acceptance only reads. *)
Lemma accept_again i market request new_id f r fid stored metadata :
  get f i = Some r → sr_market r = market → sr_fulfillment_id r = Some fid →
  sr_fulfillment_request r = Some stored → py_eq stored (model_dump request) = true →
  metadata_dict (sr_provider_metadata r) = Ok metadata →
  ∃ decision, Fulfillment.accept i market request new_id f = (Ok decision, f) ∧
    fad_record decision = r ∧
    dispatch_required decision =
      bool_decide (sr_state r = dispatch_pending) && bool_decide (metadata = []).
Proof.
  intros Hget Hm Hf Hs Heq Hmeta. unfold Fulfillment.accept, accept_fulfillment.
  unfold mbind, M_bind, gets, lift, mret, M_ret. simpl. rewrite Hget.
  rewrite bool_decide_eq_true_2 by done. simpl. rewrite Hf, Hs, Heq, Hmeta. by eexists.
Qed.

(** A retry dispatches the operation already captured, and nothing else.
    For an accepted aggregate asked for again with the same request, nothing is
    written.  Past [dispatch_pending], or once a provider acknowledged, there is
    nothing to dispatch.  Otherwise the captured operation is dispatched as it
    was captured (the adapter is not asked to prepare again), provided the pool
    still delivers the mode; where the operator has withdrawn it, the retry is a
    conflict. *)
Theorem retry_reuses_operation i market request new_id w r fid stored metadata :
  get (settlement (ext (committed w))) i = Some r → sr_market r = market →
  sr_fulfillment_id r = Some fid → sr_fulfillment_request r = Some stored →
  py_eq stored (model_dump request) = true →
  metadata_dict (sr_provider_metadata r) = Ok metadata →
  wp (transaction (accept_and_prepare providers read_config i market request new_id))
    (λ x w',
      (sr_state r ≠ dispatch_pending ∨ metadata ≠ [] →
       x = Ok (_view r, None) ∧ committed w' = committed w) ∧
      (∀ p prepared pool config delivers,
       sr_state r = dispatch_pending → metadata = [] →
       truthy (sr_prepared_create_operation r) = true →
       model_validate (sr_prepared_create_operation r) = Ok prepared →
       providers !! sr_provider r = Some p → pools (committed w) !! sr_pool_id r = Some pool →
       read_config (ext (committed w)) (pool_provider pool) (sr_pool_id r) = Ok config →
       rq_offering_mode (sr_requirements r) ≠ ""%string →
       pool_delivers_offering_mode (pool_policy_tags pool) (rq_offering_mode (sr_requirements r))
         = Ok delivers →
       committed w' = committed w ∧
       if delivers then x = Ok (_view r, Some {| pf_provider := p; pf_prepared := prepared |})
       else ∃ what, x = Err (FulfillmentConflictError what))) w.
Proof.
  intros Hget Hm Hf Hs Heq Hmeta.
  destruct (accept_again i market request new_id _ r fid stored metadata Hget Hm Hf Hs Heq Hmeta)
    as (decision & Hacc & Hr & Hreq).
  unfold transaction, in_session, accept_and_prepare, in_ext, wp, mbind, M_bind, mret, M_ret.
  simpl. rewrite Hacc. simpl. rewrite Hreq, Hr, put_settlement_same.
  unfold with_working. simpl. rewrite set_ext_same. split.
  - intros Hnone. assert (bool_decide (sr_state r = dispatch_pending) && bool_decide (metadata = [])
      = false) as ->; [|done].
    destruct Hnone; [by rewrite bool_decide_eq_false_2|].
    by rewrite (bool_decide_eq_false_2 (metadata = [])), andb_false_r.
  - intros p prepared pool config delivers -> -> Ht Hv Hp Hpool Hconf Hmode Hd. simpl.
    unfold require. rewrite Hp, Ht. simpl.
    unfold _require_pool_delivers_mode, get_pool, mbind, M_bind, db, gets, lift, mret, M_ret. simpl.
    rewrite Hpool. simpl. rewrite Hconf. simpl. rewrite bool_decide_eq_false_2 by done.
    rewrite Hd. destruct delivers; [|by split; [|eexists]]. simpl. by rewrite Hv.
Qed.

(** ** Validation *)

Definition is_ok {A} (x : result A) : bool := match x with Ok _ => true | Err _ => false end.

(** An adapter that checks alike with and without acquiring, and that does not
    look at the settlement tables. *)
Definition checks_alike (p : FulfillmentProvider Ext) : Prop :=
  ∀ i request resource config x f,
    is_ok (prepare_create p i request resource config true (put_settlement f x)).1 =
    is_ok (prepare_create p i request resource config false x).1.

(** The verdict both paths reach on an assigned aggregate. *)
Definition would_accept (i market : string) (request : VersionedEnvelope) d r : bool :=
  bool_decide (sr_market r = market) &&
  match pools d !! sr_pool_id r, providers !! sr_provider r with
  | Some pool, Some p =>
      match read_config (ext d) (pool_provider pool) (sr_pool_id r),
            pool_delivers_offering_mode (pool_policy_tags pool)
              (rq_offering_mode (sr_requirements r)) with
      | Ok config, Ok true =>
          negb (bool_decide (rq_offering_mode (sr_requirements r) = ""%string)) &&
          is_ok (prepare_create p i request (_resource r) config false (ext d)).1
      | _, _ => false
      end
  | _, _ => false
  end.

Lemma validate_verdict i market request w r :
  get (settlement (ext (committed w))) i = Some r →
  wp (validate_fulfillment providers read_config i market request)
    (λ x w', committed w' = committed w ∧ ∃ verdict, x = Ok verdict ∧
       (verdict = None ↔ would_accept i market request (committed w) r = true)) w.
Proof.
  intros Hget. unfold validate_fulfillment, would_accept.
  unfold wp, catch, read_transaction, in_session, _prepare_fulfillment, _require_pool_delivers_mode,
    get_pool, settled, require, in_session_call, mbind, M_bind, db, gets, lift, mret, M_ret.
  simpl. rewrite Hget. case_bool_decide as Hm; simpl; [|split; [done|]; eexists; naive_solver].
  destruct (pools (committed w) !! sr_pool_id r) as [pool|]; simpl;
    [|split; [done|]; eexists; naive_solver].
  destruct (read_config _ _ _) as [config|]; simpl;
    [|split; [done|]; eexists; destruct (providers !! _); naive_solver].
  case_bool_decide as Hmode; simpl.
  { split; [done|]. eexists. split; [done|]. destruct (providers !! _); [|naive_solver].
    destruct (pool_delivers_offering_mode _ _) as [[]|]; naive_solver. }
  destruct (pool_delivers_offering_mode _ _) as [[]|]; simpl;
    [|split; [done|]; eexists; destruct (providers !! _); naive_solver..].
  destruct (providers !! _) as [p|]; simpl; [|split; [done|]; eexists; naive_solver].
  destruct (prepare_create _ _ _ _ _ _ _) as [[prepared|e] x]; simpl;
    (split; [done|]); eexists; naive_solver.
Qed.

(** Validation predicts acceptance.  On a scheduled aggregate that no
    fulfillment was accepted for, validation answers without committing
    anything and never raises; it finds no issue exactly when accepting the
    same request would succeed and hand out an operation to dispatch. *)
Theorem validation_predicts_acceptance i market request new_id w r :
  lawful_registry cfg providers → (∀ name p, providers !! name = Some p → checks_alike p) →
  (∀ f x, read_config (put_settlement f x) = read_config x) →
  get (settlement (ext (committed w))) i = Some r → sr_state r = assigned →
  sr_fulfillment_id r = None → sr_provider_metadata r = VDict [] →
  sr_prepared_create_operation r = VNone →
  wp (validate_fulfillment providers read_config i market request)
    (λ x w', committed w' = committed w ∧ ∃ verdict, x = Ok verdict ∧
       (verdict = None ↔ ∃ view plan,
          (transaction (accept_and_prepare providers read_config i market request new_id) w).1 =
            Ok (view, Some plan))) w.
Proof.
  intros Hlaw Hlike Hconf Hget Hs Hf Hmeta Hop.
  eapply wp_mono; [by apply (validate_verdict _ _ _ _ r)|].
  intros x w' [Hc (verdict & -> & Hv)]. split; [done|]. exists verdict. split; [done|]. rewrite Hv.
  clear w' Hc verdict Hv. destruct (find_by_Some _ _ _ _ Hget) as [_ Hid].
  unfold transaction, in_session, accept_and_prepare, in_ext, Fulfillment.accept, accept_fulfillment,
    _prepare_fulfillment, _require_pool_delivers_mode, get_pool, settled, require, in_session_call,
    persist_prepared_create, would_accept, mbind, M_bind, db, gets, lift, modify, mret, M_ret.
  simpl. rewrite Hget. case_bool_decide as Hm; simpl; [|naive_solver].
  rewrite Hf, Hs. simpl. rewrite Hmeta. simpl. rewrite Hop. simpl.
  destruct (providers !! sr_provider r) as [p|] eqn:Hp; simpl.
  2: { destruct (pools (committed w) !! sr_pool_id r); naive_solver. }
  rewrite (bool_decide_eq_true_2 (sr_market r = market)) by done. simpl.
  destruct (pools (committed w) !! sr_pool_id r) as [pool|]; simpl; [|naive_solver].
  rewrite Hconf. destruct (read_config _ _ _) as [config|]; simpl; [|naive_solver].
  case_bool_decide as Hmode; simpl.
  { destruct (pool_delivers_offering_mode _ _) as [[]|]; naive_solver. }
  destruct (pool_delivers_offering_mode _ _) as [[]|]; simpl; [|naive_solver..].
  set (f' := save_record _ _).
  pose proof (Hlike _ _ Hp i request (_resource r) config (ext (committed w)) f') as Hsame.
  pose proof (law_prepare _ _ (Hlaw _ _ Hp) i request (_resource r) config true
    (put_settlement f' (ext (committed w)))) as Hset.
  unfold _resource in *. simpl in *.
  destruct (prepare_create p i request _ config true _) as [[prepared|e] x]; simpl in *;
    rewrite <- Hsame; [|naive_solver].
  rewrite Hset, settlement_put.
  assert (get f' i = Some (set_sr_state dispatch_pending
    (set_sr_fulfillment_request (Some (model_dump request))
       (set_sr_fulfillment_id (Some new_id) r)))) as Hget'.
  { rewrite <- Hid. by eapply get_saved. }
  rewrite Hget'. simpl. rewrite Hop. simpl. split; [|done]. by do 2 eexists.
Qed.

(** ** Teardown *)

(** The tables with one aggregate replaced. *)
Definition with_record (r' : SettlementRecord) d : DB Ext :=
  set_ext (put_settlement (save_record r' (settlement (ext d))) (ext d)) d.

Lemma wp_queued f prepared expected updates r d w (P : result FulfillmentAcceptance → DB Ext → Prop) :
  fdb_wf (settlement (ext d)) → get_by_fulfillment_id (settlement (ext d)) f = Some r →
  teardown_dispatch_pending ∈ _ALLOWED_TRANSITIONS (sr_state r) →
  (∀ s, expected = Some s → sr_state r = s) →
  filter (λ k, k ∉ _LIFECYCLE_UPDATE_FIELDS) (fst <$> updates) = [] →
  working w = d → committed w = d →
  P (Ok (_view (queued prepared updates r))) (with_record (queued prepared updates r) d) →
  (∀ what, P (Err (FulfillmentConflictError what)) d) →
  wp (updated ← in_ext (_queue_teardown f prepared expected updates); mret (_view updated))
    (λ x w1, match x with Ok _ => P x (working w1) | Err _ => P x (committed w1) end) w.
Proof.
  intros Hwf Hget Hedge Hexp Hfields Hw Hc Hok Herr. apply wp_bind, wp_in_ext. rewrite Hw.
  eapply wp_mono; [by apply (wp_queue_teardown _ _ _ _ _ r)|].
  intros [r'|e] f'; simpl.
  - intros [-> ->]. by l_step; simpl; rewrite Hw.
  - intros [-> [what ->]]. by rewrite Hc.
Qed.

(** What an ordinary teardown call answers for the aggregate [r] of tables [d],
    and the tables it commits. *)
Definition teardown_outcome d r (x : result FulfillmentAcceptance) d' : Prop :=
  match x with
  | Ok view =>
      (sr_state r ∈ _TEARDOWN_INITIATED_STATES ∧ view = _view r ∧ d' = d) ∨
      (sr_state r = active ∧ ∃ prepared,
         view = _view (queued prepared [] r) ∧ d' = with_record (queued prepared [] r) d ∧
         (truthy (sr_prepared_teardown_operation r) = true →
          model_validate (sr_prepared_teardown_operation r) = Ok prepared))
  | Err e =>
      d' = d ∧ sr_state r ∉ _TEARDOWN_INITIATED_STATES ∧
      (sr_state r ≠ active → ∃ what, e = FulfillmentConflictError what)
  end.

(** An ordinary teardown begins only from [active], and once.  An aggregate
    whose teardown has begun is returned as it is and nothing is written; an
    active one moves to [teardown_dispatch_pending] carrying one teardown
    operation, the captured one when there is one, and no other row or table
    changes; any other state is a conflict.  A failure commits nothing. *)
Theorem begin_teardown_contract f w r :
  fdb_wf (settlement (ext (committed w))) →
  get_by_fulfillment_id (settlement (ext (committed w))) f = Some r →
  wp (begin_fulfillment_teardown providers read_config f)
    (λ x w', teardown_outcome (committed w) r x (committed w')) w.
Proof.
  intros Hwf Hget. apply wp_transaction.
  unfold settled. do 4 l_step. simpl. rewrite Hget.
  case_bool_decide as Hin; [l_step; by left|].
  case_bool_decide as Hact; simpl; [|l_step; split_and!; [done..|by eexists]].
  l_step. eapply wp_mono; [apply wp_and; [apply reads_prepared_teardown|
    apply (wp_prepared_teardown_captured providers read_config)]|].
  intros [prepared|e] w1 [[Hw1 Hc1] Hcap]; [|by rewrite Hc1].
  apply (wp_queued _ _ _ _ r (committed w) _ (teardown_outcome (committed w) r)); try done;
    [rewrite Hact; set_solver|].
  right. split; [done|]. exists prepared. split_and!; [done..|]. by apply Hcap.
Qed.

(** The candidate [authorize] judges. *)
Definition candidate r (metadata : dict) : CompensationCandidate :=
  {| cc_state := sr_state r; cc_failure_reason := sr_failure_reason r;
     cc_provider_metadata := metadata |}.

(** The same for a compensating teardown. *)
Definition compensation_outcome (authorize : CompensationCandidate → bool) d r
    (x : result FulfillmentAcceptance) d' : Prop :=
  match x with
  | Ok view =>
      (sr_state r ∈ _TEARDOWN_INITIATED_STATES ∧ view = _view r ∧ d' = d) ∨
      (sr_state r = failed ∧
       (∃ metadata, metadata_dict (sr_provider_metadata r) = Ok metadata ∧
          authorize (candidate r metadata) = true) ∧
       ∃ r', view = _view r' ∧ d' = with_record r' d ∧
         sr_state r' = teardown_dispatch_pending ∧
         (∃ prepared, sr_prepared_teardown_operation r' = model_dump prepared) ∧
         sr_failure_reason r' = VStr CREATE_COMPENSATION ∧
         sr_failure_message r' = sr_failure_message r ∧
         sr_provider_metadata r' = sr_provider_metadata r)
  | Err e =>
      d' = d ∧ sr_state r ∉ _TEARDOWN_INITIATED_STATES ∧
      (sr_state r ≠ failed → ∃ what, e = FulfillmentConflictError what) ∧
      (∀ metadata, sr_state r = failed → metadata_dict (sr_provider_metadata r) = Ok metadata →
         authorize (candidate r metadata) = false → ∃ what, e = CompensationRefusedError what)
  end.

(** A compensating teardown begins only from [failed], and only where its
    caller authorizes it on the aggregate as the transaction reads it.  It then
    queues the teardown with the reason [create_compensation], keeping the
    create's own failure message and metadata; a repeated call adopts the
    first; a refusal, whatever refuses, commits nothing. *)
Theorem compensating_teardown_contract f authorize w r :
  fdb_wf (settlement (ext (committed w))) →
  get_by_fulfillment_id (settlement (ext (committed w))) f = Some r →
  wp (begin_compensating_teardown providers read_config f authorize)
    (λ x w', compensation_outcome authorize (committed w) r x (committed w')) w.
Proof.
  intros Hwf Hget. apply wp_transaction.
  unfold settled. do 4 l_step. simpl. rewrite Hget.
  case_bool_decide as Hin; [l_step; by left|].
  case_bool_decide as Hfail; simpl;
    [|l_step; split_and!; [done..|by eexists|by intros]].
  do 2 l_step. destruct (metadata_dict _) as [metadata|] eqn:Hmeta;
    [|split_and!; [done..|intros metadata' _ Hm; by rewrite Hmeta in Hm]].
  fold (candidate r metadata).
  destruct (authorize (candidate r metadata)) eqn:Hauth; simpl;
    [|l_step; split_and!; [done..|by eexists]].
  l_step. eapply wp_mono; [apply reads_catch; [apply reads_prepared_teardown|]|].
  { intros e. destruct e; by apply reads_same. }
  intros [prepared|e] w1 [Hw1 Hc1].
  - apply (wp_queued _ _ _ _ r (committed w) _ (compensation_outcome authorize (committed w) r));
      try done; [rewrite Hfail; set_solver|by intros ? [= <-]| |].
    + right. split; [done|]. split; [exists metadata; by split|]. eexists. split_and!; try done.
      by exists prepared.
    + intros what. split_and!; [done..|]. intros metadata' _ Hm. rewrite Hmeta in Hm.
      injection Hm as <-. by rewrite Hauth.
  - rewrite Hc1. split_and!; [done..|]. intros metadata' _ Hm. rewrite Hmeta in Hm.
    injection Hm as <-. by rewrite Hauth.
Qed.

(** ** Results *)

(** The projection of the aggregate [r] of tables [d]; what is committed while
    the adapter is awaited is not the read's. *)
Definition result_projection d r (x : result FulfillmentResultPayload) d' : Prop :=
  match x with
  | Ok p =>
      frp_fulfillment_id p = sr_fulfillment_id r ∧
      frp_capacity_reservation_id p = sr_reservation_id r ∧ frp_state p = sr_state r ∧
      frp_failure_reason p = sr_failure_reason r ∧
      frp_failure_message p = sr_failure_message r ∧
      if bool_decide (sr_state r = active) then
        frp_provisioned_resources p = descriptor <$>
          list_provisioned_resources (settlement (ext d)) (sr_reservation_id r) ∧
        is_Some (frp_domain_result p)
      else frp_provisioned_resources p = [] ∧ frp_domain_result p = None ∧ d' = d
  | Err e => sr_state r = active ∧
      (e = ProviderNotFoundError (sr_provider r) ∧ providers !! sr_provider r = None ∨
       ∃ what, e = CredentialFetchFailedError what)
  end.

(** A result discloses outputs and credentials only while active.  It
    projects the aggregate's identity, state and failure; in any state but
    [active] it has no outputs and no domain result, and asks no adapter; when
    active it has the recorded outputs and the adapter's envelope.  It fails
    only when active, and then as an unregistered provider or a credential
    fetch failure, whatever the adapter raised. *)
Theorem result_discloses_only_active f w r metadata :
  get_by_fulfillment_id (settlement (ext (committed w))) f = Some r →
  metadata_dict (sr_provider_metadata r) = Ok metadata →
  wp (get_fulfillment_result providers f)
    (λ x w', result_projection (committed w) r x (committed w')) w.
Proof.
  intros Hget Hmeta.
  assert (read_result f w = (Ok (r, if bool_decide (sr_state r = active)
      then descriptor <$> list_provisioned_resources (settlement (ext (committed w)))
             (sr_reservation_id r) else [], metadata), begin_session (begin_session w))) as Hread.
  { unfold read_result, read_transaction, in_session, settled, mbind, M_bind, db, gets, lift, mret,
      M_ret. simpl. rewrite Hget. simpl. by rewrite Hmeta. }
  unfold get_fulfillment_result, result_projection. apply wp_bind. unfold wp at 1.
  rewrite Hread. simpl. case_bool_decide as Hact; [|by do 3 l_step].
  unfold require. destruct (providers !! sr_provider r) as [p|] eqn:Hp.
  - do 3 l_step. unfold fetched. do 2 l_step. eapply wp_of_run. intros [e|e] w' _.
    + by do 2 l_step.
    + destruct e; l_step; (split; [done|]); right; by eexists.
  - do 3 l_step. by split; [|left].
Qed.
End properties.

(** ** Envelopes *)

(** Envelopes survive storage.  Validating an envelope's dump gives the
    envelope back exactly when its fields meet their constraints; and whatever
    validates is a valid envelope, whose own dump validates to it again. *)
Theorem envelope_roundtrip e v :
  (model_validate (model_dump e) = Ok e ↔ valid_envelope e = true) ∧
  (∀ e', model_validate v = Ok e' →
     valid_envelope e' = true ∧ model_validate (model_dump e') = Ok e').
Proof.
  assert (∀ e', model_validate (model_dump e') = Ok e' ↔ valid_envelope e' = true) as Hdump.
  { intros e'. split; [|apply model_validate_dump]. destruct e' as [k n p].
    unfold model_validate, model_dump. simpl. by destruct (valid_envelope _). }
  split; [apply Hdump|]. intros e' H. rewrite Hdump.
  assert (valid_envelope e' = true); [|done].
  unfold model_validate in H. repeat (case_match; try discriminate H). by injection H as <-.
Qed.

(** ** Acknowledgement *)

#[local] Arguments py_eq : simpl never.

Lemma metadata_dict_VDict m : metadata_dict (VDict m) = Ok m.
Proof. by destruct m. Qed.

Definition acknowledgeable (s : SettlementRecordState) : bool :=
  bool_decide (s = dispatch_pending) || bool_decide (s = dispatching).

(** Acknowledging a dispatch is idempotent and never overwrites.  From
    [dispatch_pending], or from [dispatching] with the same metadata, the
    aggregate is left [dispatching] with the provider's metadata, and
    acknowledging the same metadata again changes nothing; other metadata than
    was acknowledged is a conflict that writes nothing. *)
Theorem acknowledge_is_idempotent i metadata existing d r :
  fdb_wf d → get d i = Some r → acknowledgeable (sr_state r) = true →
  metadata_dict (sr_provider_metadata r) = Ok existing →
  py_eq (VDict metadata) (VDict metadata) = true →
  let again d' := (acknowledge_create i metadata d').2 = d' in
  match acknowledge_create i metadata d with
  | (Ok r', d') =>
      (existing = [] ∨ py_eq (VDict existing) (VDict metadata) = true) ∧
      get d' i = Some r' ∧ sr_state r' = dispatching ∧ again d'
  | (Err e, d') => d' = d ∧ existing ≠ [] ∧ py_eq (VDict existing) (VDict metadata) = false ∧
      ∃ what, e = FulfillmentConflictError what
  end.
Proof.
  intros Hwf Hget Hs Hmeta Hrefl. cbv zeta.
  destruct (find_by_Some _ _ _ _ Hget) as [_ Hid].
  assert (∀ d' r', get d' i = Some r' → sr_state r' = dispatching →
    (∃ m, metadata_dict (sr_provider_metadata r') = Ok m ∧ py_eq (VDict m) (VDict metadata) = true) →
    acknowledge_create i metadata d' = (Ok r', d')) as Hagain.
  { intros d' r' Hget' Hs' (m & Hm & Heq). unfold acknowledge_create, mbind, M_bind, gets, lift, mret,
      M_ret. simpl. rewrite Hget'. simpl. rewrite Hm, Heq, Hs', andb_false_r. done. }
  set (r' := set_sr_provider_metadata (VDict metadata) (set_sr_state dispatching r)).
  assert (transition i "dispatching"
            [("provider_metadata"%string, VDict metadata)] d = (Ok r', save_record r' d)) as Hmove.
  { unfold transition, mbind, M_bind, gets, lift, modify, mret, M_ret. simpl. rewrite Hget.
    apply orb_true_iff in Hs as [Hs|Hs]; apply bool_decide_eq_true in Hs; unfold r';
      destruct r; simpl in *; by rewrite Hs. }
  assert (get (save_record r' d) i = Some r') as Hget' by (rewrite <- Hid; by eapply get_saved).
  unfold acknowledge_create at 1. unfold mbind, M_bind, gets, lift, mret, M_ret. simpl.
  rewrite Hget. simpl. rewrite Hmeta.
  destruct (py_eq (VDict existing) (VDict metadata)) eqn:Heq.
  - rewrite andb_false_r. destruct (bool_decide (sr_state r = dispatching)) eqn:Hd; simpl.
    + apply bool_decide_eq_true in Hd. split_and!; [by right|done..|].
      by rewrite (Hagain d r) by eauto.
    + rewrite Hmove. split_and!; [by right|done..|].
      rewrite (Hagain _ r'); [done..|]. exists metadata. by split; [apply metadata_dict_VDict|].
  - rewrite andb_true_r. case_bool_decide as Hnil; simpl; [|by split_and!; [..|eexists]].
    rewrite Hmove. split_and!; [by left|done..|].
    rewrite (Hagain _ r'); [done..|]. exists metadata. by split; [apply metadata_dict_VDict|].
Qed.

(** * A composition that fulfills: one adapter on the scheduled demo site, and
    instances of the orchestrator's theorems. *)
From S2P Require Import Prelude PyNum PyValue PyNumFacts JobMetadata PyTime PyTimeFacts.
From S2P Require Import PoolDeclarations.
From S2P Require Import LedgerTypes LedgerMatching Ledger LedgerLifecycle LedgerRegistry.
From S2P Require Import LedgerSpec.
From S2P Require Import LedgerCapacity LedgerHistory LedgerProperties Settlement.
From S2P Require Import SettlementFacts Sessions.
From S2P Require Import RoundRobin Scheduler SchedulerFacts SchedulerProperties Release.
From S2P Require Import ReleaseProperties.
From S2P Require Import CompositionDemo Fulfillment FulfillmentFacts.
From stdpp Require Import relations.


Local Close Scope Z_scope.
Local Open Scope Z_scope.
Local Open Scope string_scope.

(** ** An adapter *)

Definition job_envelope (i : string) : VersionedEnvelope :=
  {| env_kind := "compute.job"; schema_version := 1; payload := VStr i |}.

Definition job_metadata : dict :=
  dump_metadata {| jm_create_job_id := "j1"; jm_teardown_job_id := None; jm_current_job_id := "j1";
                   jm_operation := op_create; jm_host_id := "h1"; jm_executor_target := "vm-a" |}.

(** It prepares from the reservation alone, and its creates are accepted. *)
Definition demo_provider : FulfillmentProvider FDB :=
  {| prepare_create i _ _ _ _ x := (Ok (job_envelope i), x);
     dispatch_create _ := mret job_metadata;
     prepare_teardown r _ := Ok (job_envelope (sres_capacity_reservation_id r));
     dispatch_teardown _ := mret job_metadata;
     resolve_provisioned_resources _ := Ok ["vm-a"];
     resolve_executor_job_id _ := Ok (Some "j1");
     provider_status _ _ _ := mret {| ps_state := op_succeeded; ps_detail := VNone |};
     fetch_credentials _ _ := mret (job_envelope "credentials") |}.

Definition demo_providers : gmap string (FulfillmentProvider FDB) := {["kvm" := demo_provider]}.
Definition demo_config (x : FDB) (provider pool : string) : result dict := Ok [].

Lemma demo_registered name p : demo_providers !! name = Some p → p = demo_provider.
Proof. unfold demo_providers. by intros [_ <-]%lookup_singleton_Some. Qed.

Lemma demo_lawful : lawful_registry site_cfg demo_providers.
Proof.
  intros name p ->%demo_registered.
  split; try done; try (intros; by apply advances_same). by intros i ?????? [= <-].
Qed.

Lemma scheduled_site_good : good (committed scheduled_site).
Proof. destruct scheduled_site_wf. by split. Qed.

(** ** Acceptance and dispatch *)

Definition demo_request : VersionedEnvelope :=
  {| env_kind := "vm.request"; schema_version := 1; payload := VDict [("image", VStr "debian")] |}.

Definition begun : result FulfillmentAcceptance * world FDB :=
  begin_fulfillment site_cfg demo_providers demo_config true "id2" "vms" demo_request "f1"
    scheduled_site.

(** The aggregate is dispatching, its operation is stored, and the lease names
    the job that creates it. *)
Example begun_dispatches :
  (begun.1, (λ r, (sr_state r, sr_prepared_create_operation r, sr_provider_metadata r)) <$>
     get (settlement (ext (committed begun.2))) "id2",
   create_job_id <$> get_reservation_row "id2" (committed begun.2)) =
  (Ok {| fa_fulfillment_id := Some "f1"; fa_capacity_reservation_id := "id2";
         fa_state := dispatching |},
   Some (dispatching, model_dump (job_envelope "id2"), VDict job_metadata),
   Some (Some "j1")).
Proof. vm_compute. reflexivity. Qed.

(** A release is now refused: something was dispatched. *)
Example begun_not_releasable :
  (FulfillmentReleaseGuard no_jobs (committed begun.2) "id2").1 = false.
Proof. vm_compute. reflexivity. Qed.

Definition accepted_site : result (FulfillmentAcceptance * option (PreparedFulfillment FDB)) *
    world FDB :=
  transaction (accept_and_prepare demo_providers demo_config "id2" "vms" demo_request "f1")
    scheduled_site.

Lemma dispatch_is_durable_witness :
  ∃ r, get (settlement (ext (committed accepted_site.2))) "id2" = Some r ∧
    sr_state r = dispatch_pending ∧
    model_validate (sr_prepared_create_operation r) = Ok (job_envelope "id2").
Proof.
  destruct (dispatch_is_durable site_cfg demo_providers demo_config "id2" "vms" demo_request "f1"
    scheduled_site {| fa_fulfillment_id := Some "f1"; fa_capacity_reservation_id := "id2";
                      fa_state := dispatch_pending |}
    {| pf_provider := demo_provider; pf_prepared := job_envelope "id2" |} accepted_site.2)
    as (r & H1 & _ & H2 & _ & _ & H3 & _).
  - apply demo_lawful.
  - vm_compute. reflexivity.
  - exists r. split; [exact H1|split; [exact H2|exact H3]].
Defined.

Definition row_of (i : string) (w : world FDB) : SettlementRecord :=
  default stored_assignment (get (settlement (ext (committed w))) i).

Lemma retry_reuses_operation_witness :
  wp (transaction (accept_and_prepare demo_providers demo_config "id2" "vms" demo_request "f2"))
    (λ x w', committed w' = committed accepted_site.2 ∧
       x = Ok (_view (row_of "id2" accepted_site.2),
               Some {| pf_provider := demo_provider; pf_prepared := job_envelope "id2" |}))
    accepted_site.2.
Proof.
  eapply wp_mono.
  - apply (retry_reuses_operation demo_providers demo_config "id2" "vms" demo_request "f2"
      accepted_site.2 (row_of "id2" accepted_site.2) "f1" (model_dump demo_request) []);
      vm_compute; reflexivity.
  - intros x w' [_ H].
    refine (H demo_provider (job_envelope "id2") demo_pool [] true _ _ _ _ _ _ _ _ _);
      vm_compute; first [reflexivity | discriminate].
Defined.

Lemma validation_predicts_acceptance_witness :
  wp (validate_fulfillment demo_providers demo_config "id2" "vms" demo_request)
    (λ x w', committed w' = committed scheduled_site ∧ ∃ verdict, x = Ok verdict ∧
       (verdict = None ↔ ∃ view plan,
          (transaction (accept_and_prepare demo_providers demo_config "id2" "vms" demo_request "f1")
             scheduled_site).1 = Ok (view, Some plan))) scheduled_site.
Proof.
  apply (validation_predicts_acceptance site_cfg demo_providers demo_config "id2" "vms" demo_request
    "f1" scheduled_site (row_of "id2" scheduled_site)).
  - apply demo_lawful.
  - intros name p ->%demo_registered i ??? x f. reflexivity.
  - reflexivity.
  - vm_compute. reflexivity.
  - vm_compute. reflexivity.
  - vm_compute. reflexivity.
  - vm_compute. reflexivity.
  - vm_compute. reflexivity.
Defined.

(** ** Teardown and results *)

(** The dispatched site with its aggregate moved on, as convergence does. *)
Definition moved (s : SettlementRecordState) (w : world FDB) : world FDB :=
  let d := with_record (set_sr_state s (row_of "id2" w)) (committed w) in
  {| working := d; committed := d; clock_reads := clock_reads w; ids_drawn := ids_drawn w;
     depth := depth w |}.

Definition active_site : world FDB := moved active begun.2.
Definition failed_site : world FDB := moved failed begun.2.

(** The demo's tables, one row each, are well formed. *)
Lemma one_row_wf f r : records f = [r] → accepted_ok r → fdb_wf f.
Proof.
  intros Hf Hr. split; rewrite Hf; [apply NoDup_singleton|].
  by intros x ->%list_elem_of_singleton.
Qed.

Lemma active_site_wf : fdb_wf (settlement (ext (committed active_site))).
Proof. apply (one_row_wf _ (row_of "id2" active_site)); [vm_compute; reflexivity|].
  intros _. split; vm_compute; discriminate. Qed.

Lemma failed_site_wf : fdb_wf (settlement (ext (committed failed_site))).
Proof. apply (one_row_wf _ (row_of "id2" failed_site)); [vm_compute; reflexivity|].
  intros _. split; vm_compute; discriminate. Qed.

Definition torn_site : result FulfillmentAcceptance * world FDB :=
  begin_fulfillment_teardown demo_providers demo_config "f1" active_site.

Example teardown_queued :
  (sr_state (row_of "id2" torn_site.2), sr_prepared_teardown_operation (row_of "id2" torn_site.2)) =
  (teardown_dispatch_pending, model_dump (job_envelope "id2")).
Proof. vm_compute. reflexivity. Qed.

Lemma begin_teardown_contract_witness :
  wp (begin_fulfillment_teardown demo_providers demo_config "f1")
    (λ x w', teardown_outcome (committed active_site) (row_of "id2" active_site) x (committed w'))
    active_site.
Proof.
  apply (begin_teardown_contract demo_providers demo_config "f1" active_site
    (row_of "id2" active_site)).
  - apply active_site_wf.
  - vm_compute. reflexivity.
Defined.

Definition always (c : CompensationCandidate) : bool := true.

Example compensation_marks :
  sr_failure_reason (row_of "id2"
    (begin_compensating_teardown demo_providers demo_config "f1" always failed_site).2) =
  VStr CREATE_COMPENSATION.
Proof. vm_compute. reflexivity. Qed.

Lemma compensating_teardown_contract_witness :
  wp (begin_compensating_teardown demo_providers demo_config "f1" always)
    (λ x w', compensation_outcome always (committed failed_site) (row_of "id2" failed_site) x
       (committed w')) failed_site.
Proof.
  apply (compensating_teardown_contract demo_providers demo_config "f1" always failed_site
    (row_of "id2" failed_site)).
  - apply failed_site_wf.
  - vm_compute. reflexivity.
Defined.

Lemma result_discloses_only_active_witness :
  wp (get_fulfillment_result demo_providers "f1")
    (λ x w', result_projection demo_providers (committed begun.2) (row_of "id2" begun.2) x
       (committed w')) begun.2.
Proof.
  apply (result_discloses_only_active demo_providers "f1" begun.2 (row_of "id2" begun.2)
    job_metadata); vm_compute; reflexivity.
Defined.

Lemma acknowledge_is_idempotent_witness :
  (acknowledge_create "id2" job_metadata (settlement (ext (committed begun.2)))).2 =
  settlement (ext (committed begun.2)).
Proof.
  pose proof (acknowledge_is_idempotent "id2" job_metadata job_metadata
    (settlement (ext (committed begun.2))) (row_of "id2" begun.2)) as H. cbv zeta in H.
  assert (acknowledge_create "id2" job_metadata (settlement (ext (committed begun.2))) =
    (Ok (row_of "id2" begun.2), settlement (ext (committed begun.2)))) as Heq
    by (vm_compute; reflexivity).
  rewrite Heq in H. destruct H as (_ & _ & _ & H).
  - apply (one_row_wf _ (row_of "id2" begun.2)); [vm_compute; reflexivity|].
    intros _. split; vm_compute; discriminate.
  - vm_compute. reflexivity.
  - vm_compute. reflexivity.
  - vm_compute. reflexivity.
  - vm_compute. reflexivity.
  - exact H.
Defined.
