(* ===== verification/Convergence.v ===== *)
(** The fulfillment convergence watchdog
    ([compute_provisioning_service/services/fulfillment_convergence.py]): claim
    durable work in one transaction, let the provider act with no transaction
    open, and apply the outcome in another, only while the claim is still held.

    Parameters: [uuid5], the random source, whether another writer holds the
    database's write reservation, and the interleavings a provider call
    allows (part of the provider). *)
From S2P Require Import Prelude PyNum PyValue JobMetadata PyTime PoolDeclarations LedgerTypes.
From S2P Require Import LedgerMatching.
From S2P Require Import Ledger LedgerLifecycle Backoff Settlement SettlementClaims.
From S2P Require Import SettlementFacts Scheduler.
From S2P Require Import Release Fulfillment.

Local Open Scope Z_scope.

Definition _TERMINAL_RESERVATION_STATES : list ReservationState := [released; force_released].

(** [derive_provisioned_resource_id]'s name for an output. *)
Definition provisioned_resource_name (identity_scope provider_output_key : string) : string :=
  "provisioned-resource:" +:+ identity_scope +:+ ":" +:+ provider_output_key.

Record lease_target_counts : Type := {
  lt_repaired : Z;
  lt_different : Z;
  lt_metadata : Z;
  lt_reservation_refused : Z;
  lt_no_reservation : Z;
}.

Definition no_lease_targets : lease_target_counts :=
  {| lt_repaired := 0; lt_different := 0; lt_metadata := 0; lt_reservation_refused := 0;
     lt_no_reservation := 0 |}.

(** One more of one kind. *)
Inductive lease_target_outcome : Type :=
  | lto_repaired | lto_different | lto_metadata | lto_refused | lto_no_reservation | lto_skipped.

Definition count_target (o : lease_target_outcome) (c : lease_target_counts)
    : lease_target_counts :=
  {| lt_repaired := lt_repaired c + match o with lto_repaired => 1 | _ => 0 end;
     lt_different := lt_different c + match o with lto_different => 1 | _ => 0 end;
     lt_metadata := lt_metadata c + match o with lto_metadata => 1 | _ => 0 end;
     lt_reservation_refused :=
       lt_reservation_refused c + match o with lto_refused => 1 | _ => 0 end;
     lt_no_reservation :=
       lt_no_reservation c + match o with lto_no_reservation => 1 | _ => 0 end |}.

(** [_DispatchPlan]: the field and the method it names are the accessor and
    the call. *)
Record _DispatchPlan (Ext : Type) : Type := {
  source_state : SettlementRecordState;
  target_state : SettlementRecordState;
  prepared_field : SettlementRecord → value;
  provider_method : FulfillmentProvider Ext → VersionedEnvelope → M (world Ext) dict;
  metadata_field : string;
}.
Arguments source_state {Ext}. Arguments target_state {Ext}. Arguments prepared_field {Ext}.
Arguments provider_method {Ext}. Arguments metadata_field {Ext}.

Section convergence.
Context {Ext : Type} `{!SettlementTables Ext}.
Context (env : environment) (cfg : ledger_config Ext).
Context (providers : gmap string (FulfillmentProvider Ext)).
Context (has_ledger : bool).
Context (worker_id : string) (batch_size : Z) (backoff : Backoff).
Context (uuid5 : string → string).
Context (random : world Ext → nat → float).
Context (write_locked : world Ext → bool).

Abbreviation L := (M (world Ext)).

(** [begin_sqlite_write_transaction]: a lock held past the busy timeout
    raises. *)
Definition begin_sqlite_write_transaction : L unit :=
  locked ← gets write_locked;
  if (locked : bool) then raise OperationalError else mret tt.

(** ** Claims *)

Definition claim_lease (w : world Ext) : lease_length :=
  PerAttempt (λ calls attempt, delay_seconds backoff (random w calls) attempt).

Definition claim_in_session (state : SettlementRecordState) : L (list SettlementRecord) :=
  begin_sqlite_write_transaction;;
  now ← now_utc env;
  lease ← gets claim_lease;
  rows ← in_ext (claim_pending [settlement_state_value state] batch_size lease worker_id now);
  commit_session;;
  mret rows.

Definition _claim (state : SettlementRecordState) : L (list SettlementRecord) :=
  in_session (catch (claim_in_session state)
    (λ e, match e with OperationalError => mret [] | _ => raise e end)).

(** ** Owned outcomes *)

Definition owned (expected_state : SettlementRecordState) (r : SettlementRecord) : bool :=
  bool_decide (sr_state r = expected_state) && bool_decide (sr_claimed_by r = Some worker_id).

Definition progressed (reservation_id : string) (poll_again_in : option float) : L bool :=
  match poll_again_in with
  | None => in_ext (record_progress reservation_id worker_id None (DT 0 0))
  | Some s =>
      now ← now_utc env;
      in_ext (record_progress reservation_id worker_id (Some s) now)
  end.

Definition _with_owned_record (reservation_id : string) (expected_state : SettlementRecordState)
    (apply : L unit) (poll_again_in : option float) : L bool :=
  in_session (
    begin_sqlite_write_transaction;;
    f ← settled;
    match get f reservation_id with
    | Some r =>
        if owned expected_state r then
          apply;;
          progressed reservation_id poll_again_in;;
          commit_session;;
          mret true
        else mret false
    | None => mret false
    end).

Definition _apply_transition (reservation_id : string)
    (expected_state target_state : SettlementRecordState) (updates : dict) : L bool :=
  _with_owned_record reservation_id expected_state
    (in_ext (transition reservation_id (settlement_state_value target_state) updates);; mret tt)
    None.

Definition _apply_provider_failure (reservation_id : string)
    (source_state target_state : SettlementRecordState) (detail : value) : L bool :=
  _apply_transition reservation_id source_state target_state
    [("failure_reason"%string, VStr PROVIDER_REPORTED_FAILURE); ("failure_message"%string, detail)].

Definition teardown_failure (reservation_id : string) (detail : value) : F unit :=
  f ← gets id;
  match get f reservation_id with
  | None => raise (AttributeError "failure_reason")
  | Some r =>
      let reason :=
        if py_eq (sr_failure_reason r) (VStr CREATE_COMPENSATION)
        then CREATE_COMPENSATION else PROVIDER_REPORTED_FAILURE in
      transition reservation_id (settlement_state_value teardown_failed)
        [("failure_reason"%string, VStr reason); ("failure_message"%string, detail)];;
      mret tt
  end.

Definition _apply_teardown_failure (reservation_id : string) (detail : value) : L bool :=
  _with_owned_record reservation_id tearing_down (in_ext (teardown_failure reservation_id detail))
    None.

(** Recording the lease's target in the activation's own session. *)
Definition _record_executor_target (reservation_id : string) (provider_metadata : value) : L unit :=
  if has_ledger then
    catch (
      metadata ← lift (metadata_dict provider_metadata);
      target ← lift (fulfillment_executor_target metadata);
      record_executor_target_in_session cfg reservation_id target;;
      mret tt)
      (λ e, match e with
            | ProviderConfigInvalidError _ | CapacityConflictError _ => mret tt
            | _ => raise e
            end)
  else mret tt.

Definition add_output (reservation_id fulfillment_id key : string) (created : Z) : F unit :=
  add_provisioned_resource reservation_id
    (uuid5 (provisioned_resource_name ("fulfillment:" +:+ fulfillment_id) key)) "active" None created;;
  mret tt.

Definition create_success (reservation_id : string) (refs : list string) : L unit :=
  f ← settled;
  match get f reservation_id with
  | Some r =>
      match sr_fulfillment_id r with
      | Some fulfillment_id =>
          created ← db_now env;
          in_ext (for_each refs (λ key, add_output reservation_id fulfillment_id key created));;
          in_ext (transition reservation_id (settlement_state_value active) []);;
          _record_executor_target reservation_id (sr_provider_metadata r)
      | None => raise (LookupError reservation_id)
      end
  | None => raise (LookupError reservation_id)
  end.

Definition _apply_create_success (reservation_id : string) (refs : list string) : L bool :=
  _with_owned_record reservation_id dispatching (create_success reservation_id refs) None.

Definition teardown_success (reservation_id : string) : F unit :=
  mark_provisioned_resources_torn_down reservation_id "torn_down";;
  transition reservation_id (settlement_state_value torn_down) [];;
  mret tt.

Definition _apply_teardown_success (reservation_id : string) : L bool :=
  _with_owned_record reservation_id tearing_down (in_ext (teardown_success reservation_id)) None.

(** ** One record *)

Definition _prepared_operation (v : value) : result VersionedEnvelope :=
  if is_none v then Err (ValueError "operation is missing") else model_validate v.

Definition _settlement_resource (r : SettlementRecord) : result SettlementResource :=
  let mode := rq_offering_mode (sr_requirements r) in
  let kind_ := rq_resource_kind (sr_requirements r) in
  if bool_decide (mode = ""%string) then Err (ValueError "no explicit offering_mode")
  else Ok {| sres_offering_mode := mode;
             sres_settlement_resource_id := sr_settlement_resource_id r;
             sres_pool_id := sr_pool_id r;
             sres_resource_kind := if bool_decide (kind_ = ""%string) then "compute" else kind_;
             sres_provider := sr_provider r;
             sres_attributes := sr_resource_attributes r;
             sres_host_id := sr_resource_host_id r;
             sres_dimensions := ∅ |}.

Definition _provider_status (r : SettlementRecord) (metadata : value) : L ProviderStatus :=
  provider ← lift (require providers (sr_provider r));
  resource ← lift (_settlement_resource r);
  metadata ← lift (metadata_dict metadata);
  provider_status provider (sr_reservation_id r) resource metadata.

Definition _poll_again (reservation_id : string) (state : SettlementRecordState) : L unit :=
  draw ← gets (λ w, random w 0%nat);
  delay ← lift (delay_seconds backoff draw 1);
  _with_owned_record reservation_id state (mret tt) (Some delay);;
  mret tt.

(** [except Exception]: the failure is logged and the row waits for its next
    claim. *)
Definition deferring (m : L unit) : L unit := catch m (λ _, mret tt).

Definition _dispatch_record (plan : _DispatchPlan Ext) (r : SettlementRecord) : L unit :=
  deferring (
    provider ← lift (require providers (sr_provider r));
    prepared ← lift (_prepared_operation (prepared_field plan r));
    metadata ← provider_method plan provider prepared;
    _apply_transition (sr_reservation_id r) (source_state plan) (target_state plan)
      [(metadata_field plan, VDict metadata)];;
    mret tt).

Definition apply_succeeded (r : SettlementRecord) : L unit :=
  provider ← lift (require providers (sr_provider r));
  metadata ← lift (metadata_dict (sr_provider_metadata r));
  match resolve_provisioned_resources provider metadata with
  | Ok refs => _apply_create_success (sr_reservation_id r) refs;; mret tt
  | Err (ProviderConfigInvalidError what) =>
      _apply_transition (sr_reservation_id r) dispatching failed
        [("failure_reason"%string, VStr "invalid_provisioned_resource_metadata");
         ("failure_message"%string, VStr what)];;
      mret tt
  | Err e => raise e
  end.

Definition _converge_create_record (r : SettlementRecord) : L unit :=
  deferring (
    status ← _provider_status r (sr_provider_metadata r);
    match ps_state status with
    | op_pending => _poll_again (sr_reservation_id r) dispatching
    | op_succeeded => apply_succeeded r
    | op_failed =>
        _apply_provider_failure (sr_reservation_id r) dispatching failed (ps_detail status);;
        mret tt
    | op_unknown => mret tt
    end).

Definition _converge_teardown_record (r : SettlementRecord) : L unit :=
  deferring (
    status ← _provider_status r (sr_teardown_provider_metadata r);
    match ps_state status with
    | op_pending => _poll_again (sr_reservation_id r) tearing_down
    | op_succeeded => _apply_teardown_success (sr_reservation_id r);; mret tt
    | op_failed => _apply_teardown_failure (sr_reservation_id r) (ps_detail status);; mret tt
    | op_unknown => mret tt
    end).

(** ** Passes *)

Definition create_plan : _DispatchPlan Ext :=
  {| source_state := dispatch_pending; target_state := dispatching;
     prepared_field := sr_prepared_create_operation; provider_method := dispatch_create;
     metadata_field := "provider_metadata" |}.

Definition teardown_plan : _DispatchPlan Ext :=
  {| source_state := teardown_dispatch_pending; target_state := tearing_down;
     prepared_field := sr_prepared_teardown_operation; provider_method := dispatch_teardown;
     metadata_field := "teardown_provider_metadata" |}.

Definition requeue_teardown_failures : L unit :=
  rows ← _claim teardown_failed;
  for_each rows (λ r,
    _apply_transition (sr_reservation_id r) teardown_failed teardown_dispatch_pending [];; mret tt).

Definition _dispatch_claimed_records (plan : _DispatchPlan Ext) : L unit :=
  rows ← _claim (source_state plan);
  for_each rows (_dispatch_record plan).

Definition dispatch_pending_creates : L unit := _dispatch_claimed_records create_plan.
Definition dispatch_pending_teardowns : L unit := _dispatch_claimed_records teardown_plan.

Definition converge_creates : L unit :=
  rows ← _claim dispatching; for_each rows _converge_create_record.

Definition converge_teardowns : L unit :=
  rows ← _claim tearing_down; for_each rows _converge_teardown_record.

(** *** The lease-target sweep *)

Definition repair_target (r : SettlementRecord) (reservation : option CapacityReservation)
    : L lease_target_outcome :=
  match reservation with
  | None => mret lto_no_reservation
  | Some row =>
      if bool_decide (res_state row ∈ _TERMINAL_RESERVATION_STATES) then mret lto_skipped else
      metadata ← lift (metadata_dict (sr_provider_metadata r));
      match fulfillment_executor_target metadata with
      | Err (ProviderConfigInvalidError _) => mret lto_metadata
      | Err e => raise e
      | Ok target =>
          match executor_target row with
          | Some recorded =>
              mret (if bool_decide (recorded = target) then lto_skipped else lto_different)
          | None =>
              catch (record_executor_target_in_session cfg (sr_reservation_id r) target;;
                     mret lto_repaired)
                (λ e, match e with
                      | CapacityConflictError _ => mret lto_refused
                      | _ => raise e
                      end)
          end
      end
  end.

Fixpoint repair_targets (rows : list (SettlementRecord * option CapacityReservation))
    (counts : lease_target_counts) : L lease_target_counts :=
  match rows with
  | [] => mret counts
  | (r, reservation) :: rows =>
      outcome ← repair_target r reservation;
      repair_targets rows (count_target outcome counts)
  end.

(** Each active aggregate with its reservation, as the query reads them. *)
Definition active_leases (d : DB Ext) : list (SettlementRecord * option CapacityReservation) :=
  (λ r, (r, get_reservation_row (sr_reservation_id r) d)) <$>
    filter (λ r, sr_state r = active) (records (settlement (ext d))).

Definition reconcile_lease_targets : L (option lease_target_counts) :=
  if has_ledger then
    in_session (
      begin_sqlite_write_transaction;;
      d ← db;
      counts ← repair_targets (active_leases d) no_lease_targets;
      commit_session;;
      mret (Some counts))
  else mret None.

Definition _reconcile_lease_targets_logged : L (option lease_target_counts) :=
  catch reconcile_lease_targets (λ _, mret None).

(** *** A cycle *)

Definition diagnostics_snapshot : L RecoveryDiagnostics :=
  in_session (now ← now_utc env; f ← settled; mret (recovery_diagnostics f now)).

Definition run_cycle : L (RecoveryDiagnostics * RecoveryDiagnostics) :=
  before ← diagnostics_snapshot;
  requeue_teardown_failures;;
  dispatch_pending_creates;;
  converge_creates;;
  dispatch_pending_teardowns;;
  converge_teardowns;;
  _reconcile_lease_targets_logged;;
  after ← diagnostics_snapshot;
  mret (before, after).

Definition advance_cycle (is_paused : bool) : L (RecoveryDiagnostics * RecoveryDiagnostics) :=
  if negb is_paused then raise (RuntimeError "advance_cycle requires the watchdog to be paused")
  else
    in_session (released_ ← in_ext (release_worker_claims worker_id);
                commit_session;; mret released_);;
    run_cycle.
End convergence.
