(* ===== verification/ConvergenceFacts.v ===== *)
(** What the watchdog's transactions do to the two databases. *)
From S2P Require Import Prelude PyNum PyValue JobMetadata PyTime PoolDeclarations LedgerTypes.
From S2P Require Import LedgerMatching.
From S2P Require Import Ledger LedgerLifecycle LedgerSpec LedgerTrack.
From S2P Require Import LedgerRefinement LedgerCapacity.
From S2P Require Import Backoff Settlement SettlementFacts Sessions Scheduler.
From S2P Require Import Release Fulfillment FulfillmentFacts Convergence.
From stdpp Require Import relations.

Local Open Scope Z_scope.

(** ** Outcomes on the settlement tables *)

(** A failure reason other than the marker, on an aggregate not in teardown. *)
Lemma wp_fail_moves i reason detail d r :
  reason ≠ CREATE_COMPENSATION → fdb_wf d → get d i = Some r → ¬ in_teardown r →
  wp (transition i (settlement_state_value failed)
        [("failure_reason"%string, VStr reason); ("failure_message"%string, detail)])
     (λ _ d', rtc dstep d d') d.
Proof.
  intros Hr Hwf Hget Ht. apply wp_transition_moves; [done|]. intros r' s Hr' _ _.
  rewrite Hget in Hr'. injection Hr' as <-. split; [|done].
  unfold marked. simpl. intros [= ?]. congruence.
Qed.

(** A failed teardown keeps the marker, or writes another reason. *)
Lemma moves_teardown_failure i detail : moves_with marker (teardown_failure i detail).
Proof.
  intros d Hwf. unfold teardown_failure. do 2 wp_step. simpl.
  destruct (get d i) as [r|] eqn:Hget; [|wp_step; apply rtc_refl].
  wp_step. set (reason := if py_eq _ _ then _ else _).
  eapply wp_mono; [apply wp_transition_moves; [exact Hwf|]|].
  2: { intros [x|e] d' H; [by wp_step|done]. }
  intros r' s Hr' _ _. rewrite Hget in Hr'. injection Hr' as <-. unfold reason.
  destruct (py_eq (sr_failure_reason r) (VStr CREATE_COMPENSATION)) eqn:Heq.
  - assert (marked r) as Hm.
    { unfold marked. destruct (sr_failure_reason r) as [| | |s0| |]; try done.
      simpl in Heq. apply bool_decide_eq_true in Heq. by rewrite Heq. }
    split; [by left|done].
  - assert (¬ marked r) as Hm. { intros Hm. unfold marked in Hm. by rewrite Hm in Heq. }
    split; [by intros [=]|done].
Qed.

Lemma moves_add_output uuid5 i f key created :
  moves_with marker (add_output uuid5 i f key created).
Proof. unfold add_output. moving ltac:(apply moves_add_provisioned). Qed.

Lemma moves_teardown_success i : moves_with marker (teardown_success i).
Proof.
  unfold teardown_success.
  moving ltac:(first [apply moves_mark_torn_down | apply moves_transition_kept; set_solver]).
Qed.

Section facts.
Context {Ext : Type} `{!SettlementTables Ext}.
Context (env : environment) (cfg : ledger_config Ext).
Context (providers : gmap string (FulfillmentProvider Ext)) (has_ledger : bool).
Context (worker_id : string) (batch_size : Z) (backoff : Backoff).
Context (uuid5 : string → string) (random : world Ext → nat → float).
Context (write_locked : world Ext → bool).
Context (Hlaw : lawful_registry cfg providers).

Implicit Types (w : world Ext) (d : DB Ext).

(** ** The lease's target *)

Lemma sessional_record_executor_target i t :
  sessional (record_executor_target_in_session cfg i t).
Proof. unfold record_executor_target_in_session. session fail. Qed.

Lemma in_txn_record_executor_target i t :
  in_txn_always cfg (record_executor_target_in_session cfg i t).
Proof.
  intros w Hd Ha. apply wp_and; [apply sessional_record_executor_target|].
  unfold record_executor_target_in_session. do 2 l_step.
  destruct (get_reservation_row _ _) as [r|] eqn:Hget; [|by l_step]. l_step; [by l_step|].
  destruct (find_by_Some _ _ _ _ Hget) as [_ Hid].
  do 2 l_step. destruct (match executor_target r with Some _ => Ok r | None => _ end) as [r'|] eqn:Hr';
    [|done].
  assert (row_step r r' ∧ window_kept r r') as [??].
  { destruct (executor_target r) eqn:Ht; [|by eapply executor_target_row_step].
    injection Hr' as <-. apply row_step_refl. by rewrite is_released_held, negb_false_iff in Heqb. }
  assert (advance cfg (committed w) (update_reservation r' (working w))) as Ha'.
  { etrans; [exact Ha|]. apply (advance_row _ _ r); [by rewrite Hid|done..]. }
  do 4 l_step. destruct (_reservation_payload cfg r'); [by l_step|done].
Qed.

Lemma in_txn_record_target i metadata :
  in_txn cfg (_record_executor_target cfg has_ledger i metadata).
Proof.
  unfold _record_executor_target. destruct has_ledger; [|by apply in_txn_same].
  apply in_txn_catch; [|intros e; destruct e; by apply in_txn_same].
  do 2 (apply always_bind; [by apply always_of_reads|intros]).
  apply always_bind; [apply in_txn_record_executor_target|]. intros. by apply always_of_reads.
Qed.

Lemma in_txn_create_success i refs :
  in_txn cfg (create_success env cfg has_ledger uuid5 i refs).
Proof.
  unfold create_success, settled.
  keeping ltac:(first [ apply in_txn_record_target
    | apply in_txn_of_always, in_txn_in_ext;
      first [ apply moves_for_each; intros; apply moves_add_output
            | apply moves_transition_kept; set_solver ] ]).
Qed.

(** ** Owned outcomes *)

Abbreviation owned_by := (owned worker_id).

Lemma advances_owned i s apply poll :
  (∀ w r, good (committed w) → advance cfg (committed w) (working w) →
     get (settlement (ext (working w))) i = Some r → owned_by s r = true →
     wp apply (λ x w', committed w' = committed w ∧
       match x with Ok _ => advance cfg (committed w) (working w') | Err _ => True end) w) →
  advances cfg (_with_owned_record env worker_id write_locked i s apply poll).
Proof.
  intros Happly. apply advances_in_session. unfold _with_owned_record, settled.
  apply commits_bind; [unfold begin_sqlite_write_transaction; keeping fail|]. intros _ w Hd Ha.
  do 4 l_step. destruct (get _ i) as [r|] eqn:Hget; [|l_step; reflexivity].
  destruct (owned_by s r) eqn:Ho; [|l_step; reflexivity].
  l_step. eapply wp_mono; [by eapply Happly|].
  intros [[]|e] w1 [Hc Ha1]; [|rewrite Hc; reflexivity]. rewrite <- Hc in Ha1, Hd. rewrite <- Hc.
  assert (commits cfg (progressed env worker_id i poll ≫= λ _, commit_session ≫= λ _, mret true))
    as Hcommit; [|by apply Hcommit].
  apply commits_bind; [|intros; apply commits_saved]. unfold progressed.
  keeping ltac:(apply in_txn_of_always, in_txn_in_ext, moves_record_progress).
Qed.

Lemma advances_owned_txn i s apply poll :
  in_txn cfg apply → advances cfg (_with_owned_record env worker_id write_locked i s apply poll).
Proof. intros Ha. apply advances_owned. intros w r ????. by apply Ha. Qed.

Lemma advances_transition i s s' updates :
  "failure_reason"%string ∉ (fst <$> updates) →
  advances cfg (_apply_transition env worker_id write_locked i s s' updates).
Proof.
  intros Hno. apply advances_owned_txn. apply in_txn_bind; [|intros; by apply in_txn_same].
  by apply in_txn_of_always, in_txn_in_ext, moves_transition_kept.
Qed.

(** A create's failure, recorded from [dispatching]. *)
Lemma advances_create_failure i reason detail :
  reason ≠ CREATE_COMPENSATION →
  advances cfg (_apply_transition env worker_id write_locked i dispatching failed
    [("failure_reason"%string, VStr reason); ("failure_message"%string, detail)]).
Proof.
  intros Hr. apply advances_owned. intros w r Hd Ha Hget Ho.
  apply andb_true_iff in Ho as [Hs%bool_decide_eq_true _].
  l_step. apply wp_in_ext. eapply wp_mono; [apply (wp_fail_moves _ _ _ _ r)|]; try done.
  - by eapply advance_good.
  - unfold in_teardown. rewrite Hs. set_solver.
  - intros [x|e] f Hf; simpl; [|done]. l_step. split; [done|]. etrans; [exact Ha|].
    apply advance_ext. by rewrite settlement_put.
Qed.

Lemma advances_claim s :
  advances cfg (_claim env worker_id batch_size backoff random write_locked s).
Proof.
  apply advances_in_session. intros w Hd Ha. apply wp_catch.
  assert (commits cfg (claim_in_session env worker_id batch_size backoff random write_locked s)) as Hc.
  { unfold claim_in_session, begin_sqlite_write_transaction.
    committing ltac:(first
      [ apply in_txn_of_always, in_txn_in_ext, moves_claim_pending | by apply in_txn_same ]).
    all: keeping fail. }
  eapply wp_mono; [by apply Hc|]. intros [rows|e] w1 H; [done|]. by destruct e.
Qed.

(** ** Records *)

Lemma advances_deferring m : advances cfg m → advances cfg (deferring m).
Proof. intros Hm. apply advances_catch; [done|]. intros. by apply advances_same. Qed.

Lemma advances_poll_again i s :
  advances cfg (_poll_again env worker_id backoff random write_locked i s).
Proof. unfold _poll_again. advancing ltac:(apply advances_owned_txn; by apply in_txn_same). Qed.

Lemma advances_status r metadata :
  advances cfg (_provider_status providers r metadata).
Proof.
  unfold _provider_status. apply advances_lift_bind. intros p Hp.
  apply (require_lawful cfg) in Hp; [|done].
  advancing ltac:(apply (law_status _ _ Hp)).
Qed.

Lemma advances_succeeded r :
  advances cfg (apply_succeeded env cfg providers has_ledger worker_id uuid5 write_locked r).
Proof.
  unfold apply_succeeded.
  apply advances_bind; [by apply advances_same|]. intros p.
  apply advances_bind; [by apply advances_same|]. intros metadata.
  destruct (resolve_provisioned_resources p metadata) as [refs|e].
  - apply advances_bind; [apply advances_owned_txn, in_txn_create_success|].
    intros. by apply advances_same.
  - destruct e; try by apply advances_same.
    apply advances_bind; [by apply advances_create_failure|]. intros. by apply advances_same.
Qed.

Lemma advances_converge_create r :
  advances cfg (_converge_create_record env cfg providers has_ledger worker_id backoff uuid5 random
    write_locked r).
Proof.
  apply advances_deferring. apply advances_bind; [apply advances_status|]. intros st.
  destruct (ps_state st).
  - apply advances_poll_again.
  - apply advances_succeeded.
  - apply advances_bind; [by apply advances_create_failure|]. intros. by apply advances_same.
  - by apply advances_same.
Qed.

Lemma advances_converge_teardown r :
  advances cfg (_converge_teardown_record env providers worker_id backoff random write_locked r).
Proof.
  apply advances_deferring. apply advances_bind; [apply advances_status|]. intros st.
  destruct (ps_state st); [apply advances_poll_again| | |by apply advances_same];
    (apply advances_bind; [|intros; by apply advances_same]); apply advances_owned_txn;
    apply in_txn_of_always, in_txn_in_ext.
  - apply moves_teardown_success.
  - apply moves_teardown_failure.
Qed.

(** A plan whose calls are the adapter's, recorded in a metadata field. *)
Definition plan_ok (plan : _DispatchPlan Ext) : Prop :=
  metadata_field plan ≠ "failure_reason"%string ∧
  ∀ p prepared, lawful cfg p → advances cfg (provider_method plan p prepared).

Lemma advances_dispatch plan r :
  plan_ok plan → advances cfg (_dispatch_record env providers worker_id write_locked plan r).
Proof.
  intros [Hfield Hcall]. apply advances_deferring, advances_lift_bind. intros p Hp.
  apply (require_lawful cfg) in Hp; [|done].
  advancing ltac:(first [ by apply Hcall | apply advances_transition; set_solver ]).
Qed.

Lemma create_plan_ok : plan_ok create_plan.
Proof. split; [done|]. intros p prepared Hp. apply Hp. Qed.
Lemma teardown_plan_ok : plan_ok teardown_plan.
Proof. split; [done|]. intros p prepared Hp. apply Hp. Qed.

(** ** Cycles *)

Lemma in_txn_repair r reservation : in_txn cfg (repair_target cfg r reservation).
Proof.
  unfold repair_target. keeping ltac:(first
    [ apply in_txn_catch; [apply always_bind;
        [apply in_txn_record_executor_target|intros; by apply always_of_reads]
      |intros e; destruct e; by apply in_txn_same] ]).
Qed.

Lemma advances_reconcile : advances cfg (reconcile_lease_targets cfg has_ledger write_locked).
Proof.
  unfold reconcile_lease_targets. destruct has_ledger; [|by apply advances_same].
  apply advances_in_session.
  apply commits_bind; [unfold begin_sqlite_write_transaction; keeping fail|]. intros _.
  apply commits_bind; [by apply in_txn_same|]. intros d.
  apply commits_bind; [|intros; apply commits_saved]. generalize no_lease_targets.
  induction (active_leases d) as [|[r reservation] rows IH]; intros counts; simpl.
  - by apply in_txn_same.
  - apply in_txn_bind; [apply in_txn_repair|]. intros. apply IH.
Qed.

Lemma advances_run_cycle :
  advances cfg (run_cycle env cfg providers has_ledger worker_id batch_size backoff uuid5 random
    write_locked).
Proof.
  unfold run_cycle, diagnostics_snapshot, requeue_teardown_failures, dispatch_pending_creates,
    dispatch_pending_teardowns, _dispatch_claimed_records, converge_creates, converge_teardowns,
    _reconcile_lease_targets_logged.
  advancing ltac:(first
    [ apply advances_claim | apply advances_for_each; intros
    | apply advances_dispatch; first [apply create_plan_ok | apply teardown_plan_ok]
    | apply advances_converge_create | apply advances_converge_teardown
    | apply advances_reconcile | apply advances_transition; set_solver
    | apply advances_in_session; unfold settled; committing fail; by apply commits_same ]).
Qed.

Lemma advances_advance_cycle paused :
  advances cfg (advance_cycle env cfg providers has_ledger worker_id batch_size backoff uuid5 random
    write_locked paused).
Proof.
  unfold advance_cycle. destruct paused; simpl; [|by apply advances_same].
  apply advances_bind; [|intros; apply advances_run_cycle].
  apply advances_transaction, in_txn_of_always, in_txn_in_ext, moves_release_worker_claims.
Qed.
End facts.
