(* ===== verification/ConvergenceProperties.v ===== *)
(** The watchdog's contract: both databases' invariants under any interleaving
    of scheduling, fulfillment and convergence, outcomes applied only under a
    live claim, contained failures, and a create converging to [active]. *)
From S2P Require Import Prelude PyNum PyValue JobMetadata PyTime PoolDeclarations LedgerTypes.
From S2P Require Import LedgerMatching Ledger LedgerLifecycle LedgerSpec LedgerTrack.
From S2P Require Import LedgerRefinement LedgerCapacity Backoff Settlement SettlementFacts.
From S2P Require Import SettlementFacts Sessions Scheduler SchedulerProperties Release.
From S2P Require Import Fulfillment.
From S2P Require Import FulfillmentFacts FulfillmentProperties Convergence ConvergenceFacts.
From S2P Require Import SettlementClaims.
From stdpp Require Import relations.

Local Open Scope Z_scope.

(** ** The row an outcome leaves *)

Lemma lifecycle_fields_frame updates x :
  let x' := fold_left set_lifecycle_field updates x in
  sr_reservation_id x' = sr_reservation_id x ∧ sr_claimed_by x' = sr_claimed_by x ∧
  sr_state x' = sr_state x ∧ sr_fulfillment_id x' = sr_fulfillment_id x.
Proof.
  revert x. induction updates as [|[k v] updates IH]; intros x; [done|]. simpl.
  destruct (IH (set_lifecycle_field x (k, v))) as (H1 & H2 & H3 & H4). simpl in *.
  rewrite H1, H2, H3, H4. by repeat case_bool_decide.
Qed.

Lemma wp_transition_row i target updates d :
  wp (transition i target updates)
    (λ x d', match x with
     | Ok r' => ∃ r s, get d i = Some r ∧ r' = transitioned s updates r ∧ get d' i = Some r' ∧
         target = settlement_state_value s ∧ provisioned d' = provisioned d
     | Err _ => True
     end) d.
Proof.
  unfold transition. destruct (filter _ _) as [|k l]; [|by wp_step]. do 2 wp_step. simpl.
  destruct (get d i) as [r|] eqn:Hget; [|by wp_step].
  destruct (find_by_Some _ _ _ _ Hget) as [_ Hid].
  assert (∀ s, target = settlement_state_value s →
    wp (modify (save_record (transitioned s updates r)) ≫= λ _,
        mret (transitioned s updates r) : F SettlementRecord)
       (λ x d', match x with
        | Ok r' => ∃ r0 s, Some r = Some r0 ∧ r' = transitioned s updates r0 ∧ get d' i = Some r' ∧
            target = settlement_state_value s ∧ provisioned d' = provisioned d
        | Err _ => True
        end) d) as Hsave.
  { intros s Ht. do 2 wp_step. wp_step. exists r, s. split_and!; try done. rewrite <- Hid.
    eapply get_saved; [exact Hget|]. unfold transitioned.
    destruct (lifecycle_fields_frame updates (set_sr_state s r)) as [-> _]. done. }
  wp_step. wp_step.
  - wp_step. apply bool_decide_eq_true in Heqb. specialize (Hsave (sr_state r) (eq_sym Heqb)).
    unfold transitioned in Hsave. rewrite set_same_state in Hsave.
    eapply wp_mono; [exact Hsave|]. intros [x|e] d' H; [|done]. exact H.
  - do 2 wp_step. destruct (validate_transition _ _) as [s|e] eqn:Hv; [|done]. wp_step.
    apply (validate_transition_Ok (sr_state r)) in Hv as [Ht _]. by apply Hsave.
Qed.

(** A repository method that leaves the aggregate its claim. *)
Definition claim_kept {A} (i : string) (m : F A) : Prop :=
  ∀ d r, get d i = Some r →
    wp m (λ x d', match x with
      | Ok _ => ∃ r', get d' i = Some r' ∧ sr_claimed_by r' = sr_claimed_by r ∧
                      sr_fulfillment_id r' = sr_fulfillment_id r
      | Err _ => True
      end) d.

Lemma claim_kept_bind {A B} i (m : F A) (k : A → F B) :
  claim_kept i m → (∀ a, claim_kept i (k a)) → claim_kept i (m ≫= k).
Proof.
  intros Hm Hk d r Hget. apply wp_bind. eapply wp_mono; [by apply (Hm d r)|].
  intros [a|e] d1; [|done]. intros (r1 & Hget1 & Hc1 & Hf1). eapply wp_mono; [by apply (Hk a d1 r1)|].
  intros [b|e] d2; [|done]. intros (r2 & Hget2 & Hc2 & Hf2). exists r2. split_and!; congruence.
Qed.

Lemma claim_kept_ret {A} i (a : A) : claim_kept i (mret a).
Proof. intros d r Hget. apply wp_ret. by exists r. Qed.

Lemma claim_kept_transition i target updates : claim_kept i (transition i target updates).
Proof.
  intros d r Hget. eapply wp_mono; [apply wp_transition_row|]. intros [x|e] d'; [|done].
  intros (r0 & s & Hr0 & -> & Hget' & _). rewrite Hget in Hr0. injection Hr0 as <-.
  eexists. split; [done|]. unfold transitioned.
  destruct (lifecycle_fields_frame updates (set_sr_state s r)) as (_ & -> & _ & ->). done.
Qed.

Lemma claim_kept_add_output uuid5 i f key created : claim_kept i (add_output uuid5 i f key created).
Proof.
  unfold add_output. apply claim_kept_bind; [|intros; apply claim_kept_ret].
  intros d r Hget. unfold add_provisioned_resource. do 2 wp_step. simpl.
  destruct (get d i ≫= sr_fulfillment_id); [|by wp_step].
  destruct (get_provisioned d _) as [existing|]; [wp_step; wp_step; [by exists r|done]|].
  do 2 wp_step. wp_step. by exists r.
Qed.

Lemma claim_kept_for_each {A} i (l : list A) (body : A → F unit) :
  (∀ x, claim_kept i (body x)) → claim_kept i (for_each l body).
Proof.
  intros Hb. induction l as [|x l IH]; simpl; [apply claim_kept_ret|]. by apply claim_kept_bind.
Qed.

Lemma claim_kept_torn_down i j status : claim_kept i (mark_provisioned_resources_torn_down j status).
Proof. intros d r Hget. unfold mark_provisioned_resources_torn_down. wp_step. by exists r. Qed.

Lemma claim_kept_teardown_failure i detail : claim_kept i (teardown_failure i detail).
Proof.
  intros d r Hget. unfold teardown_failure. do 2 wp_step. simpl. rewrite Hget.
  apply (claim_kept_bind i _ (λ _, mret tt)); [apply claim_kept_transition| |done].
  intros. apply claim_kept_ret.
Qed.

(** What healthy progress leaves of an owned aggregate. *)
Lemma record_progress_owned i worker lease now d r :
  get d i = Some r → sr_claimed_by r = Some worker →
  wp (record_progress i worker lease now)
    (λ x d', match x with
     | Ok _ => ∃ r', get d' i = Some r' ∧ sr_attempt_count r' = 0 ∧ sr_state r' = sr_state r ∧
         sr_claimed_by r' = match lease with None => None | Some _ => Some worker end
     | Err _ => True
     end) d.
Proof.
  intros Hget Hc. unfold record_progress. do 2 wp_step. simpl. rewrite Hget.
  destruct (find_by_Some _ _ _ _ Hget) as [_ Hid].
  unfold held_by. rewrite bool_decide_eq_true_2 by done. wp_step.
  assert (∀ r', sr_reservation_id r' = sr_reservation_id r → get (save_record r' d) i = Some r')
    as Hsaved by (intros r' Hr'; rewrite <- Hid; by eapply get_saved).
  destruct lease as [s|].
  - do 2 wp_step. destruct (timedelta_of_float s); [|done]. do 2 wp_step.
    destruct (dt_add_us _ _); [|done]. wp_step. do 2 wp_step. wp_step.
    eexists. split; [by apply Hsaved|]. done.
  - wp_step. do 2 wp_step. wp_step. eexists. split; [by apply Hsaved|]. done.
Qed.

Lemma wp_in_session {Ext A} (m : M (world Ext) A) Q (w : world Ext) :
  wp m (λ x w1, Q x (begin_session w1)) (begin_session w) → wp (in_session m) Q w.
Proof. unfold wp, in_session. by destruct (m (begin_session w)). Qed.

Section outcomes.
Context {Ext : Type} `{!SettlementTables Ext}.
Context (env : environment) (cfg : ledger_config Ext) (has_ledger : bool).
Context (worker_id : string) (uuid5 : string → string) (write_locked : world Ext → bool).

Implicit Types (w : world Ext).

(** Everything a provider's answer can make the watchdog apply. *)
Inductive outcome : Type :=
  | OMoved (expected target : SettlementRecordState) (updates : dict)
  | OCreated (refs : list string)
  | OTornDown
  | OTeardownFailed (detail : value)
  | OPending (expected : SettlementRecordState) (delay : float).

Definition apply_outcome (i : string) (o : outcome) : M (world Ext) bool :=
  match o with
  | OMoved expected target updates =>
      _apply_transition env worker_id write_locked i expected target updates
  | OCreated refs => _apply_create_success env cfg has_ledger worker_id uuid5 write_locked i refs
  | OTornDown => _apply_teardown_success env worker_id write_locked i
  | OTeardownFailed detail => _apply_teardown_failure env worker_id write_locked i detail
  | OPending expected delay =>
      _with_owned_record env worker_id write_locked i expected (mret tt) (Some delay)
  end.

Definition expected_state (o : outcome) : SettlementRecordState :=
  match o with
  | OMoved expected _ _ | OPending expected _ => expected
  | OCreated _ => dispatching
  | OTornDown | OTeardownFailed _ => tearing_down
  end.

(** The claim afterwards: kept only for another poll. *)
Definition claim_after (o : outcome) : option string :=
  match o with OPending _ _ => Some worker_id | _ => None end.

(** Code of an owned transaction: it commits nothing itself and leaves the
    aggregate its claim. *)
Definition keeps_claim (i : string) (m : M (world Ext) unit) : Prop :=
  ∀ w r, get (settlement (ext (working w))) i = Some r →
    wp m (λ x w', committed w' = committed w ∧
      match x with
      | Ok _ => ∃ r', get (settlement (ext (working w'))) i = Some r' ∧
                      sr_claimed_by r' = sr_claimed_by r
      | Err _ => True
      end) w.

Lemma keeps_claim_bind i {A} (m : F A) (k : A → M (world Ext) unit) :
  claim_kept i m → (∀ a, keeps_claim i (k a)) → keeps_claim i (in_ext m ≫= k).
Proof.
  intros Hm Hk w r Hget. apply wp_bind, wp_in_ext. eapply wp_mono; [by apply (Hm _ r)|].
  intros [a|e] f; [|done]. intros (r1 & Hget1 & Hc1 & _). simpl.
  eapply wp_mono; [apply (Hk a _ r1); simpl; by rewrite settlement_put|].
  intros x w2 [Hc2 Hx]. split; [done|]. destruct x; [|done]. destruct Hx as (r2 & ? & ?).
  exists r2. split; congruence.
Qed.

Lemma keeps_claim_unseen i m :
  unseen committed m → unseen (λ w, ext (working w)) m → keeps_claim i m.
Proof.
  intros Hc He w r Hget. eapply wp_mono; [apply wp_and; [apply Hc|apply He]|].
  intros x w' [? Hx]. split; [done|]. destruct x; [|done]. exists r. by rewrite Hx.
Qed.

Lemma keeps_claim_ret i : keeps_claim i (mret tt).
Proof. by apply keeps_claim_unseen. Qed.

Lemma keeps_claim_in_ext i (m : F unit) : claim_kept i m → keeps_claim i (in_ext m).
Proof.
  intros Hm w r Hget. apply wp_in_ext. eapply wp_mono; [by apply (Hm _ r)|].
  intros [a|e] f; [|done]. intros (r1 & Hget1 & Hc1 & _). split; [done|]. exists r1. simpl.
  by rewrite settlement_put.
Qed.

Lemma keeps_claim_record_target i metadata :
  keeps_claim i (_record_executor_target cfg has_ledger i metadata).
Proof.
  unfold _record_executor_target, record_executor_target_in_session.
  apply keeps_claim_unseen; session fail.
Qed.

Lemma keeps_claim_create_success i refs :
  keeps_claim i (create_success env cfg has_ledger uuid5 i refs).
Proof.
  intros w r Hget. unfold create_success, settled. do 4 l_step. rewrite Hget.
  destruct (sr_fulfillment_id r) as [f|]; [|by l_step]. do 2 l_step.
  match goal with |- wp ?m _ _ => assert (keeps_claim i m) as H; [|by apply H] end.
  apply keeps_claim_bind; [apply claim_kept_for_each; intros; apply claim_kept_add_output|].
  intros _. apply keeps_claim_bind; [apply claim_kept_transition|].
  intros _. apply keeps_claim_record_target.
Qed.

Lemma wp_owned i s apply poll w :
  keeps_claim i apply →
  wp (_with_owned_record env worker_id write_locked i s apply poll)
    (λ x w', match x with
      | Ok true => (∃ r, get (settlement (ext (committed w))) i = Some r ∧
            sr_state r = s ∧ sr_claimed_by r = Some worker_id) ∧
          ∃ r', get (settlement (ext (committed w'))) i = Some r' ∧ sr_attempt_count r' = 0 ∧
            sr_claimed_by r' = match poll with None => None | Some _ => Some worker_id end
      | _ => committed w' = committed w
      end ∧
      (∀ r, get (settlement (ext (committed w))) i = Some r → owned worker_id s r = false →
         x = Ok false ∨ x = Err OperationalError)) w.
Proof.
  intros Happly. unfold _with_owned_record.
  apply wp_in_session.
  unfold begin_sqlite_write_transaction. do 4 l_step.
  { l_step. split; [done|]. intros. by right. }
  l_step. unfold settled. do 4 l_step. simpl.
  destruct (get (settlement (ext (committed w))) i) as [r|] eqn:Hget; [|by l_step].
  destruct (owned worker_id s r) eqn:Ho.
  2: { l_step. split; [done|]. intros. by left. }
  assert (sr_state r = s ∧ sr_claimed_by r = Some worker_id) as [Hs Hc].
  { apply andb_true_iff in Ho as [?%bool_decide_eq_true ?%bool_decide_eq_true]. done. }
  assert (∀ r0, Some r = Some r0 → owned worker_id s r0 = false → ∀ P : Prop, P) as Habs.
  { intros r0 [= <-] Hf. congruence. }
  l_step. eapply wp_mono; [by apply (Happly _ r)|]. intros [[]|e] w1 [Hcom Hrow];
    [|split; [done|]; intros r0 H0 H1; by apply (Habs r0)].
  destruct Hrow as (r1 & Hget1 & Hc1). rewrite Hc in Hc1.
  l_step. eapply (wp_mono _ (λ x w2, committed w2 = committed w1 ∧ match x with
    | Ok _ => ∃ r', get (settlement (ext (working w2))) i = Some r' ∧ sr_attempt_count r' = 0 ∧
        sr_claimed_by r' = match poll with None => None | Some _ => Some worker_id end
    | Err _ => True end)).
  { unfold progressed. destruct poll as [delay|].
    - do 2 l_step. apply wp_in_ext. eapply wp_mono; [by apply (record_progress_owned _ _ _ _ _ r1)|].
      intros [b|e] f H; [|done]. destruct H as (r' & ? & ? & ? & ?). split; [done|]. exists r'. simpl.
      by rewrite settlement_put.
    - apply wp_in_ext. eapply wp_mono; [by apply (record_progress_owned _ _ _ _ _ r1)|].
      intros [b|e] f H; [|done]. destruct H as (r' & ? & ? & ? & ?). split; [done|]. exists r'. simpl.
      by rewrite settlement_put. }
  intros [b|e] w2 [Hcom2 H2]; simpl.
  - do 3 l_step. split; [|intros r0 H0 H1; by apply (Habs r0)]. split; [by exists r|done].
  - split; [simpl in *; congruence|]. intros r0 H0 H1. by apply (Habs r0).
Qed.

(** C4: an outcome is applied only under a live claim.  Whatever a provider
    answered, and whatever happened while it was asked, the transaction applying
    the answer commits nothing unless the aggregate is still in the state the
    answer is about and still claimed by this worker; when it applies, the
    aggregate's failed attempts start again and the claim is released, or kept
    for another poll.  A worker whose lease another has reclaimed is told
    [False] (or that the database is busy). *)
Theorem outcome_needs_claim i o w :
  wp (apply_outcome i o)
    (λ x w', match x with
      | Ok true => (∃ r, get (settlement (ext (committed w))) i = Some r ∧
            sr_state r = expected_state o ∧ sr_claimed_by r = Some worker_id) ∧
          ∃ r', get (settlement (ext (committed w'))) i = Some r' ∧ sr_attempt_count r' = 0 ∧
            sr_claimed_by r' = claim_after o
      | _ => committed w' = committed w
      end ∧
      (∀ r, get (settlement (ext (committed w))) i = Some r →
         owned worker_id (expected_state o) r = false → x = Ok false ∨ x = Err OperationalError)) w.
Proof.
  destruct o; simpl; apply wp_owned.
  - apply keeps_claim_bind; [apply claim_kept_transition|]. intros. apply keeps_claim_ret.
  - apply keeps_claim_create_success.
  - apply keeps_claim_in_ext. unfold teardown_success.
    apply claim_kept_bind; [apply claim_kept_torn_down|]. intros.
    apply claim_kept_bind; [apply claim_kept_transition|]. intros. apply claim_kept_ret.
  - apply keeps_claim_in_ext, claim_kept_teardown_failure.
  - apply keeps_claim_ret.
Qed.
End outcomes.

(** * How the watchdog fails: a record's failure stays with that record, a claim's
    failure ends its pass, and a backoff that has overflowed ends every claim
    of its state. *)

(** ** The backoff *)

Lemma delay_seconds_error b draw attempt e :
  delay_seconds b draw attempt = Err e → e = OverflowError.
Proof.
  unfold delay_seconds. destruct (float_pow _ _) as [p|e'] eqn:Hp; simpl; [by case_match|].
  intros [= <-]. unfold float_pow in Hp. by repeat case_match; simplify_eq.
Qed.

Lemma timedelta_of_float_error f e :
  timedelta_of_float f = Err e → e = OverflowError ∨ ∃ what, e = ValueError what.
Proof. unfold timedelta_of_float. repeat case_match; intros; simplify_eq; eauto. Qed.

(** The delay depends on the draw only through the jitter. *)
Lemma delay_seconds_overflow b draw attempt :
  float_pow (multiplier b) (Z.max 0 (attempt - 1)) = Err OverflowError →
  delay_seconds b draw attempt = Err OverflowError.
Proof. intros H. unfold delay_seconds. by rewrite H. Qed.

Lemma delay_seconds_defined b draw attempt :
  is_ok (float_pow (multiplier b) (Z.max 0 (attempt - 1))) = true →
  ∃ s, delay_seconds b draw attempt = Ok s.
Proof.
  unfold delay_seconds. destruct (float_pow _ _); [|done]. intros _. simpl.
  case_match; by eexists.
Qed.

Lemma default_powers_defined :
  forallb (λ n, is_ok (float_pow (multiplier default_backoff) n)) (seqZ 0 1024) = true.
Proof. vm_compute. reflexivity. Qed.

Definition without_jitter (b : Backoff) : Backoff :=
  {| initial_seconds := initial_seconds b; multiplier := multiplier b;
     max_seconds := max_seconds b; jitter_fraction := float_of_int 0 |}.

Lemma default_table_defined :
  forallb (λ a, match delay_seconds (without_jitter default_backoff) (float_of_int 0) a with
    | Ok x => bool_decide (x = float_of_int (Z.min (5 * 2 ^ (a - 1)) 300)) | Err _ => false end)
    (seqZ 1 1024) = true.
Proof. vm_compute. reflexivity. Qed.

(** The default backoff.  The first 1024 attempts have a lease, which without
    jitter is exactly 5 seconds doubled per attempt and capped at 300; the
    1025th has none, whatever is drawn: the capped product's other factor,
    [2.0 ** 1024], overflows before the cap applies. *)
Theorem default_backoff_table draw attempt :
  1 ≤ attempt →
  (attempt ≤ 1024 →
     (∃ s, delay_seconds default_backoff draw attempt = Ok s) ∧
     delay_seconds (without_jitter default_backoff) draw attempt =
       Ok (float_of_int (Z.min (5 * 2 ^ (attempt - 1)) 300))) ∧
  (attempt = 1025 → delay_seconds default_backoff draw attempt = Err OverflowError).
Proof.
  intros Hlo. split; [intros Hhi; split|intros ->].
  - apply delay_seconds_defined. rewrite Z.max_r by lia.
    pose proof default_powers_defined as H. rewrite forallb_forall in H. apply H.
    apply list_elem_of_In, elem_of_seqZ. lia.
  - pose proof default_table_defined as H. rewrite forallb_forall in H.
    specialize (H attempt). rewrite <- list_elem_of_In, elem_of_seqZ in H.
    specialize (H ltac:(lia)).
    change (delay_seconds (without_jitter default_backoff) draw attempt) with
      (delay_seconds (without_jitter default_backoff) (float_of_int 0) attempt).
    destruct (delay_seconds (without_jitter default_backoff) (float_of_int 0) attempt); [|done].
    by apply bool_decide_eq_true in H as ->.
  - apply delay_seconds_overflow. vm_compute. reflexivity.
Qed.

(** ** Claims *)

(** A row without a lease ends the batch, whichever row it is. *)
Lemma claim_rows_blocked worker lease now calls rows d r :
  r ∈ rows → (∀ n, ∃ e, lease_us lease n (sr_attempt_count r + 1) = Err e) →
  ∃ e, (claim_rows worker lease now calls rows d).1 = Err e.
Proof.
  intros Hr Hl. revert d calls. induction rows as [|x rows IH]; intros d calls; [set_solver|].
  simpl. unfold claim_row.
  apply elem_of_cons in Hr as [<-|Hr].
  - destruct (Hl calls) as [e He]. exists e. unfold mbind, M_bind, lift. by rewrite He.
  - unfold mbind, M_bind, lift, modify, mret, M_ret.
    destruct (lease_us lease calls _) as [us|e]; [|by exists e].
    destruct (dt_add_us now us) as [expires|e]; [|by exists e].
    specialize (IH Hr (save_record (claimed_row worker expires x) d) (S calls)) as [e He].
    destruct (claim_rows _ _ _ _ _ _) as [[ys|e'] d2]; [done|]. by exists e'.
Qed.

(** A claim that raises raises what the backoff or the clock does. *)
Lemma claim_rows_error worker lease now calls rows d e :
  (∀ n a e, lease_us lease n a = Err e → e ≠ OperationalError) →
  (claim_rows worker lease now calls rows d).1 = Err e → e ≠ OperationalError.
Proof.
  intros Hl. revert d calls. induction rows as [|x rows IH]; intros d calls; simpl; [done|].
  unfold claim_row, mbind, M_bind, lift, modify, mret, M_ret.
  destruct (lease_us lease calls _) as [us|e'] eqn:E; [|intros [= <-]; by eapply Hl].
  destruct (dt_add_us now us) as [expires|e'] eqn:E'; [|intros [= <-]].
  - specialize (IH (save_record (claimed_row worker expires x) d) (S calls)).
    destruct (claim_rows _ _ _ _ _ _) as [[ys|e''] d2]; [done|]. by intros [= <-]; apply IH.
  - unfold dt_add_us in E'. by destruct (in_range _); simplify_eq.
Qed.

Section failures.
Context {Ext : Type} `{!SettlementTables Ext}.
Context (env : environment) (cfg : ledger_config Ext).
Context (providers : gmap string (FulfillmentProvider Ext)) (has_ledger : bool).
Context (worker_id : string) (batch_size : Z) (backoff : Backoff).
Context (uuid5 : string → string) (random : world Ext → nat → float).
Context (write_locked : world Ext → bool).

Implicit Types (w : world Ext).

Abbreviation claim := (_claim env worker_id batch_size backoff random write_locked).

Lemma claim_lease_error w n a e :
  lease_us (claim_lease backoff random w) n a = Err e → e ≠ OperationalError.
Proof.
  simpl. destruct (delay_seconds _ _ _) as [s|e'] eqn:E; simpl.
  - by intros [->|[? ->]]%timedelta_of_float_error.
  - intros [= <-]. by rewrite (delay_seconds_error _ _ _ _ E).
Qed.

(** What one claim does, by cases. *)
Lemma wp_claim s w :
  wp (claim s)
    (λ x w', match x with
     | Ok [] => True
     | Ok _ => write_locked (begin_session w) = false
     | Err e => e ≠ OperationalError ∧ committed w' = committed w
     end) w.
Proof.
  unfold _claim. apply wp_in_session, wp_catch. unfold claim_in_session, begin_sqlite_write_transaction.
  do 4 l_step. { l_step. by l_step. }
  do 6 l_step. apply wp_in_ext, wp_of_run. intros [rows|e] f Hrun; simpl.
  - do 3 l_step. by destruct rows.
  - assert (e ≠ OperationalError) as He.
    { unfold claim_pending, own_transaction, mbind, M_bind, gets in Hrun.
      match type of Hrun with context [claim_rows ?a ?b ?c ?n ?l ?d] =>
        pose proof (claim_rows_error a b c n l d) as Herr;
        destruct (claim_rows a b c n l d) as [[ys|e'] f'] end; simplify_eq.
      by apply Herr; [apply claim_lease_error|]. }
    by destruct e.
Qed.
(** ** Passes *)

Lemma deferring_returns (m : M (world Ext) unit) w : (deferring m w).1 = Ok tt.
Proof. unfold deferring, catch. by destruct (m w) as [[[]|e] w']. Qed.

Lemma for_each_returns {A} (l : list A) (body : A → M (world Ext) unit) w :
  (∀ x w', (body x w').1 = Ok tt) → (for_each l body w).1 = Ok tt.
Proof.
  intros Hb. revert w. induction l as [|x l IH]; intros w; simpl; [done|].
  unfold mbind, M_bind. specialize (Hb x w). destruct (body x w) as [[[]|e] w1]; [apply IH|done].
Qed.

(** The passes that call a provider or apply what it answered. *)
Inductive pass : Type := DispatchCreates | ConvergeCreates | DispatchTeardowns | ConvergeTeardowns.

Definition pass_state (p : pass) : SettlementRecordState :=
  match p with
  | DispatchCreates => dispatch_pending
  | ConvergeCreates => dispatching
  | DispatchTeardowns => teardown_dispatch_pending
  | ConvergeTeardowns => tearing_down
  end.

Definition run_pass (p : pass) : M (world Ext) unit :=
  match p with
  | DispatchCreates =>
      dispatch_pending_creates env providers worker_id batch_size backoff random write_locked
  | ConvergeCreates =>
      converge_creates env cfg providers has_ledger worker_id batch_size backoff uuid5 random
        write_locked
  | DispatchTeardowns =>
      dispatch_pending_teardowns env providers worker_id batch_size backoff random write_locked
  | ConvergeTeardowns =>
      converge_teardowns env providers worker_id batch_size backoff random write_locked
  end.

Lemma claimed_pass_fails_only_in_claim s (body : SettlementRecord → M (world Ext) unit) w :
  (∀ r w', (body r w').1 = Ok tt) →
  wp (rows ← claim s; for_each rows body)
    (λ x w', x = Ok tt ∨
       ∃ e, x = Err e ∧ (claim s w).1 = Err e ∧ e ≠ OperationalError ∧ committed w' = committed w) w.
Proof.
  intros Hb. apply wp_bind. pose proof (wp_claim s w) as H. unfold wp in *.
  destruct (claim s w) as [[rows|e] w1] eqn:E; simpl in *.
  - left. by apply for_each_returns.
  - right. exists e. by destruct H.
Qed.

(** A record's failure is its own.  Whatever the adapters and the database
    raise for one aggregate (a provider that is not registered, a call that
    fails, an operation that does not read back, a conflicting output), the pass
    goes on with the other aggregates it claimed and returns; it raises only what
    its claim raised, which is never lock contention, and then it has committed
    nothing. *)
Theorem pass_fails_only_in_claim p w :
  wp (run_pass p)
    (λ x w', x = Ok tt ∨
       ∃ e, x = Err e ∧ (claim (pass_state p) w).1 = Err e ∧ e ≠ OperationalError ∧
            committed w' = committed w) w.
Proof. destruct p; apply claimed_pass_fails_only_in_claim; intros; apply deferring_returns. Qed.

(** ** An exhausted backoff *)

Lemma sql_limit_all {A} n (l : list A) : Z.of_nat (length l) ≤ n → sql_limit n l = l.
Proof.
  intros Hn. unfold sql_limit. destruct (n <? 0); [done|]. apply take_ge. lia.
Qed.

Lemma filter_length_mono {A} (P Q : A → Prop) `{∀ x, Decision (P x), ∀ x, Decision (Q x)} l :
  (∀ x, P x → Q x) → (length (filter P l) ≤ length (filter Q l))%nat.
Proof.
  intros HPQ. induction l as [|x l IH]; [done|]. rewrite !filter_cons.
  destruct (decide (P x)), (decide (Q x)); simpl; try lia. exfalso. auto.
Qed.

(** The rows of one state. *)
Definition in_state_rows (f : FDB) (s : SettlementRecordState) : list SettlementRecord :=
  filter (λ r, sr_state r = s) (records f).

Lemma claimable_state s now r :
  claimable [settlement_state_value s] now r = true → sr_state r = s.
Proof.
  unfold claimable. intros [H%bool_decide_eq_true _]%andb_true_iff.
  apply list_elem_of_singleton in H. by destruct (sr_state r), s.
Qed.

Lemma claim_candidates_all f s now r :
  r ∈ records f → claimable [settlement_state_value s] now r = true →
  Z.of_nat (length (in_state_rows f s)) ≤ batch_size →
  r ∈ claim_candidates f [settlement_state_value s] batch_size now.
Proof.
  intros Hr Hc Hn. unfold claim_candidates. rewrite sql_limit_all.
  - apply elem_of_sort_by, list_elem_of_filter. done.
  - rewrite sort_by_perm. etrans; [|exact Hn]. apply inj_le. apply filter_length_mono.
    intros x. apply claimable_state.
Qed.

(** A claim that cannot be leased blocks its state.  While an aggregate's
    next attempt has no lease, as at 1024 failed attempts with a doubling
    backoff, every claim of its state made once its last lease has lapsed raises
    and commits nothing: no aggregate of that state is claimed, this one's
    count does not move, and so the same holds of every later claim. *)
Theorem exhausted_backoff_blocks_claims s w r :
  r ∈ records (settlement (ext (committed w))) →
  claimable [settlement_state_value s] (clock env (clock_reads w)) r = true →
  Z.of_nat (length (in_state_rows (settlement (ext (committed w))) s)) ≤ batch_size →
  (∀ draw, ∃ e, delay_seconds backoff draw (sr_attempt_count r + 1) = Err e) →
  wp (claim s)
    (λ x w', committed w' = committed w ∧
       (if write_locked (begin_session w) then x = Ok [] else ∃ e, x = Err e)) w.
Proof.
  intros Hr Hc Hn Hl. unfold _claim. apply wp_in_session, wp_catch.
  unfold claim_in_session, begin_sqlite_write_transaction.
  do 4 l_step. { l_step. by l_step. }
  do 6 l_step. apply wp_in_ext. unfold wp, claim_pending, own_transaction, mbind, M_bind, gets.
  match goal with |- context [claim_rows ?a ?b ?c ?n ?l ?d] =>
    assert (∃ e, (claim_rows a b c n l d).1 = Err e) as [e He];
    [|pose proof (claim_rows_error a b c n l d e (claim_lease_error _) He) as Hne;
      destruct (claim_rows a b c n l d) as [[ys|e'] f']; [done|]] end.
  - apply claim_rows_blocked with r; [by apply claim_candidates_all|].
    intros n. destruct (Hl (random (tick (begin_session w)) n)) as [e He]. exists e. simpl.
    by rewrite He.
  - injection He as ->. simpl. destruct e; first [done | split; [done|by eexists]].
Qed.
End failures.
