(* ===== verification/ConvergenceLiveness.v ===== *)
(** A create the provider reports finished becomes active in the cycle that
    hears of it, with every output recorded and the lease naming its target. *)
From S2P Require Import Prelude PyNum PyValue JobMetadata PyTime PoolDeclarations LedgerTypes.
From S2P Require Import LedgerMatching.
From S2P Require Import Ledger LedgerLifecycle LedgerSpec LedgerTrack.
From S2P Require Import LedgerRefinement LedgerCapacity.
From S2P Require Import Backoff Settlement SettlementFacts Sessions Scheduler.
From S2P Require Import Release Fulfillment FulfillmentFacts Convergence ConvergenceProperties.

Local Open Scope Z_scope.

(** ** Outputs *)

(** The rows known for [keys], all of them this aggregate's. *)
Definition outputs_recorded (id_of : string → string) (i : string) (keys : list string) (d : FDB)
    : Prop :=
  ∀ key, key ∈ keys → ∃ x, get_provisioned d (id_of key) = Some x ∧ pr_reservation_id x = i.

(** No other aggregate's output has one of these identities. *)
Definition outputs_free (id_of : string → string) (i : string) (keys : list string) (d : FDB)
    : Prop :=
  ∀ key x, key ∈ keys → get_provisioned d (id_of key) = Some x → pr_reservation_id x = i.

Lemma get_provisioned_app d p x :
  get_provisioned d p = Some x →
  ∀ y, get_provisioned (set_provisioned (λ l, l ++ [y]) d) p = Some x.
Proof. intros Hget y. by apply find_by_app_l. Qed.

Lemma get_provisioned_new d y :
  get_provisioned d (pr_id y) = None →
  get_provisioned (set_provisioned (λ l, l ++ [y]) d) (pr_id y) = Some y.
Proof. apply find_by_app_new. Qed.

Lemma get_provisioned_other d y p :
  p ≠ pr_id y →
  get_provisioned (set_provisioned (λ l, l ++ [y]) d) p = get_provisioned d p.
Proof. apply find_by_app_other. Qed.

(** The identity an output of a fulfillment is recorded under. *)
Definition output_id (uuid5 : string → string) (fulfillment_id key : string) : string :=
  uuid5 (provisioned_resource_name ("fulfillment:" +:+ fulfillment_id) key).

Lemma wp_add_outputs uuid5 i f created refs d r :
  let id_of := output_id uuid5 f in
  get d i = Some r → sr_fulfillment_id r ≠ None → outputs_free id_of i refs d →
  wp (for_each refs (λ key, add_output uuid5 i f key created))
    (λ x d', x = Ok tt ∧ records d' = records d ∧ outputs_recorded id_of i refs d') d.
Proof.
  intros id_of Hget Hf Hfree.
  enough (∀ done d, get d i = Some r → outputs_free id_of i refs d → outputs_recorded id_of i done d →
    wp (for_each refs (λ key, add_output uuid5 i f key created))
      (λ x d', x = Ok tt ∧ records d' = records d ∧ outputs_recorded id_of i (done ++ refs) d') d) as H.
  { eapply wp_mono; [apply (H [] d)|]; try done. by intros key ?%not_elem_of_nil. }
  clear d Hget Hfree. induction refs as [|key refs IH]; intros done d Hget Hfree Hdone; simpl.
  { wp_step. rewrite app_nil_r. done. }
  assert (∀ d', records d' = records d → outputs_free id_of i refs d' →
    outputs_recorded id_of i (done ++ [key]) d' →
    wp (for_each refs (λ key, add_output uuid5 i f key created))
      (λ x d2, x = Ok tt ∧ records d2 = records d ∧ outputs_recorded id_of i (done ++ key :: refs) d2)
      d') as Hnext.
  { intros d' Hrec Hfree' Hdone'. eapply wp_mono; [apply (IH (done ++ [key]) d')|]; try done.
    - by unfold get; rewrite Hrec.
    - intros x d2 (? & ? & ?). rewrite <- app_assoc in *. split_and!; [done|congruence|done]. }
  assert (outputs_free id_of i refs d) as Hfree' by (intros ?? ?; apply Hfree; by right).
  wp_step. unfold add_output, add_provisioned_resource. do 3 wp_step. simpl. rewrite Hget. simpl.
  destruct (sr_fulfillment_id r) as [fid|]; [|done].
  destruct (get_provisioned d (id_of key)) as [existing|] eqn:He; fold (output_id uuid5 f key); fold id_of.
  - rewrite He. rewrite bool_decide_eq_true_2 by (eapply Hfree; [by left|exact He]).
    do 2 wp_step. apply Hnext; [done|done|].
    intros k [Hk|Hk%list_elem_of_singleton]%elem_of_app; [by apply Hdone|]. subst k.
    exists existing. split; [exact He|]. eapply Hfree; [by left|exact He].
  - rewrite He. do 4 wp_step.
    set (y := {| pr_id := _; pr_reservation_id := _; pr_fulfillment_id := _; pr_status := _;
                 pr_created_at := _ |}).
    apply Hnext; [done| |].
    + intros k x Hk Hx. destruct (decide (id_of k = pr_id y)) as [Heq|Hne].
      * rewrite Heq, get_provisioned_new in Hx by done. by injection Hx as <-.
      * rewrite get_provisioned_other in Hx by done. by eapply Hfree'.
    + intros k [Hk|Hk%list_elem_of_singleton]%elem_of_app.
      * destruct (Hdone k Hk) as (x & ? & ?). exists x. split; [by apply get_provisioned_app|done].
      * subst k. exists y. split; [by apply get_provisioned_new|done].
Qed.

(** ** The activation *)

Lemma wp_activate i d r :
  get d i = Some r → sr_state r = dispatching →
  wp (transition i (settlement_state_value active) [])
    (λ x d', x = Ok (set_sr_state active r) ∧ d' = save_record (set_sr_state active r) d) d.
Proof.
  intros Hget Hs. unfold transition. simpl. do 2 wp_step. simpl. rewrite Hget, Hs.
  rewrite bool_decide_eq_false_2 by done. do 3 wp_step.
  replace (validate_transition _ _) with (Ok active : result SettlementRecordState)
    by (vm_compute; reflexivity).
  do 3 wp_step. by wp_step.
Qed.

Section liveness.
Context {Ext : Type} `{!SettlementTables Ext}.
Context (env : environment) (cfg : ledger_config Ext).
Context (providers : gmap string (FulfillmentProvider Ext)) (has_ledger : bool).
Context (worker_id : string) (backoff : Backoff).
Context (uuid5 : string → string) (random : world Ext → nat → float).
Context (write_locked : world Ext → bool).

Implicit Types (w : world Ext) (d : DB Ext).

(** The lease a target can still be recorded on. *)
Definition untargeted (lease : CapacityReservation) : Prop :=
  is_released (res_state lease) = false ∧ executor_target lease = None ∧
  offering_mode lease ≠ None.

(** The reservation's row, if there is one, reads back. *)
Definition readable (d : DB Ext) (i : string) : Prop :=
  ∀ lease, get_reservation_row i d = Some lease → ∃ p, _reservation_payload cfg lease = Ok p.

Lemma readable_of_check d i :
  match get_reservation_row i d with
  | Some lease => is_ok (_reservation_payload cfg lease)
  | None => true
  end = true → readable d i.
Proof.
  intros H lease Hl. rewrite Hl in H. destruct (_reservation_payload cfg lease); [by eexists|done].
Qed.

Lemma payload_targeted lease t p :
  _reservation_payload cfg lease = Ok p →
  ∃ p', _reservation_payload cfg (set_executor_target t lease) = Ok p'.
Proof.
  unfold _reservation_payload. intros (dims & Hd & _)%result_bind_Ok.
  replace (_reservation_dimensions (set_executor_target t lease)) with (_reservation_dimensions lease)
    by done.
  rewrite Hd. simpl. by eexists.
Qed.

Lemma executor_target_error m e :
  fulfillment_executor_target m = Err e → ∃ what, e = ProviderConfigInvalidError what.
Proof.
  unfold fulfillment_executor_target, _metadata. destruct (validate_metadata m); [done|].
  intros [= <-]. by eexists.
Qed.

(** Recording the target never fails the activation, and records it on a lease
    that has none. *)
Lemma wp_record_target i (metadata : value) m w :
  metadata_dict metadata = Ok m → readable (working w) i →
  wp (_record_executor_target cfg has_ledger i metadata)
    (λ x w', x = Ok tt ∧ committed w' = committed w ∧
       ext (working w') = ext (working w) ∧
       ∀ lease t, has_ledger = true → get_reservation_row i (working w) = Some lease →
         untargeted lease → fulfillment_executor_target m = Ok t →
         ∃ lease', get_reservation_row i (working w') = Some lease' ∧
                   executor_target lease' = Some t) w.
Proof.
  intros Hm Hread. unfold _record_executor_target. destruct has_ledger; [|by l_step].
  l_step. do 2 l_step. rewrite Hm. do 2 l_step.
  destruct (fulfillment_executor_target m) as [t|e] eqn:Ht.
  2: { destruct (executor_target_error _ _ Ht) as [what ->]. by l_step. }
  l_step. unfold record_executor_target_in_session. do 2 l_step.
  destruct (get_reservation_row i (working w)) as [lease|] eqn:Hget; [|do 2 l_step; done].
  destruct (is_released (res_state lease)) eqn:Hrel.
  { do 2 l_step. split_and!; try done. intros ? ? _ [= <-] (? & _). congruence. }
  destruct (find_by_Some _ _ _ _ Hget) as [_ Hid].
  destruct (Hread lease Hget) as [p Hp]. do 2 l_step.
  unfold _sync_executor_fields. destruct (executor_target lease) as [t0|] eqn:Htarget.
  { do 4 l_step. rewrite Hp. do 2 l_step.
    split_and!; try done.
    intros ? ? _ [= <-] (_ & ? & _). congruence. }
  destruct (offering_mode lease) as [mode|] eqn:Hmode.
  2: { simpl. l_step. split_and!; try done. intros ? ? _ [= <-] (_ & _ & ?). congruence. }
  destruct (payload_targeted lease (Some t) p Hp) as [p' Hp'].
  do 4 l_step. rewrite Hp'. do 2 l_step. split_and!; try done.
  intros lease0 t' _ [= <-] _ [= <-]. exists (set_executor_target (Some t) lease).
  split; [|done]. rewrite <- Hid. apply (find_by_replace_eq capacity_reservation_id (set_executor_target (Some t) lease) _ lease). simpl. by rewrite Hid.
Qed.

(** C7: a finished create converges.  Suppose the provider answers that the
    create succeeded and its outputs resolve; the database takes the write
    lock; this worker still holds the [dispatching] aggregate, whose stored
    metadata is an object; no output's identity is stored for another
    reservation; and the reservation's ledger row, if there is one, reads back
    (its stored dimensions are amounts).  Then handling the answer leaves the
    aggregate [active] with its failed attempts cleared and its claim released,
    with a provisioned resource of the aggregate under every output's identity;
    and a lease that had no executor target names the one the operation's
    metadata holds. *)
Theorem finished_create_activates r w st w1 p metadata refs row f :
  let i := sr_reservation_id r in
  let d1 := committed w1 in
  require providers (sr_provider r) = Ok p →
  _provider_status providers r (sr_provider_metadata r) w = (Ok st, w1) →
  ps_state st = op_succeeded →
  metadata_dict (sr_provider_metadata r) = Ok metadata →
  resolve_provisioned_resources p metadata = Ok refs →
  write_locked (begin_session w1) = false →
  get (settlement (ext d1)) i = Some row → owned worker_id dispatching row = true →
  sr_fulfillment_id row = Some f →
  (∃ m, metadata_dict (sr_provider_metadata row) = Ok m) →
  outputs_free (output_id uuid5 f) i refs (settlement (ext d1)) → readable d1 i →
  wp (_converge_create_record env cfg providers has_ledger worker_id backoff uuid5 random
        write_locked r)
    (λ x w', x = Ok tt ∧
       (∃ row', get (settlement (ext (committed w'))) i = Some row' ∧ sr_state row' = active ∧
          sr_attempt_count row' = 0 ∧ sr_claimed_by row' = None ∧
          sr_fulfillment_id row' = Some f) ∧
       outputs_recorded (output_id uuid5 f) i refs (settlement (ext (committed w'))) ∧
       ∀ lease t m, has_ledger = true → get_reservation_row i d1 = Some lease → untargeted lease →
         metadata_dict (sr_provider_metadata row) = Ok m →
         fulfillment_executor_target m = Ok t →
         ∃ lease', get_reservation_row i (committed w') = Some lease' ∧
                   executor_target lease' = Some t) w.
Proof.
  intros i d1 Hp Hst Hok Hmeta Hrefs Hlock Hget Ho Hf [m Hm] Hfree Hread.
  unfold _converge_create_record, deferring. l_step. l_step.
  apply (wp_of_run _ _ w). intros x w1' Hrun. rewrite Hst in Hrun. injection Hrun as <- <-.
  rewrite Hok. unfold apply_succeeded. do 2 l_step. rewrite Hp. do 2 l_step. rewrite Hmeta.
  rewrite Hrefs. l_step. fold i. unfold _apply_create_success, _with_owned_record.
  apply wp_in_session. unfold begin_sqlite_write_transaction, settled. do 3 l_step. rewrite Hlock.
  do 5 l_step. simpl. fold d1. rewrite Hget, Ho.
  apply andb_true_iff in Ho as [Hs%bool_decide_eq_true Hc%bool_decide_eq_true].
  l_step. unfold create_success, settled. do 4 l_step. simpl. fold d1. rewrite Hget, Hf. do 2 l_step.
  l_step. apply wp_in_ext. eapply wp_mono; [by apply (wp_add_outputs _ _ _ _ _ _ row); [|congruence|]|].
  intros ? g (-> & Hrec & Hout). l_step. apply wp_in_ext. simpl. rewrite settlement_put.
  eapply wp_mono; [apply (wp_activate i g row); [by unfold get; rewrite Hrec|done]|].
  intros ? g' [-> ->]. simpl. rewrite !put_settlement_put.
  eapply wp_mono; [by apply (wp_record_target i (sr_provider_metadata row) m)|]. simpl.
  intros ? w2 (-> & Hcom2 & Hext2 & Hlease). l_step. unfold progressed. apply wp_in_ext. rewrite Hext2.
  rewrite settlement_put.
  assert (get (save_record (set_sr_state active row) g) i = Some (set_sr_state active row)) as Hrow.
  { destruct (find_by_Some _ _ _ _ Hget) as [_ Hid]. rewrite <- Hid.
    apply (get_saved _ i row); [|done]. unfold get. by rewrite Hrec. }
  unfold record_progress. do 2 wp_step. unfold id at 1. rewrite Hrow.
  unfold held_by. simpl sr_claimed_by. rewrite bool_decide_eq_true_2 by done. do 4 wp_step. wp_step.
  do 4 l_step. simpl. split; [done|]. rewrite !settlement_put. split_and!.
  - destruct (find_by_Some _ _ _ _ Hrow) as [_ Hid].
    exists (released_claim (set_sr_attempt_count 0 (set_sr_state active row))).
    split; [|by rewrite <- Hf]. rewrite <- Hid.
    by apply (get_saved _ i (set_sr_state active row)).
  - done.
  - intros lease t m' Hl Hlrow Hun Hm' Ht. rewrite Hm in Hm'. injection Hm' as <-.
    apply (Hlease lease t Hl Hlrow Hun Ht).
Qed.
End liveness.
