(* ===== verification/SiteHistory.v ===== *)
(** A site at work: callers schedule and fulfill while several convergence
    workers, each with its own identity and backoff, run their cycles. *)
From S2P Require Import Prelude PyNum PyValue PyTime PoolDeclarations LedgerTypes.
From S2P Require Import LedgerMatching Ledger.
From S2P Require Import LedgerLifecycle LedgerSpec LedgerCapacity Backoff Settlement.
From S2P Require Import SettlementFacts.
From S2P Require Import SettlementClaims Sessions Scheduler SchedulerProperties Fulfillment.
From S2P Require Import FulfillmentFacts FulfillmentProperties Convergence ConvergenceFacts.
From stdpp Require Import relations.


Local Open Scope Z_scope.

(** One process's watchdog, with what it draws and the locks it meets. *)
Record convergence_worker (Ext : Type) : Type := {
  cw_id : string;
  cw_batch_size : Z;
  cw_backoff : Backoff;
  cw_uuid5 : string → string;
  cw_random : world Ext → nat → float;
  cw_write_locked : world Ext → bool;
}.
Arguments cw_id {Ext}. Arguments cw_batch_size {Ext}. Arguments cw_backoff {Ext}.
Arguments cw_uuid5 {Ext}. Arguments cw_random {Ext}. Arguments cw_write_locked {Ext}.

Section site.
Context {Ext : Type} `{!SettlementTables Ext}.
Context (env : environment) (cfg : ledger_config Ext).
Context (coerce : value → option decimal) (default_kind : option string).
Context (host_requirement : option dict) (hosts : option (Ext → gset string)).
Context (providers : gmap string (FulfillmentProvider Ext)).
Context (read_config : Ext → string → string → result dict) (has_ledger : bool).

Implicit Types (w : world Ext) (d : DB Ext).

(** One method of a worker's watchdog. *)
Definition worker_cycle (k : convergence_worker Ext)
    : M (world Ext) (RecoveryDiagnostics * RecoveryDiagnostics) :=
  run_cycle env cfg providers has_ledger (cw_id k) (cw_batch_size k) (cw_backoff k) (cw_uuid5 k)
    (cw_random k) (cw_write_locked k).

Definition worker_advance (k : convergence_worker Ext) (is_paused : bool)
    : M (world Ext) (RecoveryDiagnostics * RecoveryDiagnostics) :=
  advance_cycle env cfg providers has_ledger (cw_id k) (cw_batch_size k) (cw_backoff k)
    (cw_uuid5 k) (cw_random k) (cw_write_locked k) is_paused.

Inductive site_event : Type :=
  | SeSchedule (request : PhysicalSettlementRequest)
  | SeFulfillment (call : fulfillment_call)
  | SeCycle (worker : convergence_worker Ext)
  | SeAdvance (worker : convergence_worker Ext) (is_paused : bool).

Definition run_event (e : site_event) : M (world Ext) unit :=
  match e with
  | SeSchedule request =>
      schedule_resource env cfg coerce default_kind host_requirement hosts request ≫= λ _, mret tt
  | SeFulfillment c => run_fulfillment cfg providers read_config has_ledger c
  | SeCycle k => worker_cycle k ≫= λ _, mret tt
  | SeAdvance k is_paused => worker_advance k is_paused ≫= λ _, mret tt
  end.

(** Callers and loops go on after an exception. *)
Definition site_history (es : list site_event) (w : world Ext) : world Ext :=
  fold_left (λ w e, (run_event e w).2) es w.

Lemma advances_event e : lawful_registry cfg providers → advances cfg (run_event e).
Proof.
  intros Hlaw. destruct e; simpl; unfold worker_cycle, worker_advance.
  - apply advances_bind; [apply advances_schedule|]. by intros; apply advances_same.
  - by apply advances_call.
  - apply advances_bind; [by apply advances_run_cycle|]. by intros; apply advances_same.
  - apply advances_bind; [by apply advances_advance_cycle|]. by intros; apply advances_same.
Qed.

Lemma site_history_advance es w :
  lawful_registry cfg providers → good (committed w) →
  advance cfg (committed w) (committed (site_history es w)).
Proof.
  intros Hlaw. unfold site_history. revert w. induction es as [|e es IH]; intros w Hw; simpl;
    [reflexivity|].
  pose proof (advances_event e Hlaw w Hw) as H. unfold wp in H. etrans; [exact H|].
  apply IH. by eapply advance_good.
Qed.

(** C3: a working site keeps both databases.  Whatever callers schedule and
    fulfill, and whatever several convergence workers do between their calls,
    with adapters that keep to their own tables and others committing between a
    call and its answer: what is committed is reached by steps of the ledger's
    specification that keep every window and declared quantity and by the
    settlement repository's own steps, so both databases stay well formed and a
    site within its capacity stays within it. *)
Theorem site_keeps_both_databases es w :
  lawful_registry cfg providers → good (committed w) →
  let d' := committed (site_history es w) in
  advance cfg (committed w) d' ∧ good d' ∧ (safe cfg (committed w) → safe cfg d').
Proof.
  intros Hlaw Hw. cbv zeta. pose proof (site_history_advance es w Hlaw Hw) as Ha.
  split_and!; [done|by eapply advance_good|]. by apply advance_safe; [|apply Hw].
Qed.

(** C6: the failure reason of a finished teardown tells what was torn down.
    On a site whose compensation markers are only on aggregates in teardown,
    that stays so; an aggregate whose compensating teardown has begun carries
    the marker ever after, however often its teardown fails and is retried; and
    one that was ever delivered (active, or in teardown without the marker)
    never gets it. *)
Theorem marker_tells_compensation es w :
  lawful_registry cfg providers → good (committed w) →
  let f := settlement (ext (committed w)) in
  let f' := settlement (ext (committed (site_history es w))) in
  marker_sound f →
  marker_sound f' ∧
  (∀ i r, get f i = Some r → sr_failure_reason r = VStr CREATE_COMPENSATION →
     ∃ r', get f' i = Some r' ∧ sr_failure_reason r' = VStr CREATE_COMPENSATION ∧
           in_teardown r') ∧
  (∀ i r, get f i = Some r → sr_failure_reason r ≠ VStr CREATE_COMPENSATION →
     sr_state r = active ∨ in_teardown r →
     ∃ r', get f' i = Some r' ∧ sr_failure_reason r' ≠ VStr CREATE_COMPENSATION ∧
           (sr_state r' = active ∨ in_teardown r')).
Proof.
  intros Hlaw Hw f f' Hs. destruct (site_history_advance es w Hlaw Hw) as [_ Hf].
  assert (∀ x, sr_state x ∈ active :: _TEARDOWN_INITIATED_STATES ↔ sr_state x = active ∨ in_teardown x)
    as Hin by (intros x; apply elem_of_cons).
  split_and!; [by eapply dsteps_marker_sound| |].
  - intros i r Hget Hm. destruct (find_by_Some _ _ _ _ Hget) as [Hr _].
    apply (dsteps_compensated f f' i r); [done|apply Hw|done..|]. by apply Hs.
  - intros i r Hget Hm Hd%Hin.
    destruct (dsteps_delivered f f' i r Hf ltac:(apply Hw) Hget Hm Hd) as (r' & ? & ? & ?%Hin).
    by exists r'.
Qed.
End site.

(** * A watchdog on the demo site: instances of its theorems, and the two ways one
    aggregate or one busy moment stops a whole cycle. *)
From S2P Require Import Prelude PyNum PyValue PyNumFacts JobMetadata PyTime PyTimeFacts.
From S2P Require Import PoolDeclarations.
From S2P Require Import LedgerTypes LedgerMatching Ledger LedgerLifecycle LedgerRegistry.
From S2P Require Import LedgerSpec.
From S2P Require Import LedgerCapacity LedgerHistory LedgerProperties Backoff Settlement.
From S2P Require Import SettlementFacts.
From S2P Require Import SettlementClaims Sessions RoundRobin Scheduler SchedulerFacts.
From S2P Require Import SchedulerProperties.
From S2P Require Import Release ReleaseProperties CompositionDemo Fulfillment FulfillmentFacts.
From S2P Require Import FulfillmentProperties Convergence ConvergenceFacts.
From S2P Require Import ConvergenceProperties.
From S2P Require Import ConvergenceLiveness.
From stdpp Require Import relations.


Local Close Scope Z_scope.
Local Open Scope Z_scope.
Local Open Scope string_scope.

(** ** A worker *)

Definition half (w : world FDB) (n : nat) : float := float_of_ratio 1 2.
Definition unlocked (w : world FDB) : bool := false.
Definition demo_uuid5 (name : string) : string := "uuid:" +:+ name.

Definition demo_worker : convergence_worker FDB :=
  {| cw_id := "w1"; cw_batch_size := 50; cw_backoff := default_backoff; cw_uuid5 := demo_uuid5;
     cw_random := half; cw_write_locked := unlocked |}.

Definition demo_claim (s : SettlementRecordState) : M (world FDB) (list SettlementRecord) :=
  _claim demo_env "w1" 50 default_backoff half unlocked s.

Definition demo_cycle : M (world FDB) (RecoveryDiagnostics * RecoveryDiagnostics) :=
  worker_cycle demo_env site_cfg demo_providers true demo_worker.

(** One cycle takes the dispatching aggregate to active, records its output,
    and names its target on the lease. *)
Example one_cycle_activates :
  (is_ok (demo_cycle begun.2).1, sr_state (row_of "id2" (demo_cycle begun.2).2),
   pr_id <$> provisioned (settlement (ext (committed (demo_cycle begun.2).2))),
   executor_target <$> get_reservation_row "id2" (committed (demo_cycle begun.2).2)) =
  (true, active, ["uuid:provisioned-resource:fulfillment:f1:vm-a"], Some (Some "vm-a")).
Proof. vm_compute. reflexivity. Qed.

(** ** The theorems *)

Definition demo_events : list site_event :=
  [SeCycle demo_worker; SeFulfillment (FcTeardown "f1"); SeAdvance demo_worker true;
   SeSchedule settle_request].

Definition demo_history : world FDB :=
  site_history demo_env site_cfg dec_of_value (Some "compute.gpu") None None demo_providers
    demo_config true demo_events begun.2.

Example demo_history_torn_down :
  sr_state (row_of "id2" demo_history) = torn_down.
Proof. vm_compute. reflexivity. Qed.

Lemma begun_good : good (committed begun.2).
Proof.
  refine (advance_good site_cfg _ _ (wp_snd _ (λ w', advance site_cfg _ (committed w')) _
    (advances_begin site_cfg demo_providers demo_config true demo_lawful "id2" "vms" demo_request
       "f1" scheduled_site scheduled_site_good)) scheduled_site_good).
Qed.

Lemma site_keeps_both_databases_witness :
  let d' := committed demo_history in
  advance site_cfg (committed begun.2) d' ∧ good d' ∧
  (safe site_cfg (committed begun.2) → safe site_cfg d').
Proof.
  apply (site_keeps_both_databases demo_env site_cfg dec_of_value (Some "compute.gpu") None None
    demo_providers demo_config true demo_events begun.2).
  - apply demo_lawful.
  - apply begun_good.
Defined.

(** The compensating teardown of a failed create, and the cycle that ends it. *)
Definition compensated_site : world FDB :=
  (begin_compensating_teardown demo_providers demo_config "f1" always failed_site).2.

Lemma failed_site_good : good (committed failed_site).
Proof. split; [exact (wf_set_ext _ _ (gd_ledger _ begun_good))|apply failed_site_wf]. Qed.

Lemma compensated_site_good : good (committed compensated_site).
Proof.
  refine (advance_good site_cfg _ _ (wp_snd _ (λ w', advance site_cfg _ (committed w')) _
    (advances_compensate site_cfg demo_providers demo_config "f1" always failed_site
       failed_site_good)) failed_site_good).
Qed.

Lemma compensated_marker : marker_sound (settlement (ext (committed compensated_site))).
Proof.
  intros r Hr. assert (records (settlement (ext (committed compensated_site))) =
    [row_of "id2" compensated_site]) as Heq by (vm_compute; reflexivity).
  rewrite Heq in Hr. apply list_elem_of_singleton in Hr as ->. intros _. unfold in_teardown.
  assert (sr_state (row_of "id2" compensated_site) = teardown_dispatch_pending) as ->
    by (vm_compute; reflexivity).
  apply list_elem_of_here.
Qed.

Lemma marker_tells_compensation_witness :
  ∃ r', get (settlement (ext (committed
      (site_history demo_env site_cfg dec_of_value (Some "compute.gpu") None None demo_providers
         demo_config true [SeCycle demo_worker] compensated_site)))) "id2" = Some r' ∧
    sr_failure_reason r' = VStr CREATE_COMPENSATION ∧ in_teardown r'.
Proof.
  destruct (marker_tells_compensation demo_env site_cfg dec_of_value (Some "compute.gpu") None None
    demo_providers demo_config true [SeCycle demo_worker] compensated_site)
    as (_ & H & _).
  - apply demo_lawful.
  - apply compensated_site_good.
  - apply compensated_marker.
  - apply (H "id2" (row_of "id2" compensated_site)); vm_compute; reflexivity.
Defined.

Lemma default_backoff_table_witness :
  delay_seconds (without_jitter default_backoff) (float_of_int 0) 4 = Ok (float_of_int 40).
Proof.
  destruct (default_backoff_table (float_of_int 0) 4) as [H _]; [lia|].
  destruct H as [_ H]; [lia|]. exact H.
Defined.

(** The demo's aggregate, claimed. *)
Definition claimed_site : world FDB := (demo_claim dispatching begun.2).2.

Lemma finished_create_activates_witness :
  let row := row_of "id2" claimed_site in
  wp (_converge_create_record demo_env site_cfg demo_providers true "w1" default_backoff demo_uuid5
        half unlocked row)
    (λ x w', x = Ok tt ∧
       (∃ row', get (settlement (ext (committed w'))) "id2" = Some row' ∧ sr_state row' = active ∧
          sr_attempt_count row' = 0 ∧ sr_claimed_by row' = None ∧
          sr_fulfillment_id row' = Some "f1") ∧
       outputs_recorded (output_id demo_uuid5 "f1") "id2" ["vm-a"]
         (settlement (ext (committed w'))) ∧
       ∀ lease t m, true = true → get_reservation_row "id2" (committed claimed_site) = Some lease →
         untargeted lease → metadata_dict (sr_provider_metadata row) = Ok m →
         fulfillment_executor_target m = Ok t →
         ∃ lease', get_reservation_row "id2" (committed w') = Some lease' ∧
                   executor_target lease' = Some t) claimed_site.
Proof.
  apply (finished_create_activates demo_env site_cfg demo_providers true "w1" default_backoff
    demo_uuid5 half unlocked (row_of "id2" claimed_site) claimed_site
    {| ps_state := op_succeeded; ps_detail := VNone |} claimed_site demo_provider job_metadata
    ["vm-a"] (row_of "id2" claimed_site) "f1").
  1-9: vm_compute; reflexivity.
  - exists job_metadata. vm_compute. reflexivity.
  - intros key x _. assert (provisioned (settlement (ext (committed claimed_site))) = []) as Hp
      by (vm_compute; reflexivity).
    unfold get_provisioned. rewrite Hp. intros H. discriminate H.
  - apply readable_of_check. vm_compute. reflexivity.
Defined.

(** ** What stops a cycle *)

(** Beside the demo's aggregate, one whose operation has failed 1024 times, its
    last lease lapsed. *)
Definition exhausted_row : SettlementRecord :=
  let r := row_of "id2" begun.2 in
  set_sr_attempt_count 1024
    {| sr_reservation_id := "id9"; sr_fulfillment_id := Some "f9"; sr_market := sr_market r;
       sr_requirements := sr_requirements r;
       sr_resource_id_constraint := sr_resource_id_constraint r;
       sr_settlement_resource_id := sr_settlement_resource_id r; sr_pool_id := sr_pool_id r;
       sr_provider := "gone"; sr_resource_attributes := sr_resource_attributes r;
       sr_resource_host_id := sr_resource_host_id r;
       sr_fulfillment_request := sr_fulfillment_request r;
       sr_prepared_create_operation := sr_prepared_create_operation r;
       sr_prepared_teardown_operation := sr_prepared_teardown_operation r;
       sr_provider_metadata := sr_provider_metadata r;
       sr_teardown_provider_metadata := sr_teardown_provider_metadata r;
       sr_failure_reason := sr_failure_reason r; sr_failure_message := sr_failure_message r;
       sr_state := dispatching; sr_claimed_by := None; sr_claim_expires_at := None;
       sr_attempt_count := 0; sr_created_at := sr_created_at r |}.

Definition with_rows (rows : list SettlementRecord) (w : world FDB) : world FDB :=
  let f := settlement (ext (committed w)) in
  let d := set_ext {| records := rows; cursors := cursors f; provisioned := provisioned f |}
             (committed w) in
  {| working := d; committed := d; clock_reads := clock_reads w; ids_drawn := ids_drawn w;
     depth := depth w |}.

Definition exhausted_site : world FDB := with_rows [row_of "id2" begun.2; exhausted_row] begun.2.

(** The claim of [dispatching] overflows, so the cycle ends there: the healthy
    aggregate, activated without the other, is not even polled. *)
Example exhausted_backoff_stops_cycle :
  ((demo_cycle exhausted_site).1, sr_state (row_of "id2" (demo_cycle exhausted_site).2),
   committed (demo_cycle exhausted_site).2 = committed exhausted_site) =
  (Err OverflowError, dispatching,
   committed exhausted_site = committed exhausted_site).
Proof. vm_compute. reflexivity. Qed.

Lemma exhausted_backoff_blocks_claims_witness :
  wp (demo_claim dispatching)
    (λ x w', committed w' = committed exhausted_site ∧
       (if unlocked (begin_session exhausted_site) then x = Ok [] else ∃ e, x = Err e))
    exhausted_site.
Proof.
  apply (exhausted_backoff_blocks_claims demo_env "w1" 50 default_backoff half unlocked dispatching
    exhausted_site exhausted_row).
  - apply list_elem_of_further, list_elem_of_here.
  - vm_compute. reflexivity.
  - vm_compute. discriminate.
  - intros draw. exists OverflowError. apply delay_seconds_overflow. vm_compute. reflexivity.
Defined.

(** A teardown to be retried, with another worker's outcome being written when
    the requeue begins its transaction. *)
Definition requeue_site : world FDB :=
  with_rows [set_sr_state teardown_failed exhausted_row; row_of "id2" begun.2] begun.2.

Definition locked_after_claim (w : world FDB) : bool :=
  existsb (λ r, bool_decide (sr_claimed_by r = Some "w1"))
    (records (settlement (ext (committed w)))).

Definition contended_cycle : result (RecoveryDiagnostics * RecoveryDiagnostics) * world FDB :=
  worker_cycle demo_env site_cfg demo_providers true
    {| cw_id := "w1"; cw_batch_size := 50;
       cw_backoff := {| initial_seconds := float_of_int 5; multiplier := float_of_int 1;
                        max_seconds := float_of_int 300; jitter_fraction := float_of_int 0 |};
       cw_uuid5 := demo_uuid5; cw_random := half; cw_write_locked := locked_after_claim |}
    requeue_site.

(** The contention a claim or a record's outcome would defer ends the cycle. *)
Example requeue_contention_stops_cycle :
  (contended_cycle.1, sr_state (row_of "id2" contended_cycle.2)) = (Err OperationalError, dispatching).
Proof. vm_compute. reflexivity. Qed.
