(* ===== verification/TimerGate.v ===== *)
(** The timer gate of the convergence watchdog
    ([FulfillmentConvergenceWatchdog.pause], [resume], [is_at_gate], [run] and
    [_run_timer_cycle]): what an operator who paused the timer may rely on.

    One asyncio task runs the loop; between two of its awaits nothing else of
    the event loop runs.  A state is the task at one of those awaits, and
    events are what the loop can schedule there: a pause, a resume, the task's
    own turn, and its cancellation. *)
From S2P Require Import Prelude.

Local Open Scope Z_scope.

(** Where the task is.  [Waiting] is blocked in [Event.wait]; setting the event
    schedules it, and it then reads the event again ([Woken]).  [Starting] is
    the task before its first turn. *)
Inductive phase : Type :=
  | Starting | Waiting | Woken | Cycling | Sleeping | SleepingAfterError | Returned | Cancelled.

#[export] Instance phase_eq_dec : EqDecision phase.
Proof. solve_decision. Defined.

Record timer_gate : Type := {
  _resume_event : bool;
  _timer_cycles_in_flight : Z;
  task : phase;
}.

Definition started_watchdog : timer_gate :=
  {| _resume_event := true; _timer_cycles_in_flight := 0; task := Starting |}.

Definition is_paused (g : timer_gate) : bool := negb (_resume_event g).
Definition is_at_gate (g : timer_gate) : bool := is_paused g && (_timer_cycles_in_flight g =? 0).

Definition pause (g : timer_gate) : timer_gate :=
  {| _resume_event := false; _timer_cycles_in_flight := _timer_cycles_in_flight g; task := task g |}.

(** [Event.set] also schedules the waiter. *)
Definition resume (g : timer_gate) : timer_gate :=
  {| _resume_event := true; _timer_cycles_in_flight := _timer_cycles_in_flight g;
     task := match task g with Waiting => Woken | p => p end |}.

(** The head of [while True]: read the event, then wait or start a cycle, with
    no await between the last read and the count. *)
Definition loop_head (g : timer_gate) : timer_gate :=
  if _resume_event g
  then {| _resume_event := true; _timer_cycles_in_flight := _timer_cycles_in_flight g + 1;
          task := Cycling |}
  else {| _resume_event := false; _timer_cycles_in_flight := _timer_cycles_in_flight g;
          task := Waiting |}.

(** [finally: self._timer_cycles_in_flight -= 1]. *)
Definition cycle_left (p : phase) (g : timer_gate) : timer_gate :=
  {| _resume_event := _resume_event g; _timer_cycles_in_flight := _timer_cycles_in_flight g - 1;
     task := p |}.

(** The task's turn; [raised] is whether a running cycle ends in an error. *)
Definition turn (raised : bool) (g : timer_gate) : timer_gate :=
  match task g with
  | Starting | Woken | Sleeping | SleepingAfterError => loop_head g
  | Cycling => cycle_left (if raised then SleepingAfterError else Sleeping) g
  | Waiting | Returned | Cancelled => g
  end.

Definition at_phase (p : phase) (g : timer_gate) : timer_gate :=
  {| _resume_event := _resume_event g; _timer_cycles_in_flight := _timer_cycles_in_flight g;
     task := p |}.

(** [task.cancel()]: raised at the await, and caught except in the sleep of the
    error handler; a task that never ran is cancelled outright. *)
Definition cancel (g : timer_gate) : timer_gate :=
  match task g with
  | Waiting | Woken | Sleeping => at_phase Returned g
  | Cycling => cycle_left Returned g
  | Starting | SleepingAfterError => at_phase Cancelled g
  | Returned | Cancelled => g
  end.

Inductive gate_event : Type := EPause | EResume | ETurn (raised : bool) | ECancel.

Definition gate_step (g : timer_gate) (e : gate_event) : timer_gate :=
  match e with
  | EPause => pause g
  | EResume => resume g
  | ETurn raised => turn raised g
  | ECancel => cancel g
  end.

Definition gate_run (es : list gate_event) (g : timer_gate) : timer_gate := fold_left gate_step es g.

Inductive reachable : timer_gate → Prop :=
  | reach_start : reachable started_watchdog
  | reach_step g e : reachable g → reachable (gate_step g e).

(** ** Invariants *)

(** The counter counts the running cycle, and only a paused watchdog waits. *)
Record gate_ok (g : timer_gate) : Prop := {
  ok_in_flight : _timer_cycles_in_flight g = if decide (task g = Cycling) then 1 else 0;
  ok_waiting : task g = Waiting → _resume_event g = false;
}.

Lemma reachable_ok g : reachable g → gate_ok g.
Proof.
  induction 1 as [|g e _ [Hf Hw]]; [by split|].
  destruct g as [ev n p]; simpl in *; destruct e as [| |raised|]; destruct p, ev;
    try destruct raised; simpl in *; (split; [simpl; try lia|by auto]); by auto.
Qed.

Lemma at_gate_idle g : gate_ok g → is_at_gate g = true → task g ≠ Cycling.
Proof.
  intros [Hf _] [_ H%Z.eqb_eq]%andb_true_iff Hc. rewrite Hf, Hc in H. by rewrite decide_True in H.
Qed.

(** Held: paused, with no cycle running. *)
Lemma held_step g e :
  gate_ok g → is_at_gate g = true → e ≠ EResume → is_at_gate (gate_step g e) = true.
Proof.
  intros Hok Hg He. pose proof (at_gate_idle g Hok Hg) as Hidle. destruct Hok as [Hf _].
  destruct g as [ev n p]. unfold is_at_gate, is_paused in *. simpl in *.
  destruct ev; [done|]. simpl in *. by destruct e as [| |raised|], p.
Qed.

(** C32: a paused timer stays paused.  In every state the loop can reach, the
    counter of timer cycles in flight is one while the task is inside a cycle
    and zero otherwise.  Once the watchdog answers that it is at its gate,
    whatever the event loop then schedules short of a resume (the task waking
    from a sleep or from an earlier resume, a cycle's error, a cancellation,
    more pauses), it is at its gate still and no cycle is running: the rows are
    the caller's alone. *)
Theorem gate_holds_until_resume g es :
  reachable g →
  _timer_cycles_in_flight g = (if decide (task g = Cycling) then 1 else 0) ∧
  (is_at_gate g = true → EResume ∉ es →
   is_at_gate (gate_run es g) = true ∧ task (gate_run es g) ≠ Cycling ∧
   _timer_cycles_in_flight (gate_run es g) = 0).
Proof.
  intros Hr. split; [apply (ok_in_flight g), reachable_ok, Hr|]. intros Hg Hes.
  assert (reachable (gate_run es g) ∧ is_at_gate (gate_run es g) = true) as [Hr' Hg'].
  { revert g Hr Hg. induction es as [|e es IH]; intros g Hr Hg; [done|]. simpl.
    apply not_elem_of_cons in Hes as [He Hes]. apply IH; [done|by constructor|].
    apply held_step; [by apply reachable_ok|done|congruence]. }
  split_and!; [done|by apply at_gate_idle; [apply reachable_ok|]|].
  apply andb_true_iff in Hg' as [_ ?%Z.eqb_eq]. done.
Qed.

Definition ended (p : phase) : bool := match p with Returned | Cancelled => true | _ => false end.

(** A paused watchdog comes to its gate, and a resumed one cycles.  After a
    pause, at most one turn of the task (the end of the cycle that had passed
    the gate) brings any watchdog to its gate.  After a resume, a task that has
    not ended is in a cycle at once or after its next turn, and a cycle is
    followed by another within two turns, however it ends. *)
Theorem gate_reached_and_left g raised :
  reachable g →
  is_at_gate (pause g) || is_at_gate (turn raised (pause g)) = true ∧
  (ended (task g) = false →
   task (resume g) = Cycling ∨ task (turn raised (resume g)) = Cycling) ∧
  (task g = Cycling → task (turn raised (turn raised (resume g))) = Cycling).
Proof.
  intros [Hf _]%reachable_ok. destruct g as [ev n p]. simpl in *. subst n.
  split_and!; [by destruct p|by destruct p; auto|]. intros ->. by destruct raised.
Qed.

Lemma gate_holds_until_resume_witness :
  let g := gate_run [ETurn false; ETurn true; EPause; EResume; EPause] started_watchdog in
  is_at_gate (gate_run [ETurn false; EPause; ETurn true] g) = true.
Proof.
  destruct (gate_holds_until_resume
    (gate_run [ETurn false; ETurn true; EPause; EResume; EPause] started_watchdog)
    [ETurn false; EPause; ETurn true]) as [_ H].
  - repeat apply reach_step. apply reach_start.
  - apply H; [reflexivity|].
    by repeat (apply not_elem_of_cons; split); [..|apply not_elem_of_nil].
Defined.

(** Paused inside a cycle: not yet held. *)
Lemma gate_reached_and_left_witness :
  is_at_gate (gate_run [ETurn false; EPause] started_watchdog) = false ∧
  is_at_gate (turn true (pause (gate_run [ETurn false; EPause] started_watchdog))) = true.
Proof.
  split; [reflexivity|].
  destruct (gate_reached_and_left (gate_run [ETurn false; EPause] started_watchdog) true) as [H _].
  - repeat apply reach_step. apply reach_start.
  - exact H.
Defined.
