(* ===== verification/ReleaseOutbox.v ===== *)
(** The capacity-release outbox: the promise the lease lifecycle relies on
    ([CapacityReleaseOutboxPort]) as an interface, and its two implementations,
    the process-local one ([lease_lifecycle.py]) and the durable one
    ([deal_event_sink.py]).

    The durable rows' timestamps are left out; a row is inserted with the
    current time, so rows in insertion order are in [created_at] order. *)
From S2P Require Import Prelude PyNum PyValue PoolDeclarations.

(** What is pending and what has been acknowledged; nothing pending is lost but
    by an acknowledgement, and nothing is acknowledged but by [mark_delivered]. *)
Class ReleaseOutbox (O : Type) := {
  reserve : string → O → O;
  pending : O → list string;
  mark_delivered : string → O → result O;
  record_failure : string → string → O → result O;
  acknowledged : string → O → Prop;
  outbox_ok : O → Prop;
  reserve_ok i o : outbox_ok o → outbox_ok (reserve i o);
  delivered_ok i o o' : outbox_ok o → mark_delivered i o = Ok o' → outbox_ok o';
  failure_ok i e o o' : outbox_ok o → record_failure i e o = Ok o' → outbox_ok o';
  reserve_kept i j o : j ∈ pending o → j ∈ pending (reserve i o);
  reserve_covers i o : i ∈ pending (reserve i o) ∨ acknowledged i o;
  reserve_acknowledges i j o : acknowledged j (reserve i o) → acknowledged j o;
  delivered_kept i j o o' :
    mark_delivered i o = Ok o' → j ∈ pending o → j ≠ i → j ∈ pending o';
  delivered_acknowledges i j o o' :
    mark_delivered i o = Ok o' → acknowledged j o' → j = i ∨ acknowledged j o;
  failure_kept i e j o o' :
    outbox_ok o → record_failure i e o = Ok o' → j ∈ pending o → j ∈ pending o';
  failure_acknowledges i e j o o' :
    record_failure i e o = Ok o' → acknowledged j o' → acknowledged j o;
}.

(** ** [InMemoryCapacityReleaseOutbox] *)

Definition InMemoryCapacityReleaseOutbox : Type := gset string.

#[export] Instance in_memory_outbox : ReleaseOutbox InMemoryCapacityReleaseOutbox.
Proof.
  refine {| reserve i o := {[i]} ∪ o; pending := sorted_names; mark_delivered i o := Ok (o ∖ {[i]});
            record_failure _ _ o := Ok o; acknowledged _ _ := False; outbox_ok _ := True |};
    unfold sorted_names; intros; rewrite ?elem_of_sort_by in *; simplify_eq; set_solver.
Defined.

(** ** [SqlAlchemyCapacityReleaseOutbox] *)

Record CapacityReleaseCallbackOutbox : Type := {
  ob_reservation_id : string;
  ob_attempt_count : Z;
  ob_last_error : option string;
  ob_delivered : bool;
}.

Definition SqlAlchemyCapacityReleaseOutbox : Type := list CapacityReleaseCallbackOutbox.

Definition new_callback (i : string) : CapacityReleaseCallbackOutbox :=
  {| ob_reservation_id := i; ob_attempt_count := 0; ob_last_error := None; ob_delivered := false |}.

Definition sql_get (i : string) (o : SqlAlchemyCapacityReleaseOutbox)
    : option CapacityReleaseCallbackOutbox := find_by ob_reservation_id i o.

(** A duplicate key is refused by the table and ignored. *)
Definition sql_reserve (i : string) (o : SqlAlchemyCapacityReleaseOutbox)
    : SqlAlchemyCapacityReleaseOutbox :=
  match sql_get i o with Some _ => o | None => o ++ [new_callback i] end.

Definition sql_pending (o : SqlAlchemyCapacityReleaseOutbox) : list string :=
  ob_reservation_id <$> filter (λ r, ob_delivered r = false) o.

Definition delivered_row (r : CapacityReleaseCallbackOutbox) : CapacityReleaseCallbackOutbox :=
  {| ob_reservation_id := ob_reservation_id r; ob_attempt_count := ob_attempt_count r + 1;
     ob_last_error := None; ob_delivered := true |}.

Definition failed_row (error : string) (r : CapacityReleaseCallbackOutbox)
    : CapacityReleaseCallbackOutbox :=
  {| ob_reservation_id := ob_reservation_id r; ob_attempt_count := ob_attempt_count r + 1;
     ob_last_error := Some error; ob_delivered := ob_delivered r |}.

Definition sql_update (i : string)
    (f : CapacityReleaseCallbackOutbox → CapacityReleaseCallbackOutbox)
    (o : SqlAlchemyCapacityReleaseOutbox) : result SqlAlchemyCapacityReleaseOutbox :=
  match sql_get i o with
  | None => Err (RuntimeError "capacity release outbox reservation disappeared")
  | Some r => Ok (replace_by ob_reservation_id (f r) o)
  end.

Definition sql_mark_delivered (i : string) : SqlAlchemyCapacityReleaseOutbox →
    result SqlAlchemyCapacityReleaseOutbox := sql_update i delivered_row.
Definition sql_record_failure (i error : string) : SqlAlchemyCapacityReleaseOutbox →
    result SqlAlchemyCapacityReleaseOutbox := sql_update i (failed_row error).

Definition sql_acknowledged (i : string) (o : SqlAlchemyCapacityReleaseOutbox) : Prop :=
  ∃ r, r ∈ o ∧ ob_reservation_id r = i ∧ ob_delivered r = true.

Lemma elem_of_sql_pending i o :
  i ∈ sql_pending o ↔ ∃ r, r ∈ o ∧ ob_reservation_id r = i ∧ ob_delivered r = false.
Proof.
  unfold sql_pending. rewrite list_elem_of_fmap. split.
  - intros (r & -> & [? ?]%list_elem_of_filter). by exists r.
  - intros (r & ? & <- & ?). exists r. by rewrite list_elem_of_filter.
Qed.

(** An updated row is the named one; the others stay. *)
Lemma sql_update_rows i f o o' :
  (∀ r, ob_reservation_id (f r) = ob_reservation_id r) → sql_update i f o = Ok o' →
  ∃ r, r ∈ o ∧ ob_reservation_id r = i ∧
    ∀ x, x ∈ o' ↔ x = f r ∨ (x ∈ o ∧ ob_reservation_id x ≠ i).
Proof.
  unfold sql_update. intros Hf. destruct (sql_get i o) as [r|] eqn:Hget; [|done]. intros [= <-].
  destruct (find_by_Some _ _ _ _ Hget) as [Hr Hi]. exists r. split_and!; [done..|]. intros x.
  rewrite elem_of_replace_by, Hf, Hi. naive_solver.
Qed.

Lemma sql_update_keys i f o o' :
  sql_update i f o = Ok o' → ob_reservation_id <$> o' = ob_reservation_id <$> o.
Proof.
  unfold sql_update. destruct (sql_get i o); [|done]. intros [= <-]. apply replace_by_keys.
Qed.

#[export] Instance sql_outbox : ReleaseOutbox SqlAlchemyCapacityReleaseOutbox.
Proof.
  refine {| reserve := sql_reserve; pending := sql_pending; mark_delivered := sql_mark_delivered;
            record_failure := sql_record_failure; acknowledged := sql_acknowledged;
            outbox_ok o := NoDup (ob_reservation_id <$> o) |}.
  - intros i o Hnd. unfold sql_reserve. destruct (sql_get i o) eqn:Hget; [done|].
    rewrite fmap_app, NoDup_app. split_and!; [done| |apply NoDup_singleton].
    intros j (r & -> & Hr)%list_elem_of_fmap Hj%list_elem_of_singleton. unfold sql_get in Hget.
    rewrite find_by_None in Hget. by apply (Hget r).
  - intros i o o' Hnd Ho. by rewrite (sql_update_keys _ _ _ _ Ho).
  - intros i e o o' Hnd Ho. by rewrite (sql_update_keys _ _ _ _ Ho).
  - intros i j o. rewrite !elem_of_sql_pending. unfold sql_reserve.
    destruct (sql_get i o); [done|]. intros (r & ? & ? & ?). exists r.
    split; [apply elem_of_app; by left|done].
  - intros i o. rewrite elem_of_sql_pending. unfold sql_reserve, sql_acknowledged.
    destruct (sql_get i o) as [r|] eqn:Hget.
    + destruct (find_by_Some _ _ _ _ Hget) as [? ?].
      destruct (ob_delivered r) eqn:?; [right|left]; by exists r.
    + left. exists (new_callback i). split; [apply elem_of_app; right; apply list_elem_of_here|done].
  - intros i j o. unfold sql_acknowledged, sql_reserve. destruct (sql_get i o); [done|].
    intros (r & Hr & ? & ?). apply elem_of_app in Hr as [?|Hr]; [by exists r|].
    apply list_elem_of_singleton in Hr. by subst r.
  - intros i j o o' Ho. rewrite !elem_of_sql_pending. intros (x & ? & <- & ?) Hne.
    apply sql_update_rows in Ho as (r & _ & _ & Ho); [|done]. exists x. rewrite Ho. auto.
  - intros i j o o' Ho (x & Hx & <- & ?). apply sql_update_rows in Ho as (r & _ & <- & Ho); [|done].
    apply Ho in Hx as [->|[? ?]]; [by left|right]. by exists x.
  - intros i e j o o' Hnd Ho. rewrite !elem_of_sql_pending. intros (x & Hx & <- & Hd).
    apply sql_update_rows in Ho as (r & Hr & <- & Ho); [|done].
    destruct (decide (ob_reservation_id x = ob_reservation_id r)) as [Heq|Hne].
    + assert (x = r) as ->; [by eapply (key_inj ob_reservation_id)|].
      exists (failed_row e r). rewrite Ho. by split; [left|].
    + exists x. rewrite Ho. auto.
  - intros i e j o o' Ho (x & Hx & <- & Hd). apply sql_update_rows in Ho as (r & Hr & Hi & Ho); [|done].
    apply Ho in Hx as [->|[? ?]]; [|by exists x]. by exists r.
Defined.
