(* ===== verification/LeaseLifecycle.v ===== *)
(** The lease lifecycle ([compute_provisioning/lease_lifecycle.py]): commands on
    one lease, and the watchdog's cycle over leases that are due and leases
    being released, through the site authority ([market_site/authority.py]), a
    release executor, a release status port and the capacity-release outbox.

    The two ports are records of operations, as the code declares them; what a
    port's call does, others' commits while it is awaited included, is part of
    the port.  Parameters: the storefront the release notifier tells, the drain
    of lease-end reports, [str] of an exception, and the grace period. *)
From S2P Require Import Prelude PyNum PyValue PyTime PoolDeclarations LedgerTypes.
From S2P Require Import LedgerMatching Ledger LedgerLifecycle.
From S2P Require Import Settlement SettlementClaims SettlementFacts Release Fulfillment.
From S2P Require Import ReleaseOutbox.
From Stdlib Require Import Ascii.

Local Open Scope Z_scope.
Local Open Scope string_scope.

(** ** Ports *)

Record ReleaseExecutorPort (Ext : Type) : Type := {
  port_submit_release : reservation_payload → M (world Ext) ReleaseDecision;
  port_begin_teardown : string → M (world Ext) (option string);
}.
Arguments port_submit_release {Ext}. Arguments port_begin_teardown {Ext}.

Definition ReleaseStatusPort (Ext : Type) : Type := string → M (world Ext) ReleaseStatus.

(** *** The fulfillment-backed ports *)

Section fulfillment_ports.
Context {Ext : Type} `{!SettlementTables Ext}.
Context (providers : gmap string (FulfillmentProvider Ext)).
Context (read_config : Ext → string → string → result dict).

Definition _authorize_compensation (c : CompensationCandidate) : bool :=
  compensable (cc_state c) (cc_failure_reason c) (VDict (cc_provider_metadata c)).

(** [FulfillmentServiceTeardownPort.begin_teardown]. *)
Definition service_begin_teardown (fulfillment_id : string) : M (world Ext) (option string) :=
  status ← get_fulfillment_status fulfillment_id;
  if negb (bool_decide (fs_state status = failed)) then
    accepted ← begin_fulfillment_teardown providers read_config fulfillment_id;
    mret (fa_fulfillment_id accepted)
  else
    accepted ← catch
      (begin_compensating_teardown providers read_config fulfillment_id _authorize_compensation)
      (λ e, match e with
            | CompensationRefusedError what => raise (TeardownRefused "compensation_refused" what)
            | _ => raise e
            end);
    mret (fa_fulfillment_id accepted).

Definition FulfillmentReleaseExecutor : ReleaseExecutorPort Ext :=
  {| port_submit_release reservation :=
       in_session (f ← settled;
                   mret (submit_release f (pl_capacity_reservation_id reservation)));
     port_begin_teardown := service_begin_teardown |}.

Definition FulfillmentReleaseStatusPort : ReleaseStatusPort Ext := λ fulfillment_id,
  in_session (f ← settled; mret (get_status f fulfillment_id)).
End fulfillment_ports.

(** ** Times and contexts *)

(** [parse_utc] of this module: text that is no ISO date raises. *)
Definition parse_lease_time (value : option string) : result (option datetime) :=
  match value with
  | None => Ok None
  | Some s =>
      let text := strip_chars (to_chars s) in
      match List.rev text with
      | [] => Ok None
      | c :: front =>
          let text := if bool_decide (c = "Z"%char) then (List.rev front ++ to_chars "+00:00")%list
                      else text in
          match fromisoformat_chars text with
          | Some p => Ok (Some (aware p))
          | None => Err (ValueError "Invalid isoformat string")
          end
      end
  end.

(** The end context of a release its caller gives none for. *)
Definition due_context (deadline : option datetime) (now : datetime) : dict :=
  match deadline with
  | Some e =>
      if dt_leb e now then
        [("cause", VStr "expiry"); ("effective_at", VInt (timestamp_int e));
         ("claimed_deadline", VInt (timestamp_int e)); ("deadline_phase", VStr "lease")]
      else [("cause", VStr "release")]
  | None => [("cause", VStr "release")]
  end.

Definition _handle_read (reservation : reservation_payload) : option string :=
  if bool_decide (pl_state reservation = releasing) then pl_release_job_id reservation else None.

Definition failure_context (end_context : option dict) (reason : string) (message : option string)
    : dict :=
  dict_update (default [] end_context)
    [("cause", VStr "release_failed"); ("reason", opt_str (str_or message (Some reason)))].

(** The strings the handlers return. *)
Inductive lease_outcome : Type := o_releasing | o_released | o_release_failed | o_skipped.
#[export] Instance lease_outcome_eq_dec : EqDecision lease_outcome.
Proof. solve_decision. Defined.

(** ** The service *)

(** What the service acts on: the site, its outbox, and the storefront. *)
Record lease_world (Ext O Peer : Type) : Type := {
  site : world Ext;
  outbox : O;
  storefront : Peer;
}.
Arguments site {Ext O Peer}. Arguments outbox {Ext O Peer}. Arguments storefront {Ext O Peer}.

Record lease_cycle : Type := {
  lc_checked : Z;
  lc_released : Z;
  lc_release_failed : Z;
  lc_skipped : Z;
}.

Section lifecycle.
Context {Ext O Peer : Type} `{!ReleaseOutbox O}.
Context (env : environment) (cfg : ledger_config Ext).
Context (executor : ReleaseExecutorPort Ext) (status_port : ReleaseStatusPort Ext).
Context (notifier : option (reservation_payload → M Peer bool)).
Context (lease_end_report_drain : option (M (lease_world Ext O Peer) unit)).
Context (str_of : py_error → string) (grace_seconds : Z).

Abbreviation LW := (lease_world Ext O Peer).
Abbreviation S := (M LW).

Definition on_site {A} (m : M (world Ext) A) : S A := λ s,
  let '(r, w) := m (site s) in
  (r, {| site := w; outbox := outbox s; storefront := storefront s |}).

Definition on_outbox (f : O → result O) : S unit := λ s,
  match f (outbox s) with
  | Ok o => (Ok tt, {| site := site s; outbox := o; storefront := storefront s |})
  | Err e => (Err e, s)
  end.

Definition on_storefront {A} (m : M Peer A) : S A := λ s,
  let '(r, p) := m (storefront s) in
  (r, {| site := site s; outbox := outbox s; storefront := p |}).

(** *** The site authority ([LedgerSiteAuthority]) *)

Definition site_reservation (i : string) : S (option reservation_payload) :=
  on_site (get_reservation cfg i).

Definition begin_release (i release_job_id' : string) (end_context : option dict)
    : S (option reservation_payload) :=
  on_site (begin_releasing env cfg i (Some release_job_id') (default [] end_context)).

Definition record_release_failure (i reason : string) (message handle : option string)
    (end_context : dict) : S (option reservation_payload) :=
  on_site (record_release_failed env cfg i reason message handle end_context).

Definition record_release_success (i : string) (forced : bool) (end_context : option dict)
    (reason message : option string) : S (option reservation_payload) :=
  on_site (release env cfg (Some i) None forced reason message (default [] end_context)).

(** *** Announcing a release *)

Definition _notify_storefront_capacity_released (reservation : reservation_payload) : S bool :=
  match notifier with
  | None => mret false
  | Some notify => catch (on_storefront (notify reservation)) (λ _, mret false)
  end.

Definition _deliver_capacity_release (i : string) : S bool :=
  found ← site_reservation i;
  match found with
  | Some reservation =>
      if is_released (pl_state reservation) then
        delivered ← _notify_storefront_capacity_released reservation;
        if (delivered : bool) then on_outbox (mark_delivered i);; mret true
        else
          on_outbox (record_failure i "signed storefront acknowledgement was not received");;
          mret false
      else mret false
  | None => mret false
  end.

Definition _drain_capacity_release_outbox : S unit :=
  o ← gets outbox;
  for_each (pending o) (λ i, _deliver_capacity_release i;; mret tt).

Definition _drain_lease_end_reports : S unit :=
  match lease_end_report_drain with Some drain => drain | None => mret tt end.

Definition _finish_release (i : string) (end_context : option dict) : S bool :=
  on_outbox (λ o, Ok (reserve i o));;
  released ← record_release_success i false end_context None None;
  match released with
  | None => mret false
  | Some _ => _deliver_capacity_release i;; mret true
  end.

(** *** Recording *)

Definition _yield_to_current_state (i : string) : S lease_outcome :=
  site_reservation i;; mret o_skipped.

Definition _mark_release_failed (i reason : string) (message expected_handle : option string)
    (end_context : option dict) : S lease_outcome :=
  recorded ← record_release_failure i reason message expected_handle
               (failure_context end_context reason message);
  match recorded with
  | None => _yield_to_current_state i
  | Some _ => mret o_release_failed
  end.

(** *** Requesting a release *)

Definition _begin_recorded_teardown (i fulfillment_id : string) (end_context : option dict)
    : S lease_outcome :=
  catch (on_site (port_begin_teardown executor fulfillment_id);; mret o_releasing)
    (λ e, match e with
          | TeardownRefused reason message =>
              _mark_release_failed i reason (Some message) (Some fulfillment_id) end_context
          | _ => mret o_releasing
          end).

(** [decision.reason or "release_unproven"]. *)
Definition decision_reason (d : ReleaseDecision) : string :=
  default "release_unproven" (str_truthy (rd_reason d)).

(** Following a decision that does not free the capacity. *)
Definition follow_decision (reservation : reservation_payload) (d : ReleaseDecision)
    (end_context : option dict) : S lease_outcome :=
  let i := pl_capacity_reservation_id reservation in
  if bool_decide (rd_action d = TEARDOWN ∨ rd_action d = CREATE_IN_FLIGHT) then
    let handle := default "None" (rd_fulfillment_id d) in
    began ← begin_release i handle end_context;
    match began with
    | None => _yield_to_current_state i
    | Some _ =>
        if bool_decide (rd_action d = TEARDOWN)
        then _begin_recorded_teardown i handle end_context
        else mret o_releasing
    end
  else
    _mark_release_failed i (decision_reason d) (rd_message d) (_handle_read reservation) end_context.

Definition request_context (reservation : reservation_payload) (end_context : option dict)
    : S (option dict) :=
  match end_context with
  | Some c => mret (Some c)
  | None =>
      deadline ← lift (parse_lease_time (pl_lease_end_utc reservation));
      now ← on_site (now_utc env);
      mret (Some (due_context deadline now))
  end.

Definition unproven_message : string :=
  "nothing is left to tear down, but the reservation's provenance does not prove that nothing was dispatched".

Definition _request_release (reservation : reservation_payload) (end_context : option dict)
    : S lease_outcome :=
  let i := pl_capacity_reservation_id reservation in
  end_context ← request_context reservation end_context;
  decision ← on_site (port_submit_release executor reservation);
  if bool_decide (rd_action decision = FREE) then
    released ← _finish_release i end_context;
    if (released : bool) then mret o_released else
    decision ← on_site (port_submit_release executor reservation);
    if bool_decide (rd_action decision = FREE) then
      released ← _finish_release i end_context;
      if (released : bool) then mret o_released else
      _mark_release_failed i "release_unproven" (Some unproven_message) (_handle_read reservation)
        end_context
    else follow_decision reservation decision end_context
  else follow_decision reservation decision end_context.

(** *** Leases being released *)

(** [parse(release_requested_at) or parse(lease_end_utc) or now]. *)
Definition release_began (reservation : reservation_payload) (now : datetime) : result datetime :=
  requested ← parse_lease_time (pl_release_requested_at reservation);
  match requested with
  | Some t => Ok t
  | None => ended ← parse_lease_time (pl_lease_end_utc reservation); Ok (default now ended)
  end.

Definition stalled (reservation : reservation_payload) (now : datetime) : result bool :=
  began ← release_began reservation now;
  us ← timedelta_of_seconds grace_seconds;
  deadline ← dt_add_us began us;
  Ok (negb (dt_ltb now deadline)).

Definition time_out (reservation : reservation_payload) (now : datetime) (handle : string)
    : S lease_outcome :=
  late ← lift (stalled reservation now);
  if (late : bool) then
    _mark_release_failed (pl_capacity_reservation_id reservation) "teardown_timeout"
      (Some "teardown did not complete before the watchdog grace period elapsed") (Some handle) None
  else mret o_skipped.

Definition read_status (handle : string) : S (option ReleaseStatus) :=
  catch (status ← on_site (status_port handle); mret (Some status)) (λ _, mret None).

Definition _process_releasing_reservation (reservation : reservation_payload) (now : datetime)
    : S lease_outcome :=
  let i := pl_capacity_reservation_id reservation in
  match str_truthy (pl_release_job_id reservation) with
  | None =>
      _mark_release_failed i "teardown_failed"
        (Some "the releasing reservation records no release handle") None None
  | Some handle =>
      status ← read_status handle;
      match status with
      | None => time_out reservation now handle
      | Some status =>
          match rs_progress status with
          | P_TORN_DOWN =>
              finished ← _finish_release i None;
              mret (if (finished : bool) then o_released else o_skipped)
          | P_FAILED =>
              _mark_release_failed i (default "teardown_failed" (str_truthy (rs_reason status)))
                (rs_error status) (Some handle) None
          | P_READY_FOR_TEARDOWN =>
              catch (on_site (port_begin_teardown executor handle);; mret o_skipped)
                (λ e, match e with
                      | TeardownRefused reason message =>
                          _mark_release_failed i reason (Some message) (Some handle) None
                      | _ => raise e
                      end)
          | P_CREATE_IN_FLIGHT => mret o_skipped
          | P_TEARING_DOWN => time_out reservation now handle
          end
      end
  end.

(** *** A cycle *)

Definition no_leases : lease_cycle :=
  {| lc_checked := 0; lc_released := 0; lc_release_failed := 0; lc_skipped := 0 |}.

Definition count_lease (o : lease_outcome) (c : lease_cycle) : lease_cycle :=
  {| lc_checked := lc_checked c + match o with o_releasing => 1 | _ => 0 end;
     lc_released := lc_released c + match o with o_released => 1 | _ => 0 end;
     lc_release_failed := lc_release_failed c + match o with o_release_failed => 1 | _ => 0 end;
     lc_skipped := lc_skipped c + match o with o_skipped => 1 | _ => 0 end |}.

(** One due lease: an error is recorded as its failed release. *)
Definition due_lease (reservation : reservation_payload) : S lease_outcome :=
  catch (_request_release reservation None)
    (λ e, _mark_release_failed (pl_capacity_reservation_id reservation) "release_submit_error"
            (Some (str_of e)) (_handle_read reservation) None).

(** One lease being released: an error leaves it to the next cycle. *)
Definition releasing_lease (now : datetime) (reservation : reservation_payload) : S lease_outcome :=
  catch (_process_releasing_reservation reservation now) (λ _, mret o_skipped).

(** The second loop counts what it neither released nor failed as skipped. *)
Definition settled_outcome (o : lease_outcome) : lease_outcome :=
  match o with o_releasing => o_skipped | _ => o end.

Fixpoint each_lease (handle : reservation_payload → S lease_outcome)
    (rows : list reservation_payload) (c : lease_cycle) : S lease_cycle :=
  match rows with
  | [] => mret c
  | r :: rows => o ← handle r; each_lease handle rows (count_lease o c)
  end.

Definition _run_cycle : S lease_cycle :=
  _drain_lease_end_reports;;
  _drain_capacity_release_outbox;;
  now ← on_site (now_utc env);
  due ← on_site (list_lease_due cfg now);
  c ← each_lease due_lease due no_leases;
  rows ← on_site (list_reservations cfg (Some releasing));
  c ← each_lease (λ r, o ← releasing_lease now r; mret (settled_outcome o)) rows c;
  _drain_lease_end_reports;;
  mret c.

Definition force_check_leases : S lease_cycle := _run_cycle.

(** *** Commands *)

Definition get_lease (lease_id : string) : S reservation_payload :=
  found ← site_reservation lease_id;
  match found with
  | Some reservation => mret reservation
  | None => raise (LeaseNotFoundError lease_id)
  end.

Definition invalid_state (s : ReservationState) : py_error :=
  InvalidLeaseStateError (state_value s).

Definition terminate_lease (lease_id : string) (reason : option string) (caller : value)
    : S reservation_payload :=
  reservation ← get_lease lease_id;
  match pl_state reservation with
  | released | force_released | releasing => mret reservation
  | leased =>
      now ← on_site (now_utc env);
      _request_release reservation
        (Some [("cause", VStr "termination"); ("reason", opt_str reason); ("caller", caller);
               ("effective_at", VInt (timestamp_int now))]);;
      _drain_lease_end_reports;;
      get_lease lease_id
  | s => raise (invalid_state s)
  end.

Definition release_oversight (lease_id reason : string) : S reservation_payload :=
  reservation ← get_lease lease_id;
  match pl_state reservation with
  | unmanaged => mret reservation
  | leased =>
      handed ← on_site (record_unmanaged cfg lease_id "oversight_released" (Some reason));
      match handed with
      | Some reservation => mret reservation
      | None =>
          current ← get_lease lease_id;
          if bool_decide (pl_state current = unmanaged) then mret current
          else raise (invalid_state (pl_state current))
      end
  | s => raise (invalid_state s)
  end.

Definition retry_release (lease_id : string) : S reservation_payload :=
  reservation ← get_lease lease_id;
  if negb (bool_decide (pl_state reservation = release_failed))
  then raise (invalid_state (pl_state reservation))
  else _request_release reservation None;; get_lease lease_id.

Definition force_message (reason : string) (evidence : option string) : string :=
  match str_truthy evidence with
  | Some e => reason +:+ " Evidence: " +:+ e
  | None => reason
  end.

Definition force_release (lease_id reason : string) (evidence : option string) (caller : value)
    : S reservation_payload :=
  reservation ← get_lease lease_id;
  match pl_state reservation with
  | released | force_released => mret reservation
  | leased | releasing | release_failed | unmanaged =>
      let message := force_message reason evidence in
      on_outbox (λ o, Ok (reserve lease_id o));;
      released ← record_release_success lease_id true
        (Some [("cause", VStr "force_release"); ("reason", VStr message); ("caller", caller)])
        (Some "admin_force_release") (Some message);
      match released with
      | None => raise (LeaseNotFoundError lease_id)
      | Some payload =>
          _deliver_capacity_release lease_id;;
          _drain_lease_end_reports;;
          mret payload
      end
  | s => raise (invalid_state s)
  end.
End lifecycle.
