(* ===== verification/LeaseFacts.v ===== *)
(** What the site authority's writes do to reservation rows, and which code of
    the lease lifecycle keeps every release announced. *)
From S2P Require Import Prelude PyNum PyValue PyTime PoolDeclarations LedgerTypes.
From S2P Require Import LedgerMatching Ledger LedgerLifecycle LedgerSpec LedgerTrack.
From S2P Require Import LedgerRefinement Settlement SettlementFacts Sessions.
From S2P Require Import Release Fulfillment ReleaseOutbox LeaseLifecycle.

Local Open Scope Z_scope.

(** ** Rows under the authority's writes *)

Section rows.
Context {Ext : Type} (env : environment) (cfg : ledger_config Ext).

Implicit Types (d : DB Ext) (w : world Ext).

Abbreviation rows := (λ w : world Ext, reservations (working w)).

Definition lease_row d (i : string) : option CapacityReservation := get_reservation_row i d.

(** The reservation's lease is over. *)
Definition terminal d (i : string) : Prop :=
  ∃ r, get_reservation_row i d = Some r ∧ is_released (res_state r) = true.

Lemma terminal_rows d d' i : reservations d' = reservations d → terminal d' i → terminal d i.
Proof. intros H. unfold terminal, get_reservation_row. by rewrite H. Qed.

Lemma row_updated d (r r' : CapacityReservation) i :
  get_reservation_row i d = Some r → capacity_reservation_id r' = i →
  get_reservation_row i (update_reservation r' d) = Some r' ∧
  ∀ j, j ≠ i → get_reservation_row j (update_reservation r' d) = get_reservation_row j d.
Proof.
  intros Hget <-. split.
  - by apply (find_by_replace_eq capacity_reservation_id r' _ r).
  - intros j Hj. by apply find_by_replace_ne.
Qed.

(** One row changed to a state that ends nothing. *)
Lemma terminal_updated d d1 (r r' : CapacityReservation) i j :
  reservations d1 = reservations d → get_reservation_row i d = Some r →
  capacity_reservation_id r' = i → is_released (res_state r') = false →
  terminal (update_reservation r' d1) j → terminal d j.
Proof.
  intros Hrows Hget Hid Hr (x & Hx & Hrel).
  assert (get_reservation_row i d1 = Some r) as Hget1
    by (unfold get_reservation_row; by rewrite Hrows).
  destruct (row_updated d1 r r' i Hget1 Hid) as [H1 H2]. destruct (decide (j = i)) as [->|Hne].
  - rewrite H1 in Hx. injection Hx as <-. congruence.
  - rewrite H2 in Hx by done. apply (terminal_rows d d1 j Hrows). by exists x.
Qed.

Lemma unseen_record_end r key context cause reason :
  unseen rows (_record_lease_end env cfg r key context cause reason).
Proof. unfold _record_lease_end. session fail. Qed.

Lemma committed_record_end r key context cause reason :
  unseen committed (_record_lease_end env cfg r key context cause reason).
Proof. unfold _record_lease_end. session fail. Qed.

(** Saving a changed row commits the session with it. *)
Lemma wp_saved_row r (Q : result (option reservation_payload) → world Ext → Prop) w :
  (∀ x, x ≠ Ok None → Q x (saved (with_working (update_reservation r) w))) →
  wp (save_and_return cfg r) Q w.
Proof.
  intros HQ. unfold save_and_return. do 4 l_step. destruct (_reservation_payload cfg r) as [p|e].
  - l_step. by apply HQ.
  - by apply HQ.
Qed.

(** What a conditional transition of one row commits: nothing, having refused
    or raised, or the row changed from [r] to [r'], the others kept. *)
Definition transitioned_row (i : string) (allowed : CapacityReservation → bool)
    (changed : CapacityReservation → CapacityReservation → Prop) d
    (x : result (option reservation_payload)) d' : Prop :=
  (d' = d ∧ ((x = Ok None ∧ ∀ r, get_reservation_row i d = Some r → allowed r = false) ∨
             ∃ e, x = Err e)) ∨
  (x ≠ Ok None ∧ ∃ r r', get_reservation_row i d = Some r ∧ allowed r = true ∧ changed r r' ∧
     get_reservation_row i d' = Some r' ∧
     ∀ j, j ≠ i → get_reservation_row j d' = get_reservation_row j d).

Lemma transitioned_row_terminal i allowed changed d x d' j :
  (∀ r r', changed r r' → is_released (res_state r') = false) →
  transitioned_row i allowed changed d x d' → terminal d' j → terminal d j.
Proof.
  intros Hc [[-> _]|(_ & r & r' & _ & _ & Hch & Hi & Hj)]; [done|]. intros (y & Hy & Hrel).
  destruct (decide (j = i)) as [->|Hne].
  - rewrite Hi in Hy. injection Hy as <-. by rewrite (Hc _ _ Hch) in Hrel.
  - rewrite Hj in Hy by done. by exists y.
Qed.

Lemma refused_row i allowed changed d :
  match get_reservation_row i d with Some r => allowed r = false | None => True end →
  transitioned_row i allowed changed d (Ok None) d.
Proof. intros H. left. split; [done|]. left. split; [done|]. intros r Hr. by rewrite Hr in H. Qed.

(** Recording a lease's end and saving the changed row. *)
Lemma wp_end_and_save i allowed changed d r key context cause reason
    (k : M (world Ext) (option reservation_payload)) w :
  committed w = d → working w = d → get_reservation_row i d = Some r → allowed r = true →
  (∀ w1, committed w1 = d → reservations (working w1) = reservations d →
     wp k (λ x w', transitioned_row i allowed changed d x (committed w')) w1) →
  wp (_record_lease_end env cfg r key context cause reason ≫= λ _, k)
    (λ x w', transitioned_row i allowed changed d x (committed w')) w.
Proof.
  intros Hc Hw Hget Ha Hk. apply wp_bind.
  eapply wp_mono; [apply wp_and; [apply unseen_record_end|apply committed_record_end]|].
  intros [[]|e] w1 [Hr1 Hc1].
  - apply Hk; congruence.
  - left. split; [congruence|]. right. by exists e.
Qed.

Lemma wp_save_transition i allowed (changed : _ → _ → Prop) d r r' w :
  reservations (working w) = reservations d → committed w = d →
  get_reservation_row i d = Some r → allowed r = true → changed r r' →
  capacity_reservation_id r' = i →
  wp (save_and_return cfg r') (λ x w', transitioned_row i allowed changed d x (committed w')) w.
Proof.
  intros Hrows Hc Hget Ha Hch Hid. apply wp_saved_row. intros x Hx. right. split; [done|].
  exists r, r'. simpl.
  assert (∀ j, get_reservation_row j (working w) = get_reservation_row j d) as Hsame
    by (intros j; unfold get_reservation_row; by rewrite Hrows).
  destruct (row_updated (working w) r r' i) as [H1 H2]; [by rewrite Hsame|done|].
  split_and!; try done. intros j Hj. by rewrite H2, Hsame.
Qed.

(** ** The authority's writes *)

(** Rows [begin_releasing] takes to [releasing] under a handle. *)
Definition can_begin (handle : string) (r : CapacityReservation) : bool :=
  bool_decide (res_state r ∈ _BEGIN_RELEASING_FROM) ||
  bool_decide (res_state r = releasing) &&
  match release_job_id r with Some h => bool_decide (handle = h) | None => true end.

Definition releasing_under (handle : string) (r' : CapacityReservation) : Prop :=
  res_state r' = releasing ∧ release_job_id r' = Some handle.

Lemma wp_begin_releasing i handle context w :
  wp (begin_releasing env cfg i (Some handle) context)
    (λ x w', transitioned_row i (can_begin handle) (λ _, releasing_under handle) (committed w) x
               (committed w')) w.
Proof.
  apply wp_operation. do 2 l_step. change (working (opened w)) with (committed w).
  destruct (get_reservation_row i (committed w)) as [r|] eqn:Hget.
  2: { l_step. apply (refused_row i _ _ (committed w)). by rewrite Hget. }
  destruct (find_by_Some _ _ _ _ Hget) as [_ Hid]. unfold can_begin.
  destruct (bool_decide (res_state r = releasing)) eqn:Hs.
  - apply bool_decide_eq_true in Hs. destruct (release_job_id r) as [h|] eqn:Hh.
    + destruct (bool_decide (handle = h)) eqn:Hhh; simpl.
      * eapply wp_save_transition; try done. simpl. rewrite Hs, Hh. simpl. by rewrite Hhh.
      * l_step. apply (refused_row i _ _ (committed w)). by rewrite Hget, Hs, Hh, Hhh.
    + eapply wp_save_transition; try done. simpl. by rewrite Hs, Hh.
  - simpl. destruct (bool_decide (res_state r ∈ _)) eqn:Hin; simpl.
    + eapply wp_end_and_save; try done; [by rewrite Hin|]. intros w1 Hc1 Hr1. do 2 l_step.
      eapply wp_save_transition; try done. by rewrite Hin.
    + l_step. apply (refused_row i _ _ (committed w)). by rewrite Hget, Hin, Hs.
Qed.

(** Rows [record_release_failed] fails under an optional handle. *)
Definition can_fail (handle : option string) (r : CapacityReservation) : bool :=
  match res_state r with
  | reserved | leased => true
  | releasing => match handle with
                 | Some h => bool_decide (release_job_id r = Some h)
                 | None => true
                 end
  | _ => false
  end.

Definition failed_release (reason : string) (message : option string)
    (r r' : CapacityReservation) : Prop :=
  res_state r' = release_failed ∧ failure_reason r' = Some reason ∧ failure_message r' = message ∧
  release_job_id r' = release_job_id r.

Lemma wp_record_release_failed i reason message handle context w :
  wp (record_release_failed env cfg i reason message handle context)
    (λ x w', transitioned_row i (can_fail handle) (failed_release reason message) (committed w) x
               (committed w')) w.
Proof.
  apply wp_operation. do 2 l_step. change (working (opened w)) with (committed w).
  destruct (get_reservation_row i (committed w)) as [r|] eqn:Hget.
  2: { l_step. apply (refused_row i _ _ (committed w)). by rewrite Hget. }
  destruct (find_by_Some _ _ _ _ Hget) as [_ Hid].
  assert (can_fail handle r = bool_decide (res_state r ∈ _RECORD_RELEASE_FAILED_FROM) &&
    negb (bool_decide (res_state r = releasing) && bool_decide (is_Some handle) &&
          negb (bool_decide (release_job_id r = handle)))) as Hcan.
  { unfold can_fail. destruct (res_state r), handle; try done; simpl; by case_bool_decide. }
  destruct (bool_decide (res_state r ∈ _)) eqn:Hin; simpl.
  2: { l_step. apply (refused_row i _ _ (committed w)). by rewrite Hget. }
  destruct (bool_decide (res_state r = releasing) && _ && _) eqn:Hstale.
  { l_step. apply (refused_row i _ _ (committed w)). by rewrite Hget. }
  eapply wp_end_and_save; try done. intros w1 Hc1 Hr1.
  by eapply wp_save_transition.
Qed.

Lemma wp_record_unmanaged i reason message w :
  wp (record_unmanaged cfg i reason message)
    (λ x w', transitioned_row i (λ r, bool_decide (res_state r = leased))
               (λ _ r', res_state r' = unmanaged) (committed w) x (committed w')) w.
Proof.
  apply wp_operation. do 2 l_step. change (working (opened w)) with (committed w).
  destruct (get_reservation_row i (committed w)) as [r|] eqn:Hget.
  2: { l_step. apply (refused_row i _ _ (committed w)). by rewrite Hget. }
  destruct (find_by_Some _ _ _ _ Hget) as [_ Hid]. destruct (bool_decide _) eqn:Hs; simpl.
  - by eapply wp_save_transition.
  - l_step. apply (refused_row i _ _ (committed w)). by rewrite Hget.
Qed.

(** ** Releasing *)

Lemma find_reservation_by_id d i r :
  _find_reservation d (Some i)
    (match str_truthy (Some i) with Some _ => None | None => deal_escrow None end) None = Some r →
  get_reservation_row i d = Some r.
Proof. unfold _find_reservation. by destruct i. Qed.

Lemma unseen_release_effect i s : unseen rows (_run_release_effect cfg i s).
Proof. unfold _run_release_effect. session fail. Qed.
Lemma committed_release_effect i s : unseen committed (_run_release_effect cfg i s).
Proof. unfold _run_release_effect. session fail. Qed.
Lemma unseen_release_permitted i : unseen rows (_release_permitted cfg i).
Proof. unfold _release_permitted. session fail. Qed.
Lemma committed_release_permitted i : unseen committed (_release_permitted cfg i).
Proof. unfold _release_permitted. session fail. Qed.

(** A release ends that lease or commits nothing; other rows stay. *)
Definition release_rows (i : string) d (x : result (option reservation_payload)) d' : Prop :=
  (d' = d ∧ ∀ p, x ≠ Ok (Some p)) ∨
  (x ≠ Ok None ∧ terminal d' i ∧
   ∀ j, j ≠ i → get_reservation_row j d' = get_reservation_row j d).

Lemma wp_release_rows i forced reason message context w :
  wp (release env cfg (Some i) None forced reason message context)
    (λ x w', release_rows i (committed w) x (committed w')) w.
Proof.
  apply wp_operation. do 2 l_step. change (working (opened w)) with (committed w). cbv zeta.
  destruct (_find_reservation _ _ _ _) as [r|] eqn:Hfind; [|by l_step; left].
  apply find_reservation_by_id in Hfind as Hget. destruct (find_by_Some _ _ _ _ Hget) as [_ Hid].
  assert (∀ d', reservations d' = reservations (committed w) →
    ∀ j, get_reservation_row j d' = get_reservation_row j (committed w)) as Hsame
    by (intros d' Hd j; unfold get_reservation_row; by rewrite Hd).
  destruct (is_released (res_state r)) eqn:Hrel.
  { apply wp_bind. eapply wp_mono; [apply wp_and; [apply unseen_release_permitted|
      apply committed_release_permitted]|]. intros [b|e] w1 [Hr1 Hc1]; [|left; split; [exact Hc1|done]].
    do 3 l_step.
    assert (terminal (working w1) i ∧ ∀ j, j ≠ i → get_reservation_row j (working w1) =
      get_reservation_row j (committed w)) as Hrows.
    { split; [exists r; by rewrite (Hsame _ Hr1)|]. intros j _. by apply Hsame. }
    destruct (_reservation_payload _ _); [l_step|]; right; by split. }
  destruct (held_state (res_state r)); simpl; [|by l_step; left].
  destruct (negb forced && _); simpl; [by l_step; left|].
  apply wp_bind. eapply (wp_mono _ (λ _ w1, rows w1 = reservations (committed w) ∧
    committed w1 = committed w)).
  { destruct forced; [by l_step|]. eapply wp_mono; [apply wp_and;
      [apply unseen_release_permitted|apply committed_release_permitted]|]. by intros b w1 []. }
  intros [permitted|e] w1 [Hr1 Hc1]; [|left; split; [exact Hc1|done]].
  destruct permitted; simpl; [|l_step; left; by split].
  apply wp_bind. eapply wp_mono; [apply wp_and; [apply unseen_record_end|apply committed_record_end]|].
  intros [[]|e] w2 [Hr2 Hc2]; [|left; split; [simpl; congruence|done]].
  do 4 l_step. match goal with |- context [update_reservation ?x] => set (r' := x) end.
  apply wp_bind. eapply wp_mono; [apply wp_and;
    [apply unseen_release_effect|apply committed_release_effect]|].
  intros [[]|e] w3 [Hr3 Hc3]; [|left; split; [simpl in *; congruence|done]].
  do 3 l_step. destruct (_reservation_dimensions _ _) as [dims|];
    [|left; split; [simpl in *; congruence|done]].
  l_step. apply wp_bind, wp_capacity_event. l_step.
  match goal with |- context [with_working ?f w3] => set (d4 := f (working w3)) end.
  do 2 l_step.
  assert (reservations d4 = reservations (update_reservation r' (working w2))) as Hr4 by exact Hr3.
  assert (get_reservation_row i (working w2) = Some r) as Hget2.
  { rewrite Hsame; [done|]. congruence. }
  destruct (row_updated (working w2) r r' i Hget2 Hid) as [H1 H2].
  assert (terminal d4 i ∧ ∀ j, j ≠ i → get_reservation_row j d4 =
    get_reservation_row j (committed w)) as Hrows.
  { split.
    - exists r'. unfold get_reservation_row in *. rewrite Hr4. split; [done|]. by destruct forced.
    - intros j Hj. transitivity (get_reservation_row j (update_reservation r' (working w2))).
      + unfold get_reservation_row. by rewrite Hr4.
      + rewrite H2 by done. apply Hsame. congruence. }
  destruct (_reservation_payload _ _); [l_step|]; right; by split.
Qed.

(** ** Reads *)

Lemma wp_get_reservation i w :
  wp (get_reservation cfg i)
    (λ x w', committed w' = committed w ∧ ∀ p, x = Ok (Some p) →
       ∃ r, get_reservation_row i (committed w) = Some r ∧ _reservation_payload cfg r = Ok p) w.
Proof.
  apply wp_operation. do 3 l_step. change (working (opened w)) with (committed w). split; [done|].
  intros p. unfold payload_of. destruct (get_reservation_row i (committed w)) as [r|]; [|done].
  destruct (_reservation_payload cfg r) eqn:Hr; [|done]. intros [= <-]. by exists r.
Qed.

Lemma reservation_payload_fields r p :
  _reservation_payload cfg r = Ok p →
  pl_capacity_reservation_id p = capacity_reservation_id r ∧ pl_state p = res_state r.
Proof. unfold _reservation_payload. by intros (dims & _ & [= <-])%result_bind_Ok. Qed.

Lemma committed_operation {A} (m : M (world Ext) A) :
  unseen committed m → unseen committed (operation m).
Proof. intros Hm w. apply wp_operation. eapply wp_mono; [apply Hm|]. intros x w' H. exact H. Qed.

Lemma committed_list_lease_due now : unseen committed (list_lease_due cfg now).
Proof. apply committed_operation. session fail. Qed.
Lemma committed_list_reservations s : unseen committed (list_reservations cfg s).
Proof. apply committed_operation. session fail. Qed.
End rows.
