(* ===== verification/LeaseAnnouncements.v ===== *)
(** No release is forgotten: whatever the lease lifecycle does and however its
    steps fail, a lease it ended is pending in the outbox until the storefront
    has acknowledged it. *)
From S2P Require Import Prelude PyNum PyValue PyTime PoolDeclarations LedgerTypes.
From S2P Require Import LedgerMatching Ledger LedgerLifecycle LedgerSpec LedgerTrack.
From S2P Require Import LedgerRefinement Settlement SettlementFacts Sessions.
From S2P Require Import Release Fulfillment ReleaseOutbox LeaseLifecycle LeaseFacts.

Local Open Scope Z_scope.

(** Running the site's part of the state. *)
Definition with_site {Ext O Peer} (w : world Ext) (s : lease_world Ext O Peer)
    : lease_world Ext O Peer :=
  {| site := w; outbox := outbox s; storefront := storefront s |}.

Lemma wp_on_site {Ext O Peer A} (m : M (world Ext) A)
    (Q : result A → lease_world Ext O Peer → Prop) s :
  wp m (λ x w, Q x (with_site w s)) (site s) → wp (on_site m) Q s.
Proof. unfold wp, on_site. by destruct (m (site s)). Qed.

Section announcements.
Context {Ext O Peer : Type} `{!ReleaseOutbox O}.
Context (env : environment) (cfg : ledger_config Ext).
Context (executor : ReleaseExecutorPort Ext) (status_port : ReleaseStatusPort Ext).
Context (notifier : option (reservation_payload → M Peer bool)).
Context (drain : option (M (lease_world Ext O Peer) unit)).
Context (str_of : py_error → string) (grace_seconds : Z).
Context (told : Peer → string → Prop).

Abbreviation LW := (lease_world Ext O Peer).
Implicit Types (s : LW) (i j : string).

Abbreviation leases := (λ s : LW, committed (site s)).

(** The storefront learns of a release when the notifier is told it did, and
    does not forget. *)
Definition lawful_notifier : Prop :=
  ∀ notify p x, notifier = Some notify →
    wp (notify p) (λ r x', (∀ j, told x j → told x' j) ∧
                           (r = Ok true → told x' (pl_capacity_reservation_id p))) x.

(** A call that ends no lease. *)
Definition ends_no_lease {A} (m : M (world Ext) A) : Prop :=
  ∀ w, wp m (λ _ w', ∀ j, terminal (committed w') j → terminal (committed w) j) w.

(** The lease is pending announcement, or announced. *)
Definition announced s i : Prop := i ∈ pending (outbox s) ∨ told (storefront s) i.

(** The outbox's rows are keyed, and say acknowledged only of what was. *)
Definition outbox_sound s : Prop :=
  outbox_ok (outbox s) ∧ ∀ i, acknowledged i (outbox s) → told (storefront s) i.

(** From [s] to [s']: only announced leases ended, and announcements stay. *)
Record announcing s s' : Prop := {
  an_sound : outbox_sound s';
  an_ended : ∀ i, terminal (leases s') i → terminal (leases s) i ∨ announced s' i;
  an_kept : ∀ i, announced s i → announced s' i;
}.

Lemma announcing_trans s s1 s2 : announcing s s1 → announcing s1 s2 → announcing s s2.
Proof.
  intros [_ H1 K1] [S2 H2 K2]. split; [done| |by auto]. intros i [?%H1|?]%H2; [|by right].
  naive_solver.
Qed.

Lemma announcing_same s s' :
  outbox_sound s → outbox s' = outbox s → storefront s' = storefront s →
  (∀ i, terminal (leases s') i → terminal (leases s) i) → announcing s s'.
Proof.
  intros Hs Ho Hp Hl. unfold outbox_sound, announced in *.
  split; unfold outbox_sound, announced; rewrite ?Ho, ?Hp; auto.
Qed.

Definition announces {A} (m : M LW A) : Prop :=
  ∀ s, outbox_sound s → wp m (λ _ s', announcing s s') s.

Lemma announces_bind {A B} (m : M LW A) (k : A → M LW B) :
  announces m → (∀ a, announces (k a)) → announces (m ≫= k).
Proof.
  intros Hm Hk s Hs. apply wp_bind. eapply wp_mono; [by apply Hm|]. intros [a|e] s1 H1; [|done].
  eapply wp_mono; [apply Hk, H1|]. intros x s2. by apply announcing_trans.
Qed.

Lemma announces_catch {A} (m : M LW A) h :
  announces m → (∀ e, announces (h e)) → announces (catch m h).
Proof.
  intros Hm Hh s Hs. apply wp_catch. eapply wp_mono; [by apply Hm|]. intros [a|e] s1 H1; [done|].
  eapply wp_mono; [apply Hh, H1|]. intros x s2. by apply announcing_trans.
Qed.

Lemma announces_same {A} (m : M LW A) : (∀ s, (m s).2 = s) → announces m.
Proof. intros Hm s Hs. unfold wp. destruct (m s) as [r s'] eqn:E. specialize (Hm s). rewrite E in Hm.
  simpl in Hm. subst s'. by apply announcing_same. Qed.

Lemma announces_for_each {A} (l : list A) (body : A → M LW unit) :
  (∀ x, announces (body x)) → announces (for_each l body).
Proof.
  intros Hb. induction l as [|x l IH]; simpl; [by apply announces_same|]. by apply announces_bind.
Qed.

Lemma announces_on_site {A} (m : M (world Ext) A) : ends_no_lease m → announces (on_site m).
Proof.
  intros Hm s Hs. apply wp_on_site. eapply wp_mono; [apply Hm|]. intros x w H.
  by apply announcing_same.
Qed.

Lemma ends_no_lease_read {A} (m : M (world Ext) A) : unseen committed m → ends_no_lease m.
Proof. intros Hm w. eapply wp_mono; [apply Hm|]. intros x w' Hc j. by rewrite Hc. Qed.

(** ** The service's writes *)

Lemma announces_reservation i : announces (site_reservation cfg i).
Proof.
  apply announces_on_site, ends_no_lease_read. intros w.
  eapply wp_mono; [apply wp_get_reservation|]. by intros x w' [].
Qed.

Lemma announces_begin_release i handle context : announces (begin_release env cfg i handle context).
Proof.
  apply announces_on_site. intros w. eapply wp_mono; [apply wp_begin_releasing|].
  intros x w' H j. eapply transitioned_row_terminal; [|exact H]. by intros r r' [-> _].
Qed.

Lemma announces_failure i reason message handle context :
  announces (record_release_failure env cfg i reason message handle context).
Proof.
  apply announces_on_site. intros w. eapply wp_mono; [apply wp_record_release_failed|].
  intros x w' H j. eapply transitioned_row_terminal; [|exact H]. by intros r r' [-> _].
Qed.

Lemma announces_reserve i : announces (on_outbox (λ o, Ok (reserve i o))).
Proof.
  intros s [Hok Hs]. unfold wp, on_outbox.
  split; unfold announced, outbox_sound; simpl.
  - split; [by apply reserve_ok|]. intros j Hj%reserve_acknowledges. by apply Hs.
  - by left.
  - intros j [Hj|Hj]; [left; by apply reserve_kept|by right].
Qed.

Lemma announces_record_failure i error : announces (on_outbox (record_failure i error)).
Proof.
  intros s [Hok Hs]. unfold wp, on_outbox. destruct (record_failure i error (outbox s)) as [o|e] eqn:Ho.
  2: { by apply announcing_same. }
  split; unfold announced, outbox_sound; simpl.
  - split; [by eapply failure_ok|]. intros j Hj. eapply failure_acknowledges in Hj; [|done]. by apply Hs.
  - by left.
  - intros j [Hj|Hj]; [left; by eapply failure_kept|by right].
Qed.

(** Marking what the storefront was told. *)
Lemma wp_mark_told i s :
  outbox_sound s → told (storefront s) i →
  wp (on_outbox (mark_delivered i)) (λ _ s', announcing s s') s.
Proof.
  intros [Hok Hs] Ht. unfold wp, on_outbox. destruct (mark_delivered i (outbox s)) as [o|e] eqn:Ho.
  2: { by apply announcing_same. }
  split; unfold announced, outbox_sound; simpl.
  - split; [by eapply delivered_ok|]. intros j Hj.
    eapply delivered_acknowledges in Hj as [->|Hj]; [done|by apply Hs|done].
  - by left.
  - intros j [Hj|Hj]; [|by right]. destruct (decide (j = i)) as [->|Hne]; [by right|].
    left. by eapply delivered_kept.
Qed.

Context (Hnotify : lawful_notifier).

Lemma wp_notify p s :
  outbox_sound s →
  wp (_notify_storefront_capacity_released notifier p)
    (λ x s', announcing s s' ∧ (x = Ok true → told (storefront s') (pl_capacity_reservation_id p))) s.
Proof.
  intros [Hok Hs]. unfold _notify_storefront_capacity_released.
  destruct notifier as [notify|] eqn:Hn.
  2: { wp_step. by split; [apply announcing_same|]. }
  assert (∀ x', (∀ j, told (storefront s) j → told x' j) →
    announcing s {| site := site s; outbox := outbox s; storefront := x' |}) as Hann.
  { intros x' Hk. split; unfold announced, outbox_sound; simpl; [by auto|by left|].
    intros j [?|?]; [by left|right; auto]. }
  wp_step. pose proof (Hnotify notify p (storefront s) Hn) as H. unfold wp, on_storefront in *.
  destruct (notify p (storefront s)) as [[b|e] x']; destruct H as [Hk Ht].
  - split; [by apply Hann|exact Ht].
  - split; [by apply Hann|done].
Qed.

Lemma announces_deliver i : announces (_deliver_capacity_release cfg notifier i).
Proof.
  intros s Hs. unfold _deliver_capacity_release, site_reservation. wp_step. apply wp_on_site.
  eapply wp_mono; [apply wp_get_reservation|]. intros x w [Hc Hp].
  set (s1 := with_site w s).
  assert (announcing s s1) as H1 by (apply announcing_same; [done..|simpl; by rewrite Hc]).
  assert (outbox_sound s1) as Hs1 by apply H1.
  destruct x as [[p|]|e]; [|by wp_step|done].
  destruct (Hp p eq_refl) as (r & Hrow & [Hid _]%reservation_payload_fields).
  destruct (find_by_Some _ _ _ _ Hrow) as [_ Hrid].
  wp_step; [|by wp_step]. wp_step. eapply wp_mono; [by apply wp_notify|].
  intros [b|e] s2 [H2 Ht]; [|by eapply announcing_trans]. assert (outbox_sound s2) as Hs2 by apply H2.
  destruct b; wp_step.
  - eapply wp_mono; [apply wp_mark_told; [done|]|].
    + rewrite <- Hrid, <- Hid. by apply Ht.
    + intros [[]|e] s3 H3; [wp_step|]; eauto using announcing_trans.
  - eapply wp_mono; [by apply announces_record_failure|].
    intros [[]|e] s3 H3; [wp_step|]; eauto using announcing_trans.
Qed.

(** The release itself: reserved first, so the lease it ends is announced
    whatever happens next. *)
Lemma wp_reserve i s :
  outbox_sound s →
  wp (on_outbox (λ o, Ok (reserve i o)))
    (λ x s', x = Ok tt ∧ announcing s s' ∧ announced s' i) s.
Proof.
  intros Hs. pose proof (announces_reserve i s Hs) as H. unfold wp, on_outbox in *. simpl in *.
  split_and!; [done..|]. destruct (reserve_covers i (outbox s)) as [?|Ha]; [by left|right].
  by apply Hs.
Qed.

Lemma wp_announced_release i forced context reason message s :
  outbox_sound s → announced s i →
  wp (record_release_success env cfg i forced context reason message)
    (λ _ s', announcing s s') s.
Proof.
  intros Hs Hi. apply wp_on_site. eapply wp_mono; [apply wp_release_rows|]. intros x w Hx.
  destruct Hx as [[Hd _]|(_ & _ & Hj)]; [apply announcing_same; [done..|simpl; by rewrite Hd]|].
  split; [done| |done]. intros j (r & Hr & Hrel). destruct (decide (j = i)) as [->|Hne].
  - by right.
  - left. exists r. simpl in Hr. by rewrite Hj in Hr.
Qed.

Lemma announces_release i forced context reason message {A}
    (k : option reservation_payload → M LW A) :
  (∀ x, announces (k x)) →
  announces (on_outbox (λ o, Ok (reserve i o)) ≫= λ _,
             record_release_success env cfg i forced context reason message ≫= k).
Proof.
  intros Hk s Hs. wp_step. eapply wp_mono; [by apply wp_reserve|]. intros ? s0 (-> & H0 & Hi).
  wp_step. eapply wp_mono; [apply wp_announced_release; [apply H0|done]|].
  intros [x|e] s1 H1; [|by eapply announcing_trans]. eapply wp_mono; [apply Hk, H1|].
  intros y s2 H2. eauto using announcing_trans.
Qed.

(** ** The service's operations *)

Context (Hdrain : ∀ m, drain = Some m → announces m).
Context (Hsubmit : ∀ p, ends_no_lease (port_submit_release executor p)).
Context (Hbegin : ∀ f, ends_no_lease (port_begin_teardown executor f)).
Context (Hstatus : ∀ f, ends_no_lease (status_port f)).

Ltac announcing_code known :=
  repeat first
    [ progress cbv zeta | known
    | apply announces_bind; [|intros]
    | apply announces_catch; [|intros]
    | match goal with
      | |- announces (match ?x with _ => _ end) => destruct x
      | |- announces (let '(_, _) := ?x in _) => destruct x
      end
    | by apply announces_same ].

Lemma announces_drain_reports : announces (_drain_lease_end_reports drain).
Proof. unfold _drain_lease_end_reports. destruct drain; [by apply Hdrain|by apply announces_same]. Qed.

Lemma announces_drain_outbox : announces (_drain_capacity_release_outbox cfg notifier).
Proof.
  unfold _drain_capacity_release_outbox. apply announces_bind; [by apply announces_same|]. intros o.
  apply announces_for_each. intros i. announcing_code ltac:(apply announces_deliver).
Qed.

Lemma announces_finish i context : announces (_finish_release env cfg notifier i context).
Proof.
  unfold _finish_release. apply announces_release. intros x.
  announcing_code ltac:(apply announces_deliver).
Qed.

Lemma announces_mark i reason message handle context :
  announces (_mark_release_failed env cfg i reason message handle context).
Proof.
  unfold _mark_release_failed, _yield_to_current_state.
  announcing_code ltac:(first [apply announces_failure|apply announces_reservation]).
Qed.

Lemma announces_now : announces (on_site (now_utc env) : M LW datetime).
Proof. apply announces_on_site, ends_no_lease_read. session fail. Qed.

Lemma announces_follow p d context : announces (follow_decision env cfg executor p d context).
Proof.
  unfold follow_decision, _begin_recorded_teardown, _yield_to_current_state.
  announcing_code ltac:(first
    [ apply announces_begin_release | apply announces_mark | apply announces_reservation
    | apply announces_on_site, Hbegin ]).
Qed.

Lemma announces_request p context : announces (_request_release env cfg executor notifier p context).
Proof.
  unfold _request_release, request_context.
  announcing_code ltac:(first
    [ apply announces_now | apply announces_finish | apply announces_mark | apply announces_follow
    | apply announces_on_site, Hsubmit ]).
Qed.

Lemma announces_releasing p now :
  announces (_process_releasing_reservation env cfg executor status_port notifier grace_seconds p now).
Proof.
  unfold _process_releasing_reservation, read_status, time_out.
  announcing_code ltac:(first
    [ apply announces_finish | apply announces_mark
    | apply announces_on_site; first [apply Hbegin|apply Hstatus] ]).
Qed.

Lemma announces_each handle rows c :
  (∀ p, announces (handle p)) → announces (each_lease handle rows c).
Proof.
  intros Hh. revert c. induction rows as [|p rows IH]; intros c; simpl; [by apply announces_same|].
  apply announces_bind; [apply Hh|]. intros o. apply IH.
Qed.

Lemma announces_cycle :
  announces (_run_cycle env cfg executor status_port notifier drain str_of grace_seconds).
Proof.
  unfold _run_cycle.
  announcing_code ltac:(first
    [ apply announces_drain_reports | apply announces_drain_outbox | apply announces_now
    | apply announces_on_site, ends_no_lease_read;
      first [apply committed_list_lease_due|apply committed_list_reservations]
    | apply announces_each; intros; unfold due_lease, releasing_lease
    | apply announces_request | apply announces_releasing | apply announces_mark ]).
Qed.

(** ** Histories *)

(** What an operator, a caller or the timer asks of the service. *)
Inductive lease_call : Type :=
  | LcCycle
  | LcTerminate (i : string) (reason : option string) (caller : value)
  | LcOversight (i reason : string)
  | LcRetry (i : string)
  | LcForce (i reason : string) (evidence : option string) (caller : value).

Definition run_lease_call (c : lease_call) : M LW unit :=
  match c with
  | LcCycle =>
      _run_cycle env cfg executor status_port notifier drain str_of grace_seconds ≫= λ _, mret tt
  | LcTerminate i reason caller =>
      terminate_lease env cfg executor notifier drain i reason caller ≫= λ _, mret tt
  | LcOversight i reason => release_oversight cfg i reason ≫= λ _, mret tt
  | LcRetry i => retry_release env cfg executor notifier i ≫= λ _, mret tt
  | LcForce i reason evidence caller =>
      force_release env cfg notifier drain i reason evidence caller ≫= λ _, mret tt
  end.

Definition lease_history (cs : list lease_call) (s : LW) : LW :=
  fold_left (λ s c, (run_lease_call c s).2) cs s.

Lemma announces_get i : announces (get_lease cfg i : M LW reservation_payload).
Proof. unfold get_lease. announcing_code ltac:(apply announces_reservation). Qed.

Lemma announces_unmanaged i reason message :
  announces (on_site (record_unmanaged cfg i reason message) : M LW _).
Proof.
  apply announces_on_site. intros w. eapply wp_mono; [apply wp_record_unmanaged|].
  intros x w' H j. eapply transitioned_row_terminal; [|exact H]. by intros r r' ->.
Qed.

Lemma announces_call c : announces (run_lease_call c).
Proof.
  destruct c; simpl; (apply announces_bind; [|by intros; apply announces_same]).
  - apply announces_cycle.
  - unfold terminate_lease. announcing_code ltac:(first
      [ apply announces_get | apply announces_now | apply announces_request
      | apply announces_drain_reports ]).
  - unfold release_oversight. announcing_code ltac:(first [apply announces_get|apply announces_unmanaged]).
  - unfold retry_release. announcing_code ltac:(first [apply announces_get|apply announces_request]).
  - unfold force_release. announcing_code ltac:(first
      [ apply announces_get | apply announces_release; intros | apply announces_deliver
      | apply announces_drain_reports ]).
Qed.

Lemma lease_history_announcing cs s : outbox_sound s → announcing s (lease_history cs s).
Proof.
  unfold lease_history. revert s. induction cs as [|c cs IH]; intros s Hs; simpl.
  - by apply announcing_same.
  - pose proof (announces_call c s Hs) as H. unfold wp in H.
    eapply announcing_trans; [exact H|]. apply IH, H.
Qed.
End announcements.

Arguments run_lease_call {Ext O Peer _} env cfg executor status_port notifier drain str_of
  grace_seconds c.
Arguments lease_history {Ext O Peer _} env cfg executor status_port notifier drain str_of
  grace_seconds cs s.

(** What the lifecycle relies on of its ports: the notifier answers [True] only
    for a release the storefront learned of; the other ports end no lease
    themselves, whatever else they or others do meanwhile. *)
Record lawful_ports {Ext O Peer} `{!ReleaseOutbox O} (told : Peer → string → Prop)
    (executor : ReleaseExecutorPort Ext) (status_port : ReleaseStatusPort Ext)
    (notifier : option (reservation_payload → M Peer bool))
    (drain : option (M (lease_world Ext O Peer) unit)) : Prop := {
  lp_notifier : lawful_notifier notifier told;
  lp_drain : ∀ m, drain = Some m → announces told m;
  lp_submit : ∀ p, ends_no_lease (port_submit_release executor p);
  lp_begin : ∀ f, ends_no_lease (port_begin_teardown executor f);
  lp_status : ∀ f, ends_no_lease (status_port f);
}.

(** C11: no release is forgotten.  Through any history of lifecycle calls and
    timer cycles, over any outbox that keeps the outbox's contract, and whatever
    raises in between (the notifier included), every lease that ended is still
    pending in the outbox or has been acknowledged by the storefront; nothing
    pending is dropped before it is, and the outbox never marks delivered what
    the storefront was not told. *)
Theorem ended_leases_are_announced {Ext O Peer} `{!ReleaseOutbox O} env (cfg : ledger_config Ext)
    executor status_port notifier drain str_of grace_seconds (told : Peer → string → Prop)
    cs (s : lease_world Ext O Peer) :
  lawful_ports told executor status_port notifier drain → outbox_sound told s →
  let s' := lease_history env cfg executor status_port notifier drain str_of grace_seconds cs s in
  (∀ i, terminal (committed (site s')) i →
     terminal (committed (site s)) i ∨ i ∈ pending (outbox s') ∨ told (storefront s') i) ∧
  (∀ i, i ∈ pending (outbox s) → i ∈ pending (outbox s') ∨ told (storefront s') i) ∧
  outbox_sound told s'.
Proof.
  intros [Hn Hd Hs Hb Hst] Hsound. cbv zeta.
  destruct (lease_history_announcing env cfg executor status_port notifier drain str_of grace_seconds
    told Hn Hd Hs Hb Hst cs s Hsound) as [H1 H2 H3].
  split_and!; [exact H2| |exact H1]. intros i Hi. apply H3. by left.
Qed.
