(* ===== verification/LeaseProperties.v ===== *)
(** The lease lifecycle's contract over the fulfillment-backed ports: what a
    release request and a releasing lease come to, under which handle a failure
    lands, and that teardown begins only for a recorded release. *)
From S2P Require Import Prelude PyNum PyValue PyTime PoolDeclarations LedgerTypes.
From S2P Require Import LedgerMatching Ledger.
From S2P Require Import LedgerLifecycle LedgerSpec LedgerTrack LedgerRefinement LedgerCapacity.
From S2P Require Import Settlement.
From S2P Require Import SettlementFacts Sessions Release ReleaseProperties Fulfillment.
From S2P Require Import ReleaseOutbox.
From S2P Require Import LeaseLifecycle LeaseFacts LeaseAnnouncements.


Local Open Scope Z_scope.

(** ** Calls that keep every reservation *)

Section rows_kept.
Context {Ext : Type} `{!SettlementTables Ext}.

Definition keeps_rows {A} (m : M (world Ext) A) : Prop :=
  ∀ w, wp m (λ _ w', reservations (committed w') = reservations (committed w)) w.

Lemma keeps_rows_bind {A B} (m : M (world Ext) A) (k : A → M (world Ext) B) :
  keeps_rows m → (∀ a, keeps_rows (k a)) → keeps_rows (m ≫= k).
Proof.
  intros Hm Hk w. apply wp_bind. eapply wp_mono; [apply Hm|]. intros [a|e] w1 H1; [|done].
  eapply wp_mono; [apply Hk|]. intros x w2 H2. congruence.
Qed.

Lemma keeps_rows_catch {A} (m : M (world Ext) A) h :
  keeps_rows m → (∀ e, keeps_rows (h e)) → keeps_rows (catch m h).
Proof.
  intros Hm Hh w. apply wp_catch. eapply wp_mono; [apply Hm|]. intros [a|e] w1 H1; [done|].
  eapply wp_mono; [apply Hh|]. intros x w2 H2. congruence.
Qed.

Lemma keeps_rows_committed {A} (m : M (world Ext) A) : unseen committed m → keeps_rows m.
Proof. intros Hm w. eapply wp_mono; [apply Hm|]. intros x w' H. by rewrite H. Qed.

Lemma keeps_rows_session {A} (m : M (world Ext) A) : unseen committed m → keeps_rows (in_session m).
Proof.
  intros Hm w. unfold in_session. specialize (Hm (begin_session w)). unfold wp in *.
  destruct (m (begin_session w)). simpl in *. by rewrite Hm.
Qed.

Lemma keeps_rows_transaction {A} (m : M (world Ext) A) :
  unseen (λ w, reservations (working w)) m → unseen committed m →
  keeps_rows (in_session (a ← m; commit_session;; mret a)).
Proof.
  intros Hr Hc w. specialize (Hr (begin_session w)). specialize (Hc (begin_session w)).
  unfold wp, in_session, mbind, M_bind in *. destruct (m (begin_session w)) as [[a|e] w1]; simpl in *.
  - done.
  - by rewrite Hc.
Qed.

Lemma keeps_rows_terminal {A} (m : M (world Ext) A) : keeps_rows m → ends_no_lease m.
Proof. intros Hm w. eapply wp_mono; [apply Hm|]. intros x w' H j. by apply terminal_rows. Qed.

Context (providers : gmap string (FulfillmentProvider Ext)).
Context (read_config : Ext → string → string → result dict).

Lemma keeps_rows_begin_teardown f : keeps_rows (service_begin_teardown providers read_config f).
Proof.
  unfold service_begin_teardown. apply keeps_rows_bind.
  { unfold get_fulfillment_status, read_transaction, settled. apply keeps_rows_session. session fail. }
  intros st. destruct (negb _).
  - apply keeps_rows_bind; [|by intros a w].
    unfold begin_fulfillment_teardown, transaction, _prepared_teardown, _settlement_result, get_pool, settled.
    apply keeps_rows_transaction; session fail.
  - apply keeps_rows_bind; [|by intros a w].
    apply keeps_rows_catch; [|by intros e; destruct e].
    unfold begin_compensating_teardown, transaction, _prepared_teardown, _settlement_result, get_pool,
      settled.
    apply keeps_rows_transaction; session fail.
Qed.

Lemma submit_release_reads p :
  unseen committed (port_submit_release (FulfillmentReleaseExecutor providers read_config) p).
Proof. intros w. done. Qed.

Lemma status_reads f : unseen committed (FulfillmentReleaseStatusPort f : M (world Ext) _).
Proof. intros w. done. Qed.

(** The fulfillment-backed ports end no lease. *)
Lemma fulfillment_ports_lawful {O Peer} `{!ReleaseOutbox O} (told : Peer → string → Prop) notifier
    (drain : option (M (lease_world Ext O Peer) unit)) :
  lawful_notifier notifier told → (∀ m, drain = Some m → announces told m) →
  lawful_ports told (FulfillmentReleaseExecutor providers read_config) FulfillmentReleaseStatusPort
    notifier drain.
Proof.
  intros Hn Hd. split; [done|done|..].
  - intros p. apply ends_no_lease_read, submit_release_reads.
  - intros f. apply keeps_rows_terminal, keeps_rows_begin_teardown.
  - intros f. apply ends_no_lease_read, status_reads.
Qed.
End rows_kept.

(** ** The service's steps *)

Section steps.
Context {Ext O Peer : Type} `{!SettlementTables Ext, !ReleaseOutbox O}.
Context (env : environment) (cfg : ledger_config Ext).
Context (notifier : option (reservation_payload → M Peer bool)).

Abbreviation LW := (lease_world Ext O Peer).
Implicit Types (s : LW) (d : DB Ext).
Abbreviation lease_db := (λ s : LW, committed (site s)).

Lemma wp_site_read {A} (m : M (world Ext) A) s :
  unseen committed m → wp (on_site m) (λ _ s', lease_db s' = lease_db s) s.
Proof. intros Hm. apply wp_on_site. eapply wp_mono; [apply Hm|]. done. Qed.

Lemma get_reservation_reads i : unseen committed (get_reservation cfg i).
Proof. intros w. eapply wp_mono; [apply wp_get_reservation|]. by intros x w' []. Qed.

(** Telling the storefront touches no table of the site. *)
Lemma wp_deliver i s : wp (_deliver_capacity_release cfg notifier i) (λ _ s', lease_db s' = lease_db s) s.
Proof.
  unfold _deliver_capacity_release, site_reservation, _notify_storefront_capacity_released.
  wp_step. eapply wp_mono; [apply wp_site_read, get_reservation_reads|]. intros [[p|]|e] s1 H1;
    [|by wp_step|done].
  wp_step; [|by wp_step]. wp_step.
  eapply (wp_mono _ (λ _ s2, lease_db s2 = lease_db s)).
  { destruct notifier as [notify|]; [|by wp_step]. wp_step. unfold wp, on_storefront.
    by destruct (notify p (storefront s1)) as [[b|e] x]. }
  assert (∀ f s2, lease_db s2 = lease_db s →
    wp (on_outbox f) (λ _ s3, lease_db s3 = lease_db s) s2) as Hout.
  { intros f s2 H2. unfold wp, on_outbox. by destruct (f (outbox s2)). }
  intros [[]|e] s2 H2; [| |done]; wp_step; (eapply wp_mono; [by apply Hout|]);
    intros [[]|e] s3 H3; try done; by wp_step.
Qed.

(** Every other reservation's row stays as it is. *)
Definition others_kept (i : string) d d' : Prop :=
  ∀ j, j ≠ i → get_reservation_row j d' = get_reservation_row j d.



(** Recording a failed release. *)
Definition release_failed_row i reason message handle d d' : Prop :=
  (∃ r r', get_reservation_row i d = Some r ∧ can_fail handle r = true ∧
     failed_release reason message r r' ∧ get_reservation_row i d' = Some r') ∧
  others_kept i d d'.

Definition failure_recorded i reason message handle d (x : result lease_outcome) d' : Prop :=
  match x with
  | Ok o_release_failed => release_failed_row i reason message handle d d'
  | Ok o_skipped =>
      d' = d ∧ ∀ r, get_reservation_row i d = Some r → can_fail handle r = false
  | Ok _ => False
  | Err _ => d' = d ∨ release_failed_row i reason message handle d d'
  end.

Lemma wp_mark_failed i reason message handle context s :
  wp (_mark_release_failed env cfg i reason message handle context)
    (λ x s', failure_recorded i reason message handle (lease_db s) x (lease_db s')) s.
Proof.
  unfold _mark_release_failed. wp_step. apply wp_on_site.
  eapply wp_mono; [apply wp_record_release_failed|].
  intros x w H. destruct H as [[Hd Hx]|[Hx (r & r' & Hr & Hc & Hf & Hr' & Hj)]].
  - destruct x as [[p|]|e]; [by destruct Hx as [[? _]|[? ?]]| |by left].
    destruct Hx as [[_ Hr]|[? ?]]; [|done]. unfold _yield_to_current_state. wp_step.
    eapply wp_mono; [apply wp_site_read, get_reservation_reads|].
    intros [p|e] s1 H1; [wp_step|left]; simpl in *; [split; [congruence|done]|congruence].
  - assert (release_failed_row i reason message handle (lease_db s) (committed w)) as Hrow
      by (split; [by exists r, r'|done]).
    destruct x as [[p|]|e]; [by wp_step|done|by right].
Qed.

Context (job_bound : Ext → string → bool) (Hwired : wired cfg job_bound).

(** A held lease, whose release must be proven. *)
Definition held_lease d (i : string) : Prop :=
  i ≠ ""%string ∧ ∃ r, get_reservation_row i d = Some r ∧
    held_state (res_state r) = true ∧ res_state r ≠ unmanaged.

(** The lease ended, nothing remaining delivered, the guard having agreed. *)
Definition proven_end i d d' : Prop :=
  (FulfillmentReleaseGuard job_bound d i).1 = true ∧ ended_on_proof job_bound d' i.

Lemma wp_finish i context s :
  good (lease_db s) → held_lease (lease_db s) i →
  wp (_finish_release env cfg notifier i context)
    (λ x s', others_kept i (lease_db s) (lease_db s') ∧
     match x with
     | Ok true => proven_end i (lease_db s) (lease_db s')
     | Ok false => lease_db s' = lease_db s ∧
         (FulfillmentReleaseGuard job_bound (lease_db s) i).1 = false
     | Err _ => lease_db s' = lease_db s ∨ proven_end i (lease_db s) (lease_db s')
     end) s.
Proof.
  intros [Hwf Hf] (Hi & r & Hget & Hheld & Hun). unfold _finish_release. wp_step.
  eapply (wp_mono _ (λ x s0, x = Ok tt ∧ lease_db s0 = lease_db s)); [done|].
  intros ? s0 [-> H0]. wp_step. apply wp_on_site. simpl in H0. rewrite <- H0 in *.
  eapply wp_mono; [apply wp_and; [apply wp_release_rows|
    by eapply (wp_guarded_release env cfg job_bound Hwired (site s0) i None)]|].
  intros x w [Hrows (H1 & H2 & H3)].
  assert (others_kept i (committed (site s0)) (committed w)) as Hkept.
  { destruct Hrows as [[-> _]|(_ & _ & Hk)]; done. }
  assert (x ≠ Ok None → ended_on_proof job_bound (committed w) i →
    proven_end i (committed (site s0)) (committed w)) as Hproven.
  { intros Hx He. split; [|done].
    destruct (FulfillmentReleaseGuard job_bound (committed (site s0)) i).1; [done|].
    by destruct Hx; apply H2. }
  destruct x as [[p|]|e]; [|wp_step; split; [done|]|].
  - wp_step. eapply wp_mono; [apply wp_deliver|]. intros x s1 Hs1. simpl in Hs1.
    destruct x; [wp_step|]; rewrite Hs1; (split; [done|]); [|right]; by apply Hproven.
  - split; [exact H1|]. destruct (FulfillmentReleaseGuard _ _ _).1; [|done].
    by destruct H3.
  - split; [done|]. destruct H1 as [H1|H1]; [by left|right; by apply Hproven].
Qed.

Context (providers : gmap string (FulfillmentProvider Ext)).
Context (read_config : Ext → string → string → result dict).
Abbreviation executor := (FulfillmentReleaseExecutor providers read_config).

Lemma wp_begin_teardown f s :
  wp (on_site (port_begin_teardown executor f))
    (λ _ s', reservations (lease_db s') = reservations (lease_db s)) s.
Proof. apply wp_on_site. eapply wp_mono; [apply keeps_rows_begin_teardown|]. done. Qed.










(** ** A lease being released *)

Context (grace_seconds : Z).

(** What handling a releasing lease comes to. *)
Definition processed i p now handle d (x : result lease_outcome) d' : Prop :=
  let progress := rs_progress (get_status (settlement (ext d)) handle) in
  match x with
  | Ok o_released =>
      progress = P_TORN_DOWN ∧ nothing_delivered job_bound d' i ∧
      ∃ r', get_reservation_row i d' = Some r' ∧ res_state r' = released
  | Ok o_release_failed =>
      progress ≠ P_CREATE_IN_FLIGHT ∧ progress ≠ P_TORN_DOWN ∧
      (progress = P_TEARING_DOWN → stalled grace_seconds p now = Ok true) ∧
      (∃ r, get_reservation_row i d = Some r ∧
         (res_state r = releasing → release_job_id r = Some handle)) ∧
      ∃ r', get_reservation_row i d' = Some r' ∧ res_state r' = release_failed
  | Ok o_releasing => False
  | Ok o_skipped => d' = d ∨ progress = P_READY_FOR_TEARDOWN
  | Err _ => progress ≠ P_CREATE_IN_FLIGHT
  end.

Lemma can_fail_handle handle r :
  can_fail (Some handle) r = true → res_state r = releasing → release_job_id r = Some handle.
Proof. unfold can_fail. intros H Hs. rewrite Hs in H. by apply bool_decide_eq_true in H. Qed.

(** A failure recorded under the handle, when the rows are still those of [d]. *)
Lemma wp_fail_processed i p now handle reason message d s :
  reservations (lease_db s) = reservations d →
  let progress := rs_progress (get_status (settlement (ext d)) handle) in
  progress ≠ P_CREATE_IN_FLIGHT → progress ≠ P_TORN_DOWN →
  (progress = P_TEARING_DOWN → stalled grace_seconds p now = Ok true) →
  lease_db s = d ∨ progress = P_READY_FOR_TEARDOWN →
  wp (_mark_release_failed env cfg i reason message (Some handle) None)
    (λ x s', processed i p now handle d x (lease_db s')) s.
Proof.
  intros Hrows progress Hc Ht Hstall Hd. eapply wp_mono; [apply wp_mark_failed|].
  intros [[]|e] s1 H; simpl in *; fold progress; try done.
  - destruct H as [(r & r' & Hr & Hf & [? _] & ?) _]. split_and!; [done..| |by exists r'].
    exists r. split; [unfold get_reservation_row in *; by rewrite <- Hrows|]. by apply can_fail_handle.
  - destruct H as [H _]. destruct Hd as [<-|?]; [by left|by right].
Qed.

Lemma wp_time_out p now handle d s :
  lease_db s = d → rs_progress (get_status (settlement (ext d)) handle) = P_TEARING_DOWN →
  wp (time_out env cfg grace_seconds p now handle)
    (λ x s', processed (pl_capacity_reservation_id p) p now handle d x (lease_db s')) s.
Proof.
  intros Hd Hp. unfold time_out. do 2 wp_step. destruct (stalled grace_seconds p now) as [[]|e] eqn:Hst.
  - apply wp_fail_processed; rewrite ?Hp; try done; [by rewrite Hd|by left].
  - wp_step. by left.
  - simpl. by rewrite Hp.
Qed.

(** A releasing lease follows its fulfillment's progress.  For a lease still
    held, its capacity is freed only once the aggregate is torn down and the
    guard agreed; while a create is in flight nothing at all is written, however
    long it takes; a teardown is timed out only after the grace period counted
    from when this release began; and a failure is recorded on a releasing row
    only under the handle it was observed for. *)
Theorem releasing_follows_progress p now handle s :
  let i := pl_capacity_reservation_id p in
  good (lease_db s) → held_lease (lease_db s) i → str_truthy (pl_release_job_id p) = Some handle →
  wp (_process_releasing_reservation env cfg executor FulfillmentReleaseStatusPort notifier
        grace_seconds p now)
    (λ x s', processed i p now handle (lease_db s) x (lease_db s')) s.
Proof.
  intros i Hgood Hheld Hhandle. unfold _process_releasing_reservation. cbv zeta. rewrite Hhandle.
  fold i. wp_step. eapply (wp_mono _ (λ x s1,
    x = Ok (Some (get_status (settlement (ext (lease_db s))) handle)) ∧ lease_db s1 = lease_db s));
    [done|].
  intros ? s1 [-> H1]. set (st := get_status _ _). destruct (rs_progress st) eqn:Hp.
  - wp_step. eapply wp_mono; [apply wp_finish; by rewrite H1|]. rewrite H1.
    intros [[]|e] s2 [_ H2]; [| |simpl; fold st; by rewrite Hp]; wp_step; simpl; fold st.
    + split; [done|apply H2].
    + left. apply H2.
  - apply wp_fail_processed; fold st; rewrite ?H1, ?Hp; try done. by left.
  - wp_step. wp_step. eapply wp_mono; [apply wp_begin_teardown|]. intros [b|e] s2 H2.
    + wp_step. right. exact Hp.
    + destruct e; try (wp_step; simpl; fold st; by rewrite Hp).
      apply wp_fail_processed; fold st; rewrite ?H2, ?H1, ?Hp; try done. by right.
  - wp_step. by left.
  - by apply wp_time_out.
Qed.

(** Where a failure may land.  A release failure is recorded exactly on a
    lease still reserved or leased, or releasing under the handle the failure
    was observed for; on any lease it is refused it writes nothing.  A failure
    observed before the lease was releasing names no handle, and such a failure
    also lands on whatever release the lease has come under since. *)
Theorem failure_lands_by_handle i reason message handle context s :
  wp (_mark_release_failed env cfg i reason message handle context : M LW _)
    (λ x s', match x with
     | Ok o_release_failed =>
         ∃ r r', get_reservation_row i (lease_db s) = Some r ∧
           (res_state r = reserved ∨ res_state r = leased ∨
            (res_state r = releasing ∧ (handle = None ∨ release_job_id r = handle))) ∧
           get_reservation_row i (lease_db s') = Some r' ∧
           res_state r' = release_failed ∧ failure_reason r' = Some reason ∧
           release_job_id r' = release_job_id r
     | Ok o_skipped =>
         lease_db s' = lease_db s ∧
         ∀ r, get_reservation_row i (lease_db s) = Some r →
           res_state r ≠ reserved ∧ res_state r ≠ leased ∧
           (res_state r = releasing → ∃ h, handle = Some h ∧ release_job_id r ≠ Some h)
     | Ok _ => False
     | Err _ => True
     end) s.
Proof.
  eapply wp_mono; [apply wp_mark_failed|]. intros [[]|e] s1 H; try done; simpl in H.
  - destruct H as [(r & r' & Hr & Hf & (? & ? & _ & ?) & ?) _]. exists r, r'. split_and!; try done.
    unfold can_fail in Hf. destruct (res_state r); try done; auto. right. right. split; [done|].
    destruct handle; [|by left]. right. by apply bool_decide_eq_true in Hf.
  - destruct H as [? H]. split; [done|]. intros r Hr%H. unfold can_fail in Hr.
    destruct (res_state r); try done. split_and!; try done. intros _.
    destruct handle as [h|]; [|done]. exists h. split; [done|]. by apply bool_decide_eq_false in Hr.
Qed.
End steps.

(** ** Durable before teardown *)

Section recorded.
Context {Ext O Peer : Type} `{!ReleaseOutbox O}.
Context (env : environment) (cfg : ledger_config Ext).
Context (notifier : option (reservation_payload → M Peer bool)).

Abbreviation LW := (lease_world Ext O Peer).
Implicit Types (s : LW).

Lemma bind_same {A B} (m : M LW A) (k k' : A → M LW B) s :
  (∀ a s1, m s = (Ok a, s1) → k a s1 = k' a s1) → (m ≫= k) s = (m ≫= k') s.
Proof.
  intros H. unfold mbind, M_bind. destruct (m s) as [[a|e] s1] eqn:E; [|done]. by apply H.
Qed.

(** Some lease is durably releasing under the fulfillment. *)
Definition recorded (i f : string) (w : world Ext) : Prop :=
  ∃ r, get_reservation_row i (committed w) = Some r ∧ res_state r = releasing ∧
       release_job_id r = Some f.

Lemma follow_recorded (e e' : ReleaseExecutorPort Ext) p dec context s :
  (∀ f w, recorded (pl_capacity_reservation_id p) f w →
     port_begin_teardown e f w = port_begin_teardown e' f w) →
  follow_decision env cfg e p dec context s = follow_decision env cfg e' p dec context s.
Proof.
  intros Hb. unfold follow_decision. cbv zeta. case_bool_decide; [|done]. apply bind_same.
  intros [q|] s1 Hrun; [|done]. case_bool_decide; [|done].
  assert (recorded (pl_capacity_reservation_id p) (default "None"%string (rd_fulfillment_id dec))
    (site s1)) as Hrec.
  { refine (wp_run _ (λ x s', x = Ok (Some q) → recorded _ _ (site s')) s (Ok (Some q)) s1 _ Hrun eq_refl).
    apply wp_on_site. eapply wp_mono; [apply wp_begin_releasing|].
    intros ? w Hrow ->. destruct Hrow as [[_ [[? _]|[? ?]]]|(_ & r & r' & _ & _ & [? ?] & ? & _)]; [done..|].
    by exists r'. }
  unfold _begin_recorded_teardown, catch, mbind, M_bind, on_site.
  by rewrite (Hb _ _ Hrec).
Qed.

(** A teardown never runs ahead of its record.  A release request begins a
    teardown only when the lease is already committed as [releasing] under that
    fulfillment: what the executor's [begin_teardown] would do in any other
    state, a crash included, cannot be observed. *)
Theorem teardown_begins_recorded (e e' : ReleaseExecutorPort Ext) p context s :
  (∀ q, port_submit_release e q = port_submit_release e' q) →
  (∀ f w, recorded (pl_capacity_reservation_id p) f w →
     port_begin_teardown e f w = port_begin_teardown e' f w) →
  _request_release env cfg e notifier p context s = _request_release env cfg e' notifier p context s.
Proof.
  intros Hs Hb. unfold _request_release. cbv zeta. apply bind_same. intros c s1 _. rewrite Hs.
  apply bind_same. intros dec s2 _. case_bool_decide; [|by apply follow_recorded].
  apply bind_same. intros [] s3 _; [done|]. apply bind_same. intros dec' s4 _.
  case_bool_decide; [done|by apply follow_recorded].
Qed.
End recorded.

(** * A lease from its create to its release on the demo site, with every part of
    the program taking its turn, and instances of the lifecycle's theorems. *)
From S2P Require Import Prelude PyNum PyValue PyNumFacts JobMetadata PyTime PyTimeFacts.
From S2P Require Import PoolDeclarations.
From S2P Require Import LedgerTypes LedgerMatching Ledger LedgerLifecycle LedgerRegistry.
From S2P Require Import LedgerSpec.
From S2P Require Import LedgerCapacity LedgerHistory LedgerProperties Backoff Settlement.
From S2P Require Import SettlementFacts.
From S2P Require Import SettlementClaims Sessions RoundRobin Scheduler SchedulerFacts.
From S2P Require Import SchedulerProperties.
From S2P Require Import Release ReleaseProperties CompositionDemo Fulfillment FulfillmentFacts.
From S2P Require Import FulfillmentProperties Convergence ConvergenceFacts SiteHistory.
From S2P Require Import ReleaseOutbox.
From S2P Require Import LeaseLifecycle LeaseFacts LeaseAnnouncements.


Local Close Scope Z_scope.
Local Open Scope Z_scope.
Local Open Scope string_scope.

(** ** The storefront and the service *)

(** The storefront keeps the releases it was told of. *)
Definition demo_notifier : option (reservation_payload → M (list string) bool) :=
  Some (λ p x, (Ok true, pl_capacity_reservation_id p :: x)).

Definition demo_told (x : list string) (i : string) : Prop := i ∈ x.

Definition demo_executor : ReleaseExecutorPort FDB :=
  FulfillmentReleaseExecutor demo_providers demo_config.

Definition lease_site : Type := lease_world FDB SqlAlchemyCapacityReleaseOutbox (list string).

Definition at_site (w : world FDB) : lease_site :=
  {| site := w; outbox := []; storefront := [] |}.

Definition demo_lease_call (c : lease_call) (s : lease_site) : lease_site :=
  (run_lease_call demo_env site_cfg demo_executor FulfillmentReleaseStatusPort demo_notifier None
     (λ _, "error") 300 c s).2.

Definition converged (s : lease_site) : lease_site := with_site (demo_cycle (site s)).2 s.

(** ** The life of a lease *)

Definition leased_site : world FDB :=
  after demo_env site_cfg (CCommit None (Some "id2") None (Some "2023-11-16T00:00:00+00:00") None)
    (demo_cycle begun.2).2.

Definition terminated : lease_site :=
  demo_lease_call (LcTerminate "id2" (Some "done") VNone) (at_site leased_site).

Definition ended : lease_site := demo_lease_call LcCycle (converged (converged terminated)).

Definition lease_view (s : lease_site) : option (ReservationState * option string) * SettlementRecordState *
    list string * list string :=
  ((λ r, (res_state r, release_job_id r)) <$> get_reservation_row "id2" (committed (site s)),
   sr_state (row_of "id2" (site s)), pending (outbox s), storefront s).

Example life_of_a_lease :
  (lease_view (at_site leased_site), lease_view terminated, lease_view ended) =
  ((Some (leased, None), active, [], []),
   (Some (releasing, Some "f1"), teardown_dispatch_pending, [], []),
   (Some (released, Some "f1"), torn_down, [], ["id2"])).
Proof. vm_compute. reflexivity. Qed.

(** ** The theorems *)

Lemma demo_notifier_lawful : lawful_notifier demo_notifier demo_told.
Proof.
  intros notify p x [= <-]. split.
  - intros j Hj. by apply list_elem_of_further.
  - intros _. apply list_elem_of_here.
Qed.

Lemma ended_leases_are_announced_witness :
  let s' := lease_history demo_env site_cfg demo_executor FulfillmentReleaseStatusPort demo_notifier
              None (λ _, "error") 300 [LcTerminate "id2" None VNone; LcCycle] (at_site leased_site) in
  (∀ i, terminal (committed (site s')) i →
     terminal (committed (site (at_site leased_site))) i ∨ i ∈ pending (outbox s') ∨
     demo_told (storefront s') i) ∧
  (∀ i, i ∈ pending (outbox (at_site leased_site)) → i ∈ pending (outbox s') ∨
     demo_told (storefront s') i) ∧
  outbox_sound demo_told s'.
Proof.
  apply (ended_leases_are_announced demo_env site_cfg demo_executor FulfillmentReleaseStatusPort
    demo_notifier None (λ _, "error") 300 demo_told [LcTerminate "id2" None VNone; LcCycle]
    (at_site leased_site)).
  - apply fulfillment_ports_lawful; [apply demo_notifier_lawful|]. intros m H. discriminate H.
  - split; [apply NoDup_nil_2|]. intros i (r & Hr & _). by apply not_elem_of_nil in Hr.
Defined.

(** The reservation as the lifecycle reads it. *)
Definition demo_reservation (w : world FDB) : reservation_payload :=
  match (get_reservation site_cfg "id2" w).1 with Ok (Some p) => p | _ => demo_payload end.



(** A lease releasing under a create still in flight, and the row it has. *)
Definition waiting_site : world FDB :=
  after demo_env site_cfg (CBeginReleasing "id2" (Some "f1") []) begun.2.

Definition waiting_row : CapacityReservation :=
  default settled_row (get_reservation_row "id2" (committed waiting_site)).

Lemma waiting_good : good (committed waiting_site).
Proof.
  split; [apply after_wf; [apply demo_clock|apply begun_good]|].
  apply (one_row_wf _ (row_of "id2" waiting_site)); [vm_compute; reflexivity|].
  intros _. split; vm_compute; discriminate.
Qed.

Lemma waiting_held : held_lease (committed waiting_site) "id2".
Proof.
  split; [discriminate|]. exists waiting_row. split; [vm_compute; reflexivity|].
  split; [vm_compute; reflexivity|]. vm_compute. discriminate.
Qed.

Lemma releasing_follows_progress_witness :
  let p := demo_reservation waiting_site in
  wp (_process_releasing_reservation demo_env site_cfg demo_executor FulfillmentReleaseStatusPort
        demo_notifier 300 p (DT 1800000000000000 0))
    (λ x s', processed no_jobs 300 (pl_capacity_reservation_id p) p (DT 1800000000000000 0) "f1"
               (committed (site (at_site waiting_site))) x (committed (site s')))
    (at_site waiting_site).
Proof.
  intros p. apply (releasing_follows_progress demo_env site_cfg demo_notifier no_jobs site_wired demo_providers
    demo_config 300 p (DT 1800000000000000 0) "f1" (at_site waiting_site)).
  - apply waiting_good.
  - assert (pl_capacity_reservation_id p = "id2") as -> by (vm_compute; reflexivity).
    apply waiting_held.
  - vm_compute. reflexivity.
Defined.

(** An executor that crashes on a teardown whose lease does not record it. *)
Definition records_teardown (f : string) (w : world FDB) : bool :=
  match get_reservation_row "id2" (committed w) with
  | Some r => bool_decide (res_state r = releasing) && bool_decide (release_job_id r = Some f)
  | None => false
  end.

Definition strict_executor : ReleaseExecutorPort FDB :=
  {| port_submit_release := port_submit_release demo_executor;
     port_begin_teardown f w :=
       if records_teardown f w then port_begin_teardown demo_executor f w
       else (Err (RuntimeError "unrecorded teardown"), w) |}.

Definition active_lease : lease_site := at_site leased_site.

Lemma teardown_begins_recorded_witness :
  _request_release demo_env site_cfg strict_executor demo_notifier (demo_reservation leased_site)
    (Some []) active_lease =
  _request_release demo_env site_cfg demo_executor demo_notifier (demo_reservation leased_site)
    (Some []) active_lease.
Proof.
  apply (teardown_begins_recorded demo_env site_cfg demo_notifier strict_executor demo_executor
    (demo_reservation leased_site) (Some []) active_lease).
  - intros q. reflexivity.
  - intros f w (r & Hr & Hs & Hj). simpl. unfold records_teardown.
    assert (pl_capacity_reservation_id (demo_reservation leased_site) = "id2") as Hid
      by (vm_compute; reflexivity).
    rewrite Hid in Hr. rewrite Hr, Hs, Hj, !bool_decide_eq_true_2 by reflexivity. reflexivity.
Defined.

(** A failure observed while the lease was still [leased] (its handle is none)
    lands on the release that has begun since under "f1". *)
Definition stale_failure : result lease_outcome * lease_site :=
  _mark_release_failed demo_env site_cfg "id2" "release_submit_error" (Some "timeout")
    (_handle_read (demo_reservation leased_site)) None terminated.

Example stale_failure_lands_on_newer_release :
  (stale_failure.1, (λ r, (res_state r, release_job_id r)) <$>
     get_reservation_row "id2" (committed (site stale_failure.2))) =
  (Ok o_release_failed, Some (release_failed, Some "f1")).
Proof. vm_compute. reflexivity. Qed.
